(** * GamerBox raffle manager: the data-sync context and the prize wheel

    A shallow embedding of [context/DataContext.tsx] (field-name transcoder,
    session state, registration, draw, raffle creation, image-carrying
    mutations), of the raffle-code input of [GerenciarSorteios] and of the
    [handleSpin] handlers of the two wheel pages, followed by the properties
    the specification states about them. *)

From Stdlib Require Import String Ascii List Bool Arith ZArith QArith Qround Qabs
  Qpower SpecFloat Lia Lqa.
Import ListNotations.

Set Warnings "-register-all".

Local Close Scope Q_scope.
Local Open Scope nat_scope.
Local Open Scope list_scope.
Local Open Scope string_scope.

(** ** Characters and strings

    Strings are sequences of 8-bit characters.  The regular expressions of the
    source ([/[A-Z]/], [/([-_][a-z])/]) are ASCII classes, and the case
    conversions of single characters below are applied to what these classes
    match: a letter of [A-Z] / [a-z]. *)

Module Char.

Definition code (c : ascii) : nat := nat_of_ascii c.

Definition is_upper (c : ascii) : bool := Nat.leb 65 (code c) && Nat.leb (code c) 90.
Definition is_lower (c : ascii) : bool := Nat.leb 97 (code c) && Nat.leb (code c) 122.
Definition is_digit (c : ascii) : bool := Nat.leb 48 (code c) && Nat.leb (code c) 57.

Definition underscore : ascii := "_"%char.
Definition hyphen : ascii := "-"%char.

(** The class [[-_]]. *)
Definition is_sep (c : ascii) : bool :=
  Ascii.eqb c hyphen || Ascii.eqb c underscore.

Definition toLower (c : ascii) : ascii :=
  if is_upper c then ascii_of_nat (code c + 32) else c.

Definition toUpper (c : ascii) : ascii :=
  if is_lower c then ascii_of_nat (code c - 32) else c.

End Char.

(** Every character of the string is an ASCII character. *)
Fixpoint within_ascii (s : string) : bool :=
  match s with
  | EmptyString => true
  | String c s' => Nat.ltb (Char.code c) 128 && within_ascii s'
  end.

(** The case conversions of a string within ASCII: the letters are
    converted, every other character is left as it is. *)
Fixpoint ascii_toLowerCase (s : string) : string :=
  match s with
  | EmptyString => EmptyString
  | String c s' => String (Char.toLower c) (ascii_toLowerCase s')
  end.

Fixpoint ascii_toUpperCase (s : string) : string :=
  match s with
  | EmptyString => EmptyString
  | String c s' => String (Char.toUpper c) (ascii_toUpperCase s')
  end.

(** [String.prototype.toLowerCase] / [toUpperCase] follow the Unicode case
    mappings.  What they give for a string that is not within ASCII is not
    fixed here: the two functions below stand for it, and what is proved
    holds whatever they are. *)
Class CaseMapping : Type :=
  { lower_beyond_ascii : string -> string;
    upper_beyond_ascii : string -> string }.

Definition toLowerCase `{CaseMapping} (s : string) : string :=
  if within_ascii s then ascii_toLowerCase s else lower_beyond_ascii s.

Definition toUpperCase `{CaseMapping} (s : string) : string :=
  if within_ascii s then ascii_toUpperCase s else upper_beyond_ascii s.

(** [str.replace(/([-_][a-z])/g, g => g.toUpperCase().replace('_', ''))]:
    the scan goes left to right over non-overlapping matches; a match
    ["_x"] becomes ["X"], a match ["-x"] becomes ["-X"] (only an underscore
    is removed from the upper-cased group). *)
Fixpoint snakeToCamel (str : string) : string :=
  match str with
  | EmptyString => EmptyString
  | String c rest =>
      match rest with
      | EmptyString => String c EmptyString
      | String d rest' =>
          if Char.is_sep c && Char.is_lower d then
            if Ascii.eqb c Char.underscore
            then String (Char.toUpper d) (snakeToCamel rest')
            else String c (String (Char.toUpper d) (snakeToCamel rest'))
          else String c (snakeToCamel rest)
      end
  end.

(** [str.replace(/[A-Z]/g, letter => `_${letter.toLowerCase()}`)]. *)
Fixpoint camelToSnake (str : string) : string :=
  match str with
  | EmptyString => EmptyString
  | String c rest =>
      if Char.is_upper c
      then String Char.underscore (String (Char.toLower c) (camelToSnake rest))
      else String c (camelToSnake rest)
  end.

(** ** Values

    The values the transcoder walks.  The constructor of a value records the
    outcome of the source's run-time tests: [VArr] is a value on which
    [Array.isArray] holds, [VObj] a value on which
    [obj !== null && obj.constructor === Object] holds (a plain mapping), and
    every other constructor is a leaf that both transcoders return as it is
    ([null], a boolean, a number, a string, or an object on which the test
    fails: the [File] of an image field, or any other such object, for
    instance one with a field of its own called [constructor], which hides
    the inherited one).  A mapping lists its entries in [Object.keys]
    order, its field names are ordinary property names (not [__proto__]),
    and no key occurs twice in it ([wf_value]).  Numeric leaves are carried as integers; no function below
    looks inside one.  [undefined] is not among the values: a field that is
    absent is absent from its mapping, and [obj_get] finds nothing. *)

Inductive value : Type :=
| VNull
| VBool (b : bool)
| VNum (n : Z)
| VStr (s : string)
| VFile (name : string)
| VOther (tag : string)
| VArr (vs : list value)
| VObj (kvs : list (string * value)).

Definition keys (o : list (string * value)) : list string := map fst o.

(** [o[k]]. *)
Fixpoint obj_get (k : string) (o : list (string * value)) : option value :=
  match o with
  | [] => None
  | (k', v') :: o' => if String.eqb k' k then Some v' else obj_get k o'
  end.

(** [o[k] = v], also [{...o, [k]: v}]: an existing key keeps its place and
    takes the new value, a new key goes last. *)
Fixpoint obj_set (k : string) (v : value) (o : list (string * value))
  : list (string * value) :=
  match o with
  | [] => [(k, v)]
  | (k', v') :: o' =>
      if String.eqb k' k then (k', v) :: o' else (k', v') :: obj_set k v o'
  end.

(** [delete o[k]]. *)
Fixpoint obj_delete (k : string) (o : list (string * value))
  : list (string * value) :=
  match o with
  | [] => []
  | (k', v') :: o' =>
      if String.eqb k' k then o' else (k', v') :: obj_delete k o'
  end.

(** The keys [toSnake] leaves alone. *)
Definition is_sentinel (key : string) : bool :=
  String.eqb key "password" || String.eqb key "confirmPassword".

Fixpoint toCamel (obj : value) : value :=
  match obj with
  | VArr vs => VArr (map toCamel vs)
  | VObj kvs =>
      VObj (fold_left
              (fun result kv =>
                 obj_set (snakeToCamel (fst kv)) (toCamel (snd kv)) result)
              kvs [])
  | _ => obj
  end.

Fixpoint toSnake (obj : value) : value :=
  match obj with
  | VArr vs => VArr (map toSnake vs)
  | VObj kvs =>
      VObj (fold_left
              (fun result kv =>
                 if is_sentinel (fst kv)
                 then obj_set (fst kv) (snd kv) result
                 else obj_set (camelToSnake (fst kv)) (toSnake (snd kv)) result)
              kvs [])
  | _ => obj
  end.

(** JavaScript truthiness of a field that may be missing. *)
Definition truthy (v : option value) : bool :=
  match v with
  | None | Some VNull => false
  | Some (VBool b) => b
  | Some (VNum n) => negb (Z.eqb n 0)
  | Some (VStr s) => negb (String.eqb s "")
  | Some (VFile _) | Some (VOther _) | Some (VArr _) | Some (VObj _) => true
  end.

(** [v instanceof File]. *)
Definition is_file (v : option value) : bool :=
  match v with
  | Some (VFile _) => true
  | _ => false
  end.

(** Truthiness of a string that may be missing ([id?: string]). *)
Definition truthy_str (s : option string) : bool :=
  match s with
  | None => false
  | Some s => negb (String.eqb s "")
  end.

(** ** Results *)

(** [{ success, message }]. *)
Record Result : Type := { success : bool; message : string }.

Definition failure (msg : string) : Result := {| success := false; message := msg |}.
Definition succeeded (msg : string) : Result := {| success := true; message := msg |}.

(** What a call does: it returns, or it raises (a [TypeError] on reading a
    property of [undefined]). *)
Inductive outcome (A : Type) : Type :=
| Returned (a : A)
| Threw.

Arguments Returned {A} a.
Arguments Threw {A}.

(** The double quote inside a message. *)
Definition dquote : string := String (ascii_of_nat 34) EmptyString.

(** ** Session state *)

(** Modelled from the spec: the declaration of [Organizer] in [types.ts] is
    not among the sources.  The fields are those the data model of the
    specification lists for an organizer, under the names the context
    reads ([id], [organizerCode]) or writes. *)
Module Organizer.
Record t : Type :=
  { id : string; name : string; responsibleName : string; email : string;
    phone : string; photoUrl : string; organizerCode : string }.
End Organizer.

(** Modelled from the spec: the declaration of [Collaborator] in [types.ts]
    is not among the sources.  The fields are those of the data model of the
    specification; the context reads [companyId]. *)
Module Collaborator.
Record t : Type :=
  { id : string; name : string; companyId : string; code : string;
    photoUrl : string }.
End Collaborator.

(** The six values kept by [useStickyState]. *)
Record Session : Type :=
  { loggedInOrganizer : option Organizer.t;
    loggedInCollaborator : option Collaborator.t;
    selectedEventId : option string;
    selectedRaffleId : option string;
    isSuperAdmin : bool;
    impersonatingFromAdmin : bool }.

Definition setLoggedInOrganizer (o : option Organizer.t) (s : Session) : Session :=
  {| loggedInOrganizer := o;
     loggedInCollaborator := loggedInCollaborator s;
     selectedEventId := selectedEventId s;
     selectedRaffleId := selectedRaffleId s;
     isSuperAdmin := isSuperAdmin s;
     impersonatingFromAdmin := impersonatingFromAdmin s |}.

Definition setLoggedInCollaborator (c : option Collaborator.t) (s : Session) : Session :=
  {| loggedInOrganizer := loggedInOrganizer s;
     loggedInCollaborator := c;
     selectedEventId := selectedEventId s;
     selectedRaffleId := selectedRaffleId s;
     isSuperAdmin := isSuperAdmin s;
     impersonatingFromAdmin := impersonatingFromAdmin s |}.

Definition setSelectedEventId (e : option string) (s : Session) : Session :=
  {| loggedInOrganizer := loggedInOrganizer s;
     loggedInCollaborator := loggedInCollaborator s;
     selectedEventId := e;
     selectedRaffleId := selectedRaffleId s;
     isSuperAdmin := isSuperAdmin s;
     impersonatingFromAdmin := impersonatingFromAdmin s |}.

Definition setSelectedRaffleId (r : option string) (s : Session) : Session :=
  {| loggedInOrganizer := loggedInOrganizer s;
     loggedInCollaborator := loggedInCollaborator s;
     selectedEventId := selectedEventId s;
     selectedRaffleId := r;
     isSuperAdmin := isSuperAdmin s;
     impersonatingFromAdmin := impersonatingFromAdmin s |}.

Definition setIsSuperAdmin (b : bool) (s : Session) : Session :=
  {| loggedInOrganizer := loggedInOrganizer s;
     loggedInCollaborator := loggedInCollaborator s;
     selectedEventId := selectedEventId s;
     selectedRaffleId := selectedRaffleId s;
     isSuperAdmin := b;
     impersonatingFromAdmin := impersonatingFromAdmin s |}.

Definition setImpersonatingFromAdmin (b : bool) (s : Session) : Session :=
  {| loggedInOrganizer := loggedInOrganizer s;
     loggedInCollaborator := loggedInCollaborator s;
     selectedEventId := selectedEventId s;
     selectedRaffleId := selectedRaffleId s;
     isSuperAdmin := isSuperAdmin s;
     impersonatingFromAdmin := b |}.

Definition logout (s : Session) : Session :=
  setSelectedRaffleId None (setSelectedEventId None (setLoggedInOrganizer None s)).

Definition logoutSuperAdmin (s : Session) : Session := setIsSuperAdmin false s.

Definition logoutCollaborator (s : Session) : Session := setLoggedInCollaborator None s.

Definition stopImpersonating (s : Session) : Session :=
  logout (setImpersonatingFromAdmin false s).

(** The [loggedInOrganizer] field of the context value handed to consumers. *)
Definition value_loggedInOrganizer (s : Session) : option Organizer.t :=
  if impersonatingFromAdmin s then loggedInOrganizer s
  else if isSuperAdmin s then None else loggedInOrganizer s.

(** ** The remote store

    The tables the context reaches through the query client, each the list of
    its rows in the order the store returns them.  The store is a service
    outside the repository; what is modelled of it is what the calls of the
    context rely on.  A read is a function of the table: [.eq] keeps the rows
    whose column equals the argument exactly, [.single()] and
    [.maybeSingle()] hand back a row when exactly one row is left.  A write
    is answered by the store: besides the rows, the calls below take the
    store's answer to each write whose [error] the source tests (the
    identifier given to a new row, and the error message when the write is
    refused).  The re-fetch of the mirror that follows a write is started
    and not awaited by the operations; it is not part of what they return
    and is left out. *)

(** Modelled from the spec: the declaration of [Raffle] in [types.ts] is not
    among the sources.  A row of [raffles], with the columns the context
    names in its queries ([id], [name], [quantity], [code], [event_id]).
    The mirror holds the same rows under camel-cased names; the one field
    the operations below read from a mirrored raffle is [id]. *)
Module Raffle.
Record t : Type :=
  { id : string; name : string; quantity : Z; code : string; event_id : string }.
End Raffle.

(** Modelled from the spec: the declaration of [Event] in [types.ts] is not
    among the sources.  A row of [events], with the columns of the event
    payloads of the context. *)
Module Event.
Record t : Type :=
  { id : string; name : string; date : string; details : option string;
    banner_url : option string; organizer_id : string }.
End Event.

(** Modelled from the spec: the declaration of [Participant] in [types.ts]
    is not among the sources.  A row of [participants], with the columns the
    context names ([id], [raffle_id], [email], [is_winner], [drawn_at]) and
    the remaining fields of the data model of the specification. *)
Module Participant.
Record t : Type :=
  { id : string; raffle_id : string; name : string; email : string;
    phone : string; is_winner : bool; drawn_at : option string }.

(** The row as the client receives it. *)
Definition to_row (p : t) : value :=
  VObj [("id", VStr (id p)); ("raffle_id", VStr (raffle_id p));
        ("name", VStr (name p)); ("email", VStr (email p));
        ("phone", VStr (phone p)); ("is_winner", VBool (is_winner p));
        ("drawn_at", match drawn_at p with Some d => VStr d | None => VNull end)].

(** The row the store makes of an insert payload; a payload that lacks one
    of the columns, or gives it a value of another type, makes no row. *)
Definition of_payload (new_id : string) (payload : value) : option t :=
  match payload with
  | VObj o =>
      match obj_get "raffle_id" o, obj_get "name" o, obj_get "email" o,
            obj_get "phone" o, obj_get "is_winner" o with
      | Some (VStr r), Some (VStr n), Some (VStr e), Some (VStr ph), Some (VBool w) =>
          Some {| id := new_id; raffle_id := r; name := n; email := e;
                  phone := ph; is_winner := w; drawn_at := None |}
      | _, _, _, _, _ => None
      end
  | _ => None
  end.

(** The effect of [update({ is_winner: true, drawn_at: now })] on a row. *)
Definition won (now : string) (p : t) : t :=
  {| id := id p; raffle_id := raffle_id p; name := name p; email := email p;
     phone := phone p; is_winner := true; drawn_at := Some now |}.
End Participant.

(** A table whose rows the context writes as untyped field bags: the row's
    identifier and its columns. *)
Definition bag_table : Type := list (string * list (string * value)).

Module Db.
Record t : Type :=
  { raffles : list Raffle.t;
    participants : list Participant.t;
    events : list Event.t;
    organizers : bag_table;
    companies : bag_table;
    collaborators : bag_table }.

Definition with_raffles (x : list Raffle.t) (db : t) : t :=
  {| raffles := x; participants := participants db; events := events db;
     organizers := organizers db; companies := companies db;
     collaborators := collaborators db |}.

Definition with_participants (x : list Participant.t) (db : t) : t :=
  {| raffles := raffles db; participants := x; events := events db;
     organizers := organizers db; companies := companies db;
     collaborators := collaborators db |}.

Definition with_events (x : list Event.t) (db : t) : t :=
  {| raffles := raffles db; participants := participants db; events := x;
     organizers := organizers db; companies := companies db;
     collaborators := collaborators db |}.

Definition with_organizers (x : bag_table) (db : t) : t :=
  {| raffles := raffles db; participants := participants db; events := events db;
     organizers := x; companies := companies db;
     collaborators := collaborators db |}.

Definition with_companies (x : bag_table) (db : t) : t :=
  {| raffles := raffles db; participants := participants db; events := events db;
     organizers := organizers db; companies := x;
     collaborators := collaborators db |}.

Definition with_collaborators (x : bag_table) (db : t) : t :=
  {| raffles := raffles db; participants := participants db; events := events db;
     organizers := organizers db; companies := companies db;
     collaborators := x |}.
End Db.

(** [.single()]: the row when exactly one row matches, no data otherwise. *)
Definition single {A : Type} (rows : list A) : option A :=
  match rows with
  | [x] => Some x
  | _ => None
  end.

(** [.maybeSingle()]: the same data as [.single()]; the two differ in the
    error reported for no row, which no caller below reads. *)
Definition maybeSingle {A : Type} (rows : list A) : option A := single rows.

(** The store's answer to an insert. *)
Record InsertReply : Type := { new_id : string; fault : option string }.

(** [.insert(row)]: refused when the store says so, or when the identifier
    is taken; otherwise the row goes last. *)
Definition insert_row {A : Type} (id_of : A -> string) (flt : option string)
  (row : A) (table : list A) : string + list A :=
  match flt with
  | Some e => inl e
  | None =>
      if existsb (fun x => String.eqb (id_of x) (id_of row)) table
      then inl "duplicate key value violates unique constraint"
      else inr (table ++ [row])%list
  end.

Definition insert_participant (reply : InsertReply) (payload : value)
  (table : list Participant.t) : string + list Participant.t :=
  match Participant.of_payload (new_id reply) payload with
  | None => inl "invalid input for table participants"
  | Some row => insert_row Participant.id (fault reply) row table
  end.

(** [.update({ is_winner: true, drawn_at: now }).eq('id', i).select().single()]:
    the table after the update and the data handed back. *)
Definition update_winner (flt : option string) (i now : string)
  (table : list Participant.t) : list Participant.t * option Participant.t :=
  match flt with
  | Some _ => (table, None)
  | None =>
      let table' :=
        map (fun p => if String.eqb (Participant.id p) i
                      then Participant.won now p else p) table in
      (table', single (filter (fun p => String.eqb (Participant.id p) i) table'))
  end.

(** [{ ...row, ...payload }], column by column. *)
Definition obj_merge (row payload : list (string * value)) : list (string * value) :=
  fold_left (fun acc kv => obj_set (fst kv) (snd kv) acc) payload row.

Definition insert_bag (reply : InsertReply) (payload : list (string * value))
  (table : bag_table) : string + bag_table :=
  insert_row fst (fault reply) (new_id reply, payload) table.

(** [.update(payload).eq('id', i)]. *)
Definition update_bag (flt : option string) (i : string)
  (payload : list (string * value)) (table : bag_table) : string + bag_table :=
  match flt with
  | Some e => inl e
  | None =>
      inr (map (fun row => if String.eqb (fst row) i
                           then (fst row, obj_merge (snd row) payload)
                           else row) table)
  end.

(** ** The data context *)

(** The state of [DataProvider] the operations below close over: the
    mirrored [events] and [raffles] and the session. *)
Module Client.
Record t : Type :=
  { events : list Event.t; raffles : list Raffle.t; session : Session }.
End Client.

(** [events.find(e => e.id === selectedEventId) ?? null]. *)
Definition selectedEvent (c : Client.t) : option Event.t :=
  match selectedEventId (Client.session c) with
  | None => None
  | Some i => find (fun e => String.eqb (Event.id e) i) (Client.events c)
  end.

(** [raffles.find(r => r.id === selectedRaffleId) ?? null]. *)
Definition selectedRaffle (c : Client.t) : option Raffle.t :=
  match selectedRaffleId (Client.session c) with
  | None => None
  | Some i => find (fun r => String.eqb (Raffle.id r) i) (Client.raffles c)
  end.

(** Modelled from the spec: [Omit<Participant, 'id' | 'isWinner'>], with
    [Participant] of [types.ts] not among the sources; the fields are the
    four the specification gives to [addParticipant]. *)
Record ParticipantData : Type :=
  { raffleId : string; name : string; email : string; phone : string }.

(** [{ ...participantData, isWinner: false }]. *)
Definition participant_payload (participantData : ParticipantData) : value :=
  VObj [("raffleId", VStr (raffleId participantData));
        ("name", VStr (name participantData));
        ("email", VStr (email participantData));
        ("phone", VStr (phone participantData));
        ("isWinner", VBool false)].

(** The three reads of [addParticipant]. *)
Definition raffles_by_id (db : Db.t) (i : string) : list Raffle.t :=
  filter (fun r => String.eqb (Raffle.id r) i) (Db.raffles db).

Definition entries_by_email (db : Db.t) (mail i : string) : list Participant.t :=
  filter (fun p => String.eqb (Participant.email p) mail
                   && String.eqb (Participant.raffle_id p) i)
         (Db.participants db).

Definition winners_of (db : Db.t) (i : string) : list Participant.t :=
  filter (fun p => String.eqb (Participant.raffle_id p) i
                   && Bool.eqb (Participant.is_winner p) true)
         (Db.participants db).

Definition not_found_message : string := "Sorteio não encontrado.".
Definition duplicate_email_message : string :=
  "Este e-mail já está cadastrado neste sorteio.".
Definition ceiling_message (raffle_name : string) : string :=
  "O sorteio para " ++ dquote ++ raffle_name ++ dquote
  ++ " já atingiu o limite de ganhadores.".
Definition registered_message : string := "Cadastro realizado com sucesso!".

Definition addParticipant `{CaseMapping} (db : Db.t) (reply : InsertReply)
  (participantData : ParticipantData) : Db.t * Result :=
  match single (raffles_by_id db (raffleId participantData)) with
  | None => (db, failure not_found_message)
  | Some raffle =>
      match maybeSingle (entries_by_email db (toLowerCase (email participantData))
                           (raffleId participantData)) with
      | Some _ => (db, failure duplicate_email_message)
      | None =>
          let winnerCount := length (winners_of db (raffleId participantData)) in
          if (Raffle.quantity raffle <=? Z.of_nat winnerCount)%Z
          then (db, failure (ceiling_message (Raffle.name raffle)))
          else
            match insert_participant reply
                    (toSnake (participant_payload participantData))
                    (Db.participants db) with
            | inl e => (db, failure ("Erro ao cadastrar: " ++ e))
            | inr table => (Db.with_participants table db, succeeded registered_message)
            end
      end
  end.

(** *** Double-precision numbers

    A number of the program is an IEEE 754 double; it is modelled by the
    rational it denotes.  [Math.random() * length] is the product rounded
    to the nearest double, ties to the even significand. *)

(** The doubles: [m * 2^e] with a significand of at most 53 bits. *)
Definition double (q : Q) : Prop :=
  exists m e : Z,
    (q == inject_Z m * 2 ^ e)%Q /\ (Z.abs m < 2 ^ 53)%Z /\ (-1074 <= e <= 971)%Z.

(** [floor(log2 q)], for [0 < q]. *)
Definition binade (q : Q) : Z :=
  let e := (Z.log2 (Qnum q) - Z.log2 (Zpos (Qden q)))%Z in
  if Qle_bool (2 ^ e) q then e else (e - 1)%Z.

(** The unit in the last place of the doubles around [q]: 53 bits from the
    leading one, and no finer than [2^-1074] (the subnormal numbers). *)
Definition ulp (q : Q) : Q := (2 ^ Z.max (binade (Qabs q) - 52) (-1074))%Q.

(** The nearest integer, the even one of the two when half-way. *)
Definition round_half_even (t : Q) : Z :=
  let f := Qfloor t in
  match Qcompare (t - inject_Z f) (1 # 2) with
  | Lt => f
  | Gt => (f + 1)%Z
  | Eq => if Z.even f then f else (f + 1)%Z
  end.

(** The double nearest to [q] (for a magnitude below the overflow
    threshold [2^1024], which a product of a value below 1 and the length
    of an array does not reach). *)
Definition round_double (q : Q) : Q :=
  if Qeq_bool q 0 then 0%Q
  else (inject_Z (round_half_even (q / ulp q)) * ulp q)%Q.

(** The rational a finite floating-point datum of the Standard Library's
    specification of IEEE 754 denotes. *)
Definition SF2Q (f : spec_float) : option Q :=
  match f with
  | S754_zero _ => Some 0%Q
  | S754_finite s m e =>
      Some ((if s then -1 else 1) * inject_Z (Z.pos m) * 2 ^ e)%Q
  | _ => None
  end.

(** [Math.floor(r * n)], for the value [r] drawn by [Math.random()] and the
    length [n] of an array (an integer below [2^32], which is a double). *)
Definition random_index (r : Q) (n : nat) : Z :=
  Qfloor (round_double (r * inject_Z (Z.of_nat n))).

(** [arr[i]]: [undefined] outside the array. *)
Definition arr_get {A : Type} (arr : list A) (i : Z) : option A :=
  if (i <? 0)%Z then None else nth_error arr (Z.to_nat i).

Definition eligible_of (db : Db.t) (i : string) : list Participant.t :=
  filter (fun p => String.eqb (Participant.raffle_id p) i
                   && Bool.eqb (Participant.is_winner p) false)
         (Db.participants db).

Definition drawWinner (c : Client.t) (db : Db.t) (r : Q) (now : string)
  (flt : option string) : Db.t * outcome (option value) :=
  match selectedRaffle c with
  | None => (db, Returned None)
  | Some raffle =>
      let eligible := eligible_of db (Raffle.id raffle) in
      if Nat.eqb (length eligible) 0 then (db, Returned None)
      else
        match arr_get eligible (random_index r (length eligible)) with
        | None => (db, Threw)
        | Some winnerData =>
            let '(table, updatedWinner) :=
              update_winner flt (Participant.id winnerData) now (Db.participants db) in
            match updatedWinner with
            | None => (Db.with_participants table db, Returned None)
            | Some u =>
                (Db.with_participants table db,
                 Returned (Some (toCamel (Participant.to_row u))))
            end
        end
  end.

(** [getEligibleParticipantCount], over the mirrored participants. *)
Definition getEligibleParticipantCount (c : Client.t)
  (participants : list Participant.t) : nat :=
  match selectedRaffle c with
  | None => 0
  | Some raffle =>
      length (filter (fun p => String.eqb (Participant.raffle_id p) (Raffle.id raffle)
                               && negb (Participant.is_winner p)) participants)
  end.

(** The argument of [createEventWithRaffle]. *)
Record RaffleForm : Type :=
  { eventName : string; raffleName : string; raffleQuantity : Z;
    raffleCode : string }.

Definition fullRaffleCode (org : Organizer.t) (data : RaffleForm) : string :=
  Organizer.organizerCode org ++ raffleCode data.

Definition not_logged_in_message : string := "Organizador não está logado.".
Definition duplicate_code_message : string := "Este código de sorteio já está em uso.".
Definition raffle_added_message (raffle_name : string) : string :=
  "Sorteio " ++ dquote ++ raffle_name ++ dquote ++ " adicionado!".

Definition raffles_by_code (db : Db.t) (code : string) : list Raffle.t :=
  filter (fun r => String.eqb (Raffle.code r) code) (Db.raffles db).

Definition createEventWithRaffle (c : Client.t) (db : Db.t) (now : string)
  (eventReply raffleReply : InsertReply) (data : RaffleForm) : Db.t * Result :=
  match loggedInOrganizer (Client.session c) with
  | None => (db, failure not_logged_in_message)
  | Some org =>
      let eventId := option_map Event.id (selectedEvent c) in
      let inserted : string + Db.t * string :=
        match insert_row Event.id (fault eventReply)
                {| Event.id := new_id eventReply; Event.name := eventName data;
                   Event.date := now; Event.details := None;
                   Event.banner_url := None;
                   Event.organizer_id := Organizer.id org |}
                (Db.events db) with
        | inl e => inl e
        | inr table => inr (Db.with_events table db, new_id eventReply)
        end in
      let created : string + Db.t * string :=
        match eventId with
        | Some i => if truthy_str eventId then inr (db, i) else inserted
        | None => inserted
        end in
      match created with
      | inl e => (db, failure ("Erro ao criar evento: " ++ e))
      | inr (db1, i) =>
          match maybeSingle (raffles_by_code db1 (fullRaffleCode org data)) with
          | Some _ => (db1, failure duplicate_code_message)
          | None =>
              match insert_row Raffle.id (fault raffleReply)
                      {| Raffle.id := new_id raffleReply;
                         Raffle.name := raffleName data;
                         Raffle.quantity := raffleQuantity data;
                         Raffle.code := fullRaffleCode org data;
                         Raffle.event_id := i |}
                      (Db.raffles db1) with
              | inl e => (db1, failure ("Erro ao criar sorteio: " ++ e))
              | inr table =>
                  (Db.with_raffles table db1,
                   succeeded (raffle_added_message (raffleName data)))
              end
          end
      end
  end.

(** The form of the raffle page: its raffle-code input and its submit
    handler (the fields are the argument it passes on). *)
Module GerenciarSorteios.

Definition with_raffleCode (code : string) (form : RaffleForm) : RaffleForm :=
  {| eventName := eventName form; raffleName := raffleName form;
     raffleQuantity := raffleQuantity form; raffleCode := code |}.

(** [onChange={(e) => setRaffleCode(e.target.value.toUpperCase())}]. *)
Definition onRaffleCodeChange `{CaseMapping} (typed : string) (form : RaffleForm)
  : RaffleForm :=
  with_raffleCode (toUpperCase typed) form.

Definition required_message : string :=
  "Por favor, preencha todos os campos obrigatórios.".

Definition handleSubmit (c : Client.t) (db : Db.t) (now : string)
  (eventReply raffleReply : InsertReply) (form : RaffleForm) : Db.t * Result :=
  if String.eqb (eventName form) "" || String.eqb (raffleName form) ""
     || String.eqb (raffleCode form) "" || (raffleQuantity form <? 1)%Z
  then (db, failure required_message)
  else createEventWithRaffle c db now eventReply raffleReply form.

End GerenciarSorteios.

(** ** Mutations that carry an image *)

Definition DEFAULT_IMAGE_URL : string :=
  "https://aisfizoyfpcisykarrnt.supabase.co/storage/v1/object/public/prospectaifeedback/WhatsApp%20Image%202025-09-12%20at%2000.14.26.jpeg".

(** [uploadImage(file)]: [storage] is what the object storage answers, the
    public URL of the stored file, or nothing when the upload is refused. *)
Definition uploadImage (storage : option string) (file : option value) : option string :=
  if truthy file then storage else None.

Definition obj_of (v : value) : list (string * value) :=
  match v with
  | VObj o => o
  | _ => []
  end.

Definition upload_failed_message : string := "Falha no upload da foto.".

Definition saveOrganizer (db : Db.t) (storage : option string) (reply : InsertReply)
  (organizerData : list (string * value)) (id : option string) : Db.t * Result :=
  let dataToSave := organizerData in
  let photo := obj_get "photoUrl" dataToSave in
  let prepared : option (list (string * value)) :=
    if truthy photo && is_file photo then
      let newUrl := uploadImage storage photo in
      match newUrl with
      | Some u =>
          if truthy_str newUrl then Some (obj_set "photoUrl" (VStr u) dataToSave)
          else None
      | None => None
      end
    else if negb (truthy_str id) && negb (truthy photo)
         then Some (obj_set "photoUrl" (VStr DEFAULT_IMAGE_URL) dataToSave)
         else Some dataToSave in
  match prepared with
  | None => (db, failure upload_failed_message)
  | Some dataToSave =>
      let dataToSave :=
        match obj_get "password" dataToSave with
        | Some pw =>
            if truthy (Some pw) then obj_set "password_hash" pw dataToSave
            else dataToSave
        | None => dataToSave
        end in
      let dataToSave := obj_delete "password" dataToSave in
      let snakeData := obj_of (toSnake (VObj dataToSave)) in
      let snakeData :=
        if truthy_str id && negb (truthy (obj_get "password_hash" snakeData))
        then obj_delete "password_hash" snakeData else snakeData in
      let result :=
        match id with
        | Some i =>
            if truthy_str id
            then update_bag (fault reply) i snakeData (Db.organizers db)
            else insert_bag reply snakeData (Db.organizers db)
        | None => insert_bag reply snakeData (Db.organizers db)
        end in
      match result with
      | inl e => (db, failure e)
      | inr table =>
          (Db.with_organizers table db,
           succeeded ("Organizador "
                      ++ (if truthy_str id then "atualizado" else "criado")
                      ++ " com sucesso!"))
      end
  end.

(** [saveCompany] returns nothing; the store after the call is its effect. *)
Definition saveCompany (c : Client.t) (db : Db.t) (storage : option string)
  (reply : InsertReply) (companyData : list (string * value))
  (id : option string) : Db.t :=
  match selectedEvent c with
  | None => db
  | Some ev =>
      let dataToSave := companyData in
      let logo := obj_get "logoUrl" dataToSave in
      let dataToSave :=
        if truthy logo && is_file logo then
          match uploadImage storage logo with
          | Some u => obj_set "logoUrl" (VStr u) dataToSave
          | None => obj_set "logoUrl" VNull dataToSave
          end
        else dataToSave in
      let dataToSave :=
        if negb (truthy (obj_get "logoUrl" dataToSave))
        then obj_set "logoUrl" (VStr DEFAULT_IMAGE_URL) dataToSave
        else dataToSave in
      let payload :=
        obj_set "event_id" (VStr (Event.id ev)) (obj_of (toSnake (VObj dataToSave))) in
      let result :=
        match id with
        | Some i =>
            if truthy_str id
            then update_bag (fault reply) i payload (Db.companies db)
            else insert_bag reply payload (Db.companies db)
        | None => insert_bag reply payload (Db.companies db)
        end in
      match result with
      | inl _ => db
      | inr table => Db.with_companies table db
      end
  end.

Definition addCollaborator (db : Db.t) (storage : option string)
  (reply : InsertReply) (companyId : string)
  (collaboratorData : list (string * value)) : Db.t :=
  let dataToSave := collaboratorData in
  let photo := obj_get "photoUrl" dataToSave in
  let dataToSave :=
    if truthy photo && is_file photo then
      match uploadImage storage photo with
      | Some u => obj_set "photoUrl" (VStr u) dataToSave
      | None => obj_set "photoUrl" VNull dataToSave
      end
    else dataToSave in
  let dataToSave :=
    if negb (truthy (obj_get "photoUrl" dataToSave))
    then obj_set "photoUrl" (VStr DEFAULT_IMAGE_URL) dataToSave
    else dataToSave in
  let payload :=
    obj_set "company_id" (VStr companyId) (obj_of (toSnake (VObj dataToSave))) in
  match insert_bag reply payload (Db.collaborators db) with
  | inl _ => db
  | inr table => Db.with_collaborators table db
  end.

Definition updateCollaborator (db : Db.t) (storage : option string)
  (flt : option string) (id : string)
  (collaboratorData : list (string * value)) : Db.t :=
  let dataToSave := collaboratorData in
  let photo := obj_get "photoUrl" dataToSave in
  let dataToSave :=
    if truthy photo && is_file photo then
      match uploadImage storage photo with
      | Some u => obj_set "photoUrl" (VStr u) dataToSave
      | None => obj_set "photoUrl" VNull dataToSave
      end
    else dataToSave in
  let dataToSave :=
    if negb (truthy (obj_get "photoUrl" dataToSave))
    then obj_set "photoUrl" (VStr DEFAULT_IMAGE_URL) dataToSave
    else dataToSave in
  match update_bag flt id (obj_of (toSnake (VObj dataToSave))) (Db.collaborators db) with
  | inl _ => db
  | inr table => Db.with_collaborators table db
  end.

(** The row the store makes of an event payload; a field the payload leaves
    [undefined] is not sent, and the column is empty. *)
Definition event_of_payload (new_id : string) (payload : list (string * value))
  : option Event.t :=
  let text (k : string) : option (option string) :=
    match obj_get k payload with
    | Some (VStr s) => Some (Some s)
    | Some VNull | None => Some None
    | Some _ => None
    end in
  match text "name", text "date", text "details", text "banner_url",
        text "organizer_id" with
  | Some (Some n), Some (Some d), Some details, Some banner, Some (Some o) =>
      Some {| Event.id := new_id; Event.name := n; Event.date := d;
              Event.details := details; Event.banner_url := banner;
              Event.organizer_id := o |}
  | _, _, _, _, _ => None
  end.

(** The effect of [update(payload)] on an event row: the columns the
    payload gives take its values. *)
Definition event_updated (payload : list (string * value)) (row : Event.t) : Event.t :=
  {| Event.id := Event.id row;
     Event.name :=
       match obj_get "name" payload with
       | Some (VStr x) => x
       | _ => Event.name row
       end;
     Event.date :=
       match obj_get "date" payload with
       | Some (VStr x) => x
       | _ => Event.date row
       end;
     Event.details :=
       match obj_get "details" payload with
       | Some (VStr x) => Some x
       | Some VNull => None
       | _ => Event.details row
       end;
     Event.banner_url :=
       match obj_get "banner_url" payload with
       | Some (VStr x) => Some x
       | Some VNull => None
       | _ => Event.banner_url row
       end;
     Event.organizer_id :=
       match obj_get "organizer_id" payload with
       | Some (VStr x) => x
       | _ => Event.organizer_id row
       end |}.

(** [{ ...d, k: v }] for a value that may be [undefined]. *)
Definition obj_set_opt (k : string) (v : option value) (o : list (string * value))
  : list (string * value) :=
  match v with
  | Some x => obj_set k x o
  | None => o
  end.

Definition organizer_upload_failed_message : string :=
  "Falha no upload da foto do organizador.".
Definition banner_upload_failed_message : string := "Falha no upload do banner.".

(** [saveEvent].  [photoStorage] and [bannerStorage] are the answers of the
    object storage to the two uploads, [organizerReply] and [eventReply]
    those of the store to the two writes.  The organizer payload is handed
    to [toSnake] field by field; a field the form leaves [undefined] makes
    [toSnake] raise. *)
Definition saveEvent (db : Db.t) (photoStorage bannerStorage : option string)
  (organizerReply eventReply : InsertReply)
  (formData : list (string * value)) (id : option string)
  : Db.t * outcome Result :=
  let finalFormData := formData in
  let organizerId := obj_get "existingOrganizerId" finalFormData in
  let is_new :=
    negb (truthy_str id)
    && match obj_get "organizerType" finalFormData with
       | Some (VStr t) => String.eqb t "new"
       | _ => false
       end in
  let organizer_step
    : Db.t * (outcome Result + list (string * value) * option value) :=
    if is_new then
      let photo := obj_get "newOrganizerPhotoUrl" finalFormData in
      let prepared : option (list (string * value)) :=
        if truthy photo && is_file photo then
          let publicUrl := uploadImage photoStorage photo in
          match publicUrl with
          | Some u =>
              if truthy_str publicUrl
              then Some (obj_set "newOrganizerPhotoUrl" (VStr u) finalFormData)
              else None
          | None => None
          end
        else if negb (truthy photo)
             then Some (obj_set "newOrganizerPhotoUrl" (VStr DEFAULT_IMAGE_URL)
                          finalFormData)
             else Some finalFormData in
      match prepared with
      | None => (db, inl (Returned (failure organizer_upload_failed_message)))
      | Some finalFormData =>
          match obj_get "newOrganizerName" finalFormData,
                obj_get "newOrganizerResponsible" finalFormData,
                obj_get "newOrganizerEmail" finalFormData,
                obj_get "newOrganizerPhone" finalFormData,
                obj_get "newOrganizerPhotoUrl" finalFormData,
                obj_get "newOrganizerPassword" finalFormData with
          | Some n, Some r, Some e, Some ph, Some url, Some pw =>
              match insert_bag organizerReply
                      (obj_of (toSnake (VObj [("name", n); ("responsibleName", r);
                                              ("email", e); ("phone", ph);
                                              ("photoUrl", url);
                                              ("organizerCode", VStr "");
                                              ("password_hash", pw)])))
                      (Db.organizers db) with
              | inl e => (db, inl (Returned (failure e)))
              | inr table =>
                  (Db.with_organizers table db,
                   inr (finalFormData, Some (VStr (new_id organizerReply))))
              end
          | _, _, _, _, _, _ => (db, inl Threw)
          end
      end
    else (db, inr (finalFormData, organizerId)) in
  match organizer_step with
  | (db1, inl stop) => (db1, stop)
  | (db1, inr (finalFormData, organizerId)) =>
      let banner := obj_get "eventBannerUrl" finalFormData in
      let prepared : option (list (string * value)) :=
        if truthy banner && is_file banner then
          let publicUrl := uploadImage bannerStorage banner in
          match publicUrl with
          | Some u =>
              if truthy_str publicUrl
              then Some (obj_set "eventBannerUrl" (VStr u) finalFormData)
              else None
          | None => None
          end
        else if negb (truthy banner)
             then Some (obj_set "eventBannerUrl" (VStr DEFAULT_IMAGE_URL) finalFormData)
             else Some finalFormData in
      match prepared with
      | None => (db1, Returned (failure banner_upload_failed_message))
      | Some finalFormData =>
          let eventPayload :=
            obj_set_opt "organizer_id" organizerId
              (obj_set_opt "banner_url" (obj_get "eventBannerUrl" finalFormData)
                 (obj_set_opt "details" (obj_get "eventDetails" finalFormData)
                    (obj_set_opt "date" (obj_get "eventDate" finalFormData)
                       (obj_set_opt "name" (obj_get "eventName" finalFormData) [])))) in
          let result : string + list Event.t :=
            match id with
            | Some i =>
                if truthy_str id then
                  match fault eventReply with
                  | Some e => inl e
                  | None =>
                      inr (map (fun row =>
                                  if String.eqb (Event.id row) i
                                  then event_updated eventPayload row else row)
                             (Db.events db1))
                  end
                else
                  match event_of_payload (new_id eventReply) eventPayload with
                  | None => inl "invalid input for table events"
                  | Some row => insert_row Event.id (fault eventReply) row (Db.events db1)
                  end
            | None =>
                match event_of_payload (new_id eventReply) eventPayload with
                | None => inl "invalid input for table events"
                | Some row => insert_row Event.id (fault eventReply) row (Db.events db1)
                end
            end in
          match result with
          | inl e => (db1, Returned (failure e))
          | inr table =>
              (Db.with_events table db1,
               Returned (succeeded ("Evento "
                                    ++ (if truthy_str id then "atualizado" else "criado")
                                    ++ " com sucesso!")))
          end
      end
  end.

(** ** The prize wheel *)

(** Modelled from the spec: the declaration of [Prize] in [types.ts] is not
    among the sources.  The fields are those of the data model of the
    specification; the wheel reads [id]. *)
Module Prize.
Record t : Type := { id : string; name : string; companyId : string }.
End Prize.

(** [handleSpin] of the public wheel page.  The state is what the handler
    sets before it returns; the timer it starts (closing the spin and
    opening the winner modal five seconds later) is not part of it. *)
Module PublicRoleta.

Record State : Type :=
  { isSpun : bool; isSpinning : bool;
    winner : option Prize.t; winningPrizeId : option string }.

Definition handleSpin (st : State) (prizes : list Prize.t) (r : Q) : outcome State :=
  if isSpun st || isSpinning st || Nat.ltb (length prizes) 2 then Returned st
  else
    let winnerIndex := random_index r (length prizes) in
    match arr_get prizes winnerIndex with
    | None => Threw
    | Some winnerData =>
        Returned {| isSpun := true; isSpinning := true;
                    winner := Some winnerData;
                    winningPrizeId := Some (Prize.id winnerData) |}
    end.

End PublicRoleta.

(** [handleSpin] of the collaborator's wheel page. *)
Module CollaboratorRoleta.

Record State : Type :=
  { isSpinning : bool; winner : option Prize.t; winningPrizeId : option string }.

Definition handleSpin (st : State) (prizes : list Prize.t) (r : Q) : outcome State :=
  if isSpinning st || Nat.ltb (length prizes) 2 then Returned st
  else
    let winnerIndex := random_index r (length prizes) in
    match arr_get prizes winnerIndex with
    | None => Threw
    | Some winnerData =>
        Returned {| isSpinning := true;
                    winner := Some winnerData;
                    winningPrizeId := Some (Prize.id winnerData) |}
    end.

End CollaboratorRoleta.

(** ** Sequences of registrations and draws *)

(** One call, with everything it takes from its surroundings. *)
Inductive Op : Type :=
| Register (reply : InsertReply) (participantData : ParticipantData)
| Draw (c : Client.t) (r : Q) (now : string) (flt : option string).

Definition step `{CaseMapping} (db : Db.t) (op : Op) : Db.t :=
  match op with
  | Register reply participantData => fst (addParticipant db reply participantData)
  | Draw c r now flt => fst (drawWinner c db r now flt)
  end.

Definition run `{CaseMapping} (db : Db.t) (ops : list Op) : Db.t :=
  fold_left step ops db.


(** ** Vocabulary of the properties *)

(** The number of winners of a raffle in the store. *)
Definition winner_count (db : Db.t) (i : string) : nat := length (winners_of db i).


(** Identifiers are primary keys. *)
Definition unique_ids (db : Db.t) : Prop :=
  NoDup (map Participant.id (Db.participants db))
  /\ NoDup (map Raffle.id (Db.raffles db)).

(** Raffle codes are unique. *)
Definition unique_codes (db : Db.t) : Prop :=
  NoDup (map Raffle.code (Db.raffles db)).

(** [Math.random()] yields a double in [[0, 1)]. *)
Definition unit_interval (r : Q) : Prop := double r /\ (0 <= r)%Q /\ (r < 1)%Q.

Fixpoint string_forallb (p : ascii -> bool) (s : string) : bool :=
  match s with
  | EmptyString => true
  | String c s' => p c && string_forallb p s'
  end.

Definition snake_char (d : ascii) : bool :=
  Char.is_lower d || Char.is_digit d || Ascii.eqb d Char.underscore.

Definition camel_char (d : ascii) : bool :=
  Char.is_lower d || Char.is_upper d || Char.is_digit d.

(** An underscore-separated field name: lower-case letters, digits and
    underscores, the first character a letter. *)
Definition is_snake_key (k : string) : bool :=
  match k with
  | EmptyString => false
  | String c rest => Char.is_lower c && string_forallb snake_char rest
  end.

(** A camel-cased field name: letters and digits, the first character a
    lower-case letter. *)
Definition is_camel_key (k : string) : bool :=
  match k with
  | EmptyString => false
  | String c rest => Char.is_lower c && string_forallb camel_char rest
  end.

Fixpoint nodupb (l : list string) : bool :=
  match l with
  | [] => true
  | x :: l' => negb (existsb (String.eqb x) l') && nodupb l'
  end.

(** No mapping of the value has a key twice. *)
Fixpoint wf_value (v : value) : bool :=
  match v with
  | VArr vs => forallb wf_value vs
  | VObj kvs => nodupb (keys kvs) && forallb (fun kv => wf_value (snd kv)) kvs
  | _ => true
  end.

(** Every key of every mapping of the value satisfies [p]. *)
Fixpoint keys_all (p : string -> bool) (v : value) : bool :=
  match v with
  | VArr vs => forallb (keys_all p) vs
  | VObj kvs => forallb (fun kv => p (fst kv) && keys_all p (snd kv)) kvs
  | _ => true
  end.

(** The key [toSnake] writes for a key of its argument. *)
Definition snake_image (k : string) : string :=
  if is_sentinel k then k else camelToSnake k.

(** No two keys of a mapping that [toSnake] rewrites are written to the same
    key; the values under sentinel keys are not looked into. *)
Fixpoint collision_free (v : value) : bool :=
  match v with
  | VArr vs => forallb collision_free vs
  | VObj kvs =>
      nodupb (map snake_image (keys kvs))
      && forallb (fun kv => is_sentinel (fst kv) || collision_free (snd kv)) kvs
  | _ => true
  end.

(** The camel-to-underscore transcoding as the specification words it:
    entry by entry, a credential key passes through with its value, any
    other key is rewritten and its value transcoded in turn. *)
Fixpoint rewrite_keys (v : value) : value :=
  match v with
  | VArr vs => VArr (map rewrite_keys vs)
  | VObj kvs =>
      VObj (map (fun kv =>
                   if is_sentinel (fst kv) then (fst kv, snd kv)
                   else (camelToSnake (fst kv), rewrite_keys (snd kv))) kvs)
  | _ => v
  end.

(** The value the [reduce] of [toSnake] writes for an entry. *)
Definition toSnake_written (kv : string * value) : value :=
  if is_sentinel (fst kv) then snd kv else toSnake (snd kv).

(** The row the store makes of the payload of [addParticipant]. *)
Definition new_participant (reply : InsertReply) (participantData : ParticipantData)
  : Participant.t :=
  {| Participant.id := new_id reply;
     Participant.raffle_id := raffleId participantData;
     Participant.name := name participantData;
     Participant.email := email participantData;
     Participant.phone := phone participantData;
     Participant.is_winner := false;
     Participant.drawn_at := None |}.

(** The event the new raffle goes under: the selected one, or one the
    store accepts to create. *)
Definition event_step_passes (c : Client.t) (db : Db.t) (eventReply : InsertReply)
  : Prop :=
  (exists ev, selectedEvent c = Some ev /\ Event.id ev <> "")
  \/ (fault eventReply = None
      /\ ~ In (new_id eventReply) (map Event.id (Db.events db))).

(** ** Sample data for the concrete instances *)

Module Sample.

(** The concrete instances are made of ASCII text, where the case mappings
    are fixed; beyond it this one leaves a string as it is. *)
Definition case_mapping : CaseMapping :=
  {| lower_beyond_ascii := fun s => s; upper_beyond_ascii := fun s => s |}.

Definition raffle (quantity : Z) : Raffle.t :=
  {| Raffle.id := "r1"; Raffle.name := "TV"; Raffle.quantity := quantity;
     Raffle.code := "ABCTV"; Raffle.event_id := "e1" |}.

(** A store with the one raffle and the given participants. *)
Definition store (quantity : Z) (participants : list Participant.t) : Db.t :=
  {| Db.raffles := [raffle quantity]; Db.participants := participants;
     Db.events := []; Db.organizers := []; Db.companies := [];
     Db.collaborators := [] |}.

Definition accepted (i : string) : InsertReply := {| new_id := i; fault := None |}.

Definition signup (who mail : string) : ParticipantData :=
  {| raffleId := "r1"; name := who; email := mail; phone := "555-0100" |}.

Definition entry (i mail : string) (winner : bool) : Participant.t :=
  {| Participant.id := i; Participant.raffle_id := "r1"; Participant.name := i;
     Participant.email := mail; Participant.phone := "555-0100";
     Participant.is_winner := winner;
     Participant.drawn_at := if winner then Some "2025-09-12T10:00:00.000Z" else None |}.

Definition organizer : Organizer.t :=
  {| Organizer.id := "o1"; Organizer.name := "Triad3";
     Organizer.responsibleName := "Ana"; Organizer.email := "ana@triad3.io";
     Organizer.phone := "555-0100"; Organizer.photoUrl := DEFAULT_IMAGE_URL;
     Organizer.organizerCode := "ABC" |}.

Definition event : Event.t :=
  {| Event.id := "e1"; Event.name := "Expo"; Event.date := "2025-09-12";
     Event.details := None; Event.banner_url := None; Event.organizer_id := "o1" |}.

(** The organizer's page with the event and the raffle selected. *)
Definition client (quantity : Z) : Client.t :=
  {| Client.events := [event]; Client.raffles := [raffle quantity];
     Client.session :=
       {| loggedInOrganizer := Some organizer; loggedInCollaborator := None;
          selectedEventId := Some "e1"; selectedRaffleId := Some "r1";
          isSuperAdmin := false; impersonatingFromAdmin := false |} |}.

(** The organizer's page with no event selected. *)
Definition client_without_event : Client.t :=
  {| Client.events := [event]; Client.raffles := [raffle 1];
     Client.session :=
       {| loggedInOrganizer := Some organizer; loggedInCollaborator := None;
          selectedEventId := None; selectedRaffleId := None;
          isSuperAdmin := false; impersonatingFromAdmin := false |} |}.

(** The store refuses an insert. *)
Definition refused (i : string) : InsertReply :=
  {| new_id := i; fault := Some "new row violates row-level security policy" |}.

Definition form `{CaseMapping} (typed : string) : RaffleForm :=
  GerenciarSorteios.onRaffleCodeChange typed
    {| eventName := "Expo"; raffleName := "Monitor"; raffleQuantity := 1;
       raffleCode := "" |}.


End Sample.

(** ** Proof automation *)

Ltac by_ascii_cases c :=
  destruct c as [[] [] [] [] [] [] [] []]; vm_compute; intuition congruence.

(** [m * 2^e] is a double in [[0, 1)]. *)
Ltac dyadic m e :=
  split;
  [ exists m, e; split; [reflexivity | split; [reflexivity | lia]]
  | split; [discriminate | reflexivity] ].

(** The random values of the concrete instances are 0 and one half. *)
Ltac sample_random := first [dyadic 0%Z 0%Z | dyadic 1%Z (-1)%Z].

Ltac sample_events :=
  repeat (apply Forall_cons; [first [exact I | sample_random] | ]); apply Forall_nil.

(** ** Vocabulary of the further properties *)

(** No character of the class [[-_]] is followed by a lower-case letter:
    [snakeToCamel] finds nothing to rewrite. *)
Fixpoint settled (s : string) : bool :=
  match s with
  | EmptyString => true
  | String c rest =>
      match rest with
      | EmptyString => true
      | String d _ => negb (Char.is_sep c && Char.is_lower d) && settled rest
      end
  end.

(** No letter of [a-z], and no letter of [A-Z], in the string. *)
Definition no_lower (s : string) : bool :=
  string_forallb (fun c => negb (Char.is_lower c)) s.

Definition no_upper (s : string) : bool :=
  string_forallb (fun c => negb (Char.is_upper c)) s.

(** The first character, when there is one, is not a lower-case letter. *)
Definition head_not_lower (s : string) : bool :=
  match s with
  | EmptyString => true
  | String c _ => negb (Char.is_lower c)
  end.

(** ** Further operations of the data context *)

(** [viewAsOrganizer(organizerId, eventId)]: [data] is what the lookup of
    the organizer by identifier hands back, as [toCamel] renders it; the
    setters run only when there is a row. *)
Definition viewAsOrganizer (data : option Organizer.t) (eventId : string)
  (s : Session) : Session :=
  match data with
  | Some o =>
      setSelectedEventId (Some eventId)
        (setLoggedInOrganizer (Some o) (setImpersonatingFromAdmin true s))
  | None => s
  end.

(** What the fetching effect of the provider starts for a session. *)
Inductive Fetch : Type :=
| FetchAdmin
| FetchOrganizer (organizerId : string)
| FetchCollaborator (companyId : string)
| FetchNothing.

(** The body of the effect: the first branch that applies. *)
Definition fetch_effect (s : Session) : Fetch :=
  if isSuperAdmin s && negb (impersonatingFromAdmin s) then FetchAdmin
  else
    match loggedInOrganizer s with
    | Some o => FetchOrganizer (Organizer.id o)
    | None =>
        match loggedInCollaborator s with
        | Some col => FetchCollaborator (Collaborator.companyId col)
        | None => FetchNothing
        end
    end.

(** Draws made one after the other from the same page, one per value of
    [Math.random()], the store accepting every update. *)
Definition draws (c : Client.t) (now : string) (rs : list Q) : list Op :=
  map (fun r => Draw c r now None) rs.

(** The rows of [raffles] and [events] as the client receives them. *)
Definition raffle_row (r : Raffle.t) : list (string * value) :=
  [("id", VStr (Raffle.id r)); ("name", VStr (Raffle.name r));
   ("quantity", VNum (Raffle.quantity r)); ("code", VStr (Raffle.code r));
   ("event_id", VStr (Raffle.event_id r))].

Definition opt_text (s : option string) : value :=
  match s with
  | Some t => VStr t
  | None => VNull
  end.

Definition event_row (e : Event.t) : list (string * value) :=
  [("id", VStr (Event.id e)); ("name", VStr (Event.name e));
   ("date", VStr (Event.date e)); ("details", opt_text (Event.details e));
   ("banner_url", opt_text (Event.banner_url e));
   ("organizer_id", VStr (Event.organizer_id e))].

(** [findRaffleByCode(code)].  The select embeds under [events] the event
    the raffle refers to ([null] when there is none); the result carries it
    under [event], after the columns of the raffle. *)
Definition findRaffleByCode `{CaseMapping} (db : Db.t) (code : string)
  : option value :=
  match single (raffles_by_code db (toUpperCase code)) with
  | None => None
  | Some data =>
      match find (fun e => String.eqb (Event.id e) (Raffle.event_id data))
                 (Db.events db) with
      | None => None
      | Some event =>
          Some (toCamel (VObj (obj_set "event" (VObj (event_row event))
                                 (raffle_row data))))
      end
  end.

(** The raffle as [findRaffleByCode] hands it to its caller. *)
Definition found_raffle (r : Raffle.t) (e : Event.t) : value :=
  VObj [("id", VStr (Raffle.id r)); ("name", VStr (Raffle.name r));
        ("quantity", VNum (Raffle.quantity r)); ("code", VStr (Raffle.code r));
        ("eventId", VStr (Raffle.event_id r));
        ("event",
         VObj [("id", VStr (Event.id e)); ("name", VStr (Event.name e));
               ("date", VStr (Event.date e));
               ("details", opt_text (Event.details e));
               ("bannerUrl", opt_text (Event.banner_url e));
               ("organizerId", VStr (Event.organizer_id e))])].

(** A row of a bag table as the client receives it: the columns, with the
    identifier under [id]. *)
Definition bag_row (row : string * list (string * value)) : list (string * value) :=
  obj_set "id" (VStr (fst row)) (snd row).

(** [.eq(column, text)] on a bag table. *)
Definition bag_eq (column text : string) (table : bag_table) : bag_table :=
  filter (fun row =>
            match obj_get column (bag_row row) with
            | Some (VStr s) => String.eqb s text
            | _ => false
            end) table.

Definition invalid_login_message : string := "E-mail ou senha inválidos.".
Definition invalid_admin_message : string := "Credenciais de admin inválidas.".

(** [login(email, pass)]: the first component is the value handed to
    [setLoggedInOrganizer], when the call gets there. *)
Definition login `{CaseMapping} (db : Db.t) (email pass : string)
  : option value * Result :=
  match single (bag_eq "email" (toLowerCase email) (Db.organizers db)) with
  | None => (None, failure invalid_login_message)
  | Some data =>
      match obj_get "password_hash" (bag_row data) with
      | Some (VStr h) =>
          if String.eqb h pass
          then (Some (toCamel (VObj (bag_row data))), succeeded "Login bem-sucedido!")
          else (None, failure invalid_login_message)
      | _ => (None, failure invalid_login_message)
      end
  end.

(** [loginSuperAdmin(email, pass)], over the rows of [admins]. *)
Definition loginSuperAdmin `{CaseMapping} (admins : bag_table) (email pass : string)
  (s : Session)
  : Session * Result :=
  match single (bag_eq "email" (toLowerCase email) admins) with
  | None => (s, failure invalid_admin_message)
  | Some data =>
      match obj_get "password_hash" (bag_row data) with
      | Some (VStr h) =>
          if String.eqb h pass
          then (setIsSuperAdmin true s, succeeded "Login de admin bem-sucedido!")
          else (s, failure invalid_admin_message)
      | _ => (s, failure invalid_admin_message)
      end
  end.

Module SampleOrganizers.

(** A store with one organizer row. *)
Definition store : Db.t :=
  Db.with_organizers
    [("o1", [("name", VStr "Triad3"); ("email", VStr "ana@triad3.io");
             ("password_hash", VStr "s3gredo")])]
    (Sample.store 1 []).

(** An edit of the organizer that leaves the password field empty. *)
Definition edit : list (string * value) :=
  [("name", VStr "Triad3 Eventos"); ("email", VStr "ana@triad3.io");
   ("password", VStr "")].

(** A store whose organizer has a photo, and an edit with the photo field
    there and empty. *)
Definition with_photo : Db.t :=
  Db.with_organizers
    [("o1", [("name", VStr "Triad3"); ("email", VStr "ana@triad3.io");
             ("photo_url", VStr "https://cdn.example.com/ana.png")])]
    (Sample.store 1 []).

Definition without_photo : list (string * value) :=
  [("name", VStr "Triad3"); ("photoUrl", VNull)].

End SampleOrganizers.

(** The columns of every row are distinct and underscore-separated. *)
Definition snake_columns (table : bag_table) : Prop :=
  Forall (fun row => NoDup (keys (snd row))
                     /\ forallb is_snake_key (keys (snd row)) = true) table.

(** ** The wheel pages between events

    A page is the state its handlers close over, together with the spin
    timers started and not yet fired.  An event is the call of a handler by
    the page as rendered, or the firing of a timer; every handler reads the
    state left by the event before it.  The prizes of a spin are those of
    the render in which the wheel is clicked. *)

Module PublicRoletaPage.

Inductive Step : Type := register | spin.

Inductive Field : Type := name | email | phone.

Record Participant : Type := { pname : string; pemail : string; pphone : string }.

Record Page : Type :=
  { step : Step; participant : Participant; wheel : PublicRoleta.State;
    isWinnerModalOpen : bool; timers : nat }.

(** The page as first rendered. *)
Definition initial : Page :=
  {| step := register;
     participant := {| pname := ""; pemail := ""; pphone := "" |};
     wheel := {| PublicRoleta.isSpun := false; PublicRoleta.isSpinning := false;
                 PublicRoleta.winner := None; PublicRoleta.winningPrizeId := None |};
     isWinnerModalOpen := false; timers := 0 |}.

(** [setParticipant(prev => ({ ...prev, [name]: value }))]. *)
Definition handleRegisterChange (field : Field) (value : string) (pg : Page) : Page :=
  {| step := step pg;
     participant :=
       match field with
       | name => {| pname := value; pemail := pemail (participant pg);
                    pphone := pphone (participant pg) |}
       | email => {| pname := pname (participant pg); pemail := value;
                     pphone := pphone (participant pg) |}
       | phone => {| pname := pname (participant pg);
                     pemail := pemail (participant pg); pphone := value |}
       end;
     wheel := wheel pg; isWinnerModalOpen := isWinnerModalOpen pg;
     timers := timers pg |}.

Definition handleRegisterSubmit (pg : Page) : Page :=
  if negb (String.eqb (pname (participant pg)) "")
     && negb (String.eqb (pemail (participant pg)) "")
     && negb (String.eqb (pphone (participant pg)) "")
  then {| step := spin; participant := participant pg; wheel := wheel pg;
          isWinnerModalOpen := isWinnerModalOpen pg; timers := timers pg |}
  else pg.

(** [handleSpin] with the timer it starts when it does not return early. *)
Definition handleSpin (prizes : list Prize.t) (r : Q) (pg : Page) : outcome Page :=
  if PublicRoleta.isSpun (wheel pg) || PublicRoleta.isSpinning (wheel pg)
     || Nat.ltb (length prizes) 2
  then Returned pg
  else
    match PublicRoleta.handleSpin (wheel pg) prizes r with
    | Returned st =>
        Returned {| step := step pg; participant := participant pg; wheel := st;
                    isWinnerModalOpen := isWinnerModalOpen pg;
                    timers := S (timers pg) |}
    | Threw => Threw
    end.

(** The callback of the timer: [setIsSpinning(false)],
    [setIsWinnerModalOpen(true)]. *)
Definition timeout (pg : Page) : Page :=
  match timers pg with
  | 0 => pg
  | S n =>
      {| step := step pg; participant := participant pg;
         wheel := {| PublicRoleta.isSpun := PublicRoleta.isSpun (wheel pg);
                     PublicRoleta.isSpinning := false;
                     PublicRoleta.winner := PublicRoleta.winner (wheel pg);
                     PublicRoleta.winningPrizeId :=
                       PublicRoleta.winningPrizeId (wheel pg) |};
         isWinnerModalOpen := true; timers := n |}
  end.

Definition handleCloseWinnerModal (pg : Page) : Page :=
  {| step := step pg; participant := participant pg; wheel := wheel pg;
     isWinnerModalOpen := false; timers := timers pg |}.

Inductive Event : Type :=
| RegisterChange (field : Field) (value : string)
| RegisterSubmit
| SpinClick (prizes : list Prize.t) (r : Q)
| TimerFires
| CloseWinnerModal.

(** The form is rendered at step [register] and the wheel at step [spin];
    an event of the part that is not rendered does not occur. *)
Definition on (pg : Page) (e : Event) : outcome Page :=
  match e, step pg with
  | RegisterChange field value, register =>
      Returned (handleRegisterChange field value pg)
  | RegisterSubmit, register => Returned (handleRegisterSubmit pg)
  | SpinClick prizes r, spin => handleSpin prizes r pg
  | TimerFires, _ => Returned (timeout pg)
  | CloseWinnerModal, _ => Returned (handleCloseWinnerModal pg)
  | _, _ => Returned pg
  end.

Fixpoint run (pg : Page) (es : list Event) : outcome Page :=
  match es with
  | [] => Returned pg
  | e :: es' =>
      match on pg e with
      | Returned pg' => run pg' es'
      | Threw => Threw
      end
  end.

(** The random value of a spin is one [Math.random()] can return. *)
Definition possible (e : Event) : Prop :=
  match e with
  | SpinClick _ r => unit_interval r
  | _ => True
  end.

(** What holds of the page whatever happened on it. *)
Definition coherent (pg : Page) : Prop :=
  (PublicRoleta.isSpun (wheel pg) = false ->
   PublicRoleta.winner (wheel pg) = None
   /\ PublicRoleta.winningPrizeId (wheel pg) = None
   /\ PublicRoleta.isSpinning (wheel pg) = false
   /\ isWinnerModalOpen pg = false)
  /\ (PublicRoleta.isSpun (wheel pg) = true ->
      step pg = spin
      /\ exists prize,
           PublicRoleta.winner (wheel pg) = Some prize
           /\ PublicRoleta.winningPrizeId (wheel pg) = Some (Prize.id prize))
  /\ timers pg = (if PublicRoleta.isSpinning (wheel pg) then 1 else 0)
  /\ (isWinnerModalOpen pg = true -> PublicRoleta.isSpinning (wheel pg) = false)
  /\ (step pg = spin ->
      pname (participant pg) <> "" /\ pemail (participant pg) <> ""
      /\ pphone (participant pg) <> "").

End PublicRoletaPage.

Module CollaboratorRoletaPage.

Record Page : Type :=
  { wheel : CollaboratorRoleta.State; isWinnerModalOpen : bool; timers : nat;
    prizeToDelete : option Prize.t; isConfirmModalOpen : bool;
    deleted : list string }.

(** The page as first rendered; [deleted] lists the calls of [deletePrize]
    made since. *)
Definition initial : Page :=
  {| wheel := {| CollaboratorRoleta.isSpinning := false;
                 CollaboratorRoleta.winner := None;
                 CollaboratorRoleta.winningPrizeId := None |};
     isWinnerModalOpen := false; timers := 0;
     prizeToDelete := None; isConfirmModalOpen := false; deleted := [] |}.

Definition handleSpin (prizes : list Prize.t) (r : Q) (pg : Page) : outcome Page :=
  if CollaboratorRoleta.isSpinning (wheel pg) || Nat.ltb (length prizes) 2
  then Returned pg
  else
    match CollaboratorRoleta.handleSpin (wheel pg) prizes r with
    | Returned st =>
        Returned {| wheel := st; isWinnerModalOpen := isWinnerModalOpen pg;
                    timers := S (timers pg); prizeToDelete := prizeToDelete pg;
                    isConfirmModalOpen := isConfirmModalOpen pg;
                    deleted := deleted pg |}
    | Threw => Threw
    end.

Definition timeout (pg : Page) : Page :=
  match timers pg with
  | 0 => pg
  | S n =>
      {| wheel := {| CollaboratorRoleta.isSpinning := false;
                     CollaboratorRoleta.winner := CollaboratorRoleta.winner (wheel pg);
                     CollaboratorRoleta.winningPrizeId :=
                       CollaboratorRoleta.winningPrizeId (wheel pg) |};
         isWinnerModalOpen := true; timers := n;
         prizeToDelete := prizeToDelete pg;
         isConfirmModalOpen := isConfirmModalOpen pg; deleted := deleted pg |}
  end.

Definition closeWinnerModal (pg : Page) : Page :=
  {| wheel := wheel pg; isWinnerModalOpen := false; timers := timers pg;
     prizeToDelete := prizeToDelete pg;
     isConfirmModalOpen := isConfirmModalOpen pg; deleted := deleted pg |}.

Definition handleDeleteClick (prize : Prize.t) (pg : Page) : Page :=
  {| wheel := wheel pg; isWinnerModalOpen := isWinnerModalOpen pg;
     timers := timers pg; prizeToDelete := Some prize;
     isConfirmModalOpen := true; deleted := deleted pg |}.

Definition handleConfirmDelete (pg : Page) : Page :=
  {| wheel := wheel pg; isWinnerModalOpen := isWinnerModalOpen pg;
     timers := timers pg; prizeToDelete := None; isConfirmModalOpen := false;
     deleted :=
       match prizeToDelete pg with
       | Some prize => (deleted pg ++ [Prize.id prize])%list
       | None => deleted pg
       end |}.

(** [onClose] of the confirmation modal. *)
Definition closeConfirmModal (pg : Page) : Page :=
  {| wheel := wheel pg; isWinnerModalOpen := isWinnerModalOpen pg;
     timers := timers pg; prizeToDelete := prizeToDelete pg;
     isConfirmModalOpen := false; deleted := deleted pg |}.

Inductive Event : Type :=
| SpinClick (prizes : list Prize.t) (r : Q)
| TimerFires
| CloseWinnerModal
| DeleteClick (prize : Prize.t)
| ConfirmDelete
| CloseConfirmModal.

Definition on (pg : Page) (e : Event) : outcome Page :=
  match e with
  | SpinClick prizes r => handleSpin prizes r pg
  | TimerFires => Returned (timeout pg)
  | CloseWinnerModal => Returned (closeWinnerModal pg)
  | DeleteClick prize => Returned (handleDeleteClick prize pg)
  | ConfirmDelete => Returned (handleConfirmDelete pg)
  | CloseConfirmModal => Returned (closeConfirmModal pg)
  end.

Fixpoint run (pg : Page) (es : list Event) : outcome Page :=
  match es with
  | [] => Returned pg
  | e :: es' =>
      match on pg e with
      | Returned pg' => run pg' es'
      | Threw => Threw
      end
  end.

Definition possible (e : Event) : Prop :=
  match e with
  | SpinClick _ r => unit_interval r
  | _ => True
  end.

(** The prizes of the delete clicks of a trace, in order. *)
Definition delete_clicks (es : list Event) : list string :=
  flat_map (fun e => match e with
                     | DeleteClick prize => [Prize.id prize]
                     | _ => []
                     end) es.

End CollaboratorRoletaPage.

(** The prize waiting for confirmation on the collaborator's page. *)
Definition pending (pg : CollaboratorRoletaPage.Page) : list string :=
  match CollaboratorRoletaPage.prizeToDelete pg with
  | Some prize => [Prize.id prize]
  | None => []
  end.

(** What holds of the collaborator's wheel whatever happened on the page:
    a timer is pending exactly while the wheel is spinning, the winning
    identifier is that of the winner, and the winner modal is open, or the
    wheel spinning, only with a winner. *)
Definition steady (pg : CollaboratorRoletaPage.Page) : Prop :=
  CollaboratorRoletaPage.timers pg
  = (if CollaboratorRoleta.isSpinning (CollaboratorRoletaPage.wheel pg) then 1 else 0)
  /\ CollaboratorRoleta.winningPrizeId (CollaboratorRoletaPage.wheel pg)
     = option_map Prize.id (CollaboratorRoleta.winner (CollaboratorRoletaPage.wheel pg))
  /\ (CollaboratorRoletaPage.isWinnerModalOpen pg = true ->
      CollaboratorRoleta.winner (CollaboratorRoletaPage.wheel pg) <> None)
  /\ (CollaboratorRoleta.isSpinning (CollaboratorRoletaPage.wheel pg) = true ->
      CollaboratorRoleta.winner (CollaboratorRoletaPage.wheel pg) <> None).

Module SamplePrizes.

Definition mug : Prize.t :=
  {| Prize.id := "z1"; Prize.name := "Caneca"; Prize.companyId := "c1" |}.

Definition cap : Prize.t :=
  {| Prize.id := "z2"; Prize.name := "Bone"; Prize.companyId := "c1" |}.

(** A visitor fills in the form, goes on to the wheel and spins it. *)
Definition visit : list PublicRoletaPage.Event :=
  [PublicRoletaPage.RegisterChange PublicRoletaPage.name "Ana";
   PublicRoletaPage.RegisterChange PublicRoletaPage.email "ana@example.com";
   PublicRoletaPage.RegisterChange PublicRoletaPage.phone "555-0100";
   PublicRoletaPage.RegisterSubmit;
   PublicRoletaPage.SpinClick [mug; cap] (1 # 2)%Q].

(** The wheel stops; the visitor clicks again and closes the modal. *)
Definition afterwards : list PublicRoletaPage.Event :=
  [PublicRoletaPage.TimerFires;
   PublicRoletaPage.SpinClick [mug; cap] 0%Q;
   PublicRoletaPage.CloseWinnerModal].

(** A collaborator spins, clicks again during the spin, asks to delete a
    prize and confirms twice. *)
Definition shift : list CollaboratorRoletaPage.Event :=
  [CollaboratorRoletaPage.SpinClick [mug; cap] (1 # 2)%Q;
   CollaboratorRoletaPage.SpinClick [mug; cap] 0%Q;
   CollaboratorRoletaPage.TimerFires;
   CollaboratorRoletaPage.DeleteClick mug;
   CollaboratorRoletaPage.ConfirmDelete;
   CollaboratorRoletaPage.ConfirmDelete].

End SamplePrizes.

Module SampleAdmins.

Definition admins : bag_table :=
  [("a1", [("email", VStr "root@triad3.io"); ("password_hash", VStr "adm1n")])].

(** The session of a logged-in organizer. *)
Definition session : Session := Client.session (Sample.client 1).

End SampleAdmins.

Module SampleCompanies.

(** A store with the event and one company that has a logo of its own. *)
Definition store : Db.t :=
  Db.with_companies
    [("c1", [("name", VStr "Acme"); ("logo_url", VStr "https://cdn.example.com/acme.png");
             ("event_id", VStr "e1")])]
    (Db.with_events [Sample.event] (Sample.store 1 [])).

(** An edit of the company's name that carries no logo. *)
Definition edit : list (string * value) := [("name", VStr "Acme Games")].

End SampleCompanies.

(** ** Fetching the mirror

    The local state of the provider that the fetches fill.  The rows of
    [events], [raffles] and [participants] are kept as the store has them
    (the mirror holds them under camel-cased names); the rows of the other
    tables are kept as [toCamel] renders them.  [prizes] is a table of the
    store that only the fetches and the prize mutations reach; the fetches
    take its rows as an argument.  A read hands back the rows (never
    [null]), so the tests of the fetched data for [null] pass. *)

Module Mirror.
Record t : Type :=
  { organizers : list value; events : list Event.t; raffles : list Raffle.t;
    participants : list Participant.t; companies : list value;
    collaborators : list value; prizes : list value }.
End Mirror.

(** [.in(column, texts)] on a bag table. *)
Definition bag_in (column : string) (texts : list string) (table : bag_table)
  : bag_table :=
  filter (fun row =>
            match obj_get column (bag_row row) with
            | Some (VStr s) => existsb (String.eqb s) texts
            | _ => false
            end) table.

(** [toCamel(rows)] for the rows of a bag table. *)
Definition camel_rows (table : bag_table) : list value :=
  map (fun row => toCamel (VObj (bag_row row))) table.

Definition fetchAdminData (db : Db.t) (m : Mirror.t) : Mirror.t :=
  {| Mirror.organizers := camel_rows (Db.organizers db);
     Mirror.events := Db.events db;
     Mirror.raffles := Mirror.raffles m;
     Mirror.participants := Mirror.participants m;
     Mirror.companies := Mirror.companies m;
     Mirror.collaborators := Mirror.collaborators m;
     Mirror.prizes := Mirror.prizes m |}.

Definition fetchOrganizerData (db : Db.t) (prizes : bag_table) (organizerId : string)
  (m : Mirror.t) : Mirror.t :=
  let eventData :=
    filter (fun e => String.eqb (Event.organizer_id e) organizerId) (Db.events db) in
  let eventIds := map Event.id eventData in
  if Nat.ltb 0 (length eventIds) then
    let raffleData :=
      filter (fun r => existsb (String.eqb (Raffle.event_id r)) eventIds)
             (Db.raffles db) in
    let companyData := bag_in "event_id" eventIds (Db.companies db) in
    let raffleIds := map Raffle.id raffleData in
    let participantData :=
      if Nat.ltb 0 (length raffleIds)
      then filter (fun p => existsb (String.eqb (Participant.raffle_id p)) raffleIds)
                  (Db.participants db)
      else [] in
    let companyIds := map fst companyData in
    {| Mirror.organizers := Mirror.organizers m;
       Mirror.events := eventData;
       Mirror.raffles := raffleData;
       Mirror.participants := participantData;
       Mirror.companies := camel_rows companyData;
       Mirror.collaborators :=
         if Nat.ltb 0 (length companyIds)
         then camel_rows (bag_in "company_id" companyIds (Db.collaborators db))
         else [];
       Mirror.prizes :=
         if Nat.ltb 0 (length companyIds)
         then camel_rows (bag_in "company_id" companyIds prizes)
         else [] |}
  else
    {| Mirror.organizers := Mirror.organizers m;
       Mirror.events := eventData;
       Mirror.raffles := []; Mirror.participants := [];
       Mirror.companies := []; Mirror.collaborators := []; Mirror.prizes := [] |}.

(** [fetchCollaboratorData(companyId)]: the select embeds under [events]
    the event the company refers to; besides the mirror the fetch sets the
    selected event. *)
Definition fetchCollaboratorData (db : Db.t) (prizes : bag_table) (companyId : string)
  (m : Mirror.t) (s : Session) : Mirror.t * Session :=
  match single (bag_eq "id" companyId (Db.companies db)) with
  | None => (m, s)
  | Some companyData =>
      let event :=
        match obj_get "event_id" (bag_row companyData) with
        | Some (VStr i) => find (fun e => String.eqb (Event.id e) i) (Db.events db)
        | _ => None
        end in
      let company :=
        toCamel (VObj (obj_set "events"
                         match event with
                         | Some e => VObj (event_row e)
                         | None => VNull
                         end (bag_row companyData))) in
      match event with
      | None =>
          ({| Mirror.organizers := Mirror.organizers m;
              Mirror.events := Mirror.events m;
              Mirror.raffles := Mirror.raffles m;
              Mirror.participants := Mirror.participants m;
              Mirror.companies := [company];
              Mirror.collaborators := Mirror.collaborators m;
              Mirror.prizes := Mirror.prizes m |}, s)
      | Some e =>
          let raffleData :=
            filter (fun r => String.eqb (Raffle.event_id r) (Event.id e))
                   (Db.raffles db) in
          let raffleIds := map Raffle.id raffleData in
          ({| Mirror.organizers := Mirror.organizers m;
              Mirror.events := [e];
              Mirror.raffles := raffleData;
              Mirror.participants :=
                if Nat.ltb 0 (length raffleIds)
                then filter (fun p => existsb (String.eqb (Participant.raffle_id p))
                                              raffleIds)
                            (Db.participants db)
                else Mirror.participants m;
              Mirror.companies := [company];
              Mirror.collaborators := Mirror.collaborators m;
              Mirror.prizes := camel_rows (bag_eq "company_id" (fst companyData) prizes) |},
           setSelectedEventId (Some (Event.id e)) s)
      end
  end.

(** The participants of the store that belong, through their raffle and
    its event, to an organizer. *)
Definition participant_of_organizer (db : Db.t) (organizerId : string)
  (p : Participant.t) : Prop :=
  In p (Db.participants db)
  /\ exists r e,
       In r (Db.raffles db) /\ In e (Db.events db)
       /\ Participant.raffle_id p = Raffle.id r
       /\ Raffle.event_id r = Event.id e
       /\ Event.organizer_id e = organizerId.

Definition raffle_of_organizer (db : Db.t) (organizerId : string) (r : Raffle.t)
  : Prop :=
  In r (Db.raffles db)
  /\ exists e,
       In e (Db.events db) /\ Raffle.event_id r = Event.id e
       /\ Event.organizer_id e = organizerId.

Module SampleMirror.

(** The store of [SampleCompanies] without its raffle. *)
Definition store : Db.t := Db.with_raffles [] SampleCompanies.store.

(** A mirror left by an earlier fetch, with one participant. *)
Definition earlier : Mirror.t :=
  {| Mirror.organizers := []; Mirror.events := [];
     Mirror.raffles := [Sample.raffle 1];
     Mirror.participants := [Sample.entry "p1" "ana@example.com" true];
     Mirror.companies := []; Mirror.collaborators := []; Mirror.prizes := [] |}.

End SampleMirror.

(** ** The wheel colours *)

(** [updateCompanySettings(companyId, settings)]; the call returns nothing,
    the store after it is its effect. *)
Definition updateCompanySettings (db : Db.t) (flt : option string)
  (companyId : string) (settings : list (string * value)) : Db.t :=
  match update_bag flt companyId (obj_of (toSnake (VObj settings)))
          (Db.companies db) with
  | inl _ => db
  | inr table => Db.with_companies table db
  end.

Module RoletaColors.

(** An element of the [colors] array of the page: a hole (an index the
    array does not have, left by a write past its end), [undefined] (what
    the spread makes of a hole), [null], or a colour. *)
Inductive Slot : Type :=
| Hole
| Undefined
| Null
| Color (c : string).

(** [[...colors]] reads every index: a hole comes out as [undefined]. *)
Definition spread (s : Slot) : Slot :=
  match s with
  | Hole => Undefined
  | _ => s
  end.

(** [newColors = [...colors]; newColors[index] = color]: a write past the
    end extends the array and leaves holes on the way. *)
Definition handleColorChange (index : nat) (color : string)
  (colors : list Slot) : list Slot :=
  let newColors := map spread colors in
  if Nat.ltb index (length newColors)
  then (firstn index newColors ++ Color color :: skipn (S index) newColors)%list
  else (newColors ++ repeat Hole (index - length newColors) ++ [Color color])%list.

Definition is_undefined (s : Slot) : bool :=
  match s with
  | Undefined => true
  | _ => false
  end.

(** An element as the store receives it: [toSnake] hands a colour and
    [null] back as they are, and its [map] skips a hole, which the request
    then carries as [null]. *)
Definition sent (s : Slot) : value :=
  match s with
  | Color c => VStr c
  | _ => VNull
  end.

(** [toSnake(colors)] as the request carries it.  [toSnake(undefined)]
    reads [undefined.constructor] and raises a [TypeError]: with an
    [undefined] element there is nothing to send. *)
Definition colors_value (colors : list Slot) : option value :=
  if existsb is_undefined colors then None else Some (VArr (map sent colors)).

(** [handleSaveColors], for the company of the logged-in collaborator.
    When [toSnake] raises inside [updateCompanySettings], the promise is
    rejected before any request is made, and the handler, which does not
    wait for it, goes on to its notification: the store is as before. *)
Definition handleSaveColors (db : Db.t) (flt : option string) (companyId : string)
  (colors : list Slot) : Db.t :=
  match colors_value colors with
  | Some arr => updateCompanySettings db flt companyId [("roletaColors", arr)]
  | None => db
  end.

End RoletaColors.

(** ** The export of the wheel's participants *)

Module RoletaExport.

(** Modelled from the spec: the declaration of the participants of the
    wheel is not among the sources.  The fields are those the export
    reads. *)
Record RoletaParticipant : Type :=
  { name : string; email : string; phone : string; prizeName : option string;
    spunAt : option string; createdAt : string }.

Inductive Tab : Type := spun | registered.

Definition quote_char : ascii := ascii_of_nat 34.
Definition line_feed : string := String (ascii_of_nat 10) EmptyString.

(** The byte-order mark the file starts with, as the blob encodes it. *)
Definition byte_order_mark : string :=
  String (ascii_of_nat 239) (String (ascii_of_nat 187)
    (String (ascii_of_nat 191) EmptyString)).

(** The [replace] that doubles every double quote of a field. *)
Fixpoint escape (s : string) : string :=
  match s with
  | EmptyString => EmptyString
  | String c rest =>
      if Ascii.eqb c quote_char
      then String quote_char (String quote_char (escape rest))
      else String c (escape rest)
  end.

(** The template that puts a field between double quotes. *)
Definition quoted (s : string) : string := dquote ++ s ++ dquote.

Definition no_data_message : string := "Não há dados para exportar.".

Definition headers (tab : Tab) : list string :=
  match tab with
  | spun => ["Nome"; "Email"; "Telefone"; "Prêmio"; "Data/Hora Sorteio"]
  | registered => ["Nome"; "Email"; "Telefone"; "Data/Hora Cadastro"]
  end.

Section Download.

(** [new Date(text).toLocaleString('pt-BR')]. *)
Variable toLocaleString : string -> string.

Definition spunParticipants (roletaParticipants : list RoletaParticipant)
  : list RoletaParticipant :=
  filter (fun p => truthy_str (spunAt p)) roletaParticipants.

Definition registeredOnlyParticipants (roletaParticipants : list RoletaParticipant)
  : list RoletaParticipant :=
  filter (fun p => negb (truthy_str (spunAt p))) roletaParticipants.

Definition participantsToExport (activeTab : Tab)
  (roletaParticipants : list RoletaParticipant) : list RoletaParticipant :=
  match activeTab with
  | spun => spunParticipants roletaParticipants
  | registered => registeredOnlyParticipants roletaParticipants
  end.

(** The line of one participant. *)
Definition line (activeTab : Tab) (p : RoletaParticipant) : string :=
  let commonData :=
    [quoted (escape (name p)); quoted (email p); quoted (phone p)] in
  match activeTab with
  | spun =>
      String.concat ","
        (commonData
         ++ [quoted (escape (match prizeName p with
                             | Some x => x
                             | None => ""
                             end));
             quoted (match spunAt p with
                     | Some d => if truthy_str (spunAt p) then toLocaleString d else ""
                     | None => ""
                     end)])%list
  | registered =>
      String.concat "," (commonData ++ [quoted (toLocaleString (createdAt p))])%list
  end.

(** [handleDownloadCSV]: the notification shown, or the content of the
    file handed to the browser. *)
Definition handleDownloadCSV (activeTab : Tab)
  (roletaParticipants : list RoletaParticipant) : string + string :=
  let exported := participantsToExport activeTab roletaParticipants in
  if Nat.eqb (length exported) 0 then inl no_data_message
  else
    inr (byte_order_mark
         ++ String.concat line_feed
              (String.concat "," (headers activeTab) :: map (line activeTab) exported)).

(** The fields of a participant the export is to carry. *)
Definition record (activeTab : Tab) (p : RoletaParticipant) : list string :=
  match activeTab with
  | spun =>
      [name p; email p; phone p;
       match prizeName p with Some x => x | None => "" end;
       match spunAt p with
       | Some d => if truthy_str (spunAt p) then toLocaleString d else ""
       | None => ""
       end]
  | registered => [name p; email p; phone p; toLocaleString (createdAt p)]
  end.

End Download.

(** Reading a file of quoted fields back, as the format defines it: a
    field runs from after its opening quote to its closing quote, a doubled
    quote inside it standing for one quote; the fields of a record are
    separated by commas and the records by line feeds. *)
Fixpoint read_quoted (s : string) : option (string * string) :=
  match s with
  | EmptyString => None
  | String c rest =>
      if Ascii.eqb c quote_char then
        match rest with
        | String d rest' =>
            if Ascii.eqb d quote_char then
              match read_quoted rest' with
              | Some (field, after) => Some (String quote_char field, after)
              | None => None
              end
            else Some (EmptyString, rest)
        | EmptyString => Some (EmptyString, rest)
        end
      else
        match read_quoted rest with
        | Some (field, after) => Some (String c field, after)
        | None => None
        end
  end.

Fixpoint read_fields (n : nat) (s : string) : option (list string * string) :=
  match n with
  | 0 => Some ([], s)
  | S n' =>
      match s with
      | String c rest =>
          if Ascii.eqb c quote_char then
            match read_quoted rest with
            | Some (field, after) =>
                match n' with
                | 0 => Some ([field], after)
                | S _ =>
                    match after with
                    | String d after' =>
                        if Ascii.eqb d ","%char then
                          match read_fields n' after' with
                          | Some (fields, rest') => Some (field :: fields, rest')
                          | None => None
                          end
                        else None
                    | EmptyString => None
                    end
                end
            | None => None
            end
          else None
      | EmptyString => None
      end
  end.

Fixpoint read_records (k n : nat) (s : string) : option (list (list string)) :=
  match k with
  | 0 => if String.eqb s "" then Some [] else None
  | S k' =>
      match read_fields n s with
      | Some (fields, after) =>
          match k' with
          | 0 => if String.eqb after "" then Some [fields] else None
          | S _ =>
              match after with
              | String d after' =>
                  if Ascii.eqb d (ascii_of_nat 10) then
                    match read_records k' n after' with
                    | Some records => Some (fields :: records)
                    | None => None
                    end
                  else None
              | EmptyString => None
              end
          end
      | None => None
      end
  end.

Fixpoint quote_free (s : string) : bool :=
  match s with
  | EmptyString => true
  | String c rest => negb (Ascii.eqb c quote_char) && quote_free rest
  end.

End RoletaExport.

(** A string that does not begin with a double quote. *)
Definition not_quote_first (s : string) : Prop :=
  match s with
  | EmptyString => True
  | String c _ => Ascii.eqb c RoletaExport.quote_char = false
  end.

(** What is written for a field reads back as the field, whatever follows
    its closing quote. *)
Definition reads_as (written field : string) : Prop :=
  forall rest, not_quote_first rest ->
               RoletaExport.read_quoted (written ++ String RoletaExport.quote_char rest)
               = Some (field, rest).

(** The fields of a line, each as it is written between the quotes and as
    it is to be read. *)
Definition written (toLocaleString : string -> string) (activeTab : RoletaExport.Tab)
  (p : RoletaExport.RoletaParticipant) : list (string * string) :=
  match activeTab with
  | RoletaExport.spun =>
      [(RoletaExport.escape (RoletaExport.name p), RoletaExport.name p);
       (RoletaExport.email p, RoletaExport.email p);
       (RoletaExport.phone p, RoletaExport.phone p);
       (RoletaExport.escape (match RoletaExport.prizeName p with
                             | Some x => x
                             | None => ""
                             end),
        match RoletaExport.prizeName p with Some x => x | None => "" end);
       (match RoletaExport.spunAt p with
        | Some d => if truthy_str (RoletaExport.spunAt p) then toLocaleString d else ""
        | None => ""
        end,
        match RoletaExport.spunAt p with
        | Some d => if truthy_str (RoletaExport.spunAt p) then toLocaleString d else ""
        | None => ""
        end)]
  | RoletaExport.registered =>
      [(RoletaExport.escape (RoletaExport.name p), RoletaExport.name p);
       (RoletaExport.email p, RoletaExport.email p);
       (RoletaExport.phone p, RoletaExport.phone p);
       (toLocaleString (RoletaExport.createdAt p),
        toLocaleString (RoletaExport.createdAt p))]
  end.

(** [k] double quotes before a string. *)
Fixpoint quotes (k : nat) (s : string) : string :=
  match k with
  | 0 => s
  | S k' => String RoletaExport.quote_char (quotes k' s)
  end.

Module SampleExport.

(** A rendering of dates that shows the same instant for every text. *)
Definition rendering (text : string) : string := "12/09/2025, 10:00:00".

Definition ana : RoletaExport.RoletaParticipant :=
  {| RoletaExport.name := "Ana " ++ dquote ++ "Aninha" ++ dquote ++ " Souza";
     RoletaExport.email := "ana@example.com"; RoletaExport.phone := "555-0100";
     RoletaExport.prizeName := Some "Caneca";
     RoletaExport.spunAt := Some "12/09/2025, 10:00:00";
     RoletaExport.createdAt := "12/09/2025, 09:00:00" |}.

End SampleExport.

(** ** The collaborator's check-in *)

Definition invalid_company_message : string := "Código da Empresa / Estande inválido.".
Definition invalid_personal_message : string :=
  "Seu Código Pessoal é inválido para esta empresa.".

(** What a template puts for a column of a row: the text of a text column;
    [null] and a column the row does not have read [null] and
    [undefined]; a boolean reads [true] or [false].  The rendering of the
    other values is not modelled. *)
Definition template_text (v : option value) : option string :=
  match v with
  | Some (VStr s) => Some s
  | Some VNull => Some "null"
  | None => Some "undefined"
  | Some (VBool true) => Some "true"
  | Some (VBool false) => Some "false"
  | Some _ => None
  end.

(** [validateCollaborator(companyCode, personalCode)]: the first component
    is the collaborator handed to [setLoggedInCollaborator] and returned.
    There is no result where the name of the collaborator found is a value
    whose rendering is not modelled. *)
Definition validateCollaborator `{CaseMapping} (db : Db.t)
  (companyCode personalCode : string)
  : option (option value * Result) :=
  match single (bag_eq "code" (toUpperCase companyCode) (Db.companies db)) with
  | None => Some (None, failure invalid_company_message)
  | Some company =>
      match single (bag_eq "code" (toUpperCase personalCode)
                      (bag_eq "company_id" (fst company) (Db.collaborators db))) with
      | None => Some (None, failure invalid_personal_message)
      | Some collaborator =>
          match template_text (obj_get "name" (bag_row collaborator)) with
          | Some who =>
              Some (Some (toCamel (VObj (bag_row collaborator))),
                    succeeded ("Check-in realizado com sucesso, " ++ who ++ "!"))
          | None => None
          end
      end
  end.

(** ** Deletions *)

(** [.delete().eq('id', i)] on a bag table.  What the store deletes
    besides the row (rows that refer to it) is not modelled. *)
Definition delete_bag (flt : option string) (i : string) (table : bag_table)
  : string + bag_table :=
  match flt with
  | Some e => inl e
  | None => inr (filter (fun row => negb (String.eqb (fst row) i)) table)
  end.

Definition deleteOrganizer (db : Db.t) (flt : option string) (id : string)
  : Db.t * Result :=
  match delete_bag flt id (Db.organizers db) with
  | inl e => (db, failure e)
  | inr table =>
      (Db.with_organizers table db,
       succeeded "Organizador e seus eventos foram excluídos.")
  end.

Definition deleteEvent (db : Db.t) (flt : option string) (id : string)
  : Db.t * Result :=
  match flt with
  | Some e => (db, failure e)
  | None =>
      (Db.with_events
         (filter (fun row => negb (String.eqb (Event.id row) id)) (Db.events db)) db,
       succeeded "Evento excluído.")
  end.

(** [deleteCompany] and [deleteCollaborator] return nothing and do not read
    the error. *)
Definition deleteCompany (db : Db.t) (flt : option string) (id : string) : Db.t :=
  match delete_bag flt id (Db.companies db) with
  | inl _ => db
  | inr table => Db.with_companies table db
  end.

Definition deleteCollaborator (db : Db.t) (flt : option string) (id : string) : Db.t :=
  match delete_bag flt id (Db.collaborators db) with
  | inl _ => db
  | inr table => Db.with_collaborators table db
  end.

Module SampleCheckIn.

(** A store with one company and no collaborator yet. *)
Definition store : Db.t :=
  Db.with_companies [("c1", [("name", VStr "Acme"); ("code", VStr "ACME")])]
    (Sample.store 1 []).

Definition bia : list (string * value) := [("name", VStr "Bia"); ("code", VStr "BIA7")].

(** The same collaborator, the code given in lower case. *)
Definition bia_lower : list (string * value) :=
  [("name", VStr "Bia"); ("code", VStr "bia7")].

(** The store once the collaborator has been added. *)
Definition staffed : Db.t :=
  Db.with_collaborators
    [("k1", [("name", VStr "Bia"); ("code", VStr "BIA7"); ("company_id", VStr "c1")])]
    store.

End SampleCheckIn.

(** * Properties *)

Section Properties.

(** The case mappings beyond ASCII are any. *)
Context {mapping : CaseMapping}.

(** ** Session state *)

(** C4.  The organizer handed to consumers follows the precedence of the
    stored session: under impersonation it is the stored organizer whatever
    the super-admin flag; without impersonation a set super-admin flag hides
    the stored organizer; with neither flag it is the stored organizer. *)
Theorem value_loggedInOrganizer_precedence :
  forall (o : option Organizer.t) (col : option Collaborator.t)
         (ev rf : option string) (admin : bool),
    value_loggedInOrganizer
      {| loggedInOrganizer := o; loggedInCollaborator := col;
         selectedEventId := ev; selectedRaffleId := rf;
         isSuperAdmin := admin; impersonatingFromAdmin := true |} = o
    /\ value_loggedInOrganizer
         {| loggedInOrganizer := o; loggedInCollaborator := col;
            selectedEventId := ev; selectedRaffleId := rf;
            isSuperAdmin := true; impersonatingFromAdmin := false |} = None
    /\ value_loggedInOrganizer
         {| loggedInOrganizer := o; loggedInCollaborator := col;
            selectedEventId := ev; selectedRaffleId := rf;
            isSuperAdmin := false; impersonatingFromAdmin := false |} = o.
Proof. intros o col ev rf admin. repeat split. Qed.

(** C8.  [logout] clears the organizer and both selections and keeps the
    collaborator and both flags; [logoutSuperAdmin] clears the super-admin
    flag only; [logoutCollaborator] clears the collaborator only. *)
Theorem logout_frames :
  forall s : Session,
    (loggedInOrganizer (logout s) = None
     /\ selectedEventId (logout s) = None
     /\ selectedRaffleId (logout s) = None
     /\ loggedInCollaborator (logout s) = loggedInCollaborator s
     /\ isSuperAdmin (logout s) = isSuperAdmin s
     /\ impersonatingFromAdmin (logout s) = impersonatingFromAdmin s)
    /\ (isSuperAdmin (logoutSuperAdmin s) = false
        /\ loggedInOrganizer (logoutSuperAdmin s) = loggedInOrganizer s
        /\ loggedInCollaborator (logoutSuperAdmin s) = loggedInCollaborator s
        /\ selectedEventId (logoutSuperAdmin s) = selectedEventId s
        /\ selectedRaffleId (logoutSuperAdmin s) = selectedRaffleId s
        /\ impersonatingFromAdmin (logoutSuperAdmin s) = impersonatingFromAdmin s)
    /\ (loggedInCollaborator (logoutCollaborator s) = None
        /\ loggedInOrganizer (logoutCollaborator s) = loggedInOrganizer s
        /\ selectedEventId (logoutCollaborator s) = selectedEventId s
        /\ selectedRaffleId (logoutCollaborator s) = selectedRaffleId s
        /\ isSuperAdmin (logoutCollaborator s) = isSuperAdmin s
        /\ impersonatingFromAdmin (logoutCollaborator s) = impersonatingFromAdmin s).
Proof. intros s. repeat split. Qed.

(** ** Characters *)

Lemma toUpper_of_lower (d : ascii) :
  Char.is_lower d = true ->
  Char.is_upper (Char.toUpper d) = true /\ Char.toLower (Char.toUpper d) = d.
Proof. by_ascii_cases d. Qed.

Lemma toLower_of_upper (c : ascii) :
  Char.is_upper c = true ->
  Char.is_lower (Char.toLower c) = true /\ Char.toUpper (Char.toLower c) = c.
Proof. by_ascii_cases c. Qed.

Lemma snake_char_classes (c : ascii) :
  snake_char c = true ->
  Char.is_upper c = false
  /\ (Char.is_sep c = true -> Ascii.eqb c Char.underscore = true).
Proof. by_ascii_cases c. Qed.

Lemma camel_char_classes (c : ascii) :
  camel_char c = true ->
  Char.is_sep c = false.
Proof. by_ascii_cases c. Qed.

Lemma underscore_is_sep : Char.is_sep Char.underscore = true.
Proof. reflexivity. Qed.

(** ** Key rewriting *)

Lemma is_lower_snake_char (c : ascii) : Char.is_lower c = true -> snake_char c = true.
Proof. unfold snake_char. intros ->. reflexivity. Qed.

Lemma is_lower_camel_char (c : ascii) : Char.is_lower c = true -> camel_char c = true.
Proof. unfold camel_char. intros ->. reflexivity. Qed.

Lemma is_snake_key_chars (k : string) :
  is_snake_key k = true -> string_forallb snake_char k = true.
Proof.
  destruct k as [|c rest]; simpl; [discriminate|].
  intros H. apply andb_true_iff in H. destruct H as [Hc Hrest].
  now rewrite (is_lower_snake_char c Hc), Hrest.
Qed.

Lemma is_camel_key_chars (k : string) :
  is_camel_key k = true -> string_forallb camel_char k = true.
Proof.
  destruct k as [|c rest]; simpl; [discriminate|].
  intros H. apply andb_true_iff in H. destruct H as [Hc Hrest].
  now rewrite (is_lower_camel_char c Hc), Hrest.
Qed.

(** [camelToSnake] undoes [snakeToCamel] on a name without upper-case
    letters and hyphens.  The scan of [snakeToCamel] looks one character
    ahead, so the induction carries the statement for a string and for the
    string with one more character in front. *)
Lemma camelToSnake_snakeToCamel_chars (k : string) :
  string_forallb snake_char k = true -> camelToSnake (snakeToCamel k) = k.
Proof.
  assert (Hboth :
    (string_forallb snake_char k = true -> camelToSnake (snakeToCamel k) = k)
    /\ (forall c, string_forallb snake_char (String c k) = true ->
                  camelToSnake (snakeToCamel (String c k)) = String c k)).
  { induction k as [|d k' [IHk IHck]].
    - split; [reflexivity|].
      intros c Hc. simpl in Hc. rewrite andb_true_r in Hc.
      destruct (snake_char_classes c Hc) as [Hup _].
      simpl. now rewrite Hup.
    - split; [apply IHck|].
      intros c Hc.
      change (snake_char c && string_forallb snake_char (String d k') = true) in Hc.
      apply andb_true_iff in Hc. destruct Hc as [Hc Hdk].
      destruct (snake_char_classes c Hc) as [Hup Hsep].
      change (snakeToCamel (String c (String d k')))
        with (if Char.is_sep c && Char.is_lower d
              then if Ascii.eqb c Char.underscore
                   then String (Char.toUpper d) (snakeToCamel k')
                   else String c (String (Char.toUpper d) (snakeToCamel k'))
              else String c (snakeToCamel (String d k'))).
      destruct (Char.is_sep c && Char.is_lower d) eqn:Hmatch.
      + apply andb_true_iff in Hmatch. destruct Hmatch as [Hs Hd].
        rewrite (Hsep Hs).
        apply Ascii.eqb_eq in Hsep; [|exact Hs]. subst c.
        destruct (toUpper_of_lower d Hd) as [Hu Hl].
        simpl in Hdk. apply andb_true_iff in Hdk. destruct Hdk as [_ Hk'].
        simpl. rewrite Hu, Hl, (IHk Hk'). reflexivity.
      + change (camelToSnake (String c (snakeToCamel (String d k'))))
          with (if Char.is_upper c
                then String Char.underscore
                       (String (Char.toLower c) (camelToSnake (snakeToCamel (String d k'))))
                else String c (camelToSnake (snakeToCamel (String d k')))).
        rewrite Hup, (IHck d Hdk). reflexivity. }
  exact (proj1 Hboth).
Qed.

Lemma snakeToCamel_camelToSnake_chars (k : string) :
  string_forallb camel_char k = true -> snakeToCamel (camelToSnake k) = k.
Proof.
  induction k as [|c k' IH]; [reflexivity|].
  intros Hk. simpl in Hk. apply andb_true_iff in Hk. destruct Hk as [Hc Hk'].
  specialize (IH Hk').
  simpl. destruct (Char.is_upper c) eqn:Hup.
  - destruct (toLower_of_upper c Hup) as [Hl Hu].
    change (snakeToCamel (String Char.underscore (String (Char.toLower c) (camelToSnake k'))))
      with (if Char.is_sep Char.underscore && Char.is_lower (Char.toLower c)
            then if Ascii.eqb Char.underscore Char.underscore
                 then String (Char.toUpper (Char.toLower c)) (snakeToCamel (camelToSnake k'))
                 else String Char.underscore
                        (String (Char.toUpper (Char.toLower c)) (snakeToCamel (camelToSnake k')))
            else String Char.underscore
                   (snakeToCamel (String (Char.toLower c) (camelToSnake k')))).
    rewrite underscore_is_sep, Hl, Hu, IH. reflexivity.
  - pose proof (camel_char_classes c Hc) as Hsep.
    destruct (camelToSnake k') as [|d rest] eqn:Hrest.
    + simpl in IH. subst k'. reflexivity.
    + change (snakeToCamel (String c (String d rest)))
        with (if Char.is_sep c && Char.is_lower d
              then if Ascii.eqb c Char.underscore
                   then String (Char.toUpper d) (snakeToCamel rest)
                   else String c (String (Char.toUpper d) (snakeToCamel rest))
              else String c (snakeToCamel (String d rest))).
      rewrite Hsep, IH. reflexivity.
Qed.

Lemma camelToSnake_snakeToCamel (k : string) :
  is_snake_key k = true -> camelToSnake (snakeToCamel k) = k.
Proof. intros H. apply camelToSnake_snakeToCamel_chars, is_snake_key_chars, H. Qed.

Lemma snakeToCamel_camelToSnake (k : string) :
  is_camel_key k = true -> snakeToCamel (camelToSnake k) = k.
Proof. intros H. apply snakeToCamel_camelToSnake_chars, is_camel_key_chars, H. Qed.

(** ** Mappings *)

Lemma value_ind_nested (P : value -> Prop) :
  P VNull ->
  (forall b, P (VBool b)) ->
  (forall n, P (VNum n)) ->
  (forall s, P (VStr s)) ->
  (forall f, P (VFile f)) ->
  (forall o, P (VOther o)) ->
  (forall vs, Forall P vs -> P (VArr vs)) ->
  (forall kvs, Forall (fun kv => P (snd kv)) kvs -> P (VObj kvs)) ->
  forall v, P v.
Proof.
  intros Hnull Hbool Hnum Hstr Hfile Hother Harr Hobj.
  fix IH 1. intros [| b | n | s | f | o | vs | kvs].
  - exact Hnull.
  - apply Hbool.
  - apply Hnum.
  - apply Hstr.
  - apply Hfile.
  - apply Hother.
  - apply Harr. induction vs as [|v vs IHvs]; constructor; [apply IH | exact IHvs].
  - apply Hobj. induction kvs as [|[k v] kvs IHkvs]; constructor;
      [apply IH | exact IHkvs].
Qed.

Lemma existsb_eqb_In (x : string) (l : list string) :
  existsb (String.eqb x) l = true <-> In x l.
Proof.
  rewrite existsb_exists. split.
  - intros [y [Hin Heq]]. apply String.eqb_eq in Heq. now subst y.
  - intros Hin. exists x. split; [exact Hin | apply String.eqb_refl].
Qed.

Lemma nodupb_NoDup (l : list string) : nodupb l = true <-> NoDup l.
Proof.
  induction l as [|x l IH]; simpl.
  - split; [constructor | reflexivity].
  - rewrite andb_true_iff, negb_true_iff, IH. split.
    + intros [Hx Hl]. constructor; [|exact Hl].
      intros Hin. apply existsb_eqb_In in Hin. congruence.
    + intros Hnd. inversion Hnd as [|y l' Hx Hl]; subst. split; [|exact Hl].
      destruct (existsb (String.eqb x) l) eqn:E; [|reflexivity].
      apply existsb_eqb_In in E. contradiction.
Qed.

Lemma keys_app (o1 o2 : list (string * value)) :
  keys (o1 ++ o2) = (keys o1 ++ keys o2)%list.
Proof. apply map_app. Qed.

Lemma obj_set_fresh (k : string) (v : value) (o : list (string * value)) :
  ~ In k (keys o) -> obj_set k v o = (o ++ [(k, v)])%list.
Proof.
  induction o as [|[k' v'] o IH]; simpl; intros Hnin; [reflexivity|].
  destruct (String.eqb k' k) eqn:E.
  - apply String.eqb_eq in E. subst k'. exfalso. apply Hnin. now left.
  - rewrite IH; [reflexivity|]. intros Hin. apply Hnin. now right.
Qed.

Lemma obj_get_set (k k' : string) (v : value) (o : list (string * value)) :
  obj_get k (obj_set k' v o) = if String.eqb k' k then Some v else obj_get k o.
Proof.
  induction o as [|[a x] o IH]; simpl.
  - reflexivity.
  - destruct (String.eqb a k') eqn:Eak'; simpl.
    + apply String.eqb_eq in Eak'. subst a. now destruct (String.eqb k' k).
    + rewrite IH. destruct (String.eqb a k) eqn:Eak; [|reflexivity].
      apply String.eqb_eq in Eak. subst a.
      now rewrite String.eqb_sym, Eak'.
Qed.

(** A run of writes [result[fk kv] = fv kv] over the entries of a mapping,
    as both transcoders make it. *)
Section Writes.

Variable fk : string * value -> string.
Variable fv : string * value -> value.

(** Writing entries whose keys are new and pairwise distinct appends them
    in order. *)
Lemma fold_obj_set_fresh (kvs acc : list (string * value)) :
  NoDup (keys acc ++ map fk kvs)%list ->
  fold_left (fun result kv => obj_set (fk kv) (fv kv) result) kvs acc
  = (acc ++ map (fun kv => (fk kv, fv kv)) kvs)%list.
Proof.
  revert acc. induction kvs as [|kv kvs IH]; intros acc Hnd; simpl.
  - now rewrite app_nil_r.
  - simpl in Hnd. pose proof (NoDup_remove_2 _ _ _ Hnd) as Hfresh.
    rewrite obj_set_fresh by (intros Hin; apply Hfresh, in_or_app; now left).
    rewrite IH.
    + now rewrite <- app_assoc.
    + rewrite keys_app. simpl. now rewrite <- app_assoc.
Qed.

(** What a sequence of writes leaves under a key all of whose writers
    agree. *)
Lemma obj_get_fold_writes (k : string) (v : value)
  (kvs acc : list (string * value)) :
  (forall kv, In kv kvs -> fk kv = k -> fv kv = v) ->
  (exists kv, In kv kvs /\ fk kv = k) \/ obj_get k acc = Some v ->
  obj_get k (fold_left (fun result kv => obj_set (fk kv) (fv kv) result) kvs acc)
  = Some v.
Proof.
  revert acc. induction kvs as [|kv kvs IH]; intros acc Hagree Hsrc; simpl.
  - destruct Hsrc as [[kv [[] _]] | Hacc]. exact Hacc.
  - apply IH.
    + intros kv' Hin. apply Hagree. now right.
    + rewrite obj_get_set.
      destruct (String.eqb (fk kv) k) eqn:E.
      * right. apply String.eqb_eq in E. f_equal. apply Hagree; [now left | exact E].
      * destruct Hsrc as [[kv' [[Heq | Hin] Hk]] | Hacc].
        -- subst kv'. rewrite Hk, String.eqb_refl in E. discriminate.
        -- left. now exists kv'.
        -- now right.
Qed.

Lemma obj_get_fold_present (k : string)
  (kvs acc : list (string * value)) :
  (exists kv, In kv kvs /\ fk kv = k) \/ (exists x, obj_get k acc = Some x) ->
  exists x,
    obj_get k (fold_left (fun result kv => obj_set (fk kv) (fv kv) result) kvs acc)
    = Some x.
Proof.
  revert acc. induction kvs as [|kv kvs IH]; intros acc Hsrc; simpl.
  - destruct Hsrc as [[kv [[] _]] | Hacc]. exact Hacc.
  - apply IH. rewrite obj_get_set.
    destruct (String.eqb (fk kv) k) eqn:E.
    + right. now exists (fv kv).
    + destruct Hsrc as [[kv' [[Heq | Hin] Hk]] | Hacc].
      * subst kv'. rewrite Hk, String.eqb_refl in E. discriminate.
      * left. now exists kv'.
      * now right.
Qed.

End Writes.

Lemma fold_left_pointwise {A B : Type} (f g : A -> B -> A) (l : list B) (a : A) :
  (forall x y, f x y = g x y) -> fold_left f l a = fold_left g l a.
Proof.
  intros Hfg. revert a. induction l as [|y l IH]; intros a; simpl; [reflexivity|].
  now rewrite Hfg, IH.
Qed.

Lemma toCamel_VObj (kvs : list (string * value)) :
  NoDup (map snakeToCamel (keys kvs)) ->
  toCamel (VObj kvs)
  = VObj (map (fun kv => (snakeToCamel (fst kv), toCamel (snd kv))) kvs).
Proof.
  intros Hnd. simpl. f_equal.
  rewrite (fold_obj_set_fresh (fun kv => snakeToCamel (fst kv))
             (fun kv => toCamel (snd kv))).
  - reflexivity.
  - simpl. unfold keys in Hnd. now rewrite map_map in Hnd.
Qed.

Lemma toSnake_VObj (kvs : list (string * value)) :
  NoDup (map snake_image (keys kvs)) ->
  toSnake (VObj kvs)
  = VObj (map (fun kv => if is_sentinel (fst kv) then (fst kv, snd kv)
                         else (camelToSnake (fst kv), toSnake (snd kv))) kvs).
Proof.
  intros Hnd. simpl. f_equal.
  rewrite (fold_left_pointwise _
             (fun result kv =>
                obj_set (snake_image (fst kv))
                        (if is_sentinel (fst kv) then snd kv else toSnake (snd kv))
                        result)).
  - rewrite fold_obj_set_fresh.
    + simpl. apply map_ext. intros [k v]. unfold snake_image. simpl.
      now destruct (is_sentinel k).
    + simpl. unfold keys in Hnd. now rewrite map_map in Hnd.
  - intros result [k v]. unfold snake_image. simpl. now destruct (is_sentinel k).
Qed.

Lemma toSnake_as_writes (kvs : list (string * value)) :
  toSnake (VObj kvs)
  = VObj (fold_left
            (fun result kv => obj_set (snake_image (fst kv)) (toSnake_written kv) result)
            kvs []).
Proof.
  simpl. f_equal. apply fold_left_pointwise.
  intros result [k v]. unfold snake_image, toSnake_written. simpl.
  now destruct (is_sentinel k).
Qed.

Lemma camelToSnake_no_upper (k : string) :
  string_forallb (fun c => negb (Char.is_upper c)) (camelToSnake k) = true.
Proof.
  induction k as [|c k IH]; [reflexivity|].
  simpl. destruct (Char.is_upper c) eqn:Hup; simpl.
  - destruct (toLower_of_upper c Hup) as [Hl _].
    assert (Hnu : Char.is_upper (Char.toLower c) = false).
    { revert Hl. generalize (Char.toLower c). intros d. by_ascii_cases d. }
    now rewrite Hnu, IH.
  - now rewrite Hup, IH.
Qed.

Lemma camelToSnake_plain (k s : string) :
  camelToSnake k = s ->
  string_forallb (fun c => negb (Char.is_upper c) && negb (Ascii.eqb c Char.underscore)) s
  = true ->
  k = s.
Proof.
  revert s. induction k as [|c k IH]; intros s Hs Hplain; [exact Hs|].
  simpl in Hs. destruct (Char.is_upper c) eqn:Hup.
  - subst s. simpl in Hplain. discriminate.
  - destruct s as [|d s]; [discriminate|].
    injection Hs as Hc Hk. subst d.
    simpl in Hplain. apply andb_true_iff in Hplain. destruct Hplain as [_ Hplain].
    f_equal. now apply IH.
Qed.

(** Only a credential key is written to a credential key. *)
Lemma snake_image_sentinel (k' k : string) :
  is_sentinel k = true -> snake_image k' = k -> k' = k.
Proof.
  intros Hk Himg. unfold snake_image in Himg.
  destruct (is_sentinel k'); [exact Himg|].
  unfold is_sentinel in Hk. apply orb_true_iff in Hk.
  destruct Hk as [Hk | Hk]; apply String.eqb_eq in Hk; subst k.
  - apply camelToSnake_plain; [exact Himg | reflexivity].
  - pose proof (camelToSnake_no_upper k') as Hnu.
    rewrite Himg in Hnu. discriminate.
Qed.

(** ** The transcoder *)

Lemma toCamel_VArr (vs : list value) : toCamel (VArr vs) = VArr (map toCamel vs).
Proof. reflexivity. Qed.

Lemma toSnake_VArr (vs : list value) : toSnake (VArr vs) = VArr (map toSnake vs).
Proof. reflexivity. Qed.

Lemma map_fixes {A : Type} (f : A -> A) (l : list A) :
  (forall x, In x l -> f x = x) -> map f l = l.
Proof.
  intros Hf. rewrite <- (map_id l) at 2. now apply map_ext_in.
Qed.

Lemma wf_value_VObj (kvs : list (string * value)) :
  wf_value (VObj kvs) = true ->
  NoDup (keys kvs) /\ forall kv, In kv kvs -> wf_value (snd kv) = true.
Proof.
  simpl. intros H. apply andb_true_iff in H. destruct H as [Hnd Hall].
  split; [now apply nodupb_NoDup|].
  intros kv Hin. rewrite forallb_forall in Hall. now apply Hall.
Qed.

Lemma keys_all_VObj (p : string -> bool) (kvs : list (string * value)) :
  keys_all p (VObj kvs) = true ->
  forall kv, In kv kvs -> p (fst kv) = true /\ keys_all p (snd kv) = true.
Proof.
  simpl. intros H kv Hin. rewrite forallb_forall in H.
  apply andb_true_iff. now apply H.
Qed.

Lemma round_trip_from_snake (v : value) :
  wf_value v = true ->
  keys_all (fun k => is_snake_key k && negb (is_sentinel (snakeToCamel k))) v = true ->
  toSnake (toCamel v) = v.
Proof.
  induction v as [| b | n | s | f | o | vs IH | kvs IH] using value_ind_nested;
    intros Hwf Hkeys; try reflexivity.
  - rewrite toCamel_VArr, toSnake_VArr, map_map. f_equal.
    apply map_fixes. intros x Hin.
    simpl in Hwf, Hkeys. rewrite forallb_forall in Hwf, Hkeys.
    rewrite Forall_forall in IH. now apply IH; [| apply Hwf | apply Hkeys].
  - destruct (wf_value_VObj kvs Hwf) as [Hnd Hwfs].
    pose proof (keys_all_VObj _ kvs Hkeys) as Hks.
    assert (Hkey : forall kv, In kv kvs ->
              camelToSnake (snakeToCamel (fst kv)) = fst kv
              /\ is_sentinel (snakeToCamel (fst kv)) = false).
    { intros kv Hin. destruct (Hks kv Hin) as [Hp _].
      apply andb_true_iff in Hp. destruct Hp as [Hsnake Hsent].
      split; [now apply camelToSnake_snakeToCamel | now apply negb_true_iff]. }
    rewrite toCamel_VObj.
    + rewrite toSnake_VObj.
      * f_equal. rewrite map_map. apply map_fixes. intros [k x] Hin.
        destruct (Hkey _ Hin) as [Hback Hsent]. simpl in Hback, Hsent |- *.
        rewrite Hsent, Hback. f_equal.
        rewrite Forall_forall in IH. apply (IH _ Hin).
        -- now apply (Hwfs _ Hin).
        -- now apply (Hks _ Hin).
      * unfold keys. rewrite !map_map. simpl.
        replace (map (fun kv => snake_image (snakeToCamel (fst kv))) kvs)
          with (keys kvs); [exact Hnd|].
        apply map_ext_in. intros kv Hin. destruct (Hkey _ Hin) as [Hback Hsent].
        unfold snake_image. now rewrite Hsent, Hback.
    + apply NoDup_map_inv with (f := camelToSnake).
      unfold keys. rewrite !map_map.
      replace (map (fun kv => camelToSnake (snakeToCamel (fst kv))) kvs)
        with (keys kvs); [exact Hnd|].
      apply map_ext_in. intros kv Hin. now destruct (Hkey _ Hin) as [-> _].
Qed.

Lemma round_trip_from_camel (v : value) :
  wf_value v = true ->
  keys_all (fun k => is_camel_key k && negb (is_sentinel k)) v = true ->
  toCamel (toSnake v) = v.
Proof.
  induction v as [| b | n | s | f | o | vs IH | kvs IH] using value_ind_nested;
    intros Hwf Hkeys; try reflexivity.
  - rewrite toSnake_VArr, toCamel_VArr, map_map. f_equal.
    apply map_fixes. intros x Hin.
    simpl in Hwf, Hkeys. rewrite forallb_forall in Hwf, Hkeys.
    rewrite Forall_forall in IH. now apply IH; [| apply Hwf | apply Hkeys].
  - destruct (wf_value_VObj kvs Hwf) as [Hnd Hwfs].
    pose proof (keys_all_VObj _ kvs Hkeys) as Hks.
    assert (Hkey : forall kv, In kv kvs ->
              snakeToCamel (camelToSnake (fst kv)) = fst kv
              /\ is_sentinel (fst kv) = false).
    { intros kv Hin. destruct (Hks kv Hin) as [Hp _].
      apply andb_true_iff in Hp. destruct Hp as [Hcamel Hsent].
      split; [now apply snakeToCamel_camelToSnake | now apply negb_true_iff]. }
    rewrite toSnake_VObj.
    + rewrite toCamel_VObj.
      * f_equal. rewrite map_map. apply map_fixes. intros [k x] Hin.
        destruct (Hkey _ Hin) as [Hback Hsent]. simpl in Hback, Hsent |- *.
        rewrite Hsent. simpl. rewrite Hback. f_equal.
        rewrite Forall_forall in IH. apply (IH _ Hin).
        -- now apply (Hwfs _ Hin).
        -- now apply (Hks _ Hin).
      * unfold keys. rewrite !map_map.
        replace (map (fun kv =>
                        snakeToCamel
                          (fst (if is_sentinel (fst kv) then (fst kv, snd kv)
                                else (camelToSnake (fst kv), toSnake (snd kv))))) kvs)
          with (keys kvs); [exact Hnd|].
        apply map_ext_in. intros kv Hin. destruct (Hkey _ Hin) as [Hback Hsent].
        rewrite Hsent. simpl. now rewrite Hback.
    + apply NoDup_map_inv with (f := snakeToCamel).
      unfold keys. rewrite !map_map.
      replace (map (fun kv => snakeToCamel (snake_image (fst kv))) kvs)
        with (keys kvs); [exact Hnd|].
      apply map_ext_in. intros kv Hin. destruct (Hkey _ Hin) as [Hback Hsent].
      unfold snake_image. now rewrite Hsent, Hback.
Qed.

(** C5 (as amended).  Transcoding to the other convention and back gives
    the value back, for a value whose mappings have no key twice: from
    underscore-separated keys when no key is transcoded to a credential key
    ([toCamel] then [toSnake]), and from camel-cased keys when no key is a
    credential key ([toSnake] then [toCamel]).  The result is the same
    value: same keys in the same order, same array order, same leaves. *)
Theorem transcoding_round_trip :
  forall v : value,
    wf_value v = true ->
    (keys_all (fun k => is_snake_key k && negb (is_sentinel (snakeToCamel k))) v = true ->
     toSnake (toCamel v) = v)
    /\ (keys_all (fun k => is_camel_key k && negb (is_sentinel k)) v = true ->
        toCamel (toSnake v) = v).
Proof.
  intros v Hwf. split; intros Hkeys.
  - now apply round_trip_from_snake.
  - now apply round_trip_from_camel.
Qed.

Lemma transcoding_round_trip_witness :
  (wf_value (VObj [("raffle_id", VStr "r1");
                   ("prize_list", VArr [VObj [("company_id", VNum 3)]])]) = true
   /\ toSnake (toCamel (VObj [("raffle_id", VStr "r1");
                              ("prize_list", VArr [VObj [("company_id", VNum 3)]])]))
      = VObj [("raffle_id", VStr "r1");
              ("prize_list", VArr [VObj [("company_id", VNum 3)]])])
  /\ (wf_value (VObj [("raffleId", VStr "r1");
                      ("prizeList", VArr [VObj [("companyId", VNum 3)]])]) = true
      /\ toCamel (toSnake (VObj [("raffleId", VStr "r1");
                                 ("prizeList", VArr [VObj [("companyId", VNum 3)]])]))
         = VObj [("raffleId", VStr "r1");
                 ("prizeList", VArr [VObj [("companyId", VNum 3)]])]).
Proof.
  split; (split; [reflexivity|]).
  - apply (proj1 (transcoding_round_trip
                    (VObj [("raffle_id", VStr "r1");
                           ("prize_list", VArr [VObj [("company_id", VNum 3)]])])
                    eq_refl)).
    reflexivity.
  - apply (proj2 (transcoding_round_trip
                    (VObj [("raffleId", VStr "r1");
                           ("prizeList", VArr [VObj [("companyId", VNum 3)]])])
                    eq_refl)).
    reflexivity.
Defined.

(** C5 as stated fails: [confirm_password] is an underscore-separated key
    and not a credential key, but [toCamel] turns it into one, which
    [toSnake] then leaves as it is. *)
Lemma round_trip_confirm_password :
  wf_value (VObj [("confirm_password", VStr "x")]) = true
  /\ keys_all (fun k => is_snake_key k && negb (is_sentinel k))
       (VObj [("confirm_password", VStr "x")]) = true
  /\ toSnake (toCamel (VObj [("confirm_password", VStr "x")]))
     = VObj [("confirmPassword", VStr "x")]
  /\ toSnake (toCamel (VObj [("confirm_password", VStr "x")]))
     <> VObj [("confirm_password", VStr "x")].
Proof. repeat split; try reflexivity. discriminate. Qed.

Lemma NoDup_keys_functional (kvs : list (string * value)) (k : string) (v v' : value) :
  NoDup (keys kvs) -> In (k, v) kvs -> In (k, v') kvs -> v = v'.
Proof.
  induction kvs as [|[a x] kvs IH]; simpl; intros Hnd Hv Hv'; [destruct Hv|].
  inversion Hnd as [|y l Hnin Hnd']; subst.
  assert (Hkey : forall w, In (k, w) kvs -> In k (keys kvs)).
  { intros w Hin. apply (in_map fst) in Hin. exact Hin. }
  destruct Hv as [Hv | Hv], Hv' as [Hv' | Hv'].
  - congruence.
  - injection Hv as -> _. exfalso. eauto.
  - injection Hv' as -> _. exfalso. eauto.
  - now apply IH.
Qed.

Lemma collision_free_VObj (kvs : list (string * value)) :
  collision_free (VObj kvs) = true ->
  NoDup (map snake_image (keys kvs))
  /\ forall kv, In kv kvs ->
       is_sentinel (fst kv) = false -> collision_free (snd kv) = true.
Proof.
  simpl. intros H. apply andb_true_iff in H. destruct H as [Hnd Hall].
  split; [now apply nodupb_NoDup|].
  intros kv Hin Hsent. rewrite forallb_forall in Hall.
  specialize (Hall kv Hin). now rewrite Hsent in Hall.
Qed.

Lemma toSnake_rewrite_keys (v : value) :
  collision_free v = true -> toSnake v = rewrite_keys v.
Proof.
  induction v as [| b | n | s | f | o | vs IH | kvs IH] using value_ind_nested;
    intros Hfree; try reflexivity.
  - rewrite toSnake_VArr. simpl. f_equal. apply map_ext_in. intros x Hin.
    simpl in Hfree. rewrite forallb_forall in Hfree.
    rewrite Forall_forall in IH. now apply IH; [| apply Hfree].
  - destruct (collision_free_VObj kvs Hfree) as [Hnd Hsub].
    rewrite (toSnake_VObj kvs Hnd). simpl. f_equal.
    apply map_ext_in. intros [k x] Hin. simpl.
    destruct (is_sentinel k) eqn:Hsent; [reflexivity|].
    f_equal. rewrite Forall_forall in IH. apply (IH _ Hin).
    now apply (Hsub _ Hin).
Qed.

Lemma snake_image_camel_injective (k k' : string) :
  is_camel_key k = true -> is_camel_key k' = true ->
  snake_image k = snake_image k' -> k = k'.
Proof.
  intros Hk Hk' Himg.
  destruct (is_sentinel k) eqn:Hs.
  - symmetry. apply (snake_image_sentinel k' k Hs).
    rewrite <- Himg. unfold snake_image. now rewrite Hs.
  - destruct (is_sentinel k') eqn:Hs'.
    + apply (snake_image_sentinel k k' Hs').
      rewrite Himg. unfold snake_image. now rewrite Hs'.
    + unfold snake_image in Himg. rewrite Hs, Hs' in Himg.
      apply (f_equal snakeToCamel) in Himg.
      now rewrite !snakeToCamel_camelToSnake in Himg.
Qed.

(** The keys of a camel-cased mapping are written to distinct keys. *)
Lemma camel_keys_collision_free (v : value) :
  wf_value v = true -> keys_all is_camel_key v = true -> collision_free v = true.
Proof.
  induction v as [| b | n | s | f | o | vs IH | kvs IH] using value_ind_nested;
    intros Hwf Hkeys; try reflexivity.
  - simpl in Hwf, Hkeys |- *. rewrite forallb_forall in Hwf, Hkeys |- *.
    intros x Hin. rewrite Forall_forall in IH. now apply IH; [| apply Hwf | apply Hkeys].
  - destruct (wf_value_VObj kvs Hwf) as [Hnd Hwfs].
    pose proof (keys_all_VObj _ kvs Hkeys) as Hks.
    simpl. apply andb_true_iff. split.
    + apply nodupb_NoDup. apply NoDup_map_NoDup_ForallPairs; [|exact Hnd].
      intros k k' Hin Hin' Himg.
      apply in_map_iff in Hin, Hin'.
      destruct Hin as [kv [<- Hkv]], Hin' as [kv' [<- Hkv']].
      apply snake_image_camel_injective; [apply (Hks _ Hkv) | apply (Hks _ Hkv') | exact Himg].
    + apply forallb_forall. intros kv Hin. apply orb_true_iff. right.
      rewrite Forall_forall in IH. apply (IH _ Hin); [apply (Hwfs _ Hin) | apply (Hks _ Hin)].
Qed.

Lemma toSnake_entry_rewritten (kvs : list (string * value)) (k : string) (x : value) :
  NoDup (keys kvs) -> In (k, x) kvs -> is_sentinel k = false ->
  (forall k', In k' (keys kvs) -> snake_image k' = camelToSnake k -> k' = k) ->
  obj_get (camelToSnake k) (obj_of (toSnake (VObj kvs))) = Some (toSnake x).
Proof.
  intros Hnd Hin Hsent Halone. rewrite toSnake_as_writes. simpl.
  apply obj_get_fold_writes.
  - intros [k' x'] Hin' Himg. simpl in Himg.
    assert (k' = k) by (apply Halone; [apply (in_map fst) in Hin'; exact Hin' | exact Himg]).
    subst k'. unfold toSnake_written. simpl. rewrite Hsent. f_equal.
    now apply (NoDup_keys_functional kvs k).
  - left. exists (k, x). split; [exact Hin|].
    unfold snake_image. simpl. now rewrite Hsent.
Qed.

(** C9.  [toSnake] is the entry-by-entry rewriting of the specification at
    every depth it reaches: a credential key ([password],
    [confirmPassword]) is kept with its value as it is, any other key [k]
    becomes [camelToSnake k] with its value transcoded in turn.  This holds
    for every value in which no two keys of a mapping are written to the
    same key (first part), so for every value whose mappings have
    camel-cased keys (second part).  In any mapping, the entry of a
    credential key is found unchanged in the result (third part); every
    other key is found in its underscore-separated form (fourth part),
    with its value transcoded when no other key of the mapping is written
    there (fifth part). *)
Theorem toSnake_credential_keys :
  (forall v : value, collision_free v = true -> toSnake v = rewrite_keys v)
  /\ (forall v : value,
        wf_value v = true -> keys_all is_camel_key v = true ->
        toSnake v = rewrite_keys v)
  /\ (forall (kvs : list (string * value)) (k : string) (x : value),
        NoDup (keys kvs) -> In (k, x) kvs -> is_sentinel k = true ->
        obj_get k (obj_of (toSnake (VObj kvs))) = Some x)
  /\ (forall (kvs : list (string * value)) (k : string) (x : value),
        In (k, x) kvs -> is_sentinel k = false ->
        exists y, obj_get (camelToSnake k) (obj_of (toSnake (VObj kvs))) = Some y)
  /\ (forall (kvs : list (string * value)) (k : string) (x : value),
        NoDup (keys kvs) -> In (k, x) kvs -> is_sentinel k = false ->
        (forall k', In k' (keys kvs) -> snake_image k' = camelToSnake k -> k' = k) ->
        obj_get (camelToSnake k) (obj_of (toSnake (VObj kvs))) = Some (toSnake x)).
Proof.
  split; [exact toSnake_rewrite_keys|].
  split.
  { intros v Hwf Hkeys. now apply toSnake_rewrite_keys, camel_keys_collision_free. }
  split.
  { intros kvs k x Hnd Hin Hsent. rewrite toSnake_as_writes. simpl.
    apply obj_get_fold_writes.
    - intros [k' x'] Hin' Himg. simpl in Himg.
      apply (snake_image_sentinel k' k Hsent) in Himg. subst k'.
      unfold toSnake_written. simpl. rewrite Hsent.
      now apply (NoDup_keys_functional kvs k).
    - left. exists (k, x). split; [exact Hin|].
      unfold snake_image. simpl. now rewrite Hsent. }
  split; [|exact toSnake_entry_rewritten].
  intros kvs k x Hin Hsent. rewrite toSnake_as_writes. simpl.
  apply obj_get_fold_present. left. exists (k, x). split; [exact Hin|].
  unfold snake_image. simpl. now rewrite Hsent.
Qed.

Lemma toSnake_credential_keys_witness :
  toSnake (VObj [("photoUrl", VStr "u");
                 ("password", VObj [("aB", VNull)]);
                 ("roletaColors", VArr [VObj [("hexCode", VStr "#fff")]])])
  = VObj [("photo_url", VStr "u");
          ("password", VObj [("aB", VNull)]);
          ("roleta_colors", VArr [VObj [("hex_code", VStr "#fff")]])]
  /\ obj_get "confirmPassword"
       (obj_of (toSnake (VObj [("confirmPassword", VObj [("aB", VNull)]);
                               ("photoUrl", VStr "u")])))
     = Some (VObj [("aB", VNull)])
  /\ obj_get "photo_url"
       (obj_of (toSnake (VObj [("confirmPassword", VObj [("aB", VNull)]);
                               ("photoUrl", VStr "u")])))
     = Some (VStr "u").
Proof.
  split; [|split].
  - apply (proj1 (proj2 toSnake_credential_keys)
             (VObj [("photoUrl", VStr "u");
                    ("password", VObj [("aB", VNull)]);
                    ("roletaColors", VArr [VObj [("hexCode", VStr "#fff")]])])).
    + reflexivity.
    + reflexivity.
  - apply (proj1 (proj2 (proj2 toSnake_credential_keys))).
    + apply nodupb_NoDup. reflexivity.
    + simpl. left. reflexivity.
    + reflexivity.
  - apply (proj2 (proj2 (proj2 (proj2 toSnake_credential_keys)))
             [("confirmPassword", VObj [("aB", VNull)]); ("photoUrl", VStr "u")]
             "photoUrl" (VStr "u")).
    + apply nodupb_NoDup. reflexivity.
    + simpl. right. left. reflexivity.
    + reflexivity.
    + intros k' [<- | [<- | []]]; [discriminate | reflexivity].
Defined.

(** ** Random selection *)

(** ** Rounding to the nearest double *)

Section Doubles.

Local Open Scope Q_scope.

(** The nearest integer is at most one half away. *)
Lemma round_half_even_bounds (t : Q) :
  t - (1 # 2) <= inject_Z (round_half_even t) <= t + (1 # 2).
Proof.
  unfold round_half_even.
  pose proof (Qfloor_le t) as Hlo. pose proof (Qlt_floor t) as Hhi.
  rewrite inject_Z_plus in Hhi. change (inject_Z 1) with 1 in Hhi.
  destruct (Qcompare_spec (t - inject_Z (Qfloor t)) (1 # 2)) as [E|E|E].
  - destruct (Z.even (Qfloor t)).
    + lra.
    + rewrite inject_Z_plus. change (inject_Z 1) with 1. lra.
  - lra.
  - rewrite inject_Z_plus. change (inject_Z 1) with 1. lra.
Qed.

Lemma round_half_even_nonneg (t : Q) : 0 <= t -> (0 <= round_half_even t)%Z.
Proof.
  intros Ht. unfold round_half_even.
  assert (H0 : (0 <= Qfloor t)%Z).
  { change 0%Z with (Qfloor 0). now apply Qfloor_resp_le. }
  destruct (_ ?= _); [destruct (Z.even _)| |]; lia.
Qed.

Lemma pow2_pos (e : Z) : 0 < 2 ^ e.
Proof. apply Qpower_0_lt. reflexivity. Qed.

Lemma pow2_succ (e : Z) : 2 ^ (e + 1) == 2 * 2 ^ e.
Proof. rewrite Qpower_plus by discriminate. rewrite Qpower_1_r. ring. Qed.

Lemma pow2_log2 (a : Z) :
  (0 < a)%Z -> 2 ^ Z.log2 a <= inject_Z a /\ inject_Z a < 2 * 2 ^ Z.log2 a.
Proof.
  intros Ha. destruct (Z.log2_spec a Ha) as [Hlo Hhi].
  pose proof (Z.log2_nonneg a) as Hnn.
  rewrite <- pow2_succ.
  change 2 with (inject_Z 2). rewrite <- !Zpower_Qpower by lia.
  split; [rewrite <- Zle_Qle | rewrite <- Zlt_Qlt]; lia.
Qed.

(** [binade q] is the exponent of the power of two at or below [q]. *)
Lemma binade_spec (q : Q) : 0 < q -> 2 ^ binade q <= q /\ q < 2 * 2 ^ binade q.
Proof.
  intros Hq. unfold binade. cbv zeta.
  assert (Ha : (0 < Qnum q)%Z).
  { destruct q as [a b]. unfold Qlt in Hq. simpl in *. lia. }
  destruct (pow2_log2 (Qnum q) Ha) as [Ha1 Ha2].
  destruct (pow2_log2 (Z.pos (Qden q)) eq_refl) as [Hb1 Hb2].
  set (la := Z.log2 (Qnum q)) in *. set (lb := Z.log2 (Z.pos (Qden q))) in *.
  assert (HX : 2 ^ (la - lb) * 2 ^ lb == 2 ^ la).
  { rewrite <- Qpower_plus by discriminate. now replace (la - lb + lb)%Z with la by lia. }
  assert (Hqb : q * inject_Z (Z.pos (Qden q)) == inject_Z (Qnum q)).
  { destruct q as [a b]. cbn [Qnum Qden]. rewrite (Qmake_Qdiv a b). field. discriminate. }
  pose proof (pow2_pos (la - lb)) as HXpos. pose proof (pow2_pos lb) as Hlbpos.
  assert (HBpos : 0 < inject_Z (Z.pos (Qden q))) by reflexivity.
  set (X := 2 ^ (la - lb)) in *. set (PB := 2 ^ lb) in *. set (PA := 2 ^ la) in *.
  set (A := inject_Z (Qnum q)) in *. set (B := inject_Z (Z.pos (Qden q))) in *.
  assert (Hup : q < 2 * X).
  { apply Qmult_lt_r with B; [exact HBpos|]. nra. }
  assert (Hlow : X <= 2 * q).
  { apply Qmult_le_r with B; [exact HBpos|]. nra. }
  destruct (Qle_bool X q) eqn:E.
  - apply Qle_bool_iff in E. split; [exact E | exact Hup].
  - assert (Hlt : q < X).
    { apply Qnot_le_lt. intros Hle. apply Qle_bool_iff in Hle. congruence. }
    assert (Hhalf : 2 * 2 ^ (la - lb - 1) == X).
    { rewrite <- pow2_succ. subst X. now replace (la - lb - 1 + 1)%Z with (la - lb)%Z by lia. }
    split; lra.
Qed.

Lemma Qabs_pos_eq (x : Q) : 0 < x -> Qabs x = x.
Proof.
  destruct x as [a b]. unfold Qlt. simpl. intros Ha. unfold Qabs.
  f_equal. lia.
Qed.

Lemma ulp_pos (x : Q) : 0 < ulp x.
Proof. apply pow2_pos. Qed.

Lemma ulp_bound (x : Q) : 0 < x -> ulp x <= x * 2 ^ (-52) + 2 ^ (-1074).
Proof.
  intros Hx. unfold ulp. rewrite (Qabs_pos_eq x Hx).
  destruct (binade_spec x Hx) as [Hlo _].
  pose proof (pow2_pos (-52)) as H52. pose proof (pow2_pos (-1074)) as H1074.
  destruct (Z.max_spec (binade x - 52) (-1074)) as [[_ ->] | [_ ->]].
  - nra.
  - assert (E : 2 ^ (binade x - 52) == 2 ^ binade x * 2 ^ (-52)).
    { replace (binade x - 52)%Z with (binade x + -52)%Z by lia.
      now rewrite Qpower_plus by discriminate. }
    rewrite E. nra.
Qed.

Lemma round_double_nonneg (x : Q) : 0 <= x -> 0 <= round_double x.
Proof.
  intros Hx. unfold round_double. destruct (Qeq_bool x 0); [lra|].
  pose proof (ulp_pos x) as Hu.
  apply Qmult_le_0_compat; [|lra].
  change 0 with (inject_Z 0). rewrite <- Zle_Qle.
  apply round_half_even_nonneg.
  apply Qle_shift_div_l; [exact Hu | lra].
Qed.

(** The rounding error is at most half a unit in the last place. *)
Lemma round_double_upper (x : Q) :
  0 <= x -> round_double x <= x + (x * 2 ^ (-53) + 2 ^ (-1075)).
Proof.
  intros Hx. unfold round_double.
  pose proof (pow2_pos (-53)) as H53. pose proof (pow2_pos (-1075)) as H1075.
  destruct (Qeq_bool x 0) eqn:E; [nra|].
  assert (Hpos : 0 < x).
  { apply Qle_lteq in Hx. destruct Hx as [Hx | Hx]; [exact Hx|].
    symmetry in Hx. apply Qeq_bool_iff in Hx. congruence. }
  pose proof (ulp_pos x) as Hu. pose proof (ulp_bound x Hpos) as Hb.
  destruct (round_half_even_bounds (x / ulp x)) as [_ Hr].
  assert (Hm : inject_Z (round_half_even (x / ulp x)) * ulp x
               <= (x / ulp x + (1 # 2)) * ulp x).
  { apply Qmult_le_compat_r; [exact Hr | lra]. }
  assert (Hd : (x / ulp x + (1 # 2)) * ulp x == x + (1 # 2) * ulp x).
  { field. lra. }
  assert (E52 : 2 ^ (-52) == 2 * 2 ^ (-53)) by reflexivity.
  assert (E1074 : 2 ^ (-1074) == 2 * 2 ^ (-1075)) by reflexivity.
  rewrite E52, E1074 in Hb. lra.
Qed.

Lemma round_half_even_comp (t t' : Q) : t == t' -> round_half_even t = round_half_even t'.
Proof.
  intros E. unfold round_half_even. rewrite (Qfloor_comp _ _ E).
  assert (E' : t - inject_Z (Qfloor t') == t' - inject_Z (Qfloor t')) by (rewrite E; reflexivity).
  now rewrite (Qcompare_comp _ _ E' _ _ (Qeq_refl (1 # 2))).
Qed.

Lemma round_half_even_Z (z : Z) : round_half_even (inject_Z z) = z.
Proof.
  unfold round_half_even. rewrite Qfloor_Z.
  assert (E : inject_Z z - inject_Z z == 0) by ring.
  now rewrite (Qcompare_comp _ _ E _ _ (Qeq_refl (1 # 2))).
Qed.

(** Rounding leaves a double as it is. *)
Lemma round_double_double (q : Q) : 0 <= q -> double q -> round_double q == q.
Proof.
  intros Hq [m [e [Hr [Hm He]]]]. unfold round_double.
  destruct (Qeq_bool q 0) eqn:E0.
  { apply Qeq_bool_iff in E0. now rewrite E0. }
  assert (Hpos : 0 < q).
  { apply Qle_lteq in Hq. destruct Hq as [Hq | Hq]; [exact Hq|].
    symmetry in Hq. apply Qeq_bool_iff in Hq. congruence. }
  unfold ulp. rewrite (Qabs_pos_eq q Hpos).
  destruct (binade_spec q Hpos) as [Hlo Hhi].
  set (b := binade q) in *.
  set (u := Z.max (b - 52) (-1074)).
  pose proof (pow2_pos e) as Hpe. pose proof (pow2_pos u) as Hpu.
  assert (Hmpos : (0 < m)%Z).
  { rewrite Zlt_Qlt. change (inject_Z 0) with 0.
    apply Qmult_lt_r with (2 ^ e); [exact Hpe|]. rewrite <- Hr. lra. }
  assert (Hue : (u <= e)%Z).
  { destruct (Z_le_gt_dec u e) as [H | H]; [exact H|]. exfalso.
    assert (Hb : (e < b - 52)%Z) by lia.
    assert (Hm53 : inject_Z m < 2 ^ 53).
    { change (2 ^ 53) with (inject_Z (2 ^ 53)). rewrite <- Zlt_Qlt. lia. }
    assert (Hpow : 2 ^ (e + 53) <= 2 ^ b).
    { apply Qpower_le_compat_l; [lia | lra]. }
    assert (Hsplit : 2 ^ (e + 53) == 2 ^ e * 2 ^ 53).
    { now rewrite Qpower_plus by discriminate. }
    assert (Hlt : q < 2 ^ e * 2 ^ 53).
    { rewrite Hr, (Qmult_comm (2 ^ e)). apply Qmult_lt_compat_r; assumption. }
    rewrite <- Hsplit in Hlt. lra. }
  assert (Hint : q / 2 ^ u == inject_Z (m * 2 ^ (e - u))).
  { rewrite inject_Z_mult, Zpower_Qpower by lia. change (inject_Z 2) with 2.
    rewrite Qpower_minus by discriminate. rewrite Hr. field.
    intros Hz. rewrite Hz in Hpu. lra. }
  rewrite (round_half_even_comp _ _ Hint), round_half_even_Z, <- Hint.
  field. intros Hz. rewrite Hz in Hpu. lra.
Qed.

(** The doubles below 1 end at [1 - 2^-53]. *)
Lemma double_below_one (r : Q) : double r -> r < 1 -> r <= 1 - 2 ^ (-53).
Proof.
  intros [m [e [Hr [Hm He]]]] Hlt.
  assert (H53 : 2 ^ 53 * 2 ^ (-53) == 1) by reflexivity.
  pose proof (pow2_pos (-53)) as Hp53. pose proof (pow2_pos e) as Hpe.
  destruct (Z_lt_le_dec e (-53)) as [Hsmall | Hbig].
  - assert (Hme : inject_Z m <= 2 ^ 53).
    { change (2 ^ 53) with (inject_Z (2 ^ 53)). rewrite <- Zle_Qle. lia. }
    assert (Hpow : 2 ^ e <= 2 ^ (-54)).
    { apply Qpower_le_compat_l; [lia | lra]. }
    assert (E54 : 2 ^ 53 * 2 ^ (-54) == 1 # 2) by reflexivity.
    assert (E53 : 2 ^ (-53) <= 1 # 2) by (vm_compute; discriminate).
    assert (Hle : inject_Z m * 2 ^ e <= 2 ^ 53 * 2 ^ (-54)).
    { destruct (Qlt_le_dec (inject_Z m) 0) as [Hneg | Hnn].
      - pose proof (pow2_pos (-54)). nra.
      - apply Qmult_le_compat_nonneg; split; lra. }
    lra.
  - set (k := (e + 53)%Z).
    assert (Hk : 2 ^ e == inject_Z (2 ^ k) * 2 ^ (-53)).
    { rewrite Zpower_Qpower by lia. change (inject_Z 2) with 2.
      rewrite <- Qpower_plus by discriminate. subst k.
      now replace (e + 53 + -53)%Z with e by lia. }
    assert (Hint : r == inject_Z (m * 2 ^ k) * 2 ^ (-53)).
    { rewrite Hr, Hk, inject_Z_mult. ring. }
    assert (Hz : (m * 2 ^ k < 2 ^ 53)%Z).
    { rewrite Zlt_Qlt. change (inject_Z (2 ^ 53)%Z) with (2 ^ 53).
      apply Qmult_lt_r with (2 ^ (-53)); [exact Hp53|].
      rewrite <- Hint, H53. exact Hlt. }
    assert (Hz' : inject_Z (m * 2 ^ k) <= 2 ^ 53 - 1).
    { change (2 ^ 53 - 1) with (inject_Z (2 ^ 53 - 1)). rewrite <- Zle_Qle. lia. }
    rewrite Hint.
    apply Qle_trans with ((2 ^ 53 - 1) * 2 ^ (-53)).
    + apply Qmult_le_compat_r; [exact Hz' | lra].
    + assert (Ed : (2 ^ 53 - 1) * 2 ^ (-53) == 2 ^ 53 * 2 ^ (-53) - 2 ^ (-53)) by ring.
      rewrite Ed, H53. lra.
Qed.

(** The rounded product stays below the length: the product is at most
    [n * (1 - 2^-53)], and rounding raises it by a factor of at most
    [1 + 2^-53] (and by [2^-1075] among the subnormal numbers). *)
Lemma random_index_bounds (r : Q) (n : nat) :
  unit_interval r -> (0 < n)%nat -> (0 <= random_index r n < Z.of_nat n)%Z.
Proof.
  intros [Hd [Hlo Hhi]] Hn. unfold random_index.
  pose proof (double_below_one r Hd Hhi) as Hr.
  assert (HN : 1 <= inject_Z (Z.of_nat n)).
  { change 1 with (inject_Z 1). rewrite <- Zle_Qle. lia. }
  set (N := inject_Z (Z.of_nat n)) in *.
  assert (Hx : 0 <= r * N) by nra.
  pose proof (round_double_nonneg _ Hx) as Hnn.
  pose proof (round_double_upper _ Hx) as Hup.
  assert (E53 : 2 ^ (-53) == 1 # 9007199254740992) by reflexivity.
  assert (E1075 : 2 ^ (-1075) <= (1 # 9007199254740992) * (1 # 9007199254740992) * (1#2))
    by (vm_compute; discriminate).
  rewrite E53 in Hr, Hup.
  assert (Hlt : round_double (r * N) < N) by nra.
  split.
  - change 0%Z with (Qfloor 0). now apply Qfloor_resp_le.
  - rewrite Zlt_Qlt. apply Qle_lt_trans with (round_double (r * N)); [apply Qfloor_le | exact Hlt].
Qed.

(** The product is rounded before the floor is taken: for the double
    nearest to two thirds and a list of three, the exact product is below
    2 and the rounded one is 2. *)
Example random_index_two_thirds :
  (Qfloor ((6004799503160661 # 9007199254740992) * 3) = 1)%Z
  /\ random_index (6004799503160661 # 9007199254740992) 3 = 2%Z.
Proof. split; vm_compute; reflexivity. Qed.

(** On these factors (normal and subnormal, one product half-way between
    two doubles) the rounded product is the product of the Standard
    Library's specification of IEEE 754 ([SFmul] at precision 53). *)
Example round_double_as_SFmul :
  forallb (fun xy : spec_float * spec_float =>
             match SF2Q (fst xy), SF2Q (snd xy), SF2Q (SFmul 53 1024 (fst xy) (snd xy)) with
             | Some a, Some b, Some c => Qeq_bool (round_double (a * b)) c
             | _, _, _ => false
             end)
    [(S754_finite false 6004799503160661 (-53), S754_finite false 3 0);
     (S754_finite false 7205759403792794 (-56), S754_finite false 3 0);
     (S754_finite false 9007199254740991 (-53), S754_finite false 7 0);
     (S754_finite false 9007199254740991 (-53), S754_finite false 4294967295 0);
     (S754_finite false 5 (-1074), S754_finite false 3 0);
     (S754_finite false 4503599627370497 (-1074), S754_finite false 3 0);
     (S754_finite false 6004799503160661 (-1074), S754_finite false 5 0);
     (S754_finite false 4503599627370497 (-52), S754_finite false 6755399441055745 (-52));
     (S754_finite false 4503599627370497 (-52), S754_finite false 3 (-1));
     (S754_finite true 6004799503160661 (-53), S754_finite false 3 0);
     (S754_zero false, S754_finite false 3 0)]%list
  = true.
Proof. vm_compute. reflexivity. Qed.

End Doubles.

Lemma arr_get_in_range {A : Type} (arr : list A) (i : Z) :
  (0 <= i < Z.of_nat (length arr))%Z ->
  exists x, arr_get arr i = Some x /\ In x arr.
Proof.
  intros [Hlo Hhi]. unfold arr_get.
  destruct (i <? 0)%Z eqn:E; [apply Z.ltb_lt in E; lia|].
  destruct (nth_error arr (Z.to_nat i)) as [x|] eqn:Hnth.
  - exists x. split; [reflexivity | now apply nth_error_In in Hnth].
  - apply nth_error_None in Hnth. lia.
Qed.

Lemma random_pick {A : Type} (arr : list A) (r : Q) :
  unit_interval r -> 0 < length arr ->
  exists x, arr_get arr (random_index r (length arr)) = Some x /\ In x arr.
Proof.
  intros Hr Hlen. apply arr_get_in_range. now apply random_index_bounds.
Qed.

Lemma drawWinner_returns (c : Client.t) (db : Db.t) (r : Q) (now : string)
  (flt : option string) :
  unit_interval r -> snd (drawWinner c db r now flt) <> Threw.
Proof.
  intros Hr. unfold drawWinner.
  destruct (selectedRaffle c) as [raffle|]; [|discriminate].
  destruct (Nat.eqb (length (eligible_of db (Raffle.id raffle))) 0) eqn:Hlen;
    [discriminate|].
  apply Nat.eqb_neq in Hlen.
  destruct (random_pick (eligible_of db (Raffle.id raffle)) r Hr) as [w [Hw _]];
    [lia|].
  rewrite Hw.
  destruct (update_winner flt (Participant.id w) now (Db.participants db))
    as [table [u|]]; discriminate.
Qed.

(** C10.  The index [Math.floor(r * n)] of a random value [r], a double in
    [[0, 1)], the product being rounded to the nearest double before the
    floor is taken, lies in [[0, n)] for a non-empty list of [n] elements,
    so the element read at it exists; [drawWinner] and both [handleSpin]
    handlers therefore never read an element outside their list, and they
    return before any indexing when the list is empty (draw) or has fewer
    than two prizes (wheel). *)
Theorem random_selection_in_bounds :
  (forall (r : Q) (n : nat),
      unit_interval r -> 0 < n -> (0 <= random_index r n < Z.of_nat n)%Z)
  /\ (forall (c : Client.t) (db : Db.t) (r : Q) (now : string) (flt : option string),
        unit_interval r -> snd (drawWinner c db r now flt) <> Threw)
  /\ (forall (c : Client.t) (db : Db.t) (r : Q) (now : string) (flt : option string)
             (raffle : Raffle.t),
        selectedRaffle c = Some raffle ->
        eligible_of db (Raffle.id raffle) = [] ->
        drawWinner c db r now flt = (db, Returned None))
  /\ (forall (st : PublicRoleta.State) (prizes : list Prize.t) (r : Q),
        unit_interval r ->
        PublicRoleta.isSpun st = false -> PublicRoleta.isSpinning st = false ->
        2 <= length prizes ->
        exists w,
          arr_get prizes (random_index r (length prizes)) = Some w
          /\ In w prizes
          /\ PublicRoleta.handleSpin st prizes r
             = Returned {| PublicRoleta.isSpun := true;
                           PublicRoleta.isSpinning := true;
                           PublicRoleta.winner := Some w;
                           PublicRoleta.winningPrizeId := Some (Prize.id w) |})
  /\ (forall (st : PublicRoleta.State) (prizes : list Prize.t) (r : Q),
        length prizes < 2 -> PublicRoleta.handleSpin st prizes r = Returned st)
  /\ (forall (st : CollaboratorRoleta.State) (prizes : list Prize.t) (r : Q),
        unit_interval r ->
        CollaboratorRoleta.isSpinning st = false ->
        2 <= length prizes ->
        exists w,
          arr_get prizes (random_index r (length prizes)) = Some w
          /\ In w prizes
          /\ CollaboratorRoleta.handleSpin st prizes r
             = Returned {| CollaboratorRoleta.isSpinning := true;
                           CollaboratorRoleta.winner := Some w;
                           CollaboratorRoleta.winningPrizeId := Some (Prize.id w) |})
  /\ (forall (st : CollaboratorRoleta.State) (prizes : list Prize.t) (r : Q),
        length prizes < 2 -> CollaboratorRoleta.handleSpin st prizes r = Returned st).
Proof.
  split; [exact random_index_bounds|].
  split; [exact drawWinner_returns|].
  split.
  { intros c db r now flt raffle Hsel Hnone. unfold drawWinner.
    now rewrite Hsel, Hnone. }
  split.
  { intros st prizes r Hr Hspun Hspinning Hlen.
    destruct (random_pick prizes r Hr) as [w [Hw Hin]]; [lia|].
    exists w. repeat split; try assumption.
    unfold PublicRoleta.handleSpin. rewrite Hspun, Hspinning, Hw.
    apply Nat.ltb_ge in Hlen. now rewrite Hlen. }
  split.
  { intros st prizes r Hlen. unfold PublicRoleta.handleSpin.
    apply Nat.ltb_lt in Hlen. rewrite Hlen. now rewrite !orb_true_r. }
  split.
  { intros st prizes r Hr Hspinning Hlen.
    destruct (random_pick prizes r Hr) as [w [Hw Hin]]; [lia|].
    exists w. repeat split; try assumption.
    unfold CollaboratorRoleta.handleSpin. rewrite Hspinning, Hw.
    apply Nat.ltb_ge in Hlen. now rewrite Hlen. }
  intros st prizes r Hlen. unfold CollaboratorRoleta.handleSpin.
  apply Nat.ltb_lt in Hlen. rewrite Hlen. now rewrite orb_true_r.
Qed.

Lemma random_selection_in_bounds_witness :
  (0 <= random_index (1 # 2)%Q 3 < Z.of_nat 3)%Z
  /\ snd (drawWinner (Sample.client 2)
            (Sample.store 2 [Sample.entry "p2" "bia@example.com" false])
            (1 # 2)%Q "2025-09-12T12:00:00.000Z" None) <> Threw.
Proof.
  split.
  - apply (proj1 random_selection_in_bounds (1 # 2)%Q 3).
    + sample_random.
    + lia.
  - apply (proj1 (proj2 random_selection_in_bounds)).
    sample_random.
Defined.

(** ** The store *)

Lemma filter_none {A : Type} (f : A -> bool) (l : list A) :
  (forall x, In x l -> f x = false) -> filter f l = [].
Proof.
  induction l as [|y l IH]; simpl; intros Hf; [reflexivity|].
  rewrite (Hf y) by now left. apply IH. intros x Hin. apply Hf. now right.
Qed.

(** With identifiers as keys, the update by identifier rewrites the one row
    of that identifier and hands it back. *)
Lemma update_winner_one (now : string) (w : Participant.t)
  (table : list Participant.t) :
  NoDup (map Participant.id table) -> In w table ->
  exists before after,
    table = (before ++ w :: after)%list
    /\ update_winner None (Participant.id w) now table
       = ((before ++ Participant.won now w :: after)%list,
          Some (Participant.won now w)).
Proof.
  intros Hnd Hin. apply in_split in Hin. destruct Hin as [before [after ->]].
  exists before, after. split; [reflexivity|].
  rewrite map_app in Hnd. simpl in Hnd.
  pose proof (NoDup_remove_2 _ _ _ Hnd) as Hfresh.
  assert (Hother : forall p, In p before \/ In p after ->
            String.eqb (Participant.id p) (Participant.id w) = false).
  { intros p Hp. apply String.eqb_neq. intros Heq. apply Hfresh.
    rewrite <- Heq. apply in_or_app.
    destruct Hp as [Hp | Hp]; [left | right]; now apply in_map. }
  unfold update_winner. f_equal.
  - rewrite map_app. simpl. rewrite String.eqb_refl. f_equal; [|f_equal].
    + apply map_fixes. intros p Hp. now rewrite Hother by now left.
    + apply map_fixes. intros p Hp. now rewrite Hother by now right.
  - rewrite map_app. simpl. rewrite String.eqb_refl.
    rewrite filter_app. simpl. rewrite String.eqb_refl.
    rewrite !filter_none; [reflexivity | |].
    + intros p Hp. apply in_map_iff in Hp. destruct Hp as [q [<- Hq]].
      destruct (String.eqb (Participant.id q) (Participant.id w)) eqn:E.
      * rewrite Hother in E by now right. discriminate.
      * exact E.
    + intros p Hp. apply in_map_iff in Hp. destruct Hp as [q [<- Hq]].
      destruct (String.eqb (Participant.id q) (Participant.id w)) eqn:E.
      * rewrite Hother in E by now left. discriminate.
      * exact E.
Qed.

Lemma eligible_of_In (db : Db.t) (i : string) (p : Participant.t) :
  In p (eligible_of db i) <->
  In p (Db.participants db)
  /\ Participant.raffle_id p = i /\ Participant.is_winner p = false.
Proof.
  unfold eligible_of. rewrite filter_In, andb_true_iff, String.eqb_eq.
  destruct (Participant.is_winner p); simpl; intuition congruence.
Qed.

Lemma insert_payload_row (reply : InsertReply) (participantData : ParticipantData) :
  Participant.of_payload (new_id reply) (toSnake (participant_payload participantData))
  = Some (new_participant reply participantData).
Proof. reflexivity. Qed.

Lemma insert_row_inr {A : Type} (id_of : A -> string) (flt : option string)
  (row : A) (table table' : list A) :
  insert_row id_of flt row table = inr table' ->
  flt = None /\ ~ In (id_of row) (map id_of table) /\ table' = (table ++ [row])%list.
Proof.
  unfold insert_row. destruct flt; [discriminate|].
  destruct (existsb (fun x => String.eqb (id_of x) (id_of row)) table) eqn:E;
    [discriminate|].
  intros H. inversion H. repeat split.
  intros Hin. apply in_map_iff in Hin. destruct Hin as [x [Hid Hx]].
  assert (Htrue : existsb (fun x => String.eqb (id_of x) (id_of row)) table = true).
  { apply existsb_exists. exists x. split; [exact Hx|]. now apply String.eqb_eq. }
  congruence.
Qed.

Lemma insert_row_fresh {A : Type} (id_of : A -> string) (row : A) (table : list A) :
  ~ In (id_of row) (map id_of table) ->
  insert_row id_of None row table = inr (table ++ [row])%list.
Proof.
  intros Hfresh. unfold insert_row.
  destruct (existsb (fun x => String.eqb (id_of x) (id_of row)) table) eqn:E;
    [|reflexivity].
  apply existsb_exists in E. destruct E as [x [Hx Heq]].
  apply String.eqb_eq in Heq. exfalso. apply Hfresh. rewrite <- Heq.
  now apply in_map.
Qed.

(** What a registration leaves in the store: nothing new, or the one new
    row, not a winner, under an identifier that was free. *)
Lemma addParticipant_effect (db : Db.t) (reply : InsertReply)
  (participantData : ParticipantData) :
  fst (addParticipant db reply participantData) = db
  \/ (~ In (new_id reply) (map Participant.id (Db.participants db))
      /\ addParticipant db reply participantData
         = (Db.with_participants
              (Db.participants db ++ [new_participant reply participantData])%list db,
            succeeded registered_message)).
Proof.
  unfold addParticipant.
  destruct (single (raffles_by_id db (raffleId participantData))) as [raffle|];
    [|now left].
  destruct (maybeSingle _); [now left|].
  destruct (Raffle.quantity raffle <=? _)%Z; [now left|].
  unfold insert_participant. rewrite insert_payload_row.
  destruct (insert_row Participant.id (fault reply)
              (new_participant reply participantData) (Db.participants db))
    as [e|table] eqn:Hins; [now left|].
  right. apply insert_row_inr in Hins. destruct Hins as [_ [Hfresh ->]].
  split; [exact Hfresh | reflexivity].
Qed.

Lemma winner_count_with_participants (db : Db.t) (table : list Participant.t)
  (i : string) :
  winner_count (Db.with_participants table db) i
  = length (filter (fun p => String.eqb (Participant.raffle_id p) i
                             && Bool.eqb (Participant.is_winner p) true) table).
Proof. reflexivity. Qed.


Lemma addParticipant_raffles (db : Db.t) (reply : InsertReply)
  (participantData : ParticipantData) :
  Db.raffles (fst (addParticipant db reply participantData)) = Db.raffles db.
Proof.
  destruct (addParticipant_effect db reply participantData) as [-> | [_ ->]];
    reflexivity.
Qed.


(** The participant [drawWinner] hands back for an updated row. *)
Lemma toCamel_updated_row (now : string) (w : Participant.t) :
  toCamel (Participant.to_row (Participant.won now w))
  = VObj [("id", VStr (Participant.id w));
          ("raffleId", VStr (Participant.raffle_id w));
          ("name", VStr (Participant.name w));
          ("email", VStr (Participant.email w));
          ("phone", VStr (Participant.phone w));
          ("isWinner", VBool true);
          ("drawnAt", VStr now)].
Proof. reflexivity. Qed.

Lemma drawWinner_none_selected (c : Client.t) (db : Db.t) (r : Q) (now : string)
  (flt : option string) :
  selectedRaffle c = None -> drawWinner c db r now flt = (db, Returned None).
Proof. intros H. unfold drawWinner. now rewrite H. Qed.

Lemma drawWinner_none_eligible (c : Client.t) (db : Db.t) (r : Q) (now : string)
  (flt : option string) (raffle : Raffle.t) :
  selectedRaffle c = Some raffle ->
  eligible_of db (Raffle.id raffle) = [] ->
  drawWinner c db r now flt = (db, Returned None).
Proof. intros Hsel Hnone. unfold drawWinner. now rewrite Hsel, Hnone. Qed.

Lemma drawWinner_some_eligible (c : Client.t) (db : Db.t) (r : Q) (now : string)
  (flt : option string) (raffle : Raffle.t) :
  unit_interval r -> unique_ids db ->
  selectedRaffle c = Some raffle ->
  eligible_of db (Raffle.id raffle) <> [] ->
  exists w before after,
    arr_get (eligible_of db (Raffle.id raffle))
      (random_index r (length (eligible_of db (Raffle.id raffle)))) = Some w
    /\ In w (eligible_of db (Raffle.id raffle))
    /\ Db.participants db = (before ++ w :: after)%list
    /\ drawWinner c db r now flt
       = match flt with
         | Some _ => (db, Returned None)
         | None =>
             (Db.with_participants
                (before ++ Participant.won now w :: after)%list db,
              Returned (Some (toCamel (Participant.to_row (Participant.won now w)))))
         end.
Proof.
  intros Hr [Hids _] Hsel Hsome.
  destruct (random_pick (eligible_of db (Raffle.id raffle)) r Hr) as [w [Hw Hin]].
  { destruct (eligible_of db (Raffle.id raffle)); [congruence | simpl; lia]. }
  pose proof (proj1 (eligible_of_In db _ w) Hin) as [Hintable _].
  destruct (update_winner_one now w (Db.participants db) Hids Hintable)
    as [before [after [Htable Hupd]]].
  exists w, before, after. repeat split; try assumption.
  unfold drawWinner. rewrite Hsel.
  destruct (Nat.eqb (length (eligible_of db (Raffle.id raffle))) 0) eqn:Hlen.
  { apply Nat.eqb_eq in Hlen.
    destruct (eligible_of db (Raffle.id raffle)); [congruence | discriminate]. }
  rewrite Hw. destruct flt as [e|].
  - simpl. now destruct db.
  - now rewrite Hupd.
Qed.

(** C3.  [drawWinner] returns no winner when no raffle is selected or when
    the selected raffle has no participant with the winner flag unset.
    Otherwise it picks one of the participants it fetched (of the selected
    raffle, winner flag unset); when the store refuses the update it returns
    no winner and the store is as before; when the store accepts it, that
    one row, and no other, now has the winner flag set and the draw time,
    and the participant returned is that updated row under camel-cased
    field names. *)
Theorem drawWinner_spec :
  (forall (c : Client.t) (db : Db.t) (r : Q) (now : string) (flt : option string),
      selectedRaffle c = None -> drawWinner c db r now flt = (db, Returned None))
  /\ (forall (c : Client.t) (db : Db.t) (r : Q) (now : string) (flt : option string)
             (raffle : Raffle.t),
        selectedRaffle c = Some raffle ->
        eligible_of db (Raffle.id raffle) = [] ->
        drawWinner c db r now flt = (db, Returned None))
  /\ (forall (c : Client.t) (db : Db.t) (r : Q) (now : string) (flt : option string)
             (raffle : Raffle.t),
        unit_interval r -> unique_ids db ->
        selectedRaffle c = Some raffle ->
        eligible_of db (Raffle.id raffle) <> [] ->
        exists w before after,
          In w (eligible_of db (Raffle.id raffle))
          /\ Participant.raffle_id w = Raffle.id raffle
          /\ Participant.is_winner w = false
          /\ Db.participants db = (before ++ w :: after)%list
          /\ drawWinner c db r now flt
             = match flt with
               | Some _ => (db, Returned None)
               | None =>
                   (Db.with_participants
                      (before ++ Participant.won now w :: after)%list db,
                    Returned
                      (Some (VObj [("id", VStr (Participant.id w));
                                   ("raffleId", VStr (Raffle.id raffle));
                                   ("name", VStr (Participant.name w));
                                   ("email", VStr (Participant.email w));
                                   ("phone", VStr (Participant.phone w));
                                   ("isWinner", VBool true);
                                   ("drawnAt", VStr now)])))
               end).
Proof.
  split; [exact drawWinner_none_selected|].
  split; [exact drawWinner_none_eligible|].
  intros c db r now flt raffle Hr Hids Hsel Hsome.
  destruct (drawWinner_some_eligible c db r now flt raffle Hr Hids Hsel Hsome)
    as [w [before [after [_ [Hin [Htable Hdraw]]]]]].
  pose proof (proj1 (eligible_of_In db _ w) Hin) as [_ [Hraffle Hflag]].
  exists w, before, after. repeat split; try assumption.
  rewrite Hdraw. destruct flt; [reflexivity|].
  now rewrite toCamel_updated_row, Hraffle.
Qed.

Lemma drawWinner_spec_witness :
  exists w before after,
    In w (eligible_of (Sample.store 2 [Sample.entry "p1" "ana@example.com" true;
                                       Sample.entry "p2" "bia@example.com" false])
            (Raffle.id (Sample.raffle 2)))
    /\ Participant.raffle_id w = Raffle.id (Sample.raffle 2)
    /\ Participant.is_winner w = false
    /\ Db.participants
         (Sample.store 2 [Sample.entry "p1" "ana@example.com" true;
                          Sample.entry "p2" "bia@example.com" false])
       = (before ++ w :: after)%list
    /\ drawWinner (Sample.client 2)
         (Sample.store 2 [Sample.entry "p1" "ana@example.com" true;
                          Sample.entry "p2" "bia@example.com" false])
         (1 # 2)%Q "2025-09-12T12:00:00.000Z" None
       = (Db.with_participants
            (before ++ Participant.won "2025-09-12T12:00:00.000Z" w :: after)%list
            (Sample.store 2 [Sample.entry "p1" "ana@example.com" true;
                             Sample.entry "p2" "bia@example.com" false]),
          Returned
            (Some (VObj [("id", VStr (Participant.id w));
                         ("raffleId", VStr (Raffle.id (Sample.raffle 2)));
                         ("name", VStr (Participant.name w));
                         ("email", VStr (Participant.email w));
                         ("phone", VStr (Participant.phone w));
                         ("isWinner", VBool true);
                         ("drawnAt", VStr "2025-09-12T12:00:00.000Z")]))).
Proof.
  apply (proj2 (proj2 drawWinner_spec) (Sample.client 2)
           (Sample.store 2 [Sample.entry "p1" "ana@example.com" true;
                            Sample.entry "p2" "bia@example.com" false])
           (1 # 2)%Q "2025-09-12T12:00:00.000Z" None (Sample.raffle 2)).
  - sample_random.
  - split; simpl; repeat constructor; simpl; intuition discriminate.
  - reflexivity.
  - vm_compute. discriminate.
Defined.

(** ** The winner count *)

Lemma arr_get_In {A : Type} (arr : list A) (i : Z) (x : A) :
  arr_get arr i = Some x -> In x arr.
Proof.
  unfold arr_get. destruct (i <? 0)%Z; [discriminate|]. apply nth_error_In.
Qed.

Lemma with_participants_same (db : Db.t) :
  Db.with_participants (Db.participants db) db = db.
Proof. now destruct db. Qed.

(** What a draw leaves in the store: nothing new, or one row of the
    selected raffle turned from not-a-winner into a winner. *)
Lemma drawWinner_effect (c : Client.t) (db : Db.t) (r : Q) (now : string)
  (flt : option string) :
  unique_ids db ->
  fst (drawWinner c db r now flt) = db
  \/ exists raffle w before after,
       selectedRaffle c = Some raffle
       /\ In w (eligible_of db (Raffle.id raffle))
       /\ Db.participants db = (before ++ w :: after)%list
       /\ fst (drawWinner c db r now flt)
          = Db.with_participants (before ++ Participant.won now w :: after)%list db.
Proof.
  intros [Hids _]. unfold drawWinner.
  destruct (selectedRaffle c) as [raffle|]; [|now left].
  destruct (Nat.eqb _ 0); [now left|].
  destruct (arr_get _ _) as [w|] eqn:Hw; [|now left].
  apply arr_get_In in Hw.
  destruct flt as [e|].
  - left. simpl. apply with_participants_same.
  - pose proof (proj1 (eligible_of_In db _ w) Hw) as [Hintable _].
    destruct (update_winner_one now w (Db.participants db) Hids Hintable)
      as [before [after [Htable Hupd]]].
    right. exists raffle, w, before, after. rewrite Hupd. now repeat split.
Qed.

Lemma winner_count_after_win (db : Db.t) (now : string) (w : Participant.t)
  (before after : list Participant.t) (i : string) :
  Db.participants db = (before ++ w :: after)%list ->
  Participant.is_winner w = false ->
  winner_count (Db.with_participants (before ++ Participant.won now w :: after)%list db) i
  = winner_count db i + (if String.eqb (Participant.raffle_id w) i then 1 else 0).
Proof.
  intros Htable Hflag. rewrite winner_count_with_participants.
  unfold winner_count, winners_of. rewrite Htable, !filter_app. simpl.
  rewrite Hflag. simpl. rewrite andb_false_r, !length_app.
  destruct (String.eqb (Participant.raffle_id w) i); simpl; lia.
Qed.


Lemma drawWinner_unique_ids (c : Client.t) (db : Db.t) (r : Q) (now : string)
  (flt : option string) :
  unique_ids db -> unique_ids (fst (drawWinner c db r now flt)).
Proof.
  intros Hids.
  destruct (drawWinner_effect c db r now flt Hids)
    as [-> | [raffle [w [before [after [_ [_ [Htable ->]]]]]]]]; [exact Hids|].
  destruct Hids as [Hp Hr]. split; [|exact Hr].
  simpl. rewrite Htable in Hp. rewrite map_app in Hp |- *. exact Hp.
Qed.




Lemma filter_by_key_unique {A : Type} (key : A -> string) (l : list A) (x : A) :
  NoDup (map key l) -> In x l ->
  filter (fun y => String.eqb (key y) (key x)) l = [x].
Proof.
  intros Hnd Hin. apply in_split in Hin. destruct Hin as [l1 [l2 ->]].
  rewrite map_app in Hnd. simpl in Hnd.
  pose proof (NoDup_remove_2 _ _ _ Hnd) as Hfresh.
  rewrite filter_app. simpl. rewrite String.eqb_refl.
  rewrite !filter_none; [reflexivity | |].
  - intros y Hy. apply String.eqb_neq. intros Heq. apply Hfresh.
    rewrite <- Heq. apply in_or_app. right. now apply in_map.
  - intros y Hy. apply String.eqb_neq. intros Heq. apply Hfresh.
    rewrite <- Heq. apply in_or_app. left. now apply in_map.
Qed.

Lemma addParticipant_ceiling (db : Db.t) (reply : InsertReply)
  (participantData : ParticipantData) (raffle : Raffle.t) :
  single (raffles_by_id db (raffleId participantData)) = Some raffle ->
  maybeSingle (entries_by_email db (toLowerCase (email participantData))
                 (raffleId participantData)) = None ->
  (Raffle.quantity raffle
   <= Z.of_nat (winner_count db (raffleId participantData)))%Z ->
  addParticipant db reply participantData
  = (db, failure (ceiling_message (Raffle.name raffle))).
Proof.
  intros Hraffle Hnew Hfull. unfold addParticipant. rewrite Hraffle, Hnew.
  apply Z.leb_le in Hfull. unfold winner_count in Hfull. now rewrite Hfull.
Qed.


Lemma drawWinner_count_grows (c : Client.t) (db : Db.t) (r : Q) (now : string)
  (raffle : Raffle.t) :
  unit_interval r -> unique_ids db ->
  selectedRaffle c = Some raffle ->
  eligible_of db (Raffle.id raffle) <> [] ->
  winner_count (fst (drawWinner c db r now None)) (Raffle.id raffle)
  = winner_count db (Raffle.id raffle) + 1.
Proof.
  intros Hr Hids Hsel Hsome.
  destruct (drawWinner_some_eligible c db r now None raffle Hr Hids Hsel Hsome)
    as [w [before [after [_ [Hin [Htable ->]]]]]].
  pose proof (proj1 (eligible_of_In db _ w) Hin) as [_ [Hraffle Hflag]].
  simpl. rewrite (winner_count_after_win db now w before after _ Htable Hflag).
  now rewrite Hraffle, String.eqb_refl.
Qed.


(** ** Registration *)

(** The decisions of [addParticipant], in the order it takes them. *)
Lemma addParticipant_cascade (db : Db.t) (reply : InsertReply)
  (participantData : ParticipantData) :
  (single (raffles_by_id db (raffleId participantData)) = None ->
   addParticipant db reply participantData = (db, failure not_found_message))
  /\ (forall raffle,
        single (raffles_by_id db (raffleId participantData)) = Some raffle ->
        (forall e,
            maybeSingle (entries_by_email db (toLowerCase (email participantData))
                           (raffleId participantData)) = Some e ->
            addParticipant db reply participantData
            = (db, failure duplicate_email_message))
        /\ (maybeSingle (entries_by_email db (toLowerCase (email participantData))
                           (raffleId participantData)) = None ->
            ((Raffle.quantity raffle
              <= Z.of_nat (winner_count db (raffleId participantData)))%Z ->
             addParticipant db reply participantData
             = (db, failure (ceiling_message (Raffle.name raffle))))
            /\ ((Z.of_nat (winner_count db (raffleId participantData))
                 < Raffle.quantity raffle)%Z ->
                fault reply = None ->
                ~ In (new_id reply) (map Participant.id (Db.participants db)) ->
                addParticipant db reply participantData
                = (Db.with_participants
                     (Db.participants db ++ [new_participant reply participantData])%list
                     db,
                   succeeded registered_message)))).
Proof.
  split.
  - intros Hnone. unfold addParticipant. now rewrite Hnone.
  - intros raffle Hraffle. split.
    + intros e He. unfold addParticipant. now rewrite Hraffle, He.
    + intros Hnew. split; [now apply addParticipant_ceiling|].
      intros Hroom Hok Hfresh. unfold addParticipant. rewrite Hraffle, Hnew.
      apply Z.leb_gt in Hroom. unfold winner_count in Hroom. rewrite Hroom.
      unfold insert_participant. rewrite insert_payload_row, Hok.
      now rewrite (insert_row_fresh Participant.id
                     (new_participant reply participantData)
                     (Db.participants db) Hfresh).
Qed.

Lemma raffles_by_id_missing (db : Db.t) (i : string) :
  ~ In i (map Raffle.id (Db.raffles db)) -> single (raffles_by_id db i) = None.
Proof.
  intros Hmissing. unfold raffles_by_id. rewrite filter_none; [reflexivity|].
  intros r Hr. apply String.eqb_neq. intros Heq. apply Hmissing.
  rewrite <- Heq. now apply in_map.
Qed.

Lemma raffles_by_id_found (db : Db.t) (raffle : Raffle.t) :
  unique_ids db -> In raffle (Db.raffles db) ->
  single (raffles_by_id db (Raffle.id raffle)) = Some raffle.
Proof.
  intros [_ Hids] Hin. unfold raffles_by_id.
  now rewrite (filter_by_key_unique Raffle.id _ raffle Hids Hin).
Qed.

(** Registering an address written in lower case twice: the second call is
    refused as a duplicate. *)
Lemma register_twice_lower_case (db : Db.t) (reply reply' : InsertReply)
  (participantData : ParticipantData) (raffle : Raffle.t) :
  single (raffles_by_id db (raffleId participantData)) = Some raffle ->
  Db.participants db = [] ->
  (0 < Raffle.quantity raffle)%Z ->
  fault reply = None ->
  toLowerCase (email participantData) = email participantData ->
  snd (addParticipant db reply participantData) = succeeded registered_message
  /\ snd (addParticipant (fst (addParticipant db reply participantData)) reply'
            participantData)
     = failure duplicate_email_message.
Proof.
  intros Hraffle Hempty Hq Hok Hlower.
  assert (Hnone : maybeSingle
                    (entries_by_email db (toLowerCase (email participantData))
                       (raffleId participantData)) = None).
  { unfold entries_by_email. now rewrite Hempty. }
  assert (Hcount : winner_count db (raffleId participantData) = 0).
  { unfold winner_count, winners_of. now rewrite Hempty. }
  destruct (addParticipant_cascade db reply participantData) as [_ Hfound].
  destruct (Hfound raffle Hraffle) as [_ Hnew].
  destruct (Hnew Hnone) as [_ Hinsert].
  rewrite Hinsert; [| rewrite Hcount; exact Hq | exact Hok | rewrite Hempty; intros []].
  split; [reflexivity|]. rewrite Hempty. simpl fst.
  destruct (addParticipant_cascade
              (Db.with_participants [new_participant reply participantData] db)
              reply' participantData) as [_ Hfound'].
  destruct (Hfound' raffle Hraffle) as [Hdup _].
  rewrite (Hdup (new_participant reply participantData)); [reflexivity|].
  unfold entries_by_email. simpl. now rewrite Hlower, !String.eqb_refl.
Qed.

(** Registering an address with an upper-case letter twice: the lookup of
    the second call does not find the row of the first. *)
Lemma register_twice_upper_case (db : Db.t) (reply reply' : InsertReply)
  (participantData : ParticipantData) (raffle : Raffle.t) :
  single (raffles_by_id db (raffleId participantData)) = Some raffle ->
  Db.participants db = [] ->
  (0 < Raffle.quantity raffle)%Z ->
  fault reply = None -> fault reply' = None -> new_id reply' <> new_id reply ->
  toLowerCase (email participantData) <> email participantData ->
  addParticipant db reply participantData
  = (Db.with_participants [new_participant reply participantData] db,
     succeeded registered_message)
  /\ addParticipant (Db.with_participants [new_participant reply participantData] db)
       reply' participantData
     = (Db.with_participants
          [new_participant reply participantData;
           new_participant reply' participantData] db,
        succeeded registered_message).
Proof.
  intros Hraffle Hempty Hq Hok Hok' Hids Hupper.
  destruct (addParticipant_cascade db reply participantData) as [_ Hfound].
  destruct (Hfound raffle Hraffle) as [_ Hnew].
  destruct Hnew as [_ Hinsert].
  { unfold entries_by_email. now rewrite Hempty. }
  split.
  - rewrite Hinsert; [now rewrite Hempty | | exact Hok | rewrite Hempty; intros []].
    unfold winner_count, winners_of. now rewrite Hempty.
  - destruct (addParticipant_cascade
                (Db.with_participants [new_participant reply participantData] db)
                reply' participantData) as [_ Hfound'].
    destruct (Hfound' raffle Hraffle) as [_ Hnew'].
    destruct Hnew' as [_ Hinsert'].
    { unfold entries_by_email. simpl.
      apply String.eqb_neq in Hupper. rewrite String.eqb_sym in Hupper.
      now rewrite Hupper. }
    rewrite Hinsert'; [reflexivity | | exact Hok' |].
    + unfold winner_count, winners_of. simpl. rewrite andb_false_r. exact Hq.
    + simpl. intros [Heq | []]. now apply Hids.
Qed.

(** C1, at the input where the code leaves the claim.  The lookup of an
    existing entry compares the stored address with the lower-cased input,
    but the row is stored with the address as typed: on a raffle of
    quantity 2 without participants, the address [Ana@Example.com]
    registers twice, and both rows are in the store. *)
Theorem register_twice_mixed_case :
  addParticipant (Sample.store 2 []) (Sample.accepted "p1")
    (Sample.signup "Ana" "Ana@Example.com")
  = (Sample.store 2
       [new_participant (Sample.accepted "p1") (Sample.signup "Ana" "Ana@Example.com")],
     succeeded registered_message)
  /\ addParticipant
       (Sample.store 2
          [new_participant (Sample.accepted "p1")
             (Sample.signup "Ana" "Ana@Example.com")])
       (Sample.accepted "p2") (Sample.signup "Ana" "Ana@Example.com")
     = (Sample.store 2
          [new_participant (Sample.accepted "p1")
             (Sample.signup "Ana" "Ana@Example.com");
           new_participant (Sample.accepted "p2")
             (Sample.signup "Ana" "Ana@Example.com")],
        succeeded registered_message).
Proof. split; vm_compute; reflexivity. Qed.

(** ** Raffle creation *)

Lemma raffles_by_code_taken (db : Db.t) (code : string) :
  unique_codes db -> In code (map Raffle.code (Db.raffles db)) ->
  exists raffle, maybeSingle (raffles_by_code db code) = Some raffle.
Proof.
  intros Hcodes Hin. apply in_map_iff in Hin. destruct Hin as [raffle [<- Hin]].
  exists raffle. unfold raffles_by_code, maybeSingle.
  now rewrite (filter_by_key_unique Raffle.code _ raffle Hcodes Hin).
Qed.

Lemma raffles_by_code_free (db : Db.t) (code : string) :
  ~ In code (map Raffle.code (Db.raffles db)) ->
  maybeSingle (raffles_by_code db code) = None.
Proof.
  intros Hfree. unfold raffles_by_code. rewrite filter_none; [reflexivity|].
  intros r Hr. apply String.eqb_neq. intros Heq. apply Hfree.
  rewrite <- Heq. now apply in_map.
Qed.

(** The two ways through the event step of a logged-in organizer: the
    store refuses the new event, or the call goes on to the code with the
    raffles of the store as they were. *)
Lemma createEventWithRaffle_cases (c : Client.t) (db : Db.t) (now : string)
  (eventReply raffleReply : InsertReply) (data : RaffleForm) (org : Organizer.t) :
  loggedInOrganizer (Client.session c) = Some org ->
  (exists e,
      createEventWithRaffle c db now eventReply raffleReply data
      = (db, failure ("Erro ao criar evento: " ++ e)))
  \/ (exists db1 i,
        Db.raffles db1 = Db.raffles db
        /\ createEventWithRaffle c db now eventReply raffleReply data
           = match maybeSingle (raffles_by_code db1 (fullRaffleCode org data)) with
             | Some _ => (db1, failure duplicate_code_message)
             | None =>
                 match insert_row Raffle.id (fault raffleReply)
                         {| Raffle.id := new_id raffleReply;
                            Raffle.name := raffleName data;
                            Raffle.quantity := raffleQuantity data;
                            Raffle.code := fullRaffleCode org data;
                            Raffle.event_id := i |}
                         (Db.raffles db1) with
                 | inl e => (db1, failure ("Erro ao criar sorteio: " ++ e))
                 | inr table =>
                     (Db.with_raffles table db1,
                      succeeded (raffle_added_message (raffleName data)))
                 end
             end).
Proof.
  intros Horg. unfold createEventWithRaffle. rewrite Horg. cbv zeta.
  match goal with
  | |- context [match ?X with inl _ => _ | inr _ => _ end] => set (created := X)
  end.
  assert (Hcreated : (exists e, created = inl e)
                     \/ (exists db1 i, created = inr (db1, i)
                                       /\ Db.raffles db1 = Db.raffles db)).
  { subst created.
    destruct (option_map Event.id (selectedEvent c)) as [i|];
      [destruct (truthy_str (Some i)); [right; now exists db, i|]|];
      (destruct (insert_row Event.id _ _ _) as [e|table];
       [left; now exists e | right; eexists _, _; split; reflexivity]). }
  destruct Hcreated as [[e ->] | [db1 [i [-> Hraffles]]]].
  - left. now exists e.
  - right. now exists db1, i.
Qed.

(** After the event step the raffles of the store are as before. *)
Lemma createEventWithRaffle_after_event (c : Client.t) (db : Db.t) (now : string)
  (eventReply raffleReply : InsertReply) (data : RaffleForm) (org : Organizer.t) :
  loggedInOrganizer (Client.session c) = Some org ->
  event_step_passes c db eventReply ->
  exists db1 i,
    Db.raffles db1 = Db.raffles db
    /\ createEventWithRaffle c db now eventReply raffleReply data
       = match maybeSingle (raffles_by_code db1 (fullRaffleCode org data)) with
         | Some _ => (db1, failure duplicate_code_message)
         | None =>
             match insert_row Raffle.id (fault raffleReply)
                     {| Raffle.id := new_id raffleReply;
                        Raffle.name := raffleName data;
                        Raffle.quantity := raffleQuantity data;
                        Raffle.code := fullRaffleCode org data;
                        Raffle.event_id := i |}
                     (Db.raffles db1) with
             | inl e => (db1, failure ("Erro ao criar sorteio: " ++ e))
             | inr table =>
                 (Db.with_raffles table db1,
                  succeeded (raffle_added_message (raffleName data)))
             end
         end.
Proof.
  intros Horg Hevent. unfold createEventWithRaffle. rewrite Horg.
  assert (Hinsert : fault eventReply = None ->
            ~ In (new_id eventReply) (map Event.id (Db.events db)) ->
            insert_row Event.id (fault eventReply)
              {| Event.id := new_id eventReply; Event.name := eventName data;
                 Event.date := now; Event.details := None;
                 Event.banner_url := None;
                 Event.organizer_id := Organizer.id org |}
              (Db.events db)
            = inr (Db.events db
                   ++ [{| Event.id := new_id eventReply;
                          Event.name := eventName data;
                          Event.date := now; Event.details := None;
                          Event.banner_url := None;
                          Event.organizer_id := Organizer.id org |}])%list).
  { intros Hok Hfresh. rewrite Hok. now apply insert_row_fresh. }
  destruct (selectedEvent c) as [ev|] eqn:Hsel; simpl option_map; cbv zeta.
  - destruct (truthy_str (Some (Event.id ev))) eqn:Htruthy.
    + exists db, (Event.id ev). split; reflexivity.
    + destruct Hevent as [[ev' [Hev' Hid]] | [Hok Hfresh]].
      * assert (ev' = ev) by congruence. subst ev'. simpl in Htruthy.
        apply negb_false_iff, String.eqb_eq in Htruthy. contradiction.
      * rewrite (Hinsert Hok Hfresh). eexists _, _. split; [|reflexivity].
        reflexivity.
  - destruct Hevent as [[ev' [Hev' _]] | [Hok Hfresh]]; [congruence|].
    rewrite (Hinsert Hok Hfresh). eexists _, _. split; [|reflexivity].
    reflexivity.
Qed.

(** A taken code: whatever happens to the event, no raffle is inserted and
    the call fails. *)
Lemma createEventWithRaffle_taken (c : Client.t) (db : Db.t) (now : string)
  (eventReply raffleReply : InsertReply) (data : RaffleForm) (org : Organizer.t) :
  loggedInOrganizer (Client.session c) = Some org ->
  unique_codes db ->
  In (fullRaffleCode org data) (map Raffle.code (Db.raffles db)) ->
  Db.raffles (fst (createEventWithRaffle c db now eventReply raffleReply data))
  = Db.raffles db
  /\ success (snd (createEventWithRaffle c db now eventReply raffleReply data))
     = false.
Proof.
  intros Horg Hcodes Htaken.
  destruct (createEventWithRaffle_cases c db now eventReply raffleReply data org Horg)
    as [[e ->] | [db1 [i [Hraffles ->]]]]; [now split|].
  assert (Hcodes1 : unique_codes db1) by (unfold unique_codes; now rewrite Hraffles).
  rewrite <- Hraffles in Htaken.
  destruct (raffles_by_code_taken db1 _ Hcodes1 Htaken) as [raffle ->].
  now split.
Qed.

(** When no event is selected and the store refuses the new event, the
    call ends there, with the message of the event step and the store as it
    was: it does not get as far as the code. *)
Lemma createEventWithRaffle_event_refused (c : Client.t) (db : Db.t) (now : string)
  (eventReply raffleReply : InsertReply) (data : RaffleForm) (org : Organizer.t) :
  loggedInOrganizer (Client.session c) = Some org ->
  ~ event_step_passes c db eventReply ->
  exists e,
    createEventWithRaffle c db now eventReply raffleReply data
    = (db, failure ("Erro ao criar evento: " ++ e)).
Proof.
  intros Horg Hstops. unfold createEventWithRaffle. rewrite Horg. cbv zeta.
  destruct (insert_row Event.id (fault eventReply) _ (Db.events db))
    as [e|table] eqn:Hins.
  - destruct (selectedEvent c) as [ev|] eqn:Hsel; cbn [option_map];
      [|now exists e].
    destruct (truthy_str (Some (Event.id ev))) eqn:Htruthy; [|now exists e].
    exfalso. apply Hstops. left. exists ev. split; [exact Hsel|].
    cbn [truthy_str] in Htruthy. apply negb_true_iff in Htruthy.
    now apply String.eqb_neq.
  - exfalso. apply Hstops. right.
    apply insert_row_inr in Hins. destruct Hins as [Hok [Hfresh _]].
    split; assumption.
Qed.

(** C6.  The code typed into the raffle-code input is upper-cased by the
    input, and [createEventWithRaffle] composes the raffle code as the
    organizer's code followed by that suffix ([ABC] and [promo4k] give
    [ABCPROMO4K]).  When the composed code is the code of a raffle in the
    store (compared as stored), the call fails and the raffles of the store
    are as before; the failure carries the duplicate-code message when the
    call gets as far as the code, that is when an event is selected or the
    store accepts the new event, and the message of the event step
    otherwise.  When the composed code is free and the store accepts the
    insert, the raffle stored carries the composed code. *)
Theorem createEventWithRaffle_code :
  (forall (typed : string) (form : RaffleForm) (org : Organizer.t),
      fullRaffleCode org (GerenciarSorteios.onRaffleCodeChange typed form)
      = Organizer.organizerCode org ++ toUpperCase typed)
  /\ fullRaffleCode Sample.organizer (Sample.form "promo4k") = "ABCPROMO4K"
  /\ (forall (c : Client.t) (db : Db.t) (now : string)
             (eventReply raffleReply : InsertReply) (data : RaffleForm)
             (org : Organizer.t),
        loggedInOrganizer (Client.session c) = Some org ->
        unique_codes db ->
        In (fullRaffleCode org data) (map Raffle.code (Db.raffles db)) ->
        Db.raffles (fst (createEventWithRaffle c db now eventReply raffleReply data))
        = Db.raffles db
        /\ success (snd (createEventWithRaffle c db now eventReply raffleReply data))
           = false
        /\ (event_step_passes c db eventReply ->
            snd (createEventWithRaffle c db now eventReply raffleReply data)
            = failure duplicate_code_message)
        /\ (~ event_step_passes c db eventReply ->
            exists e,
              createEventWithRaffle c db now eventReply raffleReply data
              = (db, failure ("Erro ao criar evento: " ++ e))))
  /\ (forall (c : Client.t) (db : Db.t) (now : string)
             (eventReply raffleReply : InsertReply) (data : RaffleForm)
             (org : Organizer.t),
        loggedInOrganizer (Client.session c) = Some org ->
        event_step_passes c db eventReply ->
        ~ In (fullRaffleCode org data) (map Raffle.code (Db.raffles db)) ->
        fault raffleReply = None ->
        ~ In (new_id raffleReply) (map Raffle.id (Db.raffles db)) ->
        snd (createEventWithRaffle c db now eventReply raffleReply data)
        = succeeded (raffle_added_message (raffleName data))
        /\ exists i,
             Db.raffles (fst (createEventWithRaffle c db now eventReply raffleReply data))
             = (Db.raffles db
                ++ [{| Raffle.id := new_id raffleReply;
                       Raffle.name := raffleName data;
                       Raffle.quantity := raffleQuantity data;
                       Raffle.code := Organizer.organizerCode org ++ raffleCode data;
                       Raffle.event_id := i |}])%list).
Proof.
  split; [reflexivity|]. split; [reflexivity|]. split.
  - intros c db now eventReply raffleReply data org Horg Hcodes Htaken.
    destruct (createEventWithRaffle_taken c db now eventReply raffleReply data org
                Horg Hcodes Htaken) as [Hsame Hfails].
    split; [exact Hsame|]. split; [exact Hfails|]. split.
    + intros Hevent.
      destruct (createEventWithRaffle_after_event c db now eventReply raffleReply
                  data org Horg Hevent) as [db1 [i [Hraffles ->]]].
      assert (Hcodes1 : unique_codes db1)
        by (unfold unique_codes; now rewrite Hraffles).
      rewrite <- Hraffles in Htaken.
      now destruct (raffles_by_code_taken db1 _ Hcodes1 Htaken) as [raffle ->].
    + now apply createEventWithRaffle_event_refused with (org := org).
  - intros c db now eventReply raffleReply data org Horg Hevent Hfree Hok Hfresh.
    destruct (createEventWithRaffle_after_event c db now eventReply raffleReply
                data org Horg Hevent) as [db1 [i [Hraffles ->]]].
    rewrite <- Hraffles in Hfree, Hfresh.
    rewrite (raffles_by_code_free db1 _ Hfree), Hok.
    rewrite insert_row_fresh by exact Hfresh.
    split; [reflexivity|]. exists i. simpl. now rewrite Hraffles.
Qed.

(** The submit handler of the form passes the fields on when they are all
    filled in, so the code it sends is the upper-cased one. *)
Lemma handleSubmit_filled (c : Client.t) (db : Db.t) (now : string)
  (eventReply raffleReply : InsertReply) (form : RaffleForm) :
  eventName form <> "" -> raffleName form <> "" -> raffleCode form <> "" ->
  (1 <= raffleQuantity form)%Z ->
  GerenciarSorteios.handleSubmit c db now eventReply raffleReply form
  = createEventWithRaffle c db now eventReply raffleReply form.
Proof.
  intros He Hr Hc Hq. unfold GerenciarSorteios.handleSubmit.
  apply String.eqb_neq in He, Hr, Hc. rewrite He, Hr, Hc.
  apply Z.ltb_ge in Hq. now rewrite Hq.
Qed.

Example handleSubmit_promo4k :
  GerenciarSorteios.handleSubmit (Sample.client 1) (Sample.store 1 [])
    "2025-09-12T09:00:00.000Z" (Sample.accepted "e2") (Sample.accepted "r2")
    (Sample.form "promo4k")
  = ({| Db.raffles :=
          [Sample.raffle 1;
           {| Raffle.id := "r2"; Raffle.name := "Monitor"; Raffle.quantity := 1;
              Raffle.code := "ABCPROMO4K"; Raffle.event_id := "e1" |}];
        Db.participants := []; Db.events := []; Db.organizers := [];
        Db.companies := []; Db.collaborators := [] |},
     succeeded (raffle_added_message "Monitor")).
Proof. vm_compute. reflexivity. Qed.

(** Called without the form, [createEventWithRaffle] composes the code
    from the suffix as given: a lower-case suffix makes another code than
    the stored upper-case one. *)
Example createEventWithRaffle_suffix_as_given :
  createEventWithRaffle (Sample.client 1) (Sample.store 1 [])
    "2025-09-12T09:00:00.000Z" (Sample.accepted "e2") (Sample.accepted "r2")
    {| eventName := "Expo"; raffleName := "Monitor"; raffleQuantity := 1;
       raffleCode := "tv" |}
  = ({| Db.raffles :=
          [Sample.raffle 1;
           {| Raffle.id := "r2"; Raffle.name := "Monitor"; Raffle.quantity := 1;
              Raffle.code := "ABCtv"; Raffle.event_id := "e1" |}];
        Db.participants := []; Db.events := []; Db.organizers := [];
        Db.companies := []; Db.collaborators := [] |},
     succeeded (raffle_added_message "Monitor")).
Proof. vm_compute. reflexivity. Qed.

Lemma raffles_by_code_none (db : Db.t) (code : string) :
  unique_codes db -> maybeSingle (raffles_by_code db code) = None ->
  ~ In code (map Raffle.code (Db.raffles db)).
Proof.
  intros Hcodes Hnone Hin.
  destruct (raffles_by_code_taken db code Hcodes Hin) as [raffle Hsome]. congruence.
Qed.

(** Raffle creation keeps the codes of the store unique. *)
Lemma createEventWithRaffle_unique_codes (c : Client.t) (db : Db.t) (now : string)
  (eventReply raffleReply : InsertReply) (data : RaffleForm) :
  unique_codes db ->
  unique_codes (fst (createEventWithRaffle c db now eventReply raffleReply data)).
Proof.
  intros Hcodes.
  destruct (loggedInOrganizer (Client.session c)) as [org|] eqn:Horg.
  - destruct (createEventWithRaffle_cases c db now eventReply raffleReply data org Horg)
      as [[e ->] | [db1 [i [Hraffles ->]]]]; [exact Hcodes|].
    assert (Hcodes1 : unique_codes db1) by (unfold unique_codes; now rewrite Hraffles).
    destruct (maybeSingle (raffles_by_code db1 (fullRaffleCode org data))) eqn:Hlookup;
      [exact Hcodes1|].
    pose proof (raffles_by_code_none db1 _ Hcodes1 Hlookup) as Hfree.
    destruct (insert_row Raffle.id _ _ _) as [e|table] eqn:Hins; [exact Hcodes1|].
    apply insert_row_inr in Hins. destruct Hins as [_ [_ ->]].
    unfold unique_codes. simpl. rewrite map_app. simpl.
    apply NoDup_app; [exact Hcodes1 | repeat constructor; intros [] |].
    intros x Hx [<- | []]. contradiction.
  - unfold createEventWithRaffle. now rewrite Horg.
Qed.

(** ** Mutations that carry an image *)

(** [saveOrganizer] gives up when the upload of its photo fails: the
    failure result, and the store as before. *)
Lemma saveOrganizer_upload_failure (db : Db.t) (reply : InsertReply)
  (organizerData : list (string * value)) (id : option string) (file : string) :
  obj_get "photoUrl" organizerData = Some (VFile file) ->
  saveOrganizer db None reply organizerData id = (db, failure upload_failed_message).
Proof. intros Hphoto. unfold saveOrganizer. now rewrite Hphoto. Qed.

(** C7, at the input where the code leaves the claim.  [saveCompany]
    called with a raw file in [logoUrl] whose upload fails: the company row
    is written all the same, with the default image in place of the logo,
    and nothing is reported to the caller. *)
Theorem saveCompany_upload_failure (company file : string) :
  saveCompany (Sample.client 1) (Sample.store 1 []) None (Sample.accepted "c1")
    [("name", VStr company); ("logoUrl", VFile file)] None
  = Db.with_companies
      [("c1", [("name", VStr company);
               ("logo_url", VStr DEFAULT_IMAGE_URL);
               ("event_id", VStr "e1")])]
      (Sample.store 1 []).
Proof. reflexivity. Qed.

(** In general: when the upload fails, [saveCompany] does what it does
    for a payload without a logo. *)
Lemma saveCompany_failed_upload_as_no_logo (c : Client.t) (db : Db.t)
  (reply : InsertReply) (companyData : list (string * value))
  (id : option string) (file : string) :
  obj_get "logoUrl" companyData = Some (VFile file) ->
  saveCompany c db None reply companyData id
  = saveCompany c db None reply (obj_set "logoUrl" VNull companyData) id.
Proof.
  intros Hlogo. unfold saveCompany.
  destruct (selectedEvent c) as [ev|]; [|reflexivity].
  rewrite Hlogo, !obj_get_set. reflexivity.
Qed.

(** [saveEvent] gives up when an upload fails, but the banner is uploaded
    after the new organizer is written. *)
Lemma saveEvent_photo_upload_failure (db : Db.t) (bannerStorage : option string)
  (organizerReply eventReply : InsertReply) (formData : list (string * value))
  (file : string) :
  obj_get "organizerType" formData = Some (VStr "new") ->
  obj_get "newOrganizerPhotoUrl" formData = Some (VFile file) ->
  saveEvent db None bannerStorage organizerReply eventReply formData None
  = (db, Returned (failure organizer_upload_failed_message)).
Proof. intros Htype Hphoto. unfold saveEvent. now rewrite Htype, Hphoto. Qed.

Lemma saveEvent_banner_upload_failure (db : Db.t) (photoStorage : option string)
  (organizerReply eventReply : InsertReply) (formData : list (string * value))
  (id file : string) :
  id <> "" ->
  obj_get "eventBannerUrl" formData = Some (VFile file) ->
  saveEvent db photoStorage None organizerReply eventReply formData (Some id)
  = (db, Returned (failure banner_upload_failed_message)).
Proof.
  intros Hid Hbanner. unfold saveEvent. cbn [truthy_str].
  apply String.eqb_neq in Hid. rewrite Hid. cbn [negb andb].
  now rewrite Hbanner.
Qed.

Example saveEvent_banner_failure_after_organizer :
  saveEvent (Sample.store 1 []) None None (Sample.accepted "o2") (Sample.accepted "e2")
    [("organizerType", VStr "new");
     ("newOrganizerName", VStr "Acme"); ("newOrganizerResponsible", VStr "Bia");
     ("newOrganizerEmail", VStr "bia@acme.io"); ("newOrganizerPhone", VStr "555-0101");
     ("newOrganizerPassword", VStr "secret");
     ("eventName", VStr "Expo"); ("eventDate", VStr "2025-09-12");
     ("eventBannerUrl", VFile "banner.png")]
    None
  = (Db.with_organizers
       [("o2", [("name", VStr "Acme"); ("responsible_name", VStr "Bia");
                ("email", VStr "bia@acme.io"); ("phone", VStr "555-0101");
                ("photo_url", VStr DEFAULT_IMAGE_URL);
                ("organizer_code", VStr ""); ("password_hash", VStr "secret")])]
       (Sample.store 1 []),
     Returned (failure banner_upload_failed_message)).
Proof. vm_compute. reflexivity. Qed.

(** The collaborator mutations take the same path. *)
Lemma addCollaborator_upload_failure (who file : string) :
  addCollaborator (Sample.store 1 []) None (Sample.accepted "k1") "c1"
    [("name", VStr who); ("photoUrl", VFile file)]
  = Db.with_collaborators
      [("k1", [("name", VStr who);
               ("photo_url", VStr DEFAULT_IMAGE_URL);
               ("company_id", VStr "c1")])]
      (Sample.store 1 []).
Proof. reflexivity. Qed.

Lemma updateCollaborator_upload_failure (who file : string) :
  updateCollaborator
    (Db.with_collaborators
       [("k1", [("name", VStr who); ("photo_url", VStr "https://cdn/old.png");
                ("company_id", VStr "c1")])]
       (Sample.store 1 []))
    None None "k1" [("name", VStr who); ("photoUrl", VFile file)]
  = Db.with_collaborators
      [("k1", [("name", VStr who);
               ("photo_url", VStr DEFAULT_IMAGE_URL);
               ("company_id", VStr "c1")])]
      (Sample.store 1 []).
Proof. reflexivity. Qed.

(** * Further properties *)

(** ** Key rewriting, on any string *)

Lemma camelToSnake_fixed (s : string) :
  string_forallb (fun c => negb (Char.is_upper c)) s = true -> camelToSnake s = s.
Proof.
  induction s as [|c s IH]; [reflexivity|].
  simpl. intros H. apply andb_true_iff in H. destruct H as [Hc Hs].
  apply negb_true_iff in Hc. now rewrite Hc, IH.
Qed.

(** X1.  Whatever the string, [camelToSnake] leaves no upper-case letter
    and applying it again changes nothing. *)
Theorem camelToSnake_idempotent :
  forall s : string,
    string_forallb (fun c => negb (Char.is_upper c)) (camelToSnake s) = true
    /\ camelToSnake (camelToSnake s) = camelToSnake s.
Proof.
  intros s. split; [apply camelToSnake_no_upper|].
  apply camelToSnake_fixed, camelToSnake_no_upper.
Qed.

Lemma snakeToCamel_cons2 (c d : ascii) (rest : string) :
  snakeToCamel (String c (String d rest))
  = if Char.is_sep c && Char.is_lower d
    then if Ascii.eqb c Char.underscore
         then String (Char.toUpper d) (snakeToCamel rest)
         else String c (String (Char.toUpper d) (snakeToCamel rest))
    else String c (snakeToCamel (String d rest)).
Proof. reflexivity. Qed.

Lemma settled_cons2 (c d : ascii) (rest : string) :
  settled (String c (String d rest))
  = negb (Char.is_sep c && Char.is_lower d) && settled (String d rest).
Proof. reflexivity. Qed.

Lemma settled_cons (c : ascii) (s : string) :
  (Char.is_sep c = true -> head_not_lower s = true) ->
  settled s = true -> settled (String c s) = true.
Proof.
  intros Hhead Hs. destruct s as [|d rest]; [reflexivity|].
  rewrite settled_cons2, Hs, andb_true_r.
  destruct (Char.is_sep c); [|reflexivity].
  simpl in Hhead. specialize (Hhead eq_refl). apply negb_true_iff in Hhead.
  now rewrite Hhead.
Qed.

Lemma upper_char_classes (d : ascii) :
  Char.is_lower d = true ->
  Char.is_lower (Char.toUpper d) = false /\ Char.is_sep (Char.toUpper d) = false.
Proof. by_ascii_cases d. Qed.

Lemma sep_not_lower (c : ascii) : Char.is_sep c = true -> Char.is_lower c = false.
Proof. by_ascii_cases c. Qed.

Lemma snakeToCamel_settled (s : string) : settled s = true -> snakeToCamel s = s.
Proof.
  assert (Hboth :
    (settled s = true -> snakeToCamel s = s)
    /\ (forall c, settled (String c s) = true -> snakeToCamel (String c s) = String c s)).
  { induction s as [|d s [IHs IHcs]].
    - split; reflexivity.
    - split; [apply IHcs|].
      intros c Hc. rewrite settled_cons2 in Hc.
      apply andb_true_iff in Hc. destruct Hc as [Hmatch Hrest].
      apply negb_true_iff in Hmatch.
      rewrite snakeToCamel_cons2, Hmatch. f_equal. now apply IHcs. }
  exact (proj1 Hboth).
Qed.

(** The head of a rewritten string is a lower-case letter only if the head
    of the string was one. *)
Lemma snakeToCamel_head (s : string) :
  head_not_lower s = true -> head_not_lower (snakeToCamel s) = true.
Proof.
  destruct s as [|c [|d rest]]; try (intros H; exact H).
  intros Hc. rewrite snakeToCamel_cons2.
  destruct (Char.is_sep c && Char.is_lower d) eqn:Hmatch; [|exact Hc].
  apply andb_true_iff in Hmatch. destruct Hmatch as [_ Hd].
  destruct (Ascii.eqb c Char.underscore); [|exact Hc].
  simpl. now rewrite (proj1 (upper_char_classes d Hd)).
Qed.

Lemma snakeToCamel_is_settled (s : string) : settled (snakeToCamel s) = true.
Proof.
  assert (Hboth :
    settled (snakeToCamel s) = true
    /\ (forall c, settled (snakeToCamel (String c s)) = true)).
  { induction s as [|d s [IHs IHcs]].
    - split; reflexivity.
    - split; [apply IHcs|].
      intros c. rewrite snakeToCamel_cons2.
      destruct (Char.is_sep c && Char.is_lower d) eqn:Hmatch.
      + apply andb_true_iff in Hmatch. destruct Hmatch as [Hsep Hd].
        destruct (upper_char_classes d Hd) as [Hnl Hns].
        assert (Hup : settled (String (Char.toUpper d) (snakeToCamel s)) = true).
        { apply settled_cons; [now rewrite Hns | exact IHs]. }
        destruct (Ascii.eqb c Char.underscore); [exact Hup|].
        apply settled_cons; [|exact Hup]. intros _. simpl. now rewrite Hnl.
      + apply settled_cons; [|apply IHcs].
        intros Hsep. rewrite Hsep in Hmatch. simpl in Hmatch.
        apply snakeToCamel_head. simpl. now rewrite Hmatch. }
  exact (proj1 Hboth).
Qed.

(** X2.  Whatever the string, what [snakeToCamel] returns has no [-] or
    [_] followed by a lower-case letter, and applying it again changes
    nothing. *)
Theorem snakeToCamel_idempotent :
  forall s : string,
    settled (snakeToCamel s) = true
    /\ snakeToCamel (snakeToCamel s) = snakeToCamel s.
Proof.
  intros s. split; [apply snakeToCamel_is_settled|].
  apply snakeToCamel_settled, snakeToCamel_is_settled.
Qed.

(** ** The transcoders, on any value *)

Lemma keys_obj_set (k : string) (v : value) (o : list (string * value)) :
  keys (obj_set k v o)
  = if existsb (String.eqb k) (keys o) then keys o else (keys o ++ [k])%list.
Proof.
  induction o as [|[a x] o IH]; simpl; [reflexivity|].
  rewrite (String.eqb_sym k a).
  destruct (String.eqb a k) eqn:E; simpl; [reflexivity|].
  rewrite IH. now destruct (existsb (String.eqb k) (keys o)).
Qed.

Lemma obj_set_NoDup (k : string) (v : value) (o : list (string * value)) :
  NoDup (keys o) -> NoDup (keys (obj_set k v o)).
Proof.
  intros Hnd. rewrite keys_obj_set.
  destruct (existsb (String.eqb k) (keys o)) eqn:E; [exact Hnd|].
  apply NoDup_app; [exact Hnd | repeat constructor; intros [] |].
  intros x Hx [<- | []].
  apply existsb_eqb_In in Hx. congruence.
Qed.

Lemma obj_set_In (k : string) (v : value) (o : list (string * value))
  (k' : string) (v' : value) :
  In (k', v') (obj_set k v o) -> In (k', v') o \/ (k' = k /\ v' = v).
Proof.
  induction o as [|[a x] o IH]; simpl.
  - intros [H | []]. right. now inversion H.
  - destruct (String.eqb a k) eqn:E; simpl.
    + apply String.eqb_eq in E. subst a.
      intros [H | H]; [right; now inversion H | left; now right].
    + intros [H | H]; [left; now left|].
      destruct (IH H) as [Hin | Heq]; [left; now right | now right].
Qed.

Section WriteRuns.

Variable fk : string * value -> string.
Variable fv : string * value -> value.

Lemma fold_writes_NoDup (kvs acc : list (string * value)) :
  NoDup (keys acc) ->
  NoDup (keys (fold_left (fun result kv => obj_set (fk kv) (fv kv) result) kvs acc)).
Proof.
  revert acc. induction kvs as [|kv kvs IH]; intros acc Hnd; simpl; [exact Hnd|].
  apply IH. now apply obj_set_NoDup.
Qed.

Lemma fold_writes_keys (kvs acc : list (string * value)) (k : string) :
  In k (keys (fold_left (fun result kv => obj_set (fk kv) (fv kv) result) kvs acc))
  <-> In k (keys acc) \/ In k (map fk kvs).
Proof.
  revert acc. induction kvs as [|kv kvs IH]; intros acc; simpl.
  - tauto.
  - rewrite IH, keys_obj_set.
    destruct (existsb (String.eqb (fk kv)) (keys acc)) eqn:E.
    + apply existsb_eqb_In in E. split.
      * intros [H | H]; tauto.
      * intros [H | [<- | H]]; tauto.
    + rewrite in_app_iff. simpl. tauto.
Qed.

Lemma fold_writes_In (kvs acc : list (string * value)) (k : string) (v : value) :
  In (k, v) (fold_left (fun result kv => obj_set (fk kv) (fv kv) result) kvs acc) ->
  In (k, v) acc \/ exists kv, In kv kvs /\ fk kv = k /\ fv kv = v.
Proof.
  revert acc. induction kvs as [|kv kvs IH]; intros acc; simpl; [now left|].
  intros H. destruct (IH _ H) as [Hacc | [kv' [Hin [Hk Hv]]]].
  - destruct (obj_set_In _ _ _ _ _ Hacc) as [Hin | [-> ->]]; [now left|].
    right. exists kv. repeat split. now left.
  - right. exists kv'. repeat split; try assumption. now right.
Qed.

(** A run of writes into an empty mapping leaves at most one entry per
    write, and exactly one when no two writes go to the same key. *)
Lemma fold_writes_length (kvs : list (string * value)) :
  length (fold_left (fun result kv => obj_set (fk kv) (fv kv) result) kvs [])
  <= length kvs
  /\ (length (fold_left (fun result kv => obj_set (fk kv) (fv kv) result) kvs [])
      = length kvs
      <-> NoDup (map fk kvs)).
Proof.
  set (out := fold_left (fun result kv => obj_set (fk kv) (fv kv) result) kvs []).
  assert (Hnd : NoDup (keys out)) by (apply fold_writes_NoDup; constructor).
  assert (Hincl : incl (keys out) (map fk kvs)).
  { intros k Hk. apply fold_writes_keys in Hk. now destruct Hk as [[] | Hk]. }
  assert (Hincl' : incl (map fk kvs) (keys out)).
  { intros k Hk. apply fold_writes_keys. now right. }
  assert (Hlen : length (keys out) <= length (map fk kvs))
    by now apply NoDup_incl_length.
  unfold keys in Hlen. rewrite !length_map in Hlen.
  split; [exact Hlen|]. split.
  - intros Heq. apply NoDup_incl_NoDup with (l := keys out);
      [exact Hnd | | exact Hincl].
    unfold keys. rewrite !length_map. lia.
  - intros Hnd'. subst out. rewrite fold_obj_set_fresh by exact Hnd'.
    simpl. now rewrite length_map.
Qed.

End WriteRuns.

(** Writes that repeat a duplicate-free mapping entry by entry rebuild it. *)
Lemma writes_fixed (gk : string * value -> string) (gv : string * value -> value)
  (o : list (string * value)) :
  NoDup (keys o) ->
  (forall kv, In kv o -> gk kv = fst kv /\ gv kv = snd kv) ->
  fold_left (fun result kv => obj_set (gk kv) (gv kv) result) o [] = o.
Proof.
  intros Hnd Hfix. rewrite fold_obj_set_fresh.
  - simpl. apply map_fixes. intros [k x] Hin.
    destruct (Hfix _ Hin) as [-> ->]. reflexivity.
  - simpl. replace (map gk o) with (keys o); [exact Hnd|].
    apply map_ext_in. intros kv Hin. symmetry. now apply Hfix.
Qed.

Lemma snake_image_fixed (k : string) :
  snake_image (snake_image k) = snake_image k
  /\ is_sentinel (snake_image k) = is_sentinel k.
Proof.
  destruct (is_sentinel k) eqn:Hk.
  - assert (Himg : snake_image k = k) by (unfold snake_image; now rewrite Hk).
    now rewrite !Himg.
  - assert (Himg : snake_image k = camelToSnake k)
      by (unfold snake_image; now rewrite Hk).
    assert (Hns : is_sentinel (camelToSnake k) = false).
    { destruct (is_sentinel (camelToSnake k)) eqn:E; [|reflexivity].
      assert (Heq : k = camelToSnake k)
        by (apply snake_image_sentinel; [exact E | exact Himg]).
      rewrite <- Heq in E. congruence. }
    rewrite Himg. split; [|exact Hns]. unfold snake_image. rewrite Hns.
    apply camelToSnake_fixed, camelToSnake_no_upper.
Qed.

(** X3.  Transcoding to underscore-separated keys a second time changes
    nothing, whatever the value and whatever its keys. *)
Theorem toSnake_idempotent :
  forall v : value, toSnake (toSnake v) = toSnake v.
Proof.
  induction v as [| b | n | s | f | o | vs IH | kvs IH] using value_ind_nested;
    try reflexivity.
  - rewrite !toSnake_VArr, map_map. f_equal.
    apply map_ext_in. intros x Hin. rewrite Forall_forall in IH. now apply IH.
  - rewrite (toSnake_as_writes kvs).
    set (out := fold_left
                  (fun result kv =>
                     obj_set (snake_image (fst kv)) (toSnake_written kv) result)
                  kvs []).
    rewrite (toSnake_as_writes out). f_equal.
    apply writes_fixed.
    + apply (fold_writes_NoDup (fun kv => snake_image (fst kv)) toSnake_written).
      constructor.
    + intros [k x] Hin.
      apply (fold_writes_In (fun kv => snake_image (fst kv)) toSnake_written) in Hin.
      destruct Hin as [[] | [[k0 x0] [Hin0 [Hk Hx]]]].
      simpl in Hk. subst k.
      destruct (snake_image_fixed k0) as [Hfix Hsent].
      split; [exact Hfix|].
      unfold toSnake_written in *. simpl in *. rewrite Hsent.
      destruct (is_sentinel k0); [now symmetry|].
      subst x. rewrite Forall_forall in IH. exact (IH _ Hin0).
Qed.

(** X4.  Transcoding to camel-cased keys a second time changes nothing,
    whatever the value and whatever its keys. *)
Theorem toCamel_idempotent :
  forall v : value, toCamel (toCamel v) = toCamel v.
Proof.
  induction v as [| b | n | s | f | o | vs IH | kvs IH] using value_ind_nested;
    try reflexivity.
  - rewrite !toCamel_VArr, map_map. f_equal.
    apply map_ext_in. intros x Hin. rewrite Forall_forall in IH. now apply IH.
  - change (toCamel (VObj kvs))
      with (VObj (fold_left
                    (fun result kv =>
                       obj_set (snakeToCamel (fst kv)) (toCamel (snd kv)) result)
                    kvs [])).
    set (out := fold_left
                  (fun result kv =>
                     obj_set (snakeToCamel (fst kv)) (toCamel (snd kv)) result)
                  kvs []).
    change (toCamel (VObj out))
      with (VObj (fold_left
                    (fun result kv =>
                       obj_set (snakeToCamel (fst kv)) (toCamel (snd kv)) result)
                    out [])).
    f_equal.
    apply (writes_fixed (fun kv => snakeToCamel (fst kv)) (fun kv => toCamel (snd kv))).
    + apply (fold_writes_NoDup (fun kv => snakeToCamel (fst kv))
               (fun kv => toCamel (snd kv))).
      constructor.
    + intros [k x] Hin.
      apply (fold_writes_In (fun kv => snakeToCamel (fst kv))
               (fun kv => toCamel (snd kv))) in Hin.
      destruct Hin as [[] | [[k0 x0] [Hin0 [Hk Hx]]]].
      simpl in *. subst k x. split.
      * apply snakeToCamel_settled, snakeToCamel_is_settled.
      * rewrite Forall_forall in IH. exact (IH _ Hin0).
Qed.

(** X5.  A mapping never comes out of a transcoder with more entries than
    it went in with, and it comes out with fewer exactly when two of its
    keys are rewritten to the same key. *)
Theorem transcoders_lose_entries_on_collision :
  forall kvs : list (string * value),
    (exists out,
        toCamel (VObj kvs) = VObj out
        /\ length out <= length kvs
        /\ (length out = length kvs <-> NoDup (map snakeToCamel (keys kvs))))
    /\ (exists out,
          toSnake (VObj kvs) = VObj out
          /\ length out <= length kvs
          /\ (length out = length kvs <-> NoDup (map snake_image (keys kvs)))).
Proof.
  intros kvs. split.
  - eexists. split; [reflexivity|].
    pose proof (fold_writes_length (fun kv => snakeToCamel (fst kv))
                  (fun kv => toCamel (snd kv)) kvs) as [Hle Hiff].
    unfold keys. rewrite map_map. split; [exact Hle | exact Hiff].
  - rewrite toSnake_as_writes. eexists. split; [reflexivity|].
    pose proof (fold_writes_length (fun kv => snake_image (fst kv))
                  toSnake_written kvs) as [Hle Hiff].
    unfold keys. rewrite map_map. split; [exact Hle | exact Hiff].
Qed.

(** ** The session and the fetching effect *)

(** X6.  The fetching effect and the context value agree on who is logged
    in: the admin tables are fetched exactly for a super admin who is not
    impersonating, and then no organizer is exposed; an organizer's data is
    fetched exactly when the context value exposes that organizer; the
    collaborator's data is fetched only when neither applies. *)
Theorem fetch_effect_follows_value :
  forall s : Session,
    (fetch_effect s = FetchAdmin
     <-> isSuperAdmin s = true /\ impersonatingFromAdmin s = false)
    /\ (fetch_effect s = FetchAdmin -> value_loggedInOrganizer s = None)
    /\ (forall i,
          fetch_effect s = FetchOrganizer i
          <-> exists o, value_loggedInOrganizer s = Some o /\ Organizer.id o = i)
    /\ (forall i,
          fetch_effect s = FetchCollaborator i
          <-> exists col,
                loggedInCollaborator s = Some col
                /\ Collaborator.companyId col = i
                /\ value_loggedInOrganizer s = None
                /\ fetch_effect s <> FetchAdmin).
Proof.
  intros [o col ev rf admin imp].
  unfold fetch_effect, value_loggedInOrganizer. simpl.
  destruct admin, imp, o as [o|], col as [col|]; simpl;
    repeat match goal with
           | |- _ /\ _ => split
           | |- _ <-> _ => split
           | |- forall _, _ => intro
           | H : exists _, _ |- _ => destruct H
           | H : _ /\ _ |- _ => destruct H
           end;
    try discriminate; try congruence; try reflexivity;
    try (eexists; repeat split; congruence).
Qed.

Lemma fetch_effect_follows_value_witness :
  fetch_effect (Client.session (Sample.client 1))
  = FetchOrganizer (Organizer.id Sample.organizer).
Proof.
  apply (proj2 (proj1 (proj2 (proj2 (fetch_effect_follows_value
                                       (Client.session (Sample.client 1)))))
                 (Organizer.id Sample.organizer))).
  exists Sample.organizer. split; reflexivity.
Defined.

(** X7.  Impersonation: when the organizer is found, the session exposes
    that organizer and fetches that organizer's data whatever the
    super-admin flag; stopping ends in the session that stopping would have
    reached without the impersonation, so an organizer stored before it is
    not restored, while the collaborator and the super-admin flag are kept;
    when the organizer is not found nothing changes. *)
Theorem viewAsOrganizer_then_stopImpersonating :
  forall (s : Session) (o : Organizer.t) (eventId : string),
    value_loggedInOrganizer (viewAsOrganizer (Some o) eventId s) = Some o
    /\ selectedEventId (viewAsOrganizer (Some o) eventId s) = Some eventId
    /\ fetch_effect (viewAsOrganizer (Some o) eventId s)
       = FetchOrganizer (Organizer.id o)
    /\ stopImpersonating (viewAsOrganizer (Some o) eventId s) = stopImpersonating s
    /\ value_loggedInOrganizer (stopImpersonating (viewAsOrganizer (Some o) eventId s))
       = None
    /\ isSuperAdmin (stopImpersonating (viewAsOrganizer (Some o) eventId s))
       = isSuperAdmin s
    /\ loggedInCollaborator (stopImpersonating (viewAsOrganizer (Some o) eventId s))
       = loggedInCollaborator s
    /\ viewAsOrganizer None eventId s = s.
Proof.
  intros [o0 col ev rf admin imp] o eventId.
  unfold fetch_effect, value_loggedInOrganizer. simpl.
  rewrite andb_false_r. destruct admin; repeat split.
Qed.

(** X8.  The organizer's logout does not end an impersonation: after it the
    session still counts as impersonating, exposes no organizer, and does
    not fetch the admin tables even for a super admin; [stopImpersonating]
    is what returns a super admin to them. *)
Theorem logout_under_impersonation :
  forall s : Session,
    impersonatingFromAdmin s = true ->
    impersonatingFromAdmin (logout s) = true
    /\ value_loggedInOrganizer (logout s) = None
    /\ fetch_effect (logout s) <> FetchAdmin
    /\ (isSuperAdmin s = true -> fetch_effect (stopImpersonating s) = FetchAdmin).
Proof.
  intros [o col ev rf admin imp] Himp. simpl in Himp. subst imp.
  unfold fetch_effect, value_loggedInOrganizer. simpl.
  rewrite andb_false_r. repeat split.
  - destruct col; discriminate.
  - intros ->. reflexivity.
Qed.

Lemma logout_under_impersonation_witness :
  let s := {| loggedInOrganizer := None; loggedInCollaborator := None;
              selectedEventId := None; selectedRaffleId := None;
              isSuperAdmin := true; impersonatingFromAdmin := true |} in
  impersonatingFromAdmin (logout s) = true
  /\ value_loggedInOrganizer (logout s) = None
  /\ fetch_effect (logout s) <> FetchAdmin
  /\ (isSuperAdmin s = true -> fetch_effect (stopImpersonating s) = FetchAdmin).
Proof. intros s. apply (logout_under_impersonation s). reflexivity. Defined.

(** ** Draws and the eligible count *)

Lemma eligible_count_store (c : Client.t) (db : Db.t) (raffle : Raffle.t) :
  selectedRaffle c = Some raffle ->
  getEligibleParticipantCount c (Db.participants db)
  = length (eligible_of db (Raffle.id raffle)).
Proof.
  intros Hsel. unfold getEligibleParticipantCount, eligible_of. rewrite Hsel.
  reflexivity.
Qed.

Lemma eligible_count_after_win (c : Client.t) (raffle : Raffle.t) (now : string)
  (w : Participant.t) (before after : list Participant.t) :
  selectedRaffle c = Some raffle ->
  Participant.raffle_id w = Raffle.id raffle ->
  Participant.is_winner w = false ->
  getEligibleParticipantCount c (before ++ w :: after)%list
  = S (getEligibleParticipantCount c (before ++ Participant.won now w :: after)%list).
Proof.
  intros Hsel Hraffle Hflag. unfold getEligibleParticipantCount. rewrite Hsel.
  rewrite !filter_app, !length_app. simpl.
  rewrite Hraffle, Hflag, String.eqb_refl. simpl. lia.
Qed.

Lemma drawWinner_eligible_count (c : Client.t) (db : Db.t) (r : Q) (now : string) :
  unit_interval r -> unique_ids db ->
  (getEligibleParticipantCount c (Db.participants db) = 0
   /\ drawWinner c db r now None = (db, Returned None))
  \/ (exists v,
         snd (drawWinner c db r now None) = Returned (Some v)
         /\ getEligibleParticipantCount c (Db.participants db)
            = S (getEligibleParticipantCount c
                   (Db.participants (fst (drawWinner c db r now None))))).
Proof.
  intros Hr Hids. destruct (selectedRaffle c) as [raffle|] eqn:Hsel.
  - destruct (eligible_of db (Raffle.id raffle)) as [|p ps] eqn:Hel.
    + left. split.
      * rewrite (eligible_count_store c db raffle Hsel), Hel. reflexivity.
      * now apply drawWinner_none_eligible with (raffle := raffle).
    + right.
      destruct (drawWinner_some_eligible c db r now None raffle Hr Hids Hsel)
        as [w [before [after [_ [Hin [Htable Hdraw]]]]]].
      { rewrite Hel. discriminate. }
      apply eligible_of_In in Hin. destruct Hin as [_ [Hraffle Hflag]].
      rewrite Hdraw. simpl. eexists. split; [reflexivity|].
      rewrite Htable. now apply eligible_count_after_win with (raffle := raffle).
  - left. split.
    + unfold getEligibleParticipantCount. now rewrite Hsel.
    + now apply drawWinner_none_selected.
Qed.

(** X9.  With the mirrored participants equal to the stored ones and the
    store accepting the update, [drawWinner] returns a participant exactly
    when [getEligibleParticipantCount] is positive, and a draw that returns
    a participant lowers the count by exactly one; at count zero the draw
    returns nothing and writes nothing. *)
Theorem drawWinner_and_eligible_count :
  forall (c : Client.t) (db : Db.t) (r : Q) (now : string),
    unit_interval r -> unique_ids db ->
    (getEligibleParticipantCount c (Db.participants db) = 0 ->
     drawWinner c db r now None = (db, Returned None))
    /\ (0 < getEligibleParticipantCount c (Db.participants db) ->
        exists v,
          snd (drawWinner c db r now None) = Returned (Some v)
          /\ S (getEligibleParticipantCount c
                  (Db.participants (fst (drawWinner c db r now None))))
             = getEligibleParticipantCount c (Db.participants db)).
Proof.
  intros c db r now Hr Hids.
  destruct (drawWinner_eligible_count c db r now Hr Hids)
    as [[Hzero Hdraw] | [v [Hv Hcount]]].
  - split; [intros _; exact Hdraw | intros Hpos; lia].
  - split; [intros Hzero; lia|]. intros _. exists v. split; [exact Hv | now symmetry].
Qed.

Lemma drawWinner_and_eligible_count_witness :
  0 < getEligibleParticipantCount (Sample.client 1)
        (Db.participants (Sample.store 1 [Sample.entry "p1" "ana@example.com" false]))
  /\ exists v,
       snd (drawWinner (Sample.client 1)
              (Sample.store 1 [Sample.entry "p1" "ana@example.com" false])
              (1 # 2)%Q "2025-09-12T12:00:00.000Z" None) = Returned (Some v)
       /\ S (getEligibleParticipantCount (Sample.client 1)
               (Db.participants
                  (fst (drawWinner (Sample.client 1)
                          (Sample.store 1 [Sample.entry "p1" "ana@example.com" false])
                          (1 # 2)%Q "2025-09-12T12:00:00.000Z" None))))
          = getEligibleParticipantCount (Sample.client 1)
              (Db.participants (Sample.store 1 [Sample.entry "p1" "ana@example.com" false])).
Proof.
  assert (Hpos : 0 < getEligibleParticipantCount (Sample.client 1)
                       (Db.participants
                          (Sample.store 1 [Sample.entry "p1" "ana@example.com" false])))
    by (vm_compute; lia).
  split; [exact Hpos|].
  apply (drawWinner_and_eligible_count (Sample.client 1)
           (Sample.store 1 [Sample.entry "p1" "ana@example.com" false])
           (1 # 2)%Q "2025-09-12T12:00:00.000Z").
  - sample_random.
  - split; simpl; repeat constructor; simpl; intuition.
  - exact Hpos.
Defined.

Lemma run_draws_cons (c : Client.t) (db : Db.t) (now : string) (r : Q) (rs : list Q) :
  run db (draws c now (r :: rs))
  = run (fst (drawWinner c db r now None)) (draws c now rs).
Proof. reflexivity. Qed.

(** X10.  Draws repeated from the same page use up the eligible
    participants one by one and stop changing the store when none is left:
    after [k] draws the eligible count is the former count less [k] (zero
    from then on), and the winner count of the selected raffle has grown by
    as much, whatever the raffle's quantity. *)
Theorem repeated_draws_exhaust_eligible :
  forall (c : Client.t) (now : string) (raffle : Raffle.t) (rs : list Q) (db : Db.t),
    Forall unit_interval rs -> unique_ids db ->
    selectedRaffle c = Some raffle ->
    getEligibleParticipantCount c (Db.participants (run db (draws c now rs)))
    = getEligibleParticipantCount c (Db.participants db) - length rs
    /\ winner_count (run db (draws c now rs)) (Raffle.id raffle)
       = winner_count db (Raffle.id raffle)
         + Nat.min (getEligibleParticipantCount c (Db.participants db)) (length rs).
Proof.
  intros c now raffle rs. induction rs as [|r rs IH]; intros db Hrs Hids Hsel.
  - simpl. split; lia.
  - inversion Hrs as [|r' rs' Hr Hrs']; subst.
    rewrite run_draws_cons.
    pose proof (drawWinner_unique_ids c db r now None Hids) as Hids'.
    destruct (IH _ Hrs' Hids' Hsel) as [IHe IHw]. rewrite IHe, IHw. clear IHe IHw.
    destruct (drawWinner_eligible_count c db r now Hr Hids)
      as [[Hzero Hdraw] | [v [Hv Hcount]]].
    + rewrite Hdraw. simpl. rewrite Hzero. simpl. split; lia.
    + assert (Hel : eligible_of db (Raffle.id raffle) <> []).
      { intros Hnone.
        rewrite (eligible_count_store c db raffle Hsel), Hnone in Hcount.
        discriminate. }
      rewrite (drawWinner_count_grows c db r now raffle Hr Hids Hsel Hel).
      rewrite Hcount. simpl length. split; lia.
Qed.

(** ** Looking a raffle up by its code *)

Lemma toUpper_fixed (c : ascii) :
  Char.toUpper (Char.toUpper c) = Char.toUpper c
  /\ Char.toUpper (Char.toLower c) = Char.toUpper c.
Proof. by_ascii_cases c. Qed.

Lemma ascii_toUpperCase_fixed (s : string) :
  ascii_toUpperCase (ascii_toUpperCase s) = ascii_toUpperCase s
  /\ ascii_toUpperCase (ascii_toLowerCase s) = ascii_toUpperCase s.
Proof.
  induction s as [|c s [IHu IHl]]; [split; reflexivity|].
  simpl. destruct (toUpper_fixed c) as [Hu Hl].
  now rewrite Hu, Hl, IHu, IHl.
Qed.

Lemma ascii_char_conversions (c : ascii) :
  Nat.ltb (Char.code c) 128 = true ->
  Nat.ltb (Char.code (Char.toUpper c)) 128 = true
  /\ Nat.ltb (Char.code (Char.toLower c)) 128 = true
  /\ Char.is_lower (Char.toUpper c) = false
  /\ Char.is_upper (Char.toLower c) = false.
Proof. by_ascii_cases c. Qed.

(** The conversions of a string within ASCII stay within ASCII, and leave
    no letter of the other case. *)
Lemma ascii_conversions_within (s : string) :
  within_ascii s = true ->
  within_ascii (ascii_toUpperCase s) = true
  /\ within_ascii (ascii_toLowerCase s) = true
  /\ no_lower (ascii_toUpperCase s) = true
  /\ no_upper (ascii_toLowerCase s) = true.
Proof.
  induction s as [|c s IH]; [now repeat split|].
  cbn [within_ascii]. intros Hs. apply andb_true_iff in Hs. destruct Hs as [Hc Hs].
  destruct (IH Hs) as [Hu [Hl [Hnl Hnu]]].
  destruct (ascii_char_conversions c Hc) as [Hcu [Hcl [Hcnl Hcnu]]].
  unfold no_lower, no_upper in *.
  cbn [ascii_toUpperCase ascii_toLowerCase within_ascii string_forallb].
  now rewrite Hcu, Hcl, Hcnl, Hcnu, Hu, Hl, Hnl, Hnu.
Qed.

Lemma toUpperCase_within (s : string) :
  within_ascii s = true -> toUpperCase s = ascii_toUpperCase s.
Proof. intros Hs. unfold toUpperCase. now rewrite Hs. Qed.

Lemma toLowerCase_within (s : string) :
  within_ascii s = true -> toLowerCase s = ascii_toLowerCase s.
Proof. intros Hs. unfold toLowerCase. now rewrite Hs. Qed.

(** Within ASCII, upper-casing undoes nothing it has done and does not
    see a lower-casing before it. *)
Lemma toUpperCase_fixed (s : string) :
  within_ascii s = true ->
  toUpperCase (toUpperCase s) = toUpperCase s
  /\ toUpperCase (toLowerCase s) = toUpperCase s.
Proof.
  intros Hs. destruct (ascii_conversions_within s Hs) as [Hu [Hl _]].
  rewrite (toUpperCase_within s Hs), (toLowerCase_within s Hs).
  rewrite (toUpperCase_within _ Hu), (toUpperCase_within _ Hl).
  apply ascii_toUpperCase_fixed.
Qed.

Lemma toUpperCase_no_lower (s : string) :
  within_ascii s = true -> no_lower (toUpperCase s) = true.
Proof.
  intros Hs. rewrite (toUpperCase_within s Hs).
  now apply ascii_conversions_within.
Qed.

Lemma toLowerCase_no_upper (s : string) :
  within_ascii s = true -> no_upper (toLowerCase s) = true.
Proof.
  intros Hs. rewrite (toLowerCase_within s Hs).
  now apply ascii_conversions_within.
Qed.

Lemma single_In {A : Type} (rows : list A) (x : A) :
  single rows = Some x -> rows = [x].
Proof.
  destruct rows as [|y [|z rows]]; simpl; try discriminate.
  now intros [= ->].
Qed.

Lemma toCamel_found (r : Raffle.t) (e : Event.t) :
  toCamel (VObj (obj_set "event" (VObj (event_row e)) (raffle_row r)))
  = found_raffle r e.
Proof.
  unfold found_raffle, event_row, raffle_row, opt_text.
  destruct (Event.details e), (Event.banner_url e); reflexivity.
Qed.

Lemma findRaffleByCode_found (db : Db.t) (code : string) (v : value) :
  findRaffleByCode db code = Some v ->
  exists raffle event,
    In raffle (Db.raffles db) /\ In event (Db.events db)
    /\ Raffle.code raffle = toUpperCase code
    /\ (within_ascii code = true -> no_lower (Raffle.code raffle) = true)
    /\ Event.id event = Raffle.event_id raffle
    /\ v = found_raffle raffle event.
Proof.
  unfold findRaffleByCode.
  destruct (single (raffles_by_code db (toUpperCase code))) as [raffle|] eqn:Hone;
    [|discriminate].
  destruct (find _ (Db.events db)) as [event|] eqn:Hev; [|discriminate].
  intros [= <-]. exists raffle, event.
  apply single_In in Hone.
  assert (Hin : In raffle (raffles_by_code db (toUpperCase code)))
    by (rewrite Hone; now left).
  apply filter_In in Hin. destruct Hin as [Hin Hcode].
  apply String.eqb_eq in Hcode.
  apply find_some in Hev. destruct Hev as [Hine Hid].
  apply String.eqb_eq in Hid.
  repeat split; try assumption.
  - intros Hs. rewrite Hcode. now apply toUpperCase_no_lower.
  - apply toCamel_found.
Qed.

(** X11.  For a code within ASCII, [findRaffleByCode] does not depend on
    the case of the code it is given.  What it returns, for any code, is a
    raffle of the store whose stored code is the upper-cased argument,
    together with the event it refers to, both under camel-cased field
    names; so a raffle whose stored code has a lower-case letter is returned
    for no argument within ASCII. *)
Theorem findRaffleByCode_answer :
  forall (db : Db.t) (code : string),
    (within_ascii code = true ->
     findRaffleByCode db (toLowerCase code) = findRaffleByCode db code
     /\ findRaffleByCode db (toUpperCase code) = findRaffleByCode db code)
    /\ forall v,
         findRaffleByCode db code = Some v ->
         exists raffle event,
           In raffle (Db.raffles db) /\ In event (Db.events db)
           /\ Raffle.code raffle = toUpperCase code
           /\ (within_ascii code = true -> no_lower (Raffle.code raffle) = true)
           /\ Event.id event = Raffle.event_id raffle
           /\ v = found_raffle raffle event.
Proof.
  intros db code. split.
  - intros Hs. destruct (toUpperCase_fixed code Hs) as [Hu Hl].
    unfold findRaffleByCode. now rewrite Hu, Hl.
  - intros v. apply findRaffleByCode_found.
Qed.

Lemma raffle_step_success (db1 db' : Db.t) (raffleReply : InsertReply)
  (row : Raffle.t) (msg : string) (res : Result) :
  match maybeSingle (raffles_by_code db1 (Raffle.code row)) with
  | Some _ => (db1, failure duplicate_code_message)
  | None =>
      match insert_row Raffle.id (fault raffleReply) row (Db.raffles db1) with
      | inl e => (db1, failure ("Erro ao criar sorteio: " ++ e))
      | inr table => (Db.with_raffles table db1, succeeded msg)
      end
  end = (db', res) ->
  success res = true ->
  maybeSingle (raffles_by_code db1 (Raffle.code row)) = None
  /\ ~ In (Raffle.id row) (map Raffle.id (Db.raffles db1))
  /\ db' = Db.with_raffles (Db.raffles db1 ++ [row])%list db1.
Proof.
  intros Hcall Hok.
  destruct (maybeSingle (raffles_by_code db1 (Raffle.code row))) as [x|].
  { injection Hcall as <- <-. discriminate. }
  destruct (insert_row Raffle.id (fault raffleReply) row (Db.raffles db1))
    as [e|table] eqn:Hins.
  { injection Hcall as <- <-. discriminate. }
  apply insert_row_inr in Hins. destruct Hins as [_ [Hfresh ->]].
  injection Hcall as <- _. now repeat split.
Qed.

Lemma createEventWithRaffle_success (c : Client.t) (db db' : Db.t) (now : string)
  (eventReply raffleReply : InsertReply) (data : RaffleForm) (org : Organizer.t)
  (res : Result) :
  loggedInOrganizer (Client.session c) = Some org ->
  createEventWithRaffle c db now eventReply raffleReply data = (db', res) ->
  success res = true ->
  exists i,
    Db.raffles db'
    = (Db.raffles db
       ++ [{| Raffle.id := new_id raffleReply; Raffle.name := raffleName data;
              Raffle.quantity := raffleQuantity data;
              Raffle.code := fullRaffleCode org data; Raffle.event_id := i |}])%list
    /\ ~ In (new_id raffleReply) (map Raffle.id (Db.raffles db))
    /\ maybeSingle (raffles_by_code db (fullRaffleCode org data)) = None
    /\ ((exists ev, selectedEvent c = Some ev /\ i = Event.id ev
                    /\ Db.events db' = Db.events db)
        \/ (exists row, Event.id row = i
                        /\ ~ In i (map Event.id (Db.events db))
                        /\ Db.events db' = (Db.events db ++ [row])%list)).
Proof.
  intros Horg Hcall Hok. unfold createEventWithRaffle in Hcall. rewrite Horg in Hcall.
  set (row := {| Event.id := new_id eventReply; Event.name := eventName data;
                 Event.date := now; Event.details := None; Event.banner_url := None;
                 Event.organizer_id := Organizer.id org |}) in Hcall.
  assert (Hnew :
    forall created,
      created = match insert_row Event.id (fault eventReply) row (Db.events db) with
                | inl e => inl e
                | inr table => inr (Db.with_events table db, new_id eventReply)
                end ->
      match created with
      | inl e => (db, failure ("Erro ao criar evento: " ++ e))
      | inr (db1, i) =>
          match maybeSingle (raffles_by_code db1 (fullRaffleCode org data)) with
          | Some _ => (db1, failure duplicate_code_message)
          | None =>
              match insert_row Raffle.id (fault raffleReply)
                      {| Raffle.id := new_id raffleReply;
                         Raffle.name := raffleName data;
                         Raffle.quantity := raffleQuantity data;
                         Raffle.code := fullRaffleCode org data;
                         Raffle.event_id := i |}
                      (Db.raffles db1) with
              | inl e => (db1, failure ("Erro ao criar sorteio: " ++ e))
              | inr table =>
                  (Db.with_raffles table db1,
                   succeeded (raffle_added_message (raffleName data)))
              end
          end
      end = (db', res) ->
      exists i,
        Db.raffles db'
        = (Db.raffles db
           ++ [{| Raffle.id := new_id raffleReply; Raffle.name := raffleName data;
                  Raffle.quantity := raffleQuantity data;
                  Raffle.code := fullRaffleCode org data; Raffle.event_id := i |}])%list
        /\ ~ In (new_id raffleReply) (map Raffle.id (Db.raffles db))
        /\ maybeSingle (raffles_by_code db (fullRaffleCode org data)) = None
        /\ ((exists ev, selectedEvent c = Some ev /\ i = Event.id ev
                        /\ Db.events db' = Db.events db)
            \/ (exists row, Event.id row = i
                            /\ ~ In i (map Event.id (Db.events db))
                            /\ Db.events db' = (Db.events db ++ [row])%list))).
  { intros created ->.
    destruct (insert_row Event.id (fault eventReply) row (Db.events db))
      as [e|table] eqn:Hins.
    { intros H. injection H as <- <-. discriminate. }
    apply insert_row_inr in Hins. destruct Hins as [_ [Hfresh ->]].
    intros H.
    apply (raffle_step_success _ _ raffleReply
             {| Raffle.id := new_id raffleReply; Raffle.name := raffleName data;
                Raffle.quantity := raffleQuantity data;
                Raffle.code := fullRaffleCode org data;
                Raffle.event_id := new_id eventReply |}) in H; [|exact Hok].
    destruct H as [Hfree [Hfresh' ->]].
    exists (new_id eventReply). repeat split; try assumption.
    right. exists row. now repeat split. }
  destruct (selectedEvent c) as [ev|] eqn:Hsel; simpl option_map in Hcall.
  - destruct (truthy_str (Some (Event.id ev))).
    + apply (raffle_step_success _ _ raffleReply
               {| Raffle.id := new_id raffleReply; Raffle.name := raffleName data;
                  Raffle.quantity := raffleQuantity data;
                  Raffle.code := fullRaffleCode org data;
                  Raffle.event_id := Event.id ev |}) in Hcall; [|exact Hok].
      destruct Hcall as [Hfree [Hfresh' ->]].
      exists (Event.id ev). repeat split; try assumption.
      left. exists ev. now repeat split.
    + now apply (Hnew _ eq_refl).
  - now apply (Hnew _ eq_refl).
Qed.

Lemma raffles_by_code_absent (db : Db.t) (code : string) :
  unique_codes db ->
  maybeSingle (raffles_by_code db code) = None ->
  raffles_by_code db code = [].
Proof.
  intros Hcodes Hnone.
  destruct (in_dec string_dec code (map Raffle.code (Db.raffles db))) as [Hin | Hnin].
  - destruct (raffles_by_code_taken db code Hcodes Hin) as [raffle Hsome].
    congruence.
  - apply filter_none. intros raffle Hin.
    apply String.eqb_neq. intros Heq. apply Hnin. rewrite <- Heq. now apply in_map.
Qed.

Lemma find_event_by_id (i : string) (events : list Event.t) :
  In i (map Event.id events) ->
  exists e, find (fun e => String.eqb (Event.id e) i) events = Some e.
Proof.
  induction events as [|e events IH]; simpl; [intros []|].
  intros Hin. destruct (String.eqb (Event.id e) i) eqn:E; [now exists e|].
  destruct Hin as [Heq | Hin]; [|now apply IH].
  rewrite Heq, String.eqb_refl in E. discriminate.
Qed.

Lemma no_lower_app (a b : string) : no_lower (a ++ b) = no_lower a && no_lower b.
Proof.
  unfold no_lower. induction a as [|c a IH]; [reflexivity|].
  cbn [append string_forallb]. now rewrite IH, andb_assoc.
Qed.

Lemma within_ascii_app (a b : string) :
  within_ascii (a ++ b) = within_ascii a && within_ascii b.
Proof.
  induction a as [|c a IH]; [reflexivity|].
  cbn [append within_ascii]. now rewrite IH, andb_assoc.
Qed.

Lemma toUpper_id_iff (c : ascii) : Char.toUpper c = c <-> Char.is_lower c = false.
Proof. by_ascii_cases c. Qed.

Lemma ascii_toUpperCase_id_iff (s : string) :
  ascii_toUpperCase s = s <-> no_lower s = true.
Proof.
  unfold no_lower. induction s as [|c s IH]; [now split|].
  cbn [ascii_toUpperCase string_forallb]. rewrite andb_true_iff, negb_true_iff.
  rewrite <- IH, <- toUpper_id_iff. split.
  - intros [= Hc Hs]. now split.
  - intros [-> ->]. reflexivity.
Qed.

(** Within ASCII, the strings that upper-casing leaves as they are are
    those without a lower-case letter, and likewise for lower-casing. *)
Lemma toUpperCase_id_iff (s : string) :
  within_ascii s = true -> (toUpperCase s = s <-> no_lower s = true).
Proof.
  intros Hs. rewrite (toUpperCase_within s Hs). apply ascii_toUpperCase_id_iff.
Qed.

Lemma toLower_id_iff (c : ascii) : Char.toLower c = c <-> Char.is_upper c = false.
Proof. by_ascii_cases c. Qed.

Lemma ascii_toLowerCase_id_iff (s : string) :
  ascii_toLowerCase s = s <-> no_upper s = true.
Proof.
  unfold no_upper. induction s as [|c s IH]; [now split|].
  cbn [ascii_toLowerCase string_forallb]. rewrite andb_true_iff, negb_true_iff.
  rewrite <- IH, <- toLower_id_iff. split.
  - intros [= Hc Hs]. now split.
  - intros [-> ->]. reflexivity.
Qed.

Lemma toLowerCase_id_iff (s : string) :
  within_ascii s = true -> (toLowerCase s = s <-> no_upper s = true).
Proof.
  intros Hs. rewrite (toLowerCase_within s Hs). apply ascii_toLowerCase_id_iff.
Qed.

Lemma append_same_length (a a' b b' : string) :
  String.length a = String.length a' -> a ++ b = a' ++ b' -> a = a' /\ b = b'.
Proof.
  revert a'. induction a as [|c a IH]; intros [|c' a'] Hlen Heq;
    simpl in *; try discriminate.
  - now split.
  - injection Heq as -> Heq. injection Hlen as Hlen.
    destruct (IH a' Hlen Heq) as [-> ->]. now split.
Qed.

(** X12.  A raffle that [createEventWithRaffle] has stored is found again
    by [findRaffleByCode] under its code when upper-casing leaves that code
    as it is, and under no code within ASCII when it has a lower-case
    letter: the code is stored as composed and looked up upper-cased.  The
    page upper-cases the suffix only, so for a raffle made from the page,
    within ASCII, this turns on the organizer's code. *)
Theorem createEventWithRaffle_then_findRaffleByCode :
  forall (c : Client.t) (db db' : Db.t) (now : string)
         (eventReply raffleReply : InsertReply) (data : RaffleForm)
         (org : Organizer.t) (res : Result),
    loggedInOrganizer (Client.session c) = Some org ->
    unique_codes db ->
    (forall ev, selectedEvent c = Some ev ->
                In (Event.id ev) (map Event.id (Db.events db))) ->
    createEventWithRaffle c db now eventReply raffleReply data = (db', res) ->
    success res = true ->
    (toUpperCase (fullRaffleCode org data) = fullRaffleCode org data ->
     exists v,
       findRaffleByCode db' (fullRaffleCode org data) = Some v
       /\ obj_get "id" (obj_of v) = Some (VStr (new_id raffleReply))
       /\ obj_get "name" (obj_of v) = Some (VStr (raffleName data))
       /\ obj_get "code" (obj_of v) = Some (VStr (fullRaffleCode org data)))
    /\ (no_lower (fullRaffleCode org data) = false ->
        forall code v,
          within_ascii code = true ->
          findRaffleByCode db' code = Some v ->
          obj_get "id" (obj_of v) <> Some (VStr (new_id raffleReply)))
    /\ (forall typed form,
          data = GerenciarSorteios.onRaffleCodeChange typed form ->
          within_ascii typed = true ->
          within_ascii (Organizer.organizerCode org) = true ->
          (toUpperCase (fullRaffleCode org data) = fullRaffleCode org data
           <-> no_lower (Organizer.organizerCode org) = true)
          /\ no_lower (fullRaffleCode org data)
             = no_lower (Organizer.organizerCode org)).
Proof.
  intros c db db' now eventReply raffleReply data org res Horg Hcodes Hmirror Hcall Hok.
  destruct (createEventWithRaffle_success c db db' now eventReply raffleReply data
              org res Horg Hcall Hok)
    as [i [Hraffles [Hfresh [Hfree Hevent]]]].
  set (row := {| Raffle.id := new_id raffleReply; Raffle.name := raffleName data;
                 Raffle.quantity := raffleQuantity data;
                 Raffle.code := fullRaffleCode org data; Raffle.event_id := i |})
    in Hraffles.
  split; [|split].
  - intros Hupper.
    assert (Hin : In i (map Event.id (Db.events db'))).
    { destruct Hevent as [[ev [Hsel [-> ->]]] | [erow [Hid [_ ->]]]].
      - now apply Hmirror.
      - rewrite map_app, in_app_iff. right. left. exact Hid. }
    destruct (find_event_by_id i _ Hin) as [e He].
    exists (found_raffle row e). split; [|now repeat split].
    assert (Hone : raffles_by_code db' (fullRaffleCode org data) = [row]).
    { unfold raffles_by_code. rewrite Hraffles, filter_app.
      fold (raffles_by_code db (fullRaffleCode org data)).
      rewrite (raffles_by_code_absent db _ Hcodes Hfree).
      simpl. now rewrite String.eqb_refl. }
    unfold findRaffleByCode. rewrite Hupper, Hone.
    cbn [single]. change (Raffle.event_id row) with i. rewrite He.
    now rewrite toCamel_found.
  - intros Hlower code v Hcode Hfound Hid.
    destruct (findRaffleByCode_found db' code v Hfound)
      as [raffle [event [Hin [_ [_ [Hfixed [_ ->]]]]]]].
    simpl in Hid. injection Hid as Hid.
    rewrite Hraffles, in_app_iff in Hin. destruct Hin as [Hin | [<- | []]].
    + apply Hfresh. rewrite <- Hid. now apply in_map.
    + specialize (Hfixed Hcode). cbn [Raffle.code row] in Hfixed. congruence.
  - intros typed form -> Htyped Horgcode. unfold fullRaffleCode.
    cbn [GerenciarSorteios.onRaffleCodeChange GerenciarSorteios.with_raffleCode
         raffleCode].
    assert (Hfull : no_lower (Organizer.organizerCode org ++ toUpperCase typed)
                    = no_lower (Organizer.organizerCode org)).
    { now rewrite no_lower_app, (toUpperCase_no_lower typed Htyped), andb_true_r. }
    split; [|exact Hfull].
    rewrite toUpperCase_id_iff, Hfull; [reflexivity|].
    rewrite within_ascii_app, Horgcode.
    rewrite (toUpperCase_within typed Htyped).
    now apply ascii_conversions_within.
Qed.

(** ** Credentials *)

Lemma obj_get_Some_In (k : string) (v : value) (o : list (string * value)) :
  obj_get k o = Some v -> In (k, v) o.
Proof.
  induction o as [|[a x] o IH]; simpl; [discriminate|].
  destruct (String.eqb a k) eqn:E.
  - apply String.eqb_eq in E. subst a. intros [= ->]. now left.
  - intros H. right. now apply IH.
Qed.

Lemma obj_get_In (k : string) (v : value) (o : list (string * value)) :
  NoDup (keys o) -> In (k, v) o -> obj_get k o = Some v.
Proof.
  induction o as [|[a x] o IH]; simpl; [intros _ []|].
  intros Hnd [Heq | Hin].
  - injection Heq as -> ->. now rewrite String.eqb_refl.
  - inversion Hnd as [|a' l Hnin Hnd']; subst.
    destruct (String.eqb a k) eqn:E; [|now apply IH].
    apply String.eqb_eq in E. subst a. exfalso. apply Hnin.
    change k with (fst (k, v)). now apply in_map.
Qed.

Lemma obj_delete_In (k : string) (kv : string * value) (o : list (string * value)) :
  In kv (obj_delete k o) -> In kv o.
Proof.
  induction o as [|[a x] o IH]; simpl; [intros []|].
  destruct (String.eqb a k); [now right|].
  intros [H | H]; [now left | right; now apply IH].
Qed.

Lemma obj_get_delete (k k' : string) (o : list (string * value)) :
  k <> k' -> obj_get k (obj_delete k' o) = obj_get k o.
Proof.
  intros Hneq. induction o as [|[a x] o IH]; simpl; [reflexivity|].
  destruct (String.eqb a k') eqn:E; simpl.
  - apply String.eqb_eq in E. subst a.
    destruct (String.eqb k' k) eqn:E'; [|reflexivity].
    apply String.eqb_eq in E'. congruence.
  - now rewrite IH.
Qed.

Lemma obj_delete_NoDup (k : string) (o : list (string * value)) :
  NoDup (keys o) -> NoDup (keys (obj_delete k o)).
Proof.
  induction o as [|[a x] o IH]; simpl; [intros H; exact H|].
  intros Hnd. inversion Hnd as [|a' l Hnin Hnd']; subst.
  destruct (String.eqb a k); [exact Hnd'|].
  simpl. constructor; [|now apply IH].
  intros Hin. apply Hnin. unfold keys in *. apply in_map_iff in Hin.
  destruct Hin as [kv [Hfst Hin]]. apply obj_delete_In in Hin.
  rewrite <- Hfst. now apply in_map.
Qed.

Lemma toSnake_get (o : list (string * value)) (k0 : string) (v : value) :
  NoDup (keys o) ->
  obj_get k0 o = Some v ->
  (forall k, In k (keys o) -> snake_image k = snake_image k0 -> k = k0) ->
  obj_get (snake_image k0) (obj_of (toSnake (VObj o))) = Some (toSnake_written (k0, v)).
Proof.
  intros Hnd Hget Honly. rewrite toSnake_as_writes. simpl obj_of.
  apply (obj_get_fold_writes (fun kv => snake_image (fst kv)) toSnake_written).
  - intros [k x] Hin Himg. simpl in Himg.
    assert (k = k0) by (apply Honly; [change k with (fst (k, x)); now apply in_map | exact Himg]).
    subst k. apply (obj_get_In _ _ _ Hnd) in Hin. congruence.
  - left. exists (k0, v). split; [now apply obj_get_Some_In | reflexivity].
Qed.

Lemma camelToSnake_cons_inv (k : string) (d : ascii) (s : string) :
  camelToSnake k = String d s ->
  (exists k', k = String d k' /\ Char.is_upper d = false /\ camelToSnake k' = s)
  \/ (d = Char.underscore
      /\ exists c k' s', k = String c k' /\ Char.is_upper c = true
                         /\ s = String (Char.toLower c) s' /\ camelToSnake k' = s').
Proof.
  destruct k as [|c k]; simpl; [discriminate|].
  destruct (Char.is_upper c) eqn:Hup.
  - intros [= <- <-]. right. split; [reflexivity|]. now exists c, k, (camelToSnake k).
  - intros [= <- <-]. left. now exists k.
Qed.

Lemma toLower_h (c : ascii) : Char.is_upper c = true -> "h"%char = Char.toLower c -> c = "H"%char.
Proof. by_ascii_cases c. Qed.

Lemma camelToSnake_nil (k : string) : camelToSnake k = "" -> k = "".
Proof.
  destruct k as [|c k]; [reflexivity|]. simpl.
  destruct (Char.is_upper c); discriminate.
Qed.

Lemma camelToSnake_password_hash (k : string) :
  camelToSnake k = "password_hash" -> k = "password_hash" \/ k = "passwordHash".
Proof.
  intros H.
  repeat (apply camelToSnake_cons_inv in H;
          let k' := fresh "k" in
          let c := fresh "c" in
          let s' := fresh "s" in
          let Hup := fresh "Hup" in
          let Hs := fresh "Hs" in
          let Hd := fresh "Hd" in
          destruct H as [[k' [-> [_ H]]] | [Hd [c [k' [s' [-> [Hup [Hs H]]]]]]]];
          [| try discriminate Hd;
             injection Hs as Hs <-]).
  - apply camelToSnake_nil in H. subst. now left.
  - apply camelToSnake_nil in H. subst.
    match goal with
    | Hup : Char.is_upper ?c = true, Hs : _ = Char.toLower ?c |- _ =>
        rewrite (toLower_h c Hup Hs)
    end.
    now right.
Qed.

Lemma snake_image_password_hash (k : string) :
  snake_image k = "password_hash" -> k = "password_hash" \/ k = "passwordHash".
Proof.
  unfold snake_image. destruct (is_sentinel k); [now left|].
  apply camelToSnake_password_hash.
Qed.

Lemma snake_image_email (k : string) : snake_image k = "email" -> k = "email".
Proof.
  unfold snake_image. destruct (is_sentinel k); [easy|].
  intros H. now apply camelToSnake_plain.
Qed.

Lemma insert_bag_inr (reply : InsertReply) (payload : list (string * value))
  (table table' : bag_table) :
  insert_bag reply payload table = inr table' ->
  ~ In (new_id reply) (map fst table)
  /\ table' = (table ++ [(new_id reply, payload)])%list.
Proof.
  unfold insert_bag. intros H. apply insert_row_inr in H. tauto.
Qed.

(** The payload a successful [saveOrganizer] without identifier stores. *)
Lemma saveOrganizer_created (db db' : Db.t) (storage : option string)
  (reply : InsertReply) (organizerData : list (string * value)) (res : Result) :
  saveOrganizer db storage reply organizerData None = (db', res) ->
  success res = true ->
  exists photo,
    let withPhoto :=
      match photo with
      | Some u => obj_set "photoUrl" (VStr u) organizerData
      | None => organizerData
      end in
    let withHash :=
      match obj_get "password" withPhoto with
      | Some pw => if truthy (Some pw) then obj_set "password_hash" pw withPhoto
                   else withPhoto
      | None => withPhoto
      end in
    ~ In (new_id reply) (map fst (Db.organizers db))
    /\ db'
       = Db.with_organizers
           (Db.organizers db
            ++ [(new_id reply,
                 obj_of (toSnake (VObj (obj_delete "password" withHash))))])%list
           db.
Proof.
  unfold saveOrganizer. simpl truthy_str. simpl negb. simpl andb.
  set (photo := obj_get "photoUrl" organizerData).
  intros Hcall Hok.
  assert (Hstep :
    forall withPhoto,
      match
        insert_bag reply
          (obj_of (toSnake (VObj (obj_delete "password"
             match obj_get "password" withPhoto with
             | Some pw => if truthy (Some pw) then obj_set "password_hash" pw withPhoto
                          else withPhoto
             | None => withPhoto
             end))))
          (Db.organizers db)
      with
      | inl e => (db, failure e)
      | inr table =>
          (Db.with_organizers table db,
           succeeded ("Organizador " ++ "criado" ++ " com sucesso!"))
      end = (db', res) ->
      ~ In (new_id reply) (map fst (Db.organizers db))
      /\ db'
         = Db.with_organizers
             (Db.organizers db
              ++ [(new_id reply,
                   obj_of (toSnake (VObj (obj_delete "password"
                     match obj_get "password" withPhoto with
                     | Some pw => if truthy (Some pw)
                                  then obj_set "password_hash" pw withPhoto
                                  else withPhoto
                     | None => withPhoto
                     end))))])%list
             db).
  { intros withPhoto H.
    destruct (insert_bag reply _ (Db.organizers db)) as [e|table] eqn:Hins.
    - injection H as <- <-. discriminate.
    - apply insert_bag_inr in Hins. destruct Hins as [Hfresh ->].
      injection H as <- _. split; [exact Hfresh | reflexivity]. }
  destruct (truthy photo && is_file photo).
  - destruct (uploadImage storage photo) as [u|] eqn:Hup.
    + destruct (truthy_str (Some u)).
      * exists (Some u). now apply Hstep.
      * injection Hcall as <- <-. discriminate.
    + injection Hcall as <- <-. discriminate.
  - destruct (negb (truthy photo)).
    + exists (Some DEFAULT_IMAGE_URL). now apply Hstep.
    + exists None. now apply Hstep.
Qed.

Lemma keys_obj_delete (k k' : string) (o : list (string * value)) :
  In k (keys (obj_delete k' o)) -> In k (keys o).
Proof.
  unfold keys. rewrite !in_map_iff. intros [kv [Hfst Hin]].
  exists kv. split; [exact Hfst | now apply obj_delete_In in Hin].
Qed.

Lemma keys_obj_set_In (k k' : string) (v : value) (o : list (string * value)) :
  In k (keys (obj_set k' v o)) -> k = k' \/ In k (keys o).
Proof.
  rewrite keys_obj_set. destruct (existsb (String.eqb k') (keys o)); [now right|].
  rewrite in_app_iff. simpl. intuition.
Qed.

Lemma stored_credentials (organizerData : list (string * value))
  (photo : option string) (E P : string) :
  NoDup (keys organizerData) ->
  ~ In "passwordHash" (keys organizerData) ->
  obj_get "email" organizerData = Some (VStr E) ->
  obj_get "password" organizerData = Some (VStr P) ->
  P <> "" ->
  let withPhoto :=
    match photo with
    | Some u => obj_set "photoUrl" (VStr u) organizerData
    | None => organizerData
    end in
  let withHash :=
    match obj_get "password" withPhoto with
    | Some pw => if truthy (Some pw) then obj_set "password_hash" pw withPhoto
                 else withPhoto
    | None => withPhoto
    end in
  let payload := obj_of (toSnake (VObj (obj_delete "password" withHash))) in
  obj_get "email" payload = Some (VStr E)
  /\ obj_get "password_hash" payload = Some (VStr P).
Proof.
  intros Hnd Hnohash Hemail Hpass Hfilled withPhoto.
  assert (Hnd1 : NoDup (keys withPhoto))
    by (subst withPhoto; destruct photo; [now apply obj_set_NoDup | exact Hnd]).
  assert (Hemail1 : obj_get "email" withPhoto = Some (VStr E))
    by (subst withPhoto; destruct photo; [now rewrite obj_get_set | exact Hemail]).
  assert (Hpass1 : obj_get "password" withPhoto = Some (VStr P))
    by (subst withPhoto; destruct photo; [now rewrite obj_get_set | exact Hpass]).
  assert (Hkeys1 : forall k, In k (keys withPhoto) ->
                             k = "photoUrl" \/ In k (keys organizerData)).
  { subst withPhoto. destruct photo; [|now right].
    intros k Hk. now apply keys_obj_set_In in Hk. }
  clearbody withPhoto. rewrite Hpass1.
  assert (Htruthy : truthy (Some (VStr P)) = true).
  { simpl. apply negb_true_iff, String.eqb_neq. exact Hfilled. }
  rewrite Htruthy. intros withHash payload.
  set (stored := obj_delete "password" withHash) in payload.
  assert (Hnd3 : NoDup (keys stored))
    by (apply obj_delete_NoDup, obj_set_NoDup, Hnd1).
  assert (Hkeys3 : forall k, In k (keys stored) ->
                             k = "password_hash" \/ k = "photoUrl"
                             \/ In k (keys organizerData)).
  { intros k Hk. apply keys_obj_delete, keys_obj_set_In in Hk.
    destruct Hk as [-> | Hk]; [now left | right; now apply Hkeys1]. }
  split.
  - change (obj_get (snake_image "email") payload
            = Some (toSnake_written ("email", VStr E))).
    apply toSnake_get; [exact Hnd3 | |].
    + subst stored withHash.
      rewrite obj_get_delete by discriminate.
      rewrite obj_get_set. exact Hemail1.
    + intros k _ Himg. now apply snake_image_email.
  - change (obj_get (snake_image "password_hash") payload
            = Some (toSnake_written ("password_hash", VStr P))).
    apply toSnake_get; [exact Hnd3 | |].
    + subst stored withHash.
      rewrite obj_get_delete by discriminate.
      now rewrite obj_get_set.
    + intros k Hk Himg.
      destruct (snake_image_password_hash k Himg) as [-> | ->]; [reflexivity|].
      destruct (Hkeys3 _ Hk) as [Habs | [Habs | Hin]]; try discriminate.
      contradiction.
Qed.

(** X13.  An organizer created by [saveOrganizer] with an address and a
    non-empty password, the address not yet in the store, and an address
    typed at the login that lower-cases to what the stored one lower-cases
    to: when lower-casing leaves the stored address as it is, [login]
    accepts with that password and with no other; when lower-casing changes
    the stored address, [login] accepts with no password at all: the
    address is stored as given and looked up lower-cased.  Within ASCII,
    lower-casing changes an address exactly when it has an upper-case
    letter. *)
Theorem saveOrganizer_then_login :
  forall (db db' : Db.t) (storage : option string) (reply : InsertReply)
         (organizerData : list (string * value)) (res : Result) (E P : string),
    NoDup (keys organizerData) ->
    ~ In "passwordHash" (keys organizerData) ->
    obj_get "email" organizerData = Some (VStr E) ->
    obj_get "password" organizerData = Some (VStr P) ->
    P <> "" ->
    bag_eq "email" (toLowerCase E) (Db.organizers db) = [] ->
    saveOrganizer db storage reply organizerData None = (db', res) ->
    success res = true ->
    forall typed : string,
      toLowerCase typed = toLowerCase E ->
      (toLowerCase E = E ->
       (exists v, login db' typed P = (Some v, succeeded "Login bem-sucedido!"))
       /\ (forall P', P' <> P ->
                      login db' typed P' = (None, failure invalid_login_message)))
      /\ (toLowerCase E <> E ->
          forall P', login db' typed P' = (None, failure invalid_login_message))
      /\ (within_ascii E = true -> (toLowerCase E = E <-> no_upper E = true)).
Proof.
  intros db db' storage reply organizerData res E P
         Hnd Hnohash Hemail Hpass Hfilled Hfree Hcall Hok typed Htyped.
  apply and_assoc. split; [|apply toLowerCase_id_iff].
  destruct (saveOrganizer_created db db' storage reply organizerData res Hcall Hok)
    as [photo [_ Hdb]].
  assert (Htable := f_equal Db.organizers Hdb).
  cbn [Db.organizers Db.with_organizers] in Htable.
  clear Hdb.
  destruct (stored_credentials organizerData photo E P
              Hnd Hnohash Hemail Hpass Hfilled) as [Hmail Hhash].
  cbv zeta in Htable, Hmail, Hhash.
  set (payload := obj_of (toSnake _)) in Htable, Hmail, Hhash.
  assert (Hrow_mail : obj_get "email" (bag_row (new_id reply, payload)) = Some (VStr E))
    by (unfold bag_row; simpl fst; simpl snd; now rewrite obj_get_set).
  assert (Hrow_hash :
            obj_get "password_hash" (bag_row (new_id reply, payload)) = Some (VStr P))
    by (unfold bag_row; simpl fst; simpl snd; now rewrite obj_get_set).
  assert (Hrows :
            bag_eq "email" (toLowerCase typed) (Db.organizers db')
            = if String.eqb E (toLowerCase E) then [(new_id reply, payload)] else []).
  { rewrite Htyped, Htable. unfold bag_eq. rewrite filter_app.
    fold (bag_eq "email" (toLowerCase E) (Db.organizers db)). rewrite Hfree.
    cbn [filter app]. rewrite Hrow_mail.
    now destruct (String.eqb E (toLowerCase E)). }
  unfold login. rewrite Hrows. split.
  - intros Hlower. rewrite Hlower, String.eqb_refl. cbn [single].
    rewrite Hrow_hash. split.
    + rewrite String.eqb_refl. eexists. reflexivity.
    + intros P' Hneq. apply not_eq_sym, String.eqb_neq in Hneq. now rewrite Hneq.
  - intros Hmixed P'. apply not_eq_sym, String.eqb_neq in Hmixed. now rewrite Hmixed.
Qed.

Lemma obj_get_None (k : string) (o : list (string * value)) :
  ~ In k (keys o) <-> obj_get k o = None.
Proof.
  induction o as [|[a x] o IH]; simpl; [tauto|].
  destruct (String.eqb a k) eqn:E.
  - apply String.eqb_eq in E. subst a. split; [intros H; exfalso; apply H; now left|].
    discriminate.
  - apply String.eqb_neq in E. rewrite <- IH. tauto.
Qed.

Lemma obj_get_merge (k : string) (payload row : list (string * value)) :
  NoDup (keys payload) ->
  obj_get k (obj_merge row payload)
  = match obj_get k payload with
    | Some v => Some v
    | None => obj_get k row
    end.
Proof.
  unfold obj_merge. revert row.
  induction payload as [|[a x] payload IH]; intros row Hnd; simpl; [reflexivity|].
  inversion Hnd as [|a' l Hnin Hnd']; subst.
  rewrite IH by exact Hnd'. rewrite obj_get_set.
  destruct (String.eqb a k) eqn:E; [|reflexivity].
  apply String.eqb_eq in E. subst a.
  apply obj_get_None in Hnin. now rewrite Hnin.
Qed.

Lemma toSnake_keys (o : list (string * value)) (k : string) :
  In k (keys (obj_of (toSnake (VObj o)))) <-> In k (map snake_image (keys o)).
Proof.
  rewrite toSnake_as_writes. simpl obj_of.
  rewrite (fold_writes_keys (fun kv => snake_image (fst kv)) toSnake_written).
  unfold keys. rewrite map_map. simpl. tauto.
Qed.

Lemma toSnake_keys_NoDup (o : list (string * value)) :
  NoDup (keys (obj_of (toSnake (VObj o)))).
Proof.
  rewrite toSnake_as_writes. simpl obj_of.
  apply (fold_writes_NoDup (fun kv => snake_image (fst kv)) toSnake_written).
  constructor.
Qed.

Lemma update_bag_inr (flt : option string) (i : string)
  (payload : list (string * value)) (table table' : bag_table) :
  update_bag flt i payload table = inr table' ->
  table' = map (fun row => if String.eqb (fst row) i
                           then (fst row, obj_merge (snd row) payload)
                           else row) table.
Proof. unfold update_bag. destruct flt; [discriminate|]. now intros [= <-]. Qed.

(** The payload a successful [saveOrganizer] with an identifier sends. *)
Lemma saveOrganizer_updated (db db' : Db.t) (storage : option string)
  (reply : InsertReply) (organizerData : list (string * value)) (i : string)
  (res : Result) :
  i <> "" ->
  saveOrganizer db storage reply organizerData (Some i) = (db', res) ->
  success res = true ->
  exists photo,
    (truthy (obj_get "photoUrl" organizerData)
     && is_file (obj_get "photoUrl" organizerData) = false -> photo = None)
    /\
    let withPhoto :=
      match photo with
      | Some u => obj_set "photoUrl" (VStr u) organizerData
      | None => organizerData
      end in
    let withHash :=
      match obj_get "password" withPhoto with
      | Some pw => if truthy (Some pw) then obj_set "password_hash" pw withPhoto
                   else withPhoto
      | None => withPhoto
      end in
    let snakeData := obj_of (toSnake (VObj (obj_delete "password" withHash))) in
    let payload :=
      if negb (truthy (obj_get "password_hash" snakeData))
      then obj_delete "password_hash" snakeData else snakeData in
    Db.organizers db'
    = map (fun row => if String.eqb (fst row) i
                      then (fst row, obj_merge (snd row) payload)
                      else row) (Db.organizers db).
Proof.
  intros Hi. unfold saveOrganizer.
  assert (Htruthy : truthy_str (Some i) = true)
    by (simpl; now apply negb_true_iff, String.eqb_neq).
  rewrite Htruthy. cbn [negb andb].
  set (photo := obj_get "photoUrl" organizerData).
  intros Hcall Hok.
  assert (Hstep :
    forall withPhoto,
      match
        update_bag (fault reply) i
          (if negb (truthy (obj_get "password_hash"
                 (obj_of (toSnake (VObj (obj_delete "password"
                    match obj_get "password" withPhoto with
                    | Some pw => if truthy (Some pw)
                                 then obj_set "password_hash" pw withPhoto
                                 else withPhoto
                    | None => withPhoto
                    end))))))
           then obj_delete "password_hash"
                  (obj_of (toSnake (VObj (obj_delete "password"
                     match obj_get "password" withPhoto with
                     | Some pw => if truthy (Some pw)
                                  then obj_set "password_hash" pw withPhoto
                                  else withPhoto
                     | None => withPhoto
                     end))))
           else obj_of (toSnake (VObj (obj_delete "password"
                     match obj_get "password" withPhoto with
                     | Some pw => if truthy (Some pw)
                                  then obj_set "password_hash" pw withPhoto
                                  else withPhoto
                     | None => withPhoto
                     end))))
          (Db.organizers db)
      with
      | inl e => (db, failure e)
      | inr table =>
          (Db.with_organizers table db,
           succeeded ("Organizador " ++ "atualizado" ++ " com sucesso!"))
      end = (db', res) ->
      Db.organizers db'
      = map (fun row => if String.eqb (fst row) i
                        then (fst row, obj_merge (snd row)
           (if negb (truthy (obj_get "password_hash"
                 (obj_of (toSnake (VObj (obj_delete "password"
                    match obj_get "password" withPhoto with
                    | Some pw => if truthy (Some pw)
                                 then obj_set "password_hash" pw withPhoto
                                 else withPhoto
                    | None => withPhoto
                    end))))))
           then obj_delete "password_hash"
                  (obj_of (toSnake (VObj (obj_delete "password"
                     match obj_get "password" withPhoto with
                     | Some pw => if truthy (Some pw)
                                  then obj_set "password_hash" pw withPhoto
                                  else withPhoto
                     | None => withPhoto
                     end))))
           else obj_of (toSnake (VObj (obj_delete "password"
                     match obj_get "password" withPhoto with
                     | Some pw => if truthy (Some pw)
                                  then obj_set "password_hash" pw withPhoto
                                  else withPhoto
                     | None => withPhoto
                     end)))))
                        else row) (Db.organizers db)).
  { intros withPhoto H.
    destruct (update_bag (fault reply) i _ (Db.organizers db)) as [e|table] eqn:Hupd.
    - injection H as <- <-. discriminate.
    - apply update_bag_inr in Hupd. subst table. injection H as <- _. reflexivity. }
  destruct (truthy photo && is_file photo).
  - destruct (uploadImage storage photo) as [u|] eqn:Hup.
    + destruct (truthy_str (Some u)).
      * exists (Some u). split; [discriminate | now apply Hstep].
      * injection Hcall as <- <-. discriminate.
    + injection Hcall as <- <-. discriminate.
  - exists None. split; [reflexivity | now apply Hstep].
Qed.

(** X14.  [saveOrganizer] with an identifier, the payload carrying no hash
    field of its own: when the payload has no password, or an empty one,
    the stored credential of every organizer is as before; when it has a
    non-empty password, the organizers with that identifier get it as their
    credential and the others keep theirs. *)
Theorem saveOrganizer_update_credential :
  forall (db db' : Db.t) (storage : option string) (reply : InsertReply)
         (organizerData : list (string * value)) (i : string) (res : Result),
    i <> "" ->
    NoDup (keys organizerData) ->
    ~ In "passwordHash" (keys organizerData) ->
    ~ In "password_hash" (keys organizerData) ->
    saveOrganizer db storage reply organizerData (Some i) = (db', res) ->
    success res = true ->
    (truthy (obj_get "password" organizerData) = false ->
     map (fun row => (fst row, obj_get "password_hash" (snd row))) (Db.organizers db')
     = map (fun row => (fst row, obj_get "password_hash" (snd row))) (Db.organizers db))
    /\ (forall P,
          obj_get "password" organizerData = Some (VStr P) -> P <> "" ->
          map (fun row => (fst row, obj_get "password_hash" (snd row)))
              (Db.organizers db')
          = map (fun row => (fst row,
                             if String.eqb (fst row) i then Some (VStr P)
                             else obj_get "password_hash" (snd row)))
                (Db.organizers db)).
Proof.
  intros db db' storage reply organizerData i res Hi Hnd Hcamel Hsnake Hcall Hok.
  destruct (saveOrganizer_updated db db' storage reply organizerData i res
              Hi Hcall Hok) as [photo [_ Htable]].
  cbv zeta in Htable.
  set (withPhoto := match photo with
                    | Some u => obj_set "photoUrl" (VStr u) organizerData
                    | None => organizerData
                    end) in Htable.
  assert (Hnd1 : NoDup (keys withPhoto))
    by (subst withPhoto; destruct photo; [now apply obj_set_NoDup | exact Hnd]).
  assert (Hpass1 : obj_get "password" withPhoto = obj_get "password" organizerData)
    by (subst withPhoto; destruct photo; [now rewrite obj_get_set | reflexivity]).
  assert (Hkeys1 : forall k, In k (keys withPhoto) ->
                             k = "photoUrl" \/ In k (keys organizerData)).
  { subst withPhoto. destruct photo; [|now right].
    intros k Hk. now apply keys_obj_set_In in Hk. }
  clearbody withPhoto. rewrite Hpass1 in Htable. split.
  - intros Hnone.
    assert (Hsame :
              match obj_get "password" organizerData with
              | Some pw => if truthy (Some pw)
                           then obj_set "password_hash" pw withPhoto else withPhoto
              | None => withPhoto
              end = withPhoto).
    { destruct (obj_get "password" organizerData) as [pw|]; [|reflexivity].
      now rewrite Hnone. }
    rewrite Hsame in Htable. clear Hsame.
    set (snakeData := obj_of (toSnake (VObj (obj_delete "password" withPhoto))))
      in Htable.
    assert (Habsent : ~ In "password_hash" (keys snakeData)).
    { intros Hin. apply toSnake_keys, in_map_iff in Hin.
      destruct Hin as [k [Himg Hk]].
      apply keys_obj_delete, Hkeys1 in Hk.
      destruct (snake_image_password_hash k Himg) as [-> | ->];
        destruct Hk as [Hk | Hk]; try discriminate; contradiction. }
    assert (Hpayload :
              obj_get "password_hash"
                (if negb (truthy (obj_get "password_hash" snakeData))
                 then obj_delete "password_hash" snakeData else snakeData) = None).
    { apply obj_get_None.
      destruct (negb (truthy (obj_get "password_hash" snakeData)));
        [intros Hin; now apply keys_obj_delete in Hin | exact Habsent]. }
    rewrite Htable, map_map. apply map_ext. intros row.
    destruct (String.eqb (fst row) i); [|reflexivity]. simpl.
    rewrite obj_get_merge, Hpayload; [reflexivity|].
    destruct (negb (truthy (obj_get "password_hash" snakeData)));
      [apply obj_delete_NoDup|]; apply toSnake_keys_NoDup.
  - intros P Hpass Hfilled. rewrite Hpass in Htable.
    assert (Htruthy : truthy (Some (VStr P)) = true)
      by (simpl; now apply negb_true_iff, String.eqb_neq).
    rewrite Htruthy in Htable.
    set (stored := obj_delete "password" (obj_set "password_hash" (VStr P) withPhoto))
      in Htable.
    set (snakeData := obj_of (toSnake (VObj stored))) in Htable.
    assert (Hhash : obj_get "password_hash" snakeData = Some (VStr P)).
    { change (obj_get (snake_image "password_hash") snakeData
              = Some (toSnake_written ("password_hash", VStr P))).
      apply toSnake_get.
      - apply obj_delete_NoDup, obj_set_NoDup, Hnd1.
      - subst stored. rewrite obj_get_delete by discriminate.
        now rewrite obj_get_set.
      - intros k Hk Himg.
        destruct (snake_image_password_hash k Himg) as [-> | ->]; [reflexivity|].
        apply keys_obj_delete, keys_obj_set_In in Hk.
        destruct Hk as [Hk | Hk]; [discriminate|].
        apply Hkeys1 in Hk. destruct Hk as [Hk | Hk]; [discriminate | contradiction]. }
    rewrite Hhash, Htruthy in Htable. cbn [negb] in Htable.
    rewrite Htable, map_map. apply map_ext. intros row.
    destruct (String.eqb (fst row) i); [|reflexivity]. simpl.
    rewrite obj_get_merge, Hhash; [reflexivity | apply toSnake_keys_NoDup].
Qed.

Lemma saveOrganizer_update_credential_witness :
  map (fun row => (fst row, obj_get "password_hash" (snd row)))
      (Db.organizers
         (fst (saveOrganizer SampleOrganizers.store None (Sample.accepted "o2")
                 SampleOrganizers.edit (Some "o1"))))
  = map (fun row => (fst row, obj_get "password_hash" (snd row)))
        (Db.organizers SampleOrganizers.store).
Proof.
  assert (Hi : "o1" <> "") by discriminate.
  assert (Hnd : NoDup (keys SampleOrganizers.edit))
    by (apply nodupb_NoDup; reflexivity).
  assert (Hcamel : ~ In "passwordHash" (keys SampleOrganizers.edit))
    by (simpl; intros [H | [H | [H | []]]]; discriminate).
  assert (Hsnake : ~ In "password_hash" (keys SampleOrganizers.edit))
    by (simpl; intros [H | [H | [H | []]]]; discriminate).
  exact (proj1 (saveOrganizer_update_credential SampleOrganizers.store
                  (fst (saveOrganizer SampleOrganizers.store None
                          (Sample.accepted "o2") SampleOrganizers.edit (Some "o1")))
                  None (Sample.accepted "o2") SampleOrganizers.edit "o1"
                  (snd (saveOrganizer SampleOrganizers.store None
                          (Sample.accepted "o2") SampleOrganizers.edit (Some "o1")))
                  Hi Hnd Hcamel Hsnake (surjective_pairing _) eq_refl)
               eq_refl).
Defined.

Lemma toCamel_get (o : list (string * value)) (k0 : string) (v : value) :
  NoDup (keys o) ->
  obj_get k0 o = Some v ->
  (forall k, In k (keys o) -> snakeToCamel k = snakeToCamel k0 -> k = k0) ->
  obj_get (snakeToCamel k0) (obj_of (toCamel (VObj o))) = Some (toCamel v).
Proof.
  intros Hnd Hget Honly.
  change (toCamel (VObj o))
    with (VObj (fold_left
                  (fun result kv =>
                     obj_set (snakeToCamel (fst kv)) (toCamel (snd kv)) result)
                  o [])).
  simpl obj_of.
  apply (obj_get_fold_writes (fun kv => snakeToCamel (fst kv))
           (fun kv => toCamel (snd kv))).
  - intros [k x] Hin Himg. simpl in Himg.
    assert (k = k0)
      by (apply Honly; [change k with (fst (k, x)); now apply in_map | exact Himg]).
    subst k. apply (obj_get_In _ _ _ Hnd) in Hin. simpl. congruence.
  - left. exists (k0, v). split; [now apply obj_get_Some_In | reflexivity].
Qed.

Lemma bag_row_snake (row : string * list (string * value)) :
  NoDup (keys (snd row)) -> forallb is_snake_key (keys (snd row)) = true ->
  NoDup (keys (bag_row row))
  /\ forall k k0, In k (keys (bag_row row)) -> is_snake_key k0 = true ->
                  snakeToCamel k = snakeToCamel k0 -> k = k0.
Proof.
  intros Hnd Hsnake. split; [now apply obj_set_NoDup|].
  intros k k0 Hk Hk0 Himg.
  assert (Hks : is_snake_key k = true).
  { apply keys_obj_set_In in Hk. destruct Hk as [-> | Hk]; [reflexivity|].
    rewrite forallb_forall in Hsnake. now apply Hsnake. }
  rewrite <- (camelToSnake_snakeToCamel k Hks), <- (camelToSnake_snakeToCamel k0 Hk0).
  now rewrite Himg.
Qed.

(** X15.  [login] either refuses, always with the one message, or hands
    the session the row of an organizer of the store under camel-cased
    names: its address is the lower-cased address typed, and it carries the
    stored credential, equal to the password typed, under [passwordHash]. *)
Theorem login_hands_over_credential :
  forall (db : Db.t) (email pass : string),
    snake_columns (Db.organizers db) ->
    login db email pass = (None, failure invalid_login_message)
    \/ exists row v,
         In row (Db.organizers db)
         /\ login db email pass = (Some v, succeeded "Login bem-sucedido!")
         /\ obj_get "id" (obj_of v) = Some (VStr (fst row))
         /\ obj_get "email" (obj_of v) = Some (VStr (toLowerCase email))
         /\ obj_get "passwordHash" (obj_of v) = Some (VStr pass).
Proof.
  intros db email pass Hcols. unfold login.
  destruct (single (bag_eq "email" (toLowerCase email) (Db.organizers db)))
    as [row|] eqn:Hone; [|now left].
  apply single_In in Hone.
  assert (Hin : In row (bag_eq "email" (toLowerCase email) (Db.organizers db)))
    by (rewrite Hone; now left).
  apply filter_In in Hin. destruct Hin as [Hin Hmail].
  destruct (obj_get "password_hash" (bag_row row)) as [[| | |h| | | |]|] eqn:Hhash;
    try now left.
  destruct (String.eqb h pass) eqn:Hpass; [|now left].
  apply String.eqb_eq in Hpass. subst h.
  destruct (obj_get "email" (bag_row row)) as [[| | |s| | | |]|] eqn:Hs;
    try discriminate.
  apply String.eqb_eq in Hmail. subst s.
  unfold snake_columns in Hcols. rewrite Forall_forall in Hcols.
  destruct (Hcols row Hin) as [Hnd Hsnake].
  destruct (bag_row_snake row Hnd Hsnake) as [Hnd' Hinj].
  right. exists row, (toCamel (VObj (bag_row row))).
  split; [exact Hin|]. split; [reflexivity|]. split; [|split].
  - change (obj_get (snakeToCamel "id") (obj_of (toCamel (VObj (bag_row row))))
            = Some (toCamel (VStr (fst row)))).
    apply toCamel_get; [exact Hnd' | | intros k Hk; now apply Hinj].
    unfold bag_row. now rewrite obj_get_set.
  - change (obj_get (snakeToCamel "email") (obj_of (toCamel (VObj (bag_row row))))
            = Some (toCamel (VStr (toLowerCase email)))).
    apply toCamel_get; [exact Hnd' | exact Hs | intros k Hk; now apply Hinj].
  - change (obj_get (snakeToCamel "password_hash")
              (obj_of (toCamel (VObj (bag_row row))))
            = Some (toCamel (VStr pass))).
    apply toCamel_get; [exact Hnd' | exact Hhash | intros k Hk; now apply Hinj].
Qed.

(** ** The wheel pages *)

Lemma public_spin_picks (st : PublicRoleta.State) (prizes : list Prize.t) (r : Q) :
  unit_interval r ->
  PublicRoleta.isSpun st = false -> PublicRoleta.isSpinning st = false ->
  Nat.ltb (length prizes) 2 = false ->
  exists w,
    In w prizes
    /\ PublicRoleta.handleSpin st prizes r
       = Returned {| PublicRoleta.isSpun := true; PublicRoleta.isSpinning := true;
                     PublicRoleta.winner := Some w;
                     PublicRoleta.winningPrizeId := Some (Prize.id w) |}.
Proof.
  intros Hr Hspun Hspinning Hlen. apply Nat.ltb_ge in Hlen.
  destruct (random_pick prizes r Hr) as [w [Hw Hin]]; [lia|].
  exists w. split; [exact Hin|].
  unfold PublicRoleta.handleSpin. rewrite Hspun, Hspinning, Hw.
  apply Nat.ltb_ge in Hlen. now rewrite Hlen.
Qed.

Lemma public_on_coherent (pg : PublicRoletaPage.Page) (e : PublicRoletaPage.Event) :
  PublicRoletaPage.coherent pg -> PublicRoletaPage.possible e ->
  exists pg',
    PublicRoletaPage.on pg e = Returned pg'
    /\ PublicRoletaPage.coherent pg'
    /\ (PublicRoleta.isSpun (PublicRoletaPage.wheel pg) = true ->
        PublicRoleta.isSpun (PublicRoletaPage.wheel pg') = true
        /\ PublicRoleta.winner (PublicRoletaPage.wheel pg')
           = PublicRoleta.winner (PublicRoletaPage.wheel pg)).
Proof.
  destruct pg as [stp [n m p] [spun spinning w wid] modal t].
  unfold PublicRoletaPage.coherent. simpl.
  intros [Hfresh [Hspun [Htimers [Hmodal Hfilled]]]] Hpos.
  destruct e as [field value | | prizes r | |]; simpl in *.
  - destruct stp; simpl; (eexists; split; [reflexivity|]); simpl;
      destruct spun; intuition (try discriminate; try congruence).
  - destruct stp; simpl; [|eexists; split; [reflexivity|]; simpl; tauto].
    unfold PublicRoletaPage.handleRegisterSubmit. simpl.
    destruct (negb (n =? "") && negb (m =? "") && negb (p =? "")) eqn:Hall;
      (eexists; split; [reflexivity|]); simpl; [|tauto].
    apply andb_true_iff in Hall. destruct Hall as [Hall Hp].
    apply andb_true_iff in Hall. destruct Hall as [Hn Hm].
    apply negb_true_iff, String.eqb_neq in Hn, Hm, Hp.
    destruct spun; intuition (try discriminate; try congruence).
  - destruct stp; simpl; [eexists; split; [reflexivity|]; simpl; tauto|].
    unfold PublicRoletaPage.handleSpin. simpl.
    destruct spun; simpl; [eexists; split; [reflexivity|]; simpl; tauto|].
    destruct spinning; simpl; [eexists; split; [reflexivity|]; simpl; tauto|].
    destruct (Nat.ltb (length prizes) 2) eqn:Hlen;
      [eexists; split; [reflexivity|]; simpl; tauto|].
    destruct (public_spin_picks
                {| PublicRoleta.isSpun := false; PublicRoleta.isSpinning := false;
                   PublicRoleta.winner := w; PublicRoleta.winningPrizeId := wid |}
                prizes r Hpos eq_refl eq_refl Hlen) as [prize [_ ->]].
    eexists. split; [reflexivity|]. simpl.
    destruct (Hfresh eq_refl) as [_ [_ [_ Hclosed]]].
    repeat split; try discriminate; try tauto; try congruence; eauto.
  - unfold PublicRoletaPage.timeout. simpl.
    destruct t as [|t]; (eexists; split; [reflexivity|]); simpl; [tauto|].
    destruct spinning; [|discriminate].
    injection Htimers as ->.
    destruct spun; intuition (try discriminate; try congruence).
  - eexists. split; [reflexivity|]. simpl.
    destruct spun; intuition (try discriminate; try congruence).
Qed.

Lemma public_run_coherent (es : list PublicRoletaPage.Event) (pg : PublicRoletaPage.Page) :
  PublicRoletaPage.coherent pg -> Forall PublicRoletaPage.possible es ->
  exists pg',
    PublicRoletaPage.run pg es = Returned pg'
    /\ PublicRoletaPage.coherent pg'
    /\ (PublicRoleta.isSpun (PublicRoletaPage.wheel pg) = true ->
        PublicRoleta.isSpun (PublicRoletaPage.wheel pg') = true
        /\ PublicRoleta.winner (PublicRoletaPage.wheel pg')
           = PublicRoleta.winner (PublicRoletaPage.wheel pg)).
Proof.
  revert pg. induction es as [|e es IH]; intros pg Hpg Hes.
  - exists pg. simpl. tauto.
  - inversion Hes as [|e' es' He Hes']; subst.
    destruct (public_on_coherent pg e Hpg He) as [pg1 [Hon [Hpg1 Hkeep1]]].
    destruct (IH pg1 Hpg1 Hes') as [pg' [Hrun [Hpg' Hkeep]]].
    exists pg'. simpl. rewrite Hon. split; [exact Hrun|]. split; [exact Hpg'|].
    intros Hspun. destruct (Hkeep1 Hspun) as [Hspun1 Hw1].
    destruct (Hkeep Hspun1) as [Hspun' Hw']. split; [exact Hspun' | congruence].
Qed.

Lemma public_initial_coherent : PublicRoletaPage.coherent PublicRoletaPage.initial.
Proof.
  unfold PublicRoletaPage.coherent. simpl. repeat split; discriminate.
Qed.

(** X16.  The public wheel page, whatever the visitor does and whenever the
    timer fires: no handler raises; the wheel has a winner exactly when it
    was spun, which happens only at the wheel step, reached only with name,
    address and phone all filled in; a timer is pending exactly while the
    wheel is spinning; the winner modal is open only when the wheel has
    stopped on a winner; and a winner, once there, is the winner for good. *)
Theorem public_wheel_spins_once :
  forall es es' : list PublicRoletaPage.Event,
    Forall PublicRoletaPage.possible es ->
    Forall PublicRoletaPage.possible es' ->
    exists pg pg',
      PublicRoletaPage.run PublicRoletaPage.initial es = Returned pg
      /\ PublicRoletaPage.run pg es' = Returned pg'
      /\ PublicRoletaPage.coherent pg
      /\ (forall w,
            PublicRoleta.winner (PublicRoletaPage.wheel pg) = Some w ->
            PublicRoleta.winner (PublicRoletaPage.wheel pg') = Some w).
Proof.
  intros es es' Hes Hes'.
  destruct (public_run_coherent es _ public_initial_coherent Hes)
    as [pg [Hrun [Hpg _]]].
  destruct (public_run_coherent es' pg Hpg Hes') as [pg' [Hrun' [_ Hkeep]]].
  exists pg, pg'. split; [exact Hrun|]. split; [exact Hrun'|]. split; [exact Hpg|].
  intros w Hw.
  destruct (PublicRoleta.isSpun (PublicRoletaPage.wheel pg)) eqn:Hspun.
  - destruct (Hkeep eq_refl) as [_ Hsame]. congruence.
  - destruct Hpg as [Hfresh _]. destruct (Hfresh Hspun) as [Hnone _]. congruence.
Qed.

Lemma collaborator_spin_picks (st : CollaboratorRoleta.State) (prizes : list Prize.t)
  (r : Q) :
  unit_interval r ->
  CollaboratorRoleta.isSpinning st = false ->
  Nat.ltb (length prizes) 2 = false ->
  exists w,
    In w prizes
    /\ CollaboratorRoleta.handleSpin st prizes r
       = Returned {| CollaboratorRoleta.isSpinning := true;
                     CollaboratorRoleta.winner := Some w;
                     CollaboratorRoleta.winningPrizeId := Some (Prize.id w) |}.
Proof.
  intros Hr Hspinning Hlen. apply Nat.ltb_ge in Hlen.
  destruct (random_pick prizes r Hr) as [w [Hw Hin]]; [lia|].
  exists w. split; [exact Hin|].
  unfold CollaboratorRoleta.handleSpin. rewrite Hspinning, Hw.
  apply Nat.ltb_ge in Hlen. now rewrite Hlen.
Qed.

Lemma collaborator_on_steady (pg : CollaboratorRoletaPage.Page)
  (e : CollaboratorRoletaPage.Event) :
  steady pg -> CollaboratorRoletaPage.possible e ->
  exists pg' extra,
    CollaboratorRoletaPage.on pg e = Returned pg'
    /\ steady pg'
    /\ CollaboratorRoletaPage.deleted pg'
       = (CollaboratorRoletaPage.deleted pg ++ extra)%list
    /\ incl (extra ++ pending pg')
            (pending pg ++ CollaboratorRoletaPage.delete_clicks [e])
    /\ length extra + length (pending pg')
       <= length (pending pg) + length (CollaboratorRoletaPage.delete_clicks [e]).
Proof.
  destruct pg as [[spinning w wid] modal t del confirm log].
  unfold steady, pending. simpl.
  intros [Htimers [Hid [Hmodal Hspin]]] Hpos.
  destruct e as [prizes r | | | prize | |]; simpl in *.
  - unfold CollaboratorRoletaPage.handleSpin. simpl.
    destruct spinning; simpl.
    { eexists _, []. split; [reflexivity|]. simpl. rewrite !app_nil_r.
      repeat split; try tauto; try apply incl_refl; lia. }
    destruct (Nat.ltb (length prizes) 2) eqn:Hlen.
    { eexists _, []. split; [reflexivity|]. simpl. rewrite !app_nil_r.
      repeat split; try tauto; try apply incl_refl; lia. }
    destruct (collaborator_spin_picks
                {| CollaboratorRoleta.isSpinning := false;
                   CollaboratorRoleta.winner := w;
                   CollaboratorRoleta.winningPrizeId := wid |}
                prizes r Hpos eq_refl Hlen) as [prize [_ ->]].
    eexists _, []. split; [reflexivity|]. simpl. rewrite !app_nil_r.
    repeat split; try discriminate; try apply incl_refl; try lia.
  - unfold CollaboratorRoletaPage.timeout. simpl.
    destruct t as [|t]; eexists _, []; (split; [reflexivity|]); simpl;
      rewrite !app_nil_r.
    + repeat split; try tauto; try apply incl_refl; lia.
    + destruct spinning; [|discriminate]. injection Htimers as ->.
      repeat split; try tauto; try discriminate; try apply incl_refl; try lia.
  - eexists _, []. split; [reflexivity|]. simpl. rewrite !app_nil_r.
    repeat split; try tauto; try discriminate; try apply incl_refl; lia.
  - eexists _, []. split; [reflexivity|]. simpl. rewrite app_nil_r.
    repeat split; try tauto.
    + intros x [<- | []]. apply in_or_app. right. now left.
    + destruct del; simpl; lia.
  - destruct del as [prize|].
    + eexists _, [Prize.id prize]. split; [reflexivity|]. simpl.
      repeat split; try tauto; try discriminate; try lia; try apply incl_refl.
    + eexists _, []. split; [reflexivity|]. simpl. rewrite !app_nil_r.
      repeat split; try tauto; try discriminate; try apply incl_refl; lia.
  - eexists _, []. split; [reflexivity|]. simpl. rewrite !app_nil_r.
    repeat split; try tauto; try discriminate; try apply incl_refl; lia.
Qed.

Lemma collaborator_run_steady (es : list CollaboratorRoletaPage.Event)
  (pg : CollaboratorRoletaPage.Page) :
  steady pg -> Forall CollaboratorRoletaPage.possible es ->
  exists pg' extra,
    CollaboratorRoletaPage.run pg es = Returned pg'
    /\ steady pg'
    /\ CollaboratorRoletaPage.deleted pg'
       = (CollaboratorRoletaPage.deleted pg ++ extra)%list
    /\ incl (extra ++ pending pg')
            (pending pg ++ CollaboratorRoletaPage.delete_clicks es)
    /\ length extra + length (pending pg')
       <= length (pending pg) + length (CollaboratorRoletaPage.delete_clicks es).
Proof.
  revert pg. induction es as [|e es IH]; intros pg Hpg Hes.
  - exists pg, []. simpl. rewrite !app_nil_r.
    repeat split; try apply Hpg; try apply incl_refl; lia.
  - inversion Hes as [|e' es' He Hes']; subst.
    destruct (collaborator_on_steady pg e Hpg He)
      as [pg1 [extra1 [Hon [Hpg1 [Hlog1 [Hincl1 Hlen1]]]]]].
    destruct (IH pg1 Hpg1 Hes') as [pg' [extra [Hrun [Hpg' [Hlog [Hincl Hlen]]]]]].
    exists pg', (extra1 ++ extra)%list. simpl CollaboratorRoletaPage.run.
    rewrite Hon. split; [exact Hrun|]. split; [exact Hpg'|].
    assert (Hclicks : CollaboratorRoletaPage.delete_clicks (e :: es)
                      = (CollaboratorRoletaPage.delete_clicks [e]
                         ++ CollaboratorRoletaPage.delete_clicks es)%list).
    { unfold CollaboratorRoletaPage.delete_clicks. simpl. now rewrite app_nil_r. }
    rewrite Hclicks.
    split; [|split].
    + now rewrite Hlog, Hlog1, app_assoc.
    + intros x Hx. rewrite <- app_assoc in Hx.
      apply in_app_or in Hx. destruct Hx as [Hx | Hx].
      * assert (Hx1 : In x (extra1 ++ pending pg1)%list)
          by (apply in_or_app; now left).
        apply Hincl1 in Hx1. rewrite app_assoc. apply in_or_app. now left.
      * apply Hincl in Hx. apply in_app_or in Hx. destruct Hx as [Hx | Hx].
        -- assert (Hx1 : In x (extra1 ++ pending pg1)%list)
             by (apply in_or_app; now right).
           apply Hincl1 in Hx1. rewrite app_assoc. apply in_or_app. now left.
        -- rewrite app_assoc. apply in_or_app. now right.
    + rewrite !length_app in *. lia.
Qed.

Lemma public_wheel_spins_once_witness :
  exists pg pg',
    PublicRoletaPage.run PublicRoletaPage.initial SamplePrizes.visit = Returned pg
    /\ PublicRoletaPage.run pg SamplePrizes.afterwards = Returned pg'
    /\ PublicRoletaPage.coherent pg
    /\ (forall w,
          PublicRoleta.winner (PublicRoletaPage.wheel pg) = Some w ->
          PublicRoleta.winner (PublicRoletaPage.wheel pg') = Some w).
Proof.
  apply (public_wheel_spins_once SamplePrizes.visit SamplePrizes.afterwards).
  - sample_events.
  - sample_events.
Defined.

(** X17.  The collaborator's wheel page, whatever is clicked and whenever
    the timer fires: no handler raises; at most one timer is pending, and
    one is pending exactly while the wheel is spinning, so a click during
    a spin starts nothing; the winning identifier is always that of the
    winner, and the winner modal is open only with a winner; [deletePrize]
    is called only for prizes of delete clicks, and never more often than
    there were delete clicks, however often the deletion is confirmed. *)
Theorem collaborator_wheel_page :
  forall es : list CollaboratorRoletaPage.Event,
    Forall CollaboratorRoletaPage.possible es ->
    exists pg,
      CollaboratorRoletaPage.run CollaboratorRoletaPage.initial es = Returned pg
      /\ steady pg
      /\ incl (CollaboratorRoletaPage.deleted pg)
              (CollaboratorRoletaPage.delete_clicks es)
      /\ length (CollaboratorRoletaPage.deleted pg) + length (pending pg)
         <= length (CollaboratorRoletaPage.delete_clicks es).
Proof.
  intros es Hes.
  assert (Hinit : steady CollaboratorRoletaPage.initial).
  { unfold steady. simpl. repeat split; discriminate. }
  destruct (collaborator_run_steady es _ Hinit Hes)
    as [pg [extra [Hrun [Hpg [Hlog [Hincl Hlen]]]]]].
  simpl in Hlog, Hincl, Hlen. subst extra.
  exists pg. split; [exact Hrun|]. split; [exact Hpg|]. split; [|exact Hlen].
  intros x Hx. apply Hincl, in_or_app. now left.
Qed.

Lemma collaborator_wheel_page_witness :
  exists pg,
    CollaboratorRoletaPage.run CollaboratorRoletaPage.initial SamplePrizes.shift
    = Returned pg
    /\ steady pg
    /\ incl (CollaboratorRoletaPage.deleted pg)
            (CollaboratorRoletaPage.delete_clicks SamplePrizes.shift)
    /\ length (CollaboratorRoletaPage.deleted pg) + length (pending pg)
       <= length (CollaboratorRoletaPage.delete_clicks SamplePrizes.shift).
Proof.
  apply (collaborator_wheel_page SamplePrizes.shift).
  sample_events.
Defined.

(** ** The admin login *)

Lemma loginSuperAdmin_cases (admins : bag_table) (email pass : string) (s : Session) :
  loginSuperAdmin admins email pass s = (s, failure invalid_admin_message)
  \/ loginSuperAdmin admins email pass s
     = (setIsSuperAdmin true s, succeeded "Login de admin bem-sucedido!").
Proof.
  unfold loginSuperAdmin.
  destruct (single (bag_eq "email" (toLowerCase email) admins)) as [row|];
    [|now left].
  destruct (obj_get "password_hash" (bag_row row)) as [[| | |h| | | |]|];
    try now left.
  destruct (String.eqb h pass); [now right | now left].
Qed.

(** X18.  [loginSuperAdmin] changes nothing when it refuses; when it
    accepts, on a session that is not impersonating, the context exposes no
    organizer and the admin tables are fetched, but a stored organizer
    stays stored: [logoutSuperAdmin] exposes that organizer again. *)
Theorem loginSuperAdmin_keeps_organizer :
  forall (admins : bag_table) (email pass : string) (s s' : Session) (res : Result),
    loginSuperAdmin admins email pass s = (s', res) ->
    impersonatingFromAdmin s = false ->
    (success res = false -> s' = s)
    /\ (success res = true ->
        value_loggedInOrganizer s' = None
        /\ fetch_effect s' = FetchAdmin
        /\ loggedInOrganizer s' = loggedInOrganizer s
        /\ value_loggedInOrganizer (logoutSuperAdmin s') = loggedInOrganizer s).
Proof.
  intros admins email pass s s' res Hcall Himp.
  destruct (loginSuperAdmin_cases admins email pass s) as [H | H];
    rewrite H in Hcall; injection Hcall as <- <-; (split; [|intros Hok]);
    try discriminate; try reflexivity.
  destruct s as [o col ev rf admin imp]. simpl in Himp. subst imp.
  unfold value_loggedInOrganizer, fetch_effect. simpl. repeat split.
Qed.

(** ** Updates that carry no image *)

Lemma toLower_inv (c d : ascii) :
  Char.is_upper c = true -> d = Char.toLower c -> c = Char.toUpper d.
Proof. intros Hup ->. revert Hup. by_ascii_cases c. Qed.

Lemma snake_image_logo_url (k : string) :
  snake_image k = "logo_url" -> k = "logo_url" \/ k = "logoUrl".
Proof.
  unfold snake_image. destruct (is_sentinel k); [now left|]. intros H.
  repeat (apply camelToSnake_cons_inv in H;
          let k' := fresh "k" in
          let c := fresh "c" in
          let s' := fresh "s" in
          let Hup := fresh "Hup" in
          let Hs := fresh "Hs" in
          let Hd := fresh "Hd" in
          destruct H as [[k' [-> [_ H]]] | [Hd [c [k' [s' [-> [Hup [Hs H]]]]]]]];
          [| try discriminate Hd;
             injection Hs as Hs <-; apply (toLower_inv _ _ Hup) in Hs; subst c]);
    apply camelToSnake_nil in H; subst; simpl; tauto.
Qed.

Lemma snake_image_photo_url (k : string) :
  snake_image k = "photo_url" -> k = "photo_url" \/ k = "photoUrl".
Proof.
  unfold snake_image. destruct (is_sentinel k); [now left|]. intros H.
  repeat (apply camelToSnake_cons_inv in H;
          let k' := fresh "k" in
          let c := fresh "c" in
          let s' := fresh "s" in
          let Hup := fresh "Hup" in
          let Hs := fresh "Hs" in
          let Hd := fresh "Hd" in
          destruct H as [[k' [-> [_ H]]] | [Hd [c [k' [s' [-> [Hup [Hs H]]]]]]]];
          [| try discriminate Hd;
             injection Hs as Hs <-; apply (toLower_inv _ _ Hup) in Hs; subst c]);
    apply camelToSnake_nil in H; subst; simpl; tauto.
Qed.

(** The image column of a payload whose image field has been set. *)
Lemma image_column (data : list (string * value)) (field column : string) (u : value) :
  NoDup (keys data) ->
  snake_image field = column ->
  is_sentinel field = false ->
  (forall k, snake_image k = column -> k = column \/ k = field) ->
  ~ In column (keys data) ->
  obj_get column (obj_of (toSnake (VObj (obj_set field u data))))
  = Some (toSnake u).
Proof.
  intros Hnd Himg Hplain Honly Habsent. rewrite <- Himg.
  replace (toSnake u) with (toSnake_written (field, u))
    by (unfold toSnake_written; simpl; now rewrite Hplain).
  apply toSnake_get.
  - now apply obj_set_NoDup.
  - rewrite obj_get_set. now rewrite String.eqb_refl.
  - intros k Hk Hsame. rewrite Himg in Hsame.
    destruct (Honly k Hsame) as [-> | ->]; [|reflexivity].
    apply keys_obj_set_In in Hk. destruct Hk as [Hk | Hk]; [now symmetry|].
    contradiction.
Qed.

Lemma saveCompany_update_resets_logo (c : Client.t) (db : Db.t)
  (storage : option string) (reply : InsertReply)
  (companyData : list (string * value)) (i : string) (ev : Event.t) :
  selectedEvent c = Some ev -> i <> "" -> fault reply = None ->
  NoDup (keys companyData) -> ~ In "logo_url" (keys companyData) ->
  truthy (obj_get "logoUrl" companyData) = false ->
  Db.companies (saveCompany c db storage reply companyData (Some i))
  = map (fun row =>
           if String.eqb (fst row) i
           then (fst row,
                 obj_merge (snd row)
                   (obj_set "event_id" (VStr (Event.id ev))
                      (obj_of (toSnake (VObj (obj_set "logoUrl"
                                                (VStr DEFAULT_IMAGE_URL)
                                                companyData))))))
           else row) (Db.companies db)
  /\ forall row,
       In row (Db.companies (saveCompany c db storage reply companyData (Some i))) ->
       fst row = i ->
       obj_get "logo_url" (snd row) = Some (VStr DEFAULT_IMAGE_URL).
Proof.
  intros Hsel Hi Hok Hnd Habsent Hnone.
  assert (Htruthy : truthy_str (Some i) = true)
    by (simpl; now apply negb_true_iff, String.eqb_neq).
  assert (Htable :
    Db.companies (saveCompany c db storage reply companyData (Some i))
    = map (fun row =>
             if String.eqb (fst row) i
             then (fst row,
                   obj_merge (snd row)
                     (obj_set "event_id" (VStr (Event.id ev))
                        (obj_of (toSnake (VObj (obj_set "logoUrl"
                                                  (VStr DEFAULT_IMAGE_URL)
                                                  companyData))))))
             else row) (Db.companies db)).
  { unfold saveCompany. rewrite Hsel, Hnone, Htruthy. cbn [andb negb].
    rewrite Hnone. cbn [negb]. unfold update_bag. rewrite Hok. reflexivity. }
  split; [exact Htable|].
  intros row Hin Hid. rewrite Htable in Hin. clear Htable.
  assert (Hcol :
            obj_get "logo_url"
              (obj_of (toSnake (VObj (obj_set "logoUrl" (VStr DEFAULT_IMAGE_URL)
                                        companyData))))
            = Some (VStr DEFAULT_IMAGE_URL)).
  { apply (image_column companyData "logoUrl" "logo_url" (VStr DEFAULT_IMAGE_URL));
      try reflexivity; try assumption.
    apply snake_image_logo_url. }
  assert (Hnd' :
            NoDup (keys (obj_of (toSnake (VObj (obj_set "logoUrl"
                                                  (VStr DEFAULT_IMAGE_URL)
                                                  companyData))))))
    by apply toSnake_keys_NoDup.
  set (snake := obj_of (toSnake _)) in *. clearbody snake.
  apply in_map_iff in Hin. destruct Hin as [row0 [Hrow Hin0]].
  destruct (String.eqb (fst row0) i) eqn:E.
  - subst row. cbn [snd]. rewrite obj_get_merge by now apply obj_set_NoDup.
    rewrite obj_get_set.
    change (String.eqb "event_id" "logo_url") with false. cbv iota.
    now rewrite Hcol.
  - subst row0. apply String.eqb_neq in E. contradiction.
Qed.

Lemma updateCollaborator_resets_photo (db : Db.t) (storage : option string)
  (i : string) (collaboratorData : list (string * value)) :
  NoDup (keys collaboratorData) -> ~ In "photo_url" (keys collaboratorData) ->
  truthy (obj_get "photoUrl" collaboratorData) = false ->
  forall row,
    In row (Db.collaborators (updateCollaborator db storage None i collaboratorData)) ->
    fst row = i ->
    obj_get "photo_url" (snd row) = Some (VStr DEFAULT_IMAGE_URL).
Proof.
  intros Hnd Habsent Hnone row Hin Hid.
  assert (Htable :
    Db.collaborators (updateCollaborator db storage None i collaboratorData)
    = map (fun row =>
             if String.eqb (fst row) i
             then (fst row,
                   obj_merge (snd row)
                     (obj_of (toSnake (VObj (obj_set "photoUrl"
                                               (VStr DEFAULT_IMAGE_URL)
                                               collaboratorData)))))
             else row) (Db.collaborators db)).
  { unfold updateCollaborator. rewrite Hnone. cbn [andb negb].
    rewrite Hnone. cbn [negb]. reflexivity. }
  rewrite Htable in Hin. clear Htable.
  assert (Hcol :
            obj_get "photo_url"
              (obj_of (toSnake (VObj (obj_set "photoUrl" (VStr DEFAULT_IMAGE_URL)
                                        collaboratorData))))
            = Some (VStr DEFAULT_IMAGE_URL)).
  { apply (image_column collaboratorData "photoUrl" "photo_url"
             (VStr DEFAULT_IMAGE_URL));
      try reflexivity; try assumption.
    apply snake_image_photo_url. }
  assert (Hnd' :
            NoDup (keys (obj_of (toSnake (VObj (obj_set "photoUrl"
                                                  (VStr DEFAULT_IMAGE_URL)
                                                  collaboratorData))))))
    by apply toSnake_keys_NoDup.
  set (snake := obj_of (toSnake _)) in *. clearbody snake.
  apply in_map_iff in Hin. destruct Hin as [row0 [Hrow Hin0]].
  destruct (String.eqb (fst row0) i) eqn:E.
  - subst row. cbn [snd]. rewrite obj_get_merge by exact Hnd'. now rewrite Hcol.
  - subst row0. apply String.eqb_neq in E. contradiction.
Qed.

Lemma saveOrganizer_update_keeps_photo (db db' : Db.t) (storage : option string)
  (reply : InsertReply) (organizerData : list (string * value)) (i : string)
  (res : Result) :
  i <> "" ->
  NoDup (keys organizerData) -> ~ In "photo_url" (keys organizerData) ->
  obj_get "photoUrl" organizerData = None ->
  saveOrganizer db storage reply organizerData (Some i) = (db', res) ->
  success res = true ->
  map (fun row => (fst row, obj_get "photo_url" (snd row))) (Db.organizers db')
  = map (fun row => (fst row, obj_get "photo_url" (snd row))) (Db.organizers db).
Proof.
  intros Hi Hnd Habsent Hnone Hcall Hok.
  destruct (saveOrganizer_updated db db' storage reply organizerData i res
              Hi Hcall Hok) as [photo [Hphoto Htable]].
  rewrite Hphoto in Htable by now rewrite Hnone.
  cbv zeta in Htable.
  set (withHash := match obj_get "password" organizerData with
                   | Some pw => if truthy (Some pw)
                                then obj_set "password_hash" pw organizerData
                                else organizerData
                   | None => organizerData
                   end) in Htable.
  assert (Hkeys : forall k, In k (keys withHash) ->
                            k = "password_hash" \/ In k (keys organizerData)).
  { subst withHash. intros k Hk.
    destruct (obj_get "password" organizerData) as [pw|]; [|now right].
    destruct (truthy (Some pw)); [|now right].
    now apply keys_obj_set_In in Hk. }
  clearbody withHash.
  set (snake := obj_of (toSnake (VObj (obj_delete "password" withHash)))) in Htable.
  assert (Hnone' : ~ In "photo_url" (keys snake)).
  { intros Hin. apply toSnake_keys, in_map_iff in Hin.
    destruct Hin as [k [Himg Hk]].
    apply keys_obj_delete, Hkeys in Hk.
    apply obj_get_None in Hnone.
    destruct (snake_image_photo_url k Himg) as [-> | ->];
      destruct Hk as [Hk | Hk]; try discriminate; contradiction. }
  assert (Hnd' : NoDup (keys snake)) by apply toSnake_keys_NoDup.
  clearbody snake.
  rewrite Htable, map_map. apply map_ext. intros row.
  destruct (String.eqb (fst row) i); [|reflexivity]. cbn [fst snd].
  destruct (negb (truthy (obj_get "password_hash" snake))).
  - rewrite obj_get_merge by now apply obj_delete_NoDup.
    assert (Hgone : obj_get "photo_url" (obj_delete "password_hash" snake) = None).
    { apply obj_get_None. intros Hin. now apply keys_obj_delete in Hin. }
    now rewrite Hgone.
  - rewrite obj_get_merge by exact Hnd'.
    apply obj_get_None in Hnone'. now rewrite Hnone'.
Qed.

(** An image field that is there with a falsy value ([null], the empty
    string) goes to the store as it is. *)
Lemma saveOrganizer_update_writes_photo (db db' : Db.t) (storage : option string)
  (reply : InsertReply) (organizerData : list (string * value)) (i : string)
  (res : Result) (v : value) :
  i <> "" ->
  NoDup (keys organizerData) -> ~ In "photo_url" (keys organizerData) ->
  obj_get "photoUrl" organizerData = Some v ->
  truthy (Some v) = false ->
  saveOrganizer db storage reply organizerData (Some i) = (db', res) ->
  success res = true ->
  forall row,
    In row (Db.organizers db') -> fst row = i ->
    obj_get "photo_url" (snd row) = Some v.
Proof.
  intros Hi Hnd Habsent Hget Hfalsy Hcall Hok.
  destruct (saveOrganizer_updated db db' storage reply organizerData i res
              Hi Hcall Hok) as [photo [Hphoto Htable]].
  rewrite Hphoto in Htable by now rewrite Hget, Hfalsy.
  cbv zeta in Htable.
  set (withHash := match obj_get "password" organizerData with
                   | Some pw => if truthy (Some pw)
                                then obj_set "password_hash" pw organizerData
                                else organizerData
                   | None => organizerData
                   end) in Htable.
  assert (Hkeys : forall k, In k (keys withHash) ->
                            k = "password_hash" \/ In k (keys organizerData)).
  { subst withHash. intros k Hk.
    destruct (obj_get "password" organizerData) as [pw|]; [|now right].
    destruct (truthy (Some pw)); [|now right].
    now apply keys_obj_set_In in Hk. }
  assert (Hnd1 : NoDup (keys withHash)).
  { subst withHash. destruct (obj_get "password" organizerData) as [pw|]; [|exact Hnd].
    destruct (truthy (Some pw)); [now apply obj_set_NoDup | exact Hnd]. }
  assert (Hget1 : obj_get "photoUrl" withHash = Some v).
  { subst withHash. destruct (obj_get "password" organizerData) as [pw|]; [|exact Hget].
    destruct (truthy (Some pw)); [|exact Hget].
    rewrite obj_get_set. exact Hget. }
  clearbody withHash.
  assert (Hleaf : toSnake_written ("photoUrl", v) = v).
  { destruct v; try discriminate Hfalsy; reflexivity. }
  assert (Hcol : obj_get "photo_url"
                   (obj_of (toSnake (VObj (obj_delete "password" withHash))))
                 = Some v).
  { pose proof (toSnake_get (obj_delete "password" withHash) "photoUrl" v) as Hw.
    rewrite Hleaf in Hw. change (snake_image "photoUrl") with "photo_url" in Hw.
    apply Hw.
    - now apply obj_delete_NoDup.
    - rewrite obj_get_delete by discriminate. exact Hget1.
    - intros k Hk Himg.
      destruct (snake_image_photo_url k Himg) as [-> | ->]; [|reflexivity].
      apply keys_obj_delete, Hkeys in Hk.
      destruct Hk as [Hk | Hk]; [discriminate | contradiction]. }
  assert (Hnd' : NoDup (keys (obj_of (toSnake (VObj (obj_delete "password" withHash))))))
    by apply toSnake_keys_NoDup.
  set (snake := obj_of (toSnake (VObj (obj_delete "password" withHash)))) in *.
  clearbody snake.
  intros row Hin Hid. rewrite Htable in Hin.
  apply in_map_iff in Hin. destruct Hin as [row0 [Hrow Hin0]].
  destruct (String.eqb (fst row0) i) eqn:E.
  - subst row. cbn [snd].
    destruct (negb (truthy (obj_get "password_hash" snake))).
    + rewrite obj_get_merge by now apply obj_delete_NoDup.
      rewrite obj_get_delete by discriminate. now rewrite Hcol.
    + rewrite obj_get_merge by exact Hnd'. now rewrite Hcol.
  - subst row0. apply String.eqb_neq in E. contradiction.
Qed.

Lemma obj_get_set_opt (k k' : string) (v : option value) (o : list (string * value)) :
  String.eqb k' k = false -> obj_get k (obj_set_opt k' v o) = obj_get k o.
Proof.
  intros Hneq. destruct v as [x|]; simpl; [|reflexivity].
  rewrite obj_get_set. now rewrite Hneq.
Qed.

Lemma saveEvent_update_resets_banner (db : Db.t)
  (photoStorage bannerStorage : option string)
  (organizerReply eventReply : InsertReply)
  (formData : list (string * value)) (i : string) (row : Event.t) :
  i <> "" -> fault eventReply = None ->
  truthy (obj_get "eventBannerUrl" formData) = false ->
  In row (Db.events (fst (saveEvent db photoStorage bannerStorage organizerReply
                            eventReply formData (Some i)))) ->
  Event.id row = i ->
  Event.banner_url row = Some DEFAULT_IMAGE_URL.
Proof.
  intros Hi Hok Hnone.
  assert (Htruthy : truthy_str (Some i) = true)
    by (simpl; now apply negb_true_iff, String.eqb_neq).
  unfold saveEvent. rewrite Htruthy. cbn [negb andb]. cbv iota.
  rewrite Hnone. cbn [negb andb]. cbv iota. rewrite Hok.
  cbn [fst Db.events Db.with_events].
  intros Hin Hid. apply in_map_iff in Hin. destruct Hin as [row0 [Hrow Hin0]].
  destruct (String.eqb (Event.id row0) i) eqn:E.
  - subst row. unfold event_updated. cbn [Event.banner_url].
    rewrite obj_get_set_opt by reflexivity.
    unfold obj_set_opt at 1. rewrite obj_get_set, String.eqb_refl.
    cbn [obj_set_opt]. rewrite obj_get_set. reflexivity.
  - subst row0. apply String.eqb_neq in E. contradiction.
Qed.

(** X19.  An update whose payload has no image, the image field missing
    or falsy: [saveCompany], [updateCollaborator] and [saveEvent] set the
    stored logo, photo or banner of the row to the default image, whatever
    it was.  [saveOrganizer] never does: with the field missing it leaves
    the stored photo of every organizer as it is, and with the field there
    it writes the falsy value itself ([null], the empty string) over the
    stored photo of the organizer updated. *)
Theorem update_without_image :
  (forall (c : Client.t) (db : Db.t) (storage : option string) (reply : InsertReply)
          (companyData : list (string * value)) (i : string) (ev : Event.t)
          (row : string * list (string * value)),
      selectedEvent c = Some ev -> i <> "" -> fault reply = None ->
      NoDup (keys companyData) -> ~ In "logo_url" (keys companyData) ->
      truthy (obj_get "logoUrl" companyData) = false ->
      In row (Db.companies (saveCompany c db storage reply companyData (Some i))) ->
      fst row = i ->
      obj_get "logo_url" (snd row) = Some (VStr DEFAULT_IMAGE_URL))
  /\ (forall (db : Db.t) (storage : option string) (i : string)
             (collaboratorData : list (string * value))
             (row : string * list (string * value)),
        NoDup (keys collaboratorData) -> ~ In "photo_url" (keys collaboratorData) ->
        truthy (obj_get "photoUrl" collaboratorData) = false ->
        In row (Db.collaborators
                  (updateCollaborator db storage None i collaboratorData)) ->
        fst row = i ->
        obj_get "photo_url" (snd row) = Some (VStr DEFAULT_IMAGE_URL))
  /\ (forall (db db' : Db.t) (storage : option string) (reply : InsertReply)
             (organizerData : list (string * value)) (i : string) (res : Result),
        i <> "" ->
        NoDup (keys organizerData) -> ~ In "photo_url" (keys organizerData) ->
        truthy (obj_get "photoUrl" organizerData) = false ->
        saveOrganizer db storage reply organizerData (Some i) = (db', res) ->
        success res = true ->
        match obj_get "photoUrl" organizerData with
        | None =>
            map (fun row => (fst row, obj_get "photo_url" (snd row)))
                (Db.organizers db')
            = map (fun row => (fst row, obj_get "photo_url" (snd row)))
                  (Db.organizers db)
        | Some v =>
            v <> VStr DEFAULT_IMAGE_URL
            /\ forall row,
                 In row (Db.organizers db') -> fst row = i ->
                 obj_get "photo_url" (snd row) = Some v
        end)
  /\ (forall (db : Db.t) (photoStorage bannerStorage : option string)
             (organizerReply eventReply : InsertReply)
             (formData : list (string * value)) (i : string) (row : Event.t),
        i <> "" -> fault eventReply = None ->
        truthy (obj_get "eventBannerUrl" formData) = false ->
        In row (Db.events (fst (saveEvent db photoStorage bannerStorage
                                  organizerReply eventReply formData (Some i)))) ->
        Event.id row = i ->
        Event.banner_url row = Some DEFAULT_IMAGE_URL).
Proof.
  split; [|split; [|split]].
  - intros c db storage reply companyData i ev row Hsel Hi Hok Hnd Habsent Hnone.
    apply (saveCompany_update_resets_logo c db storage reply companyData i ev
             Hsel Hi Hok Hnd Habsent Hnone).
  - intros db storage i collaboratorData row Hnd Habsent Hnone.
    now apply updateCollaborator_resets_photo.
  - intros db db' storage reply organizerData i res Hi Hnd Habsent Hnone Hcall Hok.
    destruct (obj_get "photoUrl" organizerData) as [v|] eqn:Hget.
    + split; [intros ->; discriminate Hnone|].
      now apply (saveOrganizer_update_writes_photo db db' storage reply
                   organizerData i res v).
    + now apply (saveOrganizer_update_keeps_photo db db' storage reply
                   organizerData i res).
  - intros db photoStorage bannerStorage organizerReply eventReply formData i row.
    apply saveEvent_update_resets_banner.
Qed.

Lemma update_without_image_witness :
  In ("c1", [("name", VStr "Acme Games"); ("logo_url", VStr DEFAULT_IMAGE_URL);
             ("event_id", VStr "e1")])
     (Db.companies
        (saveCompany (Sample.client 1) SampleCompanies.store None
           (Sample.accepted "c2") SampleCompanies.edit (Some "c1")))
  /\ obj_get "logo_url"
       (snd ("c1", [("name", VStr "Acme Games"); ("logo_url", VStr DEFAULT_IMAGE_URL);
                    ("event_id", VStr "e1")]))
     = Some (VStr DEFAULT_IMAGE_URL)
  /\ VNull <> VStr DEFAULT_IMAGE_URL
  /\ forall row,
       In row (Db.organizers
                 (fst (saveOrganizer SampleOrganizers.with_photo None
                         (Sample.accepted "o2") SampleOrganizers.without_photo
                         (Some "o1")))) ->
       fst row = "o1" ->
       obj_get "photo_url" (snd row) = Some VNull.
Proof.
  assert (Hin : In ("c1", [("name", VStr "Acme Games");
                           ("logo_url", VStr DEFAULT_IMAGE_URL);
                           ("event_id", VStr "e1")])
                   (Db.companies
                      (saveCompany (Sample.client 1) SampleCompanies.store None
                         (Sample.accepted "c2") SampleCompanies.edit (Some "c1"))))
    by (left; reflexivity).
  split; [exact Hin|].
  assert (Hi : "c1" <> "") by discriminate.
  assert (Hnd : NoDup (keys SampleCompanies.edit))
    by (apply nodupb_NoDup; reflexivity).
  assert (Habsent : ~ In "logo_url" (keys SampleCompanies.edit))
    by (simpl; intros [H | []]; discriminate).
  split.
  { exact (proj1 update_without_image (Sample.client 1) SampleCompanies.store None
             (Sample.accepted "c2") SampleCompanies.edit "c1" Sample.event _
             eq_refl Hi eq_refl Hnd Habsent eq_refl Hin eq_refl). }
  assert (Ho : "o1" <> "") by discriminate.
  assert (Hnd' : NoDup (keys SampleOrganizers.without_photo))
    by (apply nodupb_NoDup; reflexivity).
  assert (Habsent' : ~ In "photo_url" (keys SampleOrganizers.without_photo))
    by (simpl; intros [H | [H | []]]; discriminate).
  exact (proj1 (proj2 (proj2 update_without_image)) SampleOrganizers.with_photo
           (fst (saveOrganizer SampleOrganizers.with_photo None
                   (Sample.accepted "o2") SampleOrganizers.without_photo (Some "o1")))
           None (Sample.accepted "o2") SampleOrganizers.without_photo "o1"
           (snd (saveOrganizer SampleOrganizers.with_photo None
                   (Sample.accepted "o2") SampleOrganizers.without_photo (Some "o1")))
           Ho Hnd' Habsent' eq_refl (surjective_pairing _) eq_refl).
Defined.

(** ** Fetching the mirror *)

Lemma existsb_eqb_map {A : Type} (key : A -> string) (x : string) (l : list A) :
  existsb (String.eqb x) (map key l) = true <-> exists a, In a l /\ x = key a.
Proof.
  rewrite existsb_eqb_In, in_map_iff. split; intros [a [H1 H2]]; exists a; auto.
Qed.

Lemma length_zero_nil {A : Type} (l : list A) : Nat.ltb 0 (length l) = false -> l = [].
Proof. destruct l; [reflexivity | discriminate]. Qed.

(** X20.  [fetchOrganizerData] mirrors exactly the organizer's part of the
    store: the events of the organizer, the raffles of those events and the
    participants of those raffles, no more and no less, whatever the mirror
    held before; the branches for an organizer without events or without
    raffles empty the lists accordingly.  The mirrored organizers are left
    as they were. *)
Theorem fetchOrganizerData_slice :
  forall (db : Db.t) (prizes : bag_table) (organizerId : string) (m : Mirror.t),
    (forall e,
        In e (Mirror.events (fetchOrganizerData db prizes organizerId m))
        <-> In e (Db.events db) /\ Event.organizer_id e = organizerId)
    /\ (forall r,
          In r (Mirror.raffles (fetchOrganizerData db prizes organizerId m))
          <-> raffle_of_organizer db organizerId r)
    /\ (forall p,
          In p (Mirror.participants (fetchOrganizerData db prizes organizerId m))
          <-> participant_of_organizer db organizerId p)
    /\ Mirror.organizers (fetchOrganizerData db prizes organizerId m)
       = Mirror.organizers m.
Proof.
  intros db prizes organizerId m.
  set (eventData := filter (fun e => String.eqb (Event.organizer_id e) organizerId)
                           (Db.events db)).
  assert (Hevents : forall e, In e eventData
                              <-> In e (Db.events db) /\ Event.organizer_id e = organizerId).
  { intros e. unfold eventData. rewrite filter_In, String.eqb_eq. tauto. }
  set (raffleData := filter (fun r => existsb (String.eqb (Raffle.event_id r))
                                              (map Event.id eventData))
                            (Db.raffles db)).
  assert (Hraffles : forall r, In r raffleData <-> raffle_of_organizer db organizerId r).
  { intros r. unfold raffleData, raffle_of_organizer.
    rewrite filter_In, existsb_eqb_map. split.
    - intros [Hin [e [He Hid]]]. apply Hevents in He. split; [exact Hin|].
      exists e. tauto.
    - intros [Hin [e [He [Hid Horg]]]]. split; [exact Hin|].
      exists e. split; [apply Hevents; tauto | exact Hid]. }
  set (participantData :=
         filter (fun p => existsb (String.eqb (Participant.raffle_id p))
                                  (map Raffle.id raffleData))
                (Db.participants db)).
  assert (Hparts : forall p, In p participantData
                             <-> participant_of_organizer db organizerId p).
  { intros p. unfold participantData, participant_of_organizer.
    rewrite filter_In, existsb_eqb_map. split.
    - intros [Hin [r [Hr Hid]]]. apply Hraffles in Hr. destruct Hr as [Hr [e He]].
      split; [exact Hin|]. exists r, e. tauto.
    - intros [Hin [r [e [Hr [He [Hid [Hev Horg]]]]]]]. split; [exact Hin|].
      exists r. split; [|exact Hid]. apply Hraffles. split; [exact Hr|].
      exists e. tauto. }
  unfold fetchOrganizerData. fold eventData.
  destruct (Nat.ltb 0 (length (map Event.id eventData))) eqn:Hsome.
  - fold raffleData. cbn [Mirror.events Mirror.raffles Mirror.participants
                          Mirror.organizers].
    split; [exact Hevents|]. split; [exact Hraffles|]. split; [|reflexivity].
    destruct (Nat.ltb 0 (length (map Raffle.id raffleData))) eqn:Hraf.
    + exact Hparts.
    + intros p. rewrite <- Hparts. apply length_zero_nil, map_eq_nil in Hraf.
      unfold participantData. rewrite Hraf. simpl.
      rewrite filter_In. split; [intros [] | intros [_ H]; discriminate].
  - cbn [Mirror.events Mirror.raffles Mirror.participants Mirror.organizers].
    apply length_zero_nil, map_eq_nil in Hsome.
    split; [exact Hevents|]. split; [|split; [|reflexivity]].
    + intros r. rewrite <- Hraffles. unfold raffleData. rewrite Hsome. simpl.
      rewrite filter_In. split; [intros [] | intros [_ H]; discriminate].
    + intros p. rewrite <- Hparts. unfold participantData, raffleData.
      rewrite Hsome. simpl.
      assert (Hnone : filter (fun _ : Raffle.t => false) (Db.raffles db) = [])
        by (apply filter_none; reflexivity).
      rewrite Hnone. simpl.
      rewrite filter_In. split; [intros [] | intros [_ H]; discriminate].
Qed.

(** X21.  What the other fetches leave in the mirror: [fetchAdminData]
    replaces the organizers and the events and keeps raffles, participants,
    companies, collaborators and prizes of the fetch before it;
    [fetchCollaboratorData] changes nothing when the company is not found;
    and when the company's event has no raffle it empties the raffles but
    keeps the participants (and the collaborators) of the fetch before it,
    where [fetchOrganizerData] would have emptied them. *)
Theorem fetches_leave_rows_in_place :
  (forall (db : Db.t) (m : Mirror.t),
      Mirror.events (fetchAdminData db m) = Db.events db
      /\ Mirror.raffles (fetchAdminData db m) = Mirror.raffles m
      /\ Mirror.participants (fetchAdminData db m) = Mirror.participants m
      /\ Mirror.companies (fetchAdminData db m) = Mirror.companies m
      /\ Mirror.collaborators (fetchAdminData db m) = Mirror.collaborators m
      /\ Mirror.prizes (fetchAdminData db m) = Mirror.prizes m)
  /\ (forall (db : Db.t) (prizes : bag_table) (companyId : string) (m : Mirror.t)
             (s : Session),
        single (bag_eq "id" companyId (Db.companies db)) = None ->
        fetchCollaboratorData db prizes companyId m s = (m, s))
  /\ (forall (db : Db.t) (prizes : bag_table) (companyId : string) (m : Mirror.t)
             (s : Session) (row : string * list (string * value)) (e : Event.t),
        single (bag_eq "id" companyId (Db.companies db)) = Some row ->
        obj_get "event_id" (bag_row row) = Some (VStr (Event.id e)) ->
        find (fun e' => String.eqb (Event.id e') (Event.id e)) (Db.events db) = Some e ->
        (forall r, In r (Db.raffles db) -> Raffle.event_id r <> Event.id e) ->
        Mirror.events (fst (fetchCollaboratorData db prizes companyId m s)) = [e]
        /\ selectedEventId (snd (fetchCollaboratorData db prizes companyId m s))
           = Some (Event.id e)
        /\ Mirror.raffles (fst (fetchCollaboratorData db prizes companyId m s)) = []
        /\ Mirror.participants (fst (fetchCollaboratorData db prizes companyId m s))
           = Mirror.participants m
        /\ Mirror.collaborators (fst (fetchCollaboratorData db prizes companyId m s))
           = Mirror.collaborators m).
Proof.
  split; [|split].
  - intros db m. repeat split.
  - intros db prizes companyId m s Hnone. unfold fetchCollaboratorData.
    now rewrite Hnone.
  - intros db prizes companyId m s row e Hrow Hcol Hfind Hnone.
    unfold fetchCollaboratorData. rewrite Hrow, Hcol, Hfind.
    assert (Hraffles : filter (fun r => String.eqb (Raffle.event_id r) (Event.id e))
                              (Db.raffles db) = []).
    { apply filter_none. intros r Hin. apply String.eqb_neq. now apply Hnone. }
    rewrite Hraffles. simpl. repeat split.
Qed.

Lemma fetches_leave_rows_in_place_witness :
  Mirror.events
    (fst (fetchCollaboratorData SampleMirror.store [] "c1" SampleMirror.earlier
            SampleAdmins.session)) = [Sample.event]
  /\ selectedEventId
       (snd (fetchCollaboratorData SampleMirror.store [] "c1" SampleMirror.earlier
               SampleAdmins.session)) = Some (Event.id Sample.event)
  /\ Mirror.raffles
       (fst (fetchCollaboratorData SampleMirror.store [] "c1" SampleMirror.earlier
               SampleAdmins.session)) = []
  /\ Mirror.participants
       (fst (fetchCollaboratorData SampleMirror.store [] "c1" SampleMirror.earlier
               SampleAdmins.session))
     = Mirror.participants SampleMirror.earlier
  /\ Mirror.collaborators
       (fst (fetchCollaboratorData SampleMirror.store [] "c1" SampleMirror.earlier
               SampleAdmins.session))
     = Mirror.collaborators SampleMirror.earlier.
Proof.
  apply (proj2 (proj2 fetches_leave_rows_in_place) SampleMirror.store [] "c1"
           SampleMirror.earlier SampleAdmins.session
           ("c1", [("name", VStr "Acme");
                   ("logo_url", VStr "https://cdn.example.com/acme.png");
                   ("event_id", VStr "e1")])
           Sample.event).
  - reflexivity.
  - reflexivity.
  - reflexivity.
  - intros r [].
Defined.

(** ** The wheel colours *)

Lemma sent_fixed (colors : list RoletaColors.Slot) :
  toSnake (VArr (map RoletaColors.sent colors)) = VArr (map RoletaColors.sent colors)
  /\ toCamel (VArr (map RoletaColors.sent colors))
     = VArr (map RoletaColors.sent colors).
Proof.
  rewrite toSnake_VArr, toCamel_VArr, !map_map.
  split; f_equal; apply map_ext; intros [| | |c]; reflexivity.
Qed.

Lemma handleColorChange_writes (index : nat) (color : string)
  (colors : list RoletaColors.Slot) :
  nth_error (RoletaColors.handleColorChange index color colors) index
  = Some (RoletaColors.Color color)
  /\ length (RoletaColors.handleColorChange index color colors)
     = Nat.max (length colors) (S index)
  /\ (forall j, j <> index -> j < length colors ->
                nth_error (RoletaColors.handleColorChange index color colors) j
                = option_map RoletaColors.spread (nth_error colors j))
  /\ (forall j, length colors <= j -> j < index ->
                nth_error (RoletaColors.handleColorChange index color colors) j
                = Some RoletaColors.Hole).
Proof.
  unfold RoletaColors.handleColorChange. cbv zeta.
  assert (Hmap : forall j, nth_error (map RoletaColors.spread colors) j
                           = option_map RoletaColors.spread (nth_error colors j))
    by (intros j; apply nth_error_map).
  rewrite <- (length_map RoletaColors.spread colors).
  set (newColors := map RoletaColors.spread colors) in *. clearbody newColors.
  destruct (Nat.ltb index (length newColors)) eqn:Hin.
  - apply Nat.ltb_lt in Hin.
    assert (Hlen : length (firstn index newColors) = index)
      by (rewrite length_firstn; lia).
    split; [|split; [|split]].
    + rewrite nth_error_app2 by lia. rewrite Hlen, Nat.sub_diag. reflexivity.
    + rewrite length_app. cbn [length]. rewrite Hlen, length_skipn. lia.
    + intros j Hj Hlt. rewrite <- Hmap. destruct (Nat.ltb j index) eqn:Hcmp.
      * pose proof Hcmp as Hb. apply Nat.ltb_lt in Hcmp.
        rewrite nth_error_app1 by lia.
        now rewrite nth_error_firstn, Hb.
      * apply Nat.ltb_ge in Hcmp. rewrite nth_error_app2 by lia.
        rewrite Hlen. destruct (j - index) as [|d] eqn:Hd; [lia|].
        cbn [nth_error]. rewrite nth_error_skipn. f_equal. lia.
    + intros j Hge Hlt. lia.
  - apply Nat.ltb_ge in Hin. split; [|split; [|split]].
    + rewrite nth_error_app2 by lia.
      rewrite nth_error_app2 by (rewrite repeat_length; lia).
      rewrite repeat_length.
      replace (index - length newColors - (index - length newColors)) with 0 by lia.
      reflexivity.
    + rewrite !length_app, repeat_length. simpl. lia.
    + intros j Hj Hlt. rewrite <- Hmap. now rewrite nth_error_app1 by lia.
    + intros j Hge Hlt. rewrite nth_error_app2 by lia.
      rewrite nth_error_app1 by (rewrite repeat_length; lia).
      apply nth_error_repeat. lia.
Qed.

(** After a change the array has an [undefined] element exactly when the
    array before it had a hole or an [undefined] element at another
    index. *)
Lemma handleColorChange_undefined (index : nat) (color : string)
  (colors : list RoletaColors.Slot) :
  existsb RoletaColors.is_undefined
    (RoletaColors.handleColorChange index color colors) = true
  <-> exists j, j <> index
                /\ (nth_error colors j = Some RoletaColors.Hole
                    \/ nth_error colors j = Some RoletaColors.Undefined).
Proof.
  destruct (handleColorChange_writes index color colors)
    as [Hat [Hlen [Hbelow Hbeyond]]].
  set (cs := RoletaColors.handleColorChange index color colors) in *.
  rewrite existsb_exists. split.
  - intros [x [Hin Hx]]. destruct x; try discriminate Hx.
    apply In_nth_error in Hin. destruct Hin as [j Hj].
    assert (Hlt : j < length cs) by (apply nth_error_Some; congruence).
    destruct (Nat.eq_dec j index) as [-> | Hneq]; [congruence|].
    exists j. split; [exact Hneq|].
    destruct (Nat.lt_ge_cases j (length colors)) as [Hin | Hout].
    + rewrite (Hbelow j Hneq Hin) in Hj.
      destruct (nth_error colors j) as [[| | |c]|]; try discriminate Hj; tauto.
    + rewrite Hbeyond in Hj by lia. discriminate.
  - intros [j [Hneq Hj]].
    assert (Hlt : j < length colors)
      by (apply nth_error_Some; destruct Hj as [Hj | Hj]; congruence).
    exists RoletaColors.Undefined. split; [|reflexivity].
    apply (nth_error_In cs j). rewrite (Hbelow j Hneq Hlt).
    destruct Hj as [-> | ->]; reflexivity.
Qed.

Lemma obj_merge_keys (row payload : list (string * value)) (k : string) :
  In k (keys (obj_merge row payload)) -> In k (keys row) \/ In k (keys payload).
Proof.
  unfold obj_merge. intros Hin.
  apply (fold_writes_keys fst snd) in Hin.
  unfold keys. tauto.
Qed.

Lemma obj_merge_NoDup (row payload : list (string * value)) :
  NoDup (keys row) -> NoDup (keys (obj_merge row payload)).
Proof. unfold obj_merge. apply (fold_writes_NoDup fst snd). Qed.

Lemma bag_row_id (row : string * list (string * value)) :
  obj_get "id" (bag_row row) = Some (VStr (fst row)).
Proof. unfold bag_row. rewrite obj_get_set. reflexivity. Qed.

Lemma bag_eq_id_map (i : string) (f : string * list (string * value)
                                      -> string * list (string * value))
  (table : bag_table) :
  (forall row, fst (f row) = fst row) ->
  bag_eq "id" i (map f table) = map f (bag_eq "id" i table).
Proof.
  intros Hfst. unfold bag_eq.
  induction table as [|row table IH]; [reflexivity|].
  cbn [map filter]. rewrite !bag_row_id, Hfst.
  destruct (String.eqb (fst row) i); cbn [map]; now rewrite IH.
Qed.

(** X22.  A colour picked on the collaborator's page is written at its
    index; the other elements are as the spread reads them, a hole as
    [undefined].  Saving after the change does nothing when the array
    before it had a hole or an [undefined] element at another index:
    [toSnake] raises.  Otherwise, once saved (the store accepting the
    update), the next fetch of the collaborator's data mirrors the company
    with exactly those colours under [roletaColors], a hole left by a write
    past the end as [null]: they pass unchanged through [toSnake], the
    update and [toCamel]. *)
Theorem colors_saved_are_colors_fetched :
  forall (db : Db.t) (prizes : bag_table) (companyId : string) (m : Mirror.t)
         (s : Session) (row : string * list (string * value))
         (colors : list RoletaColors.Slot) (index : nat) (color : string),
    snake_columns (Db.companies db) ->
    single (bag_eq "id" companyId (Db.companies db)) = Some row ->
    nth_error (RoletaColors.handleColorChange index color colors) index
    = Some (RoletaColors.Color color)
    /\ (forall j, j <> index -> j < length colors ->
                  nth_error (RoletaColors.handleColorChange index color colors) j
                  = option_map RoletaColors.spread (nth_error colors j))
    /\ ((exists j, j <> index
                   /\ (nth_error colors j = Some RoletaColors.Hole
                       \/ nth_error colors j = Some RoletaColors.Undefined)) ->
        RoletaColors.handleSaveColors db None companyId
          (RoletaColors.handleColorChange index color colors) = db)
    /\ ((forall j, j <> index ->
                   nth_error colors j <> Some RoletaColors.Hole
                   /\ nth_error colors j <> Some RoletaColors.Undefined) ->
        exists company,
          Mirror.companies
            (fst (fetchCollaboratorData
                    (RoletaColors.handleSaveColors db None companyId
                       (RoletaColors.handleColorChange index color colors))
                    prizes companyId m s))
          = [company]
          /\ obj_get "roletaColors" (obj_of company)
             = Some (VArr (map RoletaColors.sent
                             (RoletaColors.handleColorChange index color colors)))).
Proof.
  intros db prizes companyId m s row colors index color Hcols Hrow.
  destruct (handleColorChange_writes index color colors) as [Hnth [_ [Hrest _]]].
  pose proof (handleColorChange_undefined index color colors) as Hundefined.
  split; [exact Hnth|]. split; [exact Hrest|].
  set (cs := RoletaColors.handleColorChange index color colors) in *.
  split.
  { intros Hleft. apply Hundefined in Hleft.
    unfold RoletaColors.handleSaveColors, RoletaColors.colors_value.
    now rewrite Hleft. }
  intros Hsettled.
  assert (Hsent : RoletaColors.colors_value cs
                  = Some (VArr (map RoletaColors.sent cs))).
  { unfold RoletaColors.colors_value.
    destruct (existsb RoletaColors.is_undefined cs) eqn:E; [|reflexivity].
    destruct (proj1 Hundefined eq_refl) as [j [Hneq Hj]].
    destruct (Hsettled j Hneq). tauto. }
  destruct (sent_fixed cs) as [Hsnake Hcamel].
  set (arr := VArr (map RoletaColors.sent cs)) in *.
  assert (Hpayload :
            obj_of (toSnake (VObj [("roletaColors", arr)]))
            = [("roleta_colors", arr)]).
  { change (toSnake (VObj [("roletaColors", arr)]))
      with (VObj [("roleta_colors", toSnake arr)]).
    now rewrite Hsnake. }
  apply single_In in Hrow.
  assert (Hin : In row (bag_eq "id" companyId (Db.companies db)))
    by (rewrite Hrow; now left).
  apply filter_In in Hin. destruct Hin as [Hin Hid].
  rewrite bag_row_id in Hid. apply String.eqb_eq in Hid.
  unfold snake_columns in Hcols. rewrite Forall_forall in Hcols.
  destruct (Hcols row Hin) as [Hnd Hkeys].
  set (stored := (fst row, obj_merge (snd row) [("roleta_colors", arr)])).
  assert (Hone :
            single (bag_eq "id" companyId
                      (Db.companies
                         (RoletaColors.handleSaveColors db None companyId cs)))
            = Some stored).
  { unfold RoletaColors.handleSaveColors. rewrite Hsent.
    unfold updateCompanySettings, update_bag.
    rewrite Hpayload. cbn [Db.companies Db.with_companies].
    rewrite bag_eq_id_map
      by (intros r; cbv beta; destruct (String.eqb (fst r) companyId); reflexivity).
    rewrite Hrow. cbn [map single].
    destruct (String.eqb (fst row) companyId) eqn:E; [reflexivity|].
    apply String.eqb_neq in E. contradiction. }
  unfold fetchCollaboratorData. rewrite Hone.
  set (event := match obj_get "event_id" (bag_row stored) with
                | Some (VStr i) => find _ _
                | _ => None
                end).
  set (embedded := match event with
                   | Some e => VObj (event_row e)
                   | None => VNull
                   end).
  exists (toCamel (VObj (obj_set "events" embedded (bag_row stored)))).
  split; [now destruct event|].
  rewrite <- Hcamel.
  change "roletaColors" with (snakeToCamel "roleta_colors").
  assert (Hnd' : NoDup (keys (obj_set "events" embedded (bag_row stored)))).
  { apply obj_set_NoDup. unfold bag_row. apply obj_set_NoDup.
    subst stored. cbn [snd]. now apply obj_merge_NoDup. }
  apply toCamel_get; [exact Hnd' | |].
  - rewrite obj_get_set. change (String.eqb "events" "roleta_colors") with false.
    cbv iota. unfold bag_row. rewrite obj_get_set.
    change (String.eqb "id" "roleta_colors") with false. cbv iota.
    subst stored. cbn [snd]. rewrite obj_get_merge by (repeat constructor; intros []).
    reflexivity.
  - intros k Hk Himg.
    assert (Hsnakek : is_snake_key k = true).
    { apply keys_obj_set_In in Hk. destruct Hk as [-> | Hk]; [reflexivity|].
      unfold bag_row in Hk. apply keys_obj_set_In in Hk.
      destruct Hk as [-> | Hk]; [reflexivity|].
      subst stored. cbn [snd] in Hk. apply obj_merge_keys in Hk.
      destruct Hk as [Hk | [<- | []]]; [|reflexivity].
      rewrite forallb_forall in Hkeys. now apply Hkeys. }
    rewrite <- (camelToSnake_snakeToCamel k Hsnakek), Himg. reflexivity.
Qed.

Lemma colors_saved_are_colors_fetched_witness :
  RoletaColors.handleSaveColors SampleCompanies.store None "c1"
    (RoletaColors.handleColorChange 1 "#222222"
       [RoletaColors.Hole; RoletaColors.Color "#111111"])
  = SampleCompanies.store
  /\ exists company,
       Mirror.companies
         (fst (fetchCollaboratorData
                 (RoletaColors.handleSaveColors SampleCompanies.store None "c1"
                    (RoletaColors.handleColorChange 1 "#FF0000"
                       [RoletaColors.Color "#00D1FF"; RoletaColors.Color "#FFFFFF"]))
                 [] "c1" SampleMirror.earlier SampleAdmins.session))
       = [company]
       /\ obj_get "roletaColors" (obj_of company)
          = Some (VArr (map RoletaColors.sent
                          (RoletaColors.handleColorChange 1 "#FF0000"
                             [RoletaColors.Color "#00D1FF";
                              RoletaColors.Color "#FFFFFF"]))).
Proof.
  assert (Hcols : snake_columns (Db.companies SampleCompanies.store))
    by (repeat constructor; simpl; intuition discriminate).
  split.
  - apply (proj1 (proj2 (proj2 (colors_saved_are_colors_fetched
                                  SampleCompanies.store [] "c1"
                                  SampleMirror.earlier SampleAdmins.session
                                  ("c1", [("name", VStr "Acme");
                                          ("logo_url",
                                           VStr "https://cdn.example.com/acme.png");
                                          ("event_id", VStr "e1")])
                                  [RoletaColors.Hole; RoletaColors.Color "#111111"]
                                  1 "#222222" Hcols eq_refl)))).
    exists 0. split; [discriminate | left; reflexivity].
  - apply (proj2 (proj2 (proj2 (colors_saved_are_colors_fetched
                                  SampleCompanies.store [] "c1"
                                  SampleMirror.earlier SampleAdmins.session
                                  ("c1", [("name", VStr "Acme");
                                          ("logo_url",
                                           VStr "https://cdn.example.com/acme.png");
                                          ("event_id", VStr "e1")])
                                  [RoletaColors.Color "#00D1FF";
                                   RoletaColors.Color "#FFFFFF"]
                                  1 "#FF0000" Hcols eq_refl)))).
    intros [|[|[|j]]] _; split; simpl; discriminate.
Defined.

(** ** The export of the wheel's participants *)

Section ExportProofs.

Import RoletaExport.

Lemma read_quoted_escape (s rest : string) :
  not_quote_first rest ->
  read_quoted (escape s ++ String quote_char rest) = Some (s, rest).
Proof.
  intros Hrest. induction s as [|c s IH].
  - change (escape "" ++ String quote_char rest) with (String quote_char rest).
    cbn [read_quoted]. rewrite Ascii.eqb_refl.
    destruct rest as [|d rest]; [reflexivity|]. simpl in Hrest. now rewrite Hrest.
  - cbn [escape]. destruct (Ascii.eqb c quote_char) eqn:Hc.
    + apply Ascii.eqb_eq in Hc. subst c.
      change ((String quote_char (String quote_char (escape s))
               ++ String quote_char rest))
        with (String quote_char (String quote_char
                                   (escape s ++ String quote_char rest))).
      cbn [read_quoted]. rewrite !Ascii.eqb_refl, IH. reflexivity.
    + change ((String c (escape s) ++ String quote_char rest))
        with (String c (escape s ++ String quote_char rest)).
      cbn [read_quoted]. rewrite Hc, IH. reflexivity.
Qed.

Lemma escape_quote_free (s : string) : quote_free s = true -> escape s = s.
Proof.
  induction s as [|c s IH]; [reflexivity|]. simpl.
  intros H. apply andb_true_iff in H. destruct H as [Hc Hs].
  apply negb_true_iff in Hc. now rewrite Hc, IH.
Qed.

Lemma append_assoc (a b c : string) : (a ++ b) ++ c = a ++ (b ++ c).
Proof. induction a as [|x a IH]; simpl; [reflexivity | now rewrite IH]. Qed.

Lemma append_nil_r (a : string) : a ++ "" = a.
Proof. induction a as [|x a IH]; simpl; [reflexivity | now rewrite IH]. Qed.

Lemma quoted_app (w rest : string) :
  quoted w ++ rest = String quote_char (w ++ String quote_char rest).
Proof.
  unfold quoted, dquote.
  change (String (ascii_of_nat 34) "" ++ w ++ String (ascii_of_nat 34) "")
    with (String quote_char (w ++ String quote_char "")).
  change (String quote_char (w ++ String quote_char "") ++ rest)
    with (String quote_char ((w ++ String quote_char "") ++ rest)).
  now rewrite append_assoc.
Qed.

Lemma reads_as_escape (s : string) : reads_as (escape s) s.
Proof. intros rest. apply read_quoted_escape. Qed.

Lemma reads_as_plain (s : string) : quote_free s = true -> reads_as s s.
Proof.
  intros Hs rest Hrest. rewrite <- (escape_quote_free s Hs) at 1.
  now apply read_quoted_escape.
Qed.

Lemma concat_cons2 (sep x y : string) (l : list string) :
  String.concat sep (x :: y :: l) = x ++ sep ++ String.concat sep (y :: l).
Proof. reflexivity. Qed.

Lemma read_fields_last (w f rest : string) :
  reads_as w f -> not_quote_first rest ->
  read_fields 1 (quoted w ++ rest) = Some ([f], rest).
Proof.
  intros Hw Hrest. rewrite quoted_app. cbn [read_fields].
  now rewrite Ascii.eqb_refl, (Hw rest Hrest).
Qed.

Lemma read_fields_step (m : nat) (w f s : string) :
  reads_as w f -> m <> 0 ->
  read_fields (S m) (quoted w ++ "," ++ s)
  = match read_fields m s with
    | Some (fields, rest) => Some (f :: fields, rest)
    | None => None
    end.
Proof.
  intros Hw Hm. rewrite quoted_app. cbn [read_fields].
  rewrite Ascii.eqb_refl.
  change ("," ++ s) with (String ","%char s).
  rewrite Hw by reflexivity.
  destruct m as [|m]; [congruence|]. now rewrite Ascii.eqb_refl.
Qed.

Lemma read_fields_line (fields : list (string * string)) (rest : string) :
  fields <> [] ->
  Forall (fun wf => reads_as (fst wf) (snd wf)) fields ->
  not_quote_first rest ->
  read_fields (length fields)
    (String.concat "," (map (fun wf => quoted (fst wf)) fields) ++ rest)
  = Some (map snd fields, rest).
Proof.
  induction fields as [|[w f] fields IH]; [congruence|].
  intros _ Hall Hrest. inversion Hall as [|x l Hw Hall']; subst. simpl in Hw.
  destruct fields as [|[w' f'] fields].
  - cbn [map String.concat length fst snd]. now apply read_fields_last.
  - change (map (fun wf => quoted (fst wf)) ((w, f) :: (w', f') :: fields))
      with (quoted w :: quoted w' :: map (fun wf => quoted (fst wf)) fields).
    rewrite concat_cons2, !append_assoc.
    change (length ((w, f) :: (w', f') :: fields))
      with (S (length ((w', f') :: fields))).
    rewrite (read_fields_step _ w f) by (try exact Hw; discriminate).
    change (quoted w' :: map (fun wf => quoted (fst wf)) fields)
      with (map (fun wf => quoted (fst wf)) ((w', f') :: fields)).
    rewrite IH; [reflexivity | discriminate | exact Hall' | exact Hrest].
Qed.

Lemma read_records_last (n : nat) (s : string) (fields : list string) :
  read_fields n s = Some (fields, "") -> read_records 1 n s = Some [fields].
Proof. intros H. cbn [read_records]. now rewrite H. Qed.

Lemma read_records_step (k n : nat) (s rest : string) (fields : list string) :
  k <> 0 ->
  read_fields n s = Some (fields, line_feed ++ rest) ->
  read_records (S k) n s
  = match read_records k n rest with
    | Some records => Some (fields :: records)
    | None => None
    end.
Proof.
  intros Hk H. cbn [read_records]. rewrite H.
  destruct k as [|k]; [congruence|].
  change (line_feed ++ rest) with (String (ascii_of_nat 10) rest).
  reflexivity.
Qed.

(** The lines of the records, joined by line feeds, read back as the
    records. *)
Lemma read_records_lines (n : nat) (records : list (list (string * string))) :
  records <> [] -> n <> 0 ->
  Forall (fun fields => length fields = n
                        /\ Forall (fun wf => reads_as (fst wf) (snd wf)) fields)
         records ->
  read_records (length records) n
    (String.concat line_feed
       (map (fun fields => String.concat "," (map (fun wf => quoted (fst wf)) fields))
            records))
  = Some (map (map snd) records).
Proof.
  intros Hsome Hn.
  induction records as [|fields records IH]; [congruence|].
  intros Hall. inversion Hall as [|x l [Hlen Hfields] Hall']; subst.
  assert (Hne : fields <> []) by (intros ->; simpl in Hn; congruence).
  destruct records as [|fields' records].
  - cbn [map String.concat length]. apply read_records_last.
    pose proof (read_fields_line fields "" Hne Hfields I) as Hline.
    rewrite append_nil_r in Hline. exact Hline.
  - change (map (fun fields => String.concat "," (map (fun wf => quoted (fst wf)) fields))
                (fields :: fields' :: records))
      with (String.concat "," (map (fun wf => quoted (fst wf)) fields)
            :: map (fun fields => String.concat ","
                                    (map (fun wf => quoted (fst wf)) fields))
                   (fields' :: records)).
    change (length (fields :: fields' :: records))
      with (S (length (fields' :: records))).
    cbn [map]. rewrite concat_cons2.
    erewrite read_records_step;
      [| discriminate
       | apply read_fields_line; [exact Hne | exact Hfields | reflexivity]].
    change (String.concat "," (map (fun wf => quoted (fst wf)) fields')
            :: map (fun fields => String.concat ","
                                    (map (fun wf => quoted (fst wf)) fields))
                   records)
      with (map (fun fields => String.concat ","
                                 (map (fun wf => quoted (fst wf)) fields))
                (fields' :: records)).
    rewrite IH; [reflexivity | discriminate | exact Hall'].
Qed.

Lemma written_reads (toLocaleString : string -> string) (activeTab : Tab)
  (p : RoletaParticipant) :
  (forall d, quote_free (toLocaleString d) = true) ->
  quote_free (email p) = true -> quote_free (phone p) = true ->
  length (written toLocaleString activeTab p) = length (headers activeTab)
  /\ Forall (fun wf => reads_as (fst wf) (snd wf)) (written toLocaleString activeTab p).
Proof.
  intros Hdate Hemail Hphone.
  destruct activeTab; (split; [reflexivity|]); unfold written;
    repeat constructor; cbn [fst snd];
    try apply reads_as_escape; try (now apply reads_as_plain).
  apply reads_as_plain. destruct (spunAt p) as [d|]; [|reflexivity].
  destruct (truthy_str (Some d)); [apply Hdate | reflexivity].
Qed.

Lemma read_quoted_consumed (n : nat) (t field after : string) :
  String.length t < n ->
  read_quoted t = Some (field, after) ->
  t = escape field ++ String quote_char after.
Proof.
  revert t field after. induction n as [|n IH]; intros t field after Hlen; [lia|].
  destruct t as [|c t]; [discriminate|]. cbn [read_quoted].
  destruct (Ascii.eqb c quote_char) eqn:Hc.
  - apply Ascii.eqb_eq in Hc. subst c.
    destruct t as [|d t]; [intros [= <- <-]; reflexivity|].
    destruct (Ascii.eqb d quote_char) eqn:Hd.
    + apply Ascii.eqb_eq in Hd. subst d.
      destruct (read_quoted t) as [[f a]|] eqn:Hread; [|discriminate].
      intros [= <- <-]. apply IH in Hread; [|simpl in Hlen; lia].
      cbn [escape]. rewrite Ascii.eqb_refl. rewrite Hread at 1. reflexivity.
    + intros [= <- <-]. reflexivity.
  - destruct (read_quoted t) as [[f a]|] eqn:Hread; [|discriminate].
    intros [= <- <-]. apply IH in Hread; [|simpl in Hlen; lia].
    cbn [escape]. rewrite Hc. rewrite Hread at 1. reflexivity.
Qed.

Lemma doubled_never_matches (b rest after : string) (k : nat) :
  not_quote_first rest ->
  b ++ String quote_char rest
  <> quotes (S k) (escape b ++ String quote_char after).
Proof.
  intros Hrest. revert k. induction b as [|c b IH]; intros k.
  - cbn [append escape quotes]. intros [= Heq].
    destruct k as [|k]; cbn [quotes append] in Heq; subst rest;
      simpl in Hrest; discriminate.
  - cbn [append escape quotes]. intros [= Hc Heq]. subst c.
    rewrite Ascii.eqb_refl in Heq.
    apply (IH (S k)). rewrite Heq. clear.
    induction k as [|k IHk]; [reflexivity|].
    cbn [quotes] in *. now rewrite IHk.
Qed.

Lemma unescaped_never_reads_back (s rest after : string) :
  quote_free s = false -> not_quote_first rest ->
  read_quoted (s ++ String quote_char rest) <> Some (s, after).
Proof.
  intros Hs Hrest Hread.
  apply (read_quoted_consumed (S (String.length (s ++ String quote_char rest))))
    in Hread; [|lia].
  revert Hread. induction s as [|c s IH]; [discriminate|].
  cbn [quote_free] in Hs. cbn [append escape].
  destruct (Ascii.eqb c quote_char) eqn:Hc.
  - intros [= _ Heq]. now apply (doubled_never_matches s rest after 0 Hrest).
  - simpl in Hs. intros [= Heq]. now apply IH.
Qed.

Lemma read_fields_head (m : nat) (w s after : string) (fields : list string) :
  read_fields (S m) (quoted w ++ s) = Some (fields, after) ->
  exists field fields' after',
    read_quoted (w ++ String quote_char s) = Some (field, after')
    /\ fields = field :: fields'.
Proof.
  rewrite quoted_app. cbn [read_fields]. rewrite Ascii.eqb_refl.
  destruct (read_quoted (w ++ String quote_char s)) as [[field after']|];
    [|discriminate].
  intros H. exists field. destruct m as [|m].
  - injection H as <- _. now exists [], after'.
  - destruct after' as [|d after'']; [discriminate|].
    destruct (Ascii.eqb d ","%char); [|discriminate].
    destruct (read_fields (S m) after'') as [[fs r]|]; [|discriminate].
    injection H as <- _. now exists fs, (String d after'').
Qed.

Lemma line_with_quote_in_email (toLocaleString : string -> string) (activeTab : Tab)
  (p : RoletaParticipant) (rest after : string) (fields : list string) :
  quote_free (email p) = false ->
  read_fields (length (headers activeTab)) (line toLocaleString activeTab p ++ rest)
  = Some (fields, after) ->
  fields <> record toLocaleString activeTab p.
Proof.
  intros Hquote Hread Heq.
  assert (Hshape :
            exists m tail,
              length (headers activeTab) = S (S m)
              /\ line toLocaleString activeTab p ++ rest
                 = quoted (escape (name p)) ++ "," ++ quoted (email p) ++ "," ++ tail
              /\ exists others, record toLocaleString activeTab p
                                = name p :: email p :: others).
  { destruct activeTab; unfold line, record, headers;
      cbn [app length String.concat]; eexists _, _;
      (split; [reflexivity|]); (split; [|eexists; reflexivity]);
      rewrite !append_assoc; reflexivity. }
  destruct Hshape as [m [tail [Hlen [Hline [others Hrecord]]]]].
  rewrite Hlen, Hline in Hread.
  rewrite (read_fields_step (S m) _ (name p)) in Hread
    by (try apply reads_as_escape; discriminate).
  destruct (read_fields (S m) (quoted (email p) ++ "," ++ tail))
    as [[fs r]|] eqn:Hsecond; [|discriminate].
  injection Hread as <- _.
  apply read_fields_head in Hsecond.
  destruct Hsecond as [field [fs' [after' [Hfield ->]]]].
  rewrite Hrecord in Heq. injection Heq as -> _.
  now apply (unescaped_never_reads_back (email p) ("," ++ tail) after').
Qed.

(** X23.  [handleDownloadCSV] shows the no-data notification exactly when
    the tab has no participant to export.  Otherwise the file is the
    byte-order mark, the header line and one line per participant, and,
    when no address, phone or rendered date holds a double quote, reading
    the lines back as quoted fields gives exactly the participants'
    fields: names and prize names come back whatever characters they hold
    (quotes, commas, line feeds), since their quotes are doubled.  The
    address is written as it is: a line whose address holds a double quote
    never reads back as the participant's fields. *)
Theorem exported_file_reads_back :
  forall (toLocaleString : string -> string) (activeTab : Tab)
         (roletaParticipants : list RoletaParticipant),
    (forall d, quote_free (toLocaleString d) = true) ->
    (forall p, In p roletaParticipants ->
               quote_free (email p) = true /\ quote_free (phone p) = true) ->
    (participantsToExport activeTab roletaParticipants = [] ->
     handleDownloadCSV toLocaleString activeTab roletaParticipants
     = inl no_data_message)
    /\ (participantsToExport activeTab roletaParticipants <> [] ->
        exists body,
          handleDownloadCSV toLocaleString activeTab roletaParticipants
          = inr (byte_order_mark ++ String.concat "," (headers activeTab)
                 ++ line_feed ++ body)
          /\ read_records
               (length (participantsToExport activeTab roletaParticipants))
               (length (headers activeTab)) body
             = Some (map (record toLocaleString activeTab)
                         (participantsToExport activeTab roletaParticipants)))
    /\ (forall (p : RoletaParticipant) (rest after : string) (fields : list string),
          quote_free (email p) = false ->
          read_fields (length (headers activeTab))
            (line toLocaleString activeTab p ++ rest) = Some (fields, after) ->
          fields <> record toLocaleString activeTab p).
Proof.
  intros toLocaleString activeTab roletaParticipants Hdate Hplain.
  assert (Hmain :
    (participantsToExport activeTab roletaParticipants = [] ->
     handleDownloadCSV toLocaleString activeTab roletaParticipants
     = inl no_data_message)
    /\ (participantsToExport activeTab roletaParticipants <> [] ->
        exists body,
          handleDownloadCSV toLocaleString activeTab roletaParticipants
          = inr (byte_order_mark ++ String.concat "," (headers activeTab)
                 ++ line_feed ++ body)
          /\ read_records
               (length (participantsToExport activeTab roletaParticipants))
               (length (headers activeTab)) body
             = Some (map (record toLocaleString activeTab)
                         (participantsToExport activeTab roletaParticipants))));
    [|destruct Hmain as [Hnone Hsome]; split; [exact Hnone|]; split; [exact Hsome|];
      intros p rest after fields; apply line_with_quote_in_email].
  unfold handleDownloadCSV.
  set (exported := participantsToExport activeTab roletaParticipants).
  assert (Hsub : forall p, In p exported -> In p roletaParticipants).
  { intros p. unfold exported, participantsToExport, spunParticipants,
      registeredOnlyParticipants.
    destruct activeTab; rewrite filter_In; tauto. }
  clearbody exported. split.
  - intros ->. reflexivity.
  - intros Hsome. destruct exported as [|p ps] eqn:Hexp; [congruence|].
    rewrite <- Hexp in *. clear Hsome.
    exists (String.concat line_feed (map (line toLocaleString activeTab) exported)).
    split.
    + rewrite Hexp at 1. cbn [length Nat.eqb]. f_equal.
      rewrite Hexp. reflexivity.
    + assert (Hlines :
                map (line toLocaleString activeTab) exported
                = map (fun fields =>
                         String.concat "," (map (fun wf => quoted (fst wf)) fields))
                      (map (written toLocaleString activeTab) exported)).
      { rewrite map_map. apply map_ext. intros q. now destruct activeTab. }
      assert (Hrecords :
                map (record toLocaleString activeTab) exported
                = map (map snd) (map (written toLocaleString activeTab) exported)).
      { rewrite map_map. apply map_ext. intros q. now destruct activeTab. }
      rewrite Hlines, Hrecords.
      rewrite <- (length_map (written toLocaleString activeTab) exported).
      apply read_records_lines.
      * rewrite Hexp. discriminate.
      * now destruct activeTab.
      * apply Forall_forall. intros fields Hin. apply in_map_iff in Hin.
        destruct Hin as [q [<- Hq]].
        destruct (Hplain q (Hsub q Hq)) as [Hemail Hphone].
        now apply written_reads.
Qed.


Lemma exported_file_reads_back_witness :
  exists body,
    handleDownloadCSV SampleExport.rendering spun [SampleExport.ana]
    = inr (byte_order_mark ++ String.concat "," (headers spun) ++ line_feed ++ body)
    /\ read_records (length (participantsToExport spun [SampleExport.ana]))
         (length (headers spun)) body
       = Some (map (record SampleExport.rendering spun)
                   (participantsToExport spun [SampleExport.ana])).
Proof.
  assert (Hdate : forall d, quote_free (SampleExport.rendering d) = true)
    by (intros d; reflexivity).
  assert (Hplain : forall p, In p [SampleExport.ana] ->
                             quote_free (email p) = true
                             /\ quote_free (phone p) = true).
  { intros p [<- | []]. split; reflexivity. }
  apply (proj1 (proj2 (exported_file_reads_back SampleExport.rendering spun
                         [SampleExport.ana] Hdate Hplain))).
  discriminate.
Defined.

End ExportProofs.

(** ** Deletions *)

Lemma delete_appended {A : Type} (key : A -> string) (table : list A) (row : A) :
  ~ In (key row) (map key table) ->
  filter (fun x => negb (String.eqb (key x) (key row))) (table ++ [row]) = table.
Proof.
  intros Hfresh. rewrite filter_app. simpl. rewrite String.eqb_refl. simpl.
  rewrite app_nil_r. induction table as [|x table IH]; [reflexivity|].
  simpl. destruct (String.eqb (key x) (key row)) eqn:E.
  - apply String.eqb_eq in E. exfalso. apply Hfresh. left. exact E.
  - simpl. f_equal. apply IH. intros Hin. apply Hfresh. now right.
Qed.

Lemma delete_absent {A : Type} (key : A -> string) (table : list A) (i : string) :
  ~ In i (map key table) ->
  filter (fun x => negb (String.eqb (key x) i)) table = table.
Proof.
  intros Hfresh. induction table as [|x table IH]; [reflexivity|].
  simpl. destruct (String.eqb (key x) i) eqn:E.
  - apply String.eqb_eq in E. exfalso. apply Hfresh. left. exact E.
  - simpl. f_equal. apply IH. intros Hin. apply Hfresh. now right.
Qed.

(** X24.  What is created and then deleted leaves the store as it was: an
    organizer saved by [saveOrganizer] and deleted under the identifier
    the store gave it, and likewise a collaborator or a company whether or
    not the store accepted the insert, the identifier being new. *)
Theorem created_then_deleted :
  (forall (db db' : Db.t) (storage : option string) (reply : InsertReply)
          (organizerData : list (string * value)) (res : Result),
      saveOrganizer db storage reply organizerData None = (db', res) ->
      success res = true ->
      fst (deleteOrganizer db' None (new_id reply)) = db
      /\ success (snd (deleteOrganizer db' None (new_id reply))) = true)
  /\ (forall (db : Db.t) (storage : option string) (reply : InsertReply)
             (companyId : string) (collaboratorData : list (string * value)),
        ~ In (new_id reply) (map fst (Db.collaborators db)) ->
        deleteCollaborator (addCollaborator db storage reply companyId collaboratorData)
          None (new_id reply) = db)
  /\ (forall (c : Client.t) (db : Db.t) (storage : option string)
             (reply : InsertReply) (companyData : list (string * value)),
        ~ In (new_id reply) (map fst (Db.companies db)) ->
        deleteCompany (saveCompany c db storage reply companyData None)
          None (new_id reply) = db).
Proof.
  split; [|split].
  - intros db db' storage reply organizerData res Hcall Hok.
    destruct (saveOrganizer_created db db' storage reply organizerData res Hcall Hok)
      as [photo [Hfresh ->]].
    unfold deleteOrganizer, delete_bag. cbn [Db.organizers Db.with_organizers fst snd].
    rewrite (delete_appended fst (Db.organizers db) (new_id reply, _)) by exact Hfresh.
    split; [now destruct db | reflexivity].
  - intros db storage reply companyId collaboratorData Hfresh.
    unfold addCollaborator, insert_bag, insert_row.
    destruct (fault reply).
    + unfold deleteCollaborator, delete_bag.
      rewrite (delete_absent fst _ _ Hfresh). now destruct db.
    + match goal with
      | |- context [existsb ?f ?l] => destruct (existsb f l) eqn:Hclash
      end.
      * unfold deleteCollaborator, delete_bag.
        rewrite (delete_absent fst _ _ Hfresh). now destruct db.
      * unfold deleteCollaborator, delete_bag.
        cbn [Db.collaborators Db.with_collaborators].
        rewrite (delete_appended fst (Db.collaborators db) (new_id reply, _))
          by exact Hfresh.
        now destruct db.
  - intros c db storage reply companyData Hfresh.
    unfold saveCompany. destruct (selectedEvent c) as [ev|].
    + cbn [truthy_str]. unfold insert_bag, insert_row.
      destruct (fault reply).
      * unfold deleteCompany, delete_bag.
        rewrite (delete_absent fst _ _ Hfresh). now destruct db.
      * match goal with
        | |- context [existsb ?f ?l] => destruct (existsb f l) eqn:Hclash
        end.
        -- unfold deleteCompany, delete_bag.
           rewrite (delete_absent fst _ _ Hfresh). now destruct db.
        -- unfold deleteCompany, delete_bag.
           cbn [Db.companies Db.with_companies].
           rewrite (delete_appended fst (Db.companies db) (new_id reply, _))
             by exact Hfresh.
           now destruct db.
    + unfold deleteCompany, delete_bag.
      rewrite (delete_absent fst _ _ Hfresh). now destruct db.
Qed.

Lemma created_then_deleted_witness :
  fst (deleteOrganizer
         (fst (saveOrganizer (Sample.store 1 []) None (Sample.accepted "o2")
                 SampleOrganizers.edit None))
         None (new_id (Sample.accepted "o2")))
  = Sample.store 1 []
  /\ success (snd (deleteOrganizer
                     (fst (saveOrganizer (Sample.store 1 []) None
                             (Sample.accepted "o2") SampleOrganizers.edit None))
                     None (new_id (Sample.accepted "o2")))) = true.
Proof.
  exact (proj1 created_then_deleted (Sample.store 1 []) _ None (Sample.accepted "o2")
           SampleOrganizers.edit _ (surjective_pairing _) eq_refl).
Defined.


(** ** The collaborator's check-in *)

Lemma bag_eq_In (column text : string) (table : bag_table)
  (row : string * list (string * value)) :
  In row (bag_eq column text table)
  <-> In row table /\ obj_get column (bag_row row) = Some (VStr text).
Proof.
  unfold bag_eq. rewrite filter_In.
  destruct (obj_get column (bag_row row)) as [[| | |s| | | |]|];
    try (split; [intros [_ H]; discriminate | intros [_ H]; discriminate]).
  rewrite String.eqb_eq. split; intros [H1 H2]; (split; [exact H1|congruence]).
Qed.

(** X25.  For codes within ASCII, [validateCollaborator] does not depend
    on the case of the two codes it is given.  For any codes, a refusal carries one of two messages, which tell
    an unknown company code from a personal code unknown in that company.
    An acceptance hands over a collaborator of the store whose company is
    the company with the upper-cased company code and whose stored code is
    the upper-cased personal code. *)
Theorem validateCollaborator_answer :
  forall (db : Db.t) (companyCode personalCode : string),
    (within_ascii companyCode = true -> within_ascii personalCode = true ->
     validateCollaborator db (toLowerCase companyCode) (toLowerCase personalCode)
     = validateCollaborator db companyCode personalCode
     /\ validateCollaborator db (toUpperCase companyCode) (toUpperCase personalCode)
        = validateCollaborator db companyCode personalCode)
    /\ (forall res,
          validateCollaborator db companyCode personalCode = Some (None, res) ->
          res = failure invalid_company_message
          \/ res = failure invalid_personal_message)
    /\ (forall v res,
          validateCollaborator db companyCode personalCode = Some (Some v, res) ->
          success res = true
          /\ exists company collaborator,
               In company (Db.companies db)
               /\ In collaborator (Db.collaborators db)
               /\ obj_get "code" (bag_row company)
                  = Some (VStr (toUpperCase companyCode))
               /\ obj_get "company_id" (bag_row collaborator)
                  = Some (VStr (fst company))
               /\ obj_get "code" (bag_row collaborator)
                  = Some (VStr (toUpperCase personalCode))
               /\ v = toCamel (VObj (bag_row collaborator))).
Proof.
  intros db companyCode personalCode.
  split; [|split].
  - intros Hc Hp.
    destruct (toUpperCase_fixed companyCode Hc) as [Hcu Hcl].
    destruct (toUpperCase_fixed personalCode Hp) as [Hpu Hpl].
    unfold validateCollaborator. now rewrite Hcl, Hpl, Hcu, Hpu.
  - intros res. unfold validateCollaborator.
    destruct (single (bag_eq "code" (toUpperCase companyCode) (Db.companies db)))
      as [company|]; [|intros [= <-]; now left].
    destruct (single (bag_eq "code" (toUpperCase personalCode) _))
      as [collaborator|]; [|intros [= <-]; now right].
    destruct (template_text _); discriminate.
  - intros v res. unfold validateCollaborator.
    destruct (single (bag_eq "code" (toUpperCase companyCode) (Db.companies db)))
      as [company|] eqn:Hcompany; [|discriminate].
    destruct (single (bag_eq "code" (toUpperCase personalCode) _))
      as [collaborator|] eqn:Hcollab; [|discriminate].
    destruct (template_text _) as [who|]; [|discriminate].
    intros [= <- <-]. split; [reflexivity|].
    exists company, collaborator.
    apply single_In in Hcompany, Hcollab.
    assert (Hc : In company (bag_eq "code" (toUpperCase companyCode) (Db.companies db)))
      by (rewrite Hcompany; now left).
    assert (Hk : In collaborator
                   (bag_eq "code" (toUpperCase personalCode)
                      (bag_eq "company_id" (fst company) (Db.collaborators db))))
      by (rewrite Hcollab; now left).
    apply bag_eq_In in Hc. apply bag_eq_In in Hk. destruct Hk as [Hk Hcode].
    apply bag_eq_In in Hk. tauto.
Qed.

Lemma snake_image_plain (k t : string) :
  string_forallb (fun c => negb (Char.is_upper c) && negb (Ascii.eqb c Char.underscore)) t
  = true ->
  snake_image k = t -> k = t.
Proof.
  intros Hplain. unfold snake_image. destruct (is_sentinel k); [easy|].
  intros H. now apply camelToSnake_plain.
Qed.

(** The row [addCollaborator] stores keeps the plain columns of the
    payload. *)
Lemma addCollaborator_row (db : Db.t) (storage : option string) (reply : InsertReply)
  (companyId : string) (collaboratorData : list (string * value)) :
  NoDup (keys collaboratorData) ->
  exists payload,
    (forall k v,
        string_forallb (fun c => negb (Char.is_upper c)
                                 && negb (Ascii.eqb c Char.underscore)) k = true ->
        is_sentinel k = false -> k <> "id" ->
        obj_get k collaboratorData = Some (VStr v) ->
        obj_get k (bag_row (new_id reply, payload)) = Some (VStr v))
    /\ obj_get "company_id" (bag_row (new_id reply, payload)) = Some (VStr companyId)
    /\ addCollaborator db storage reply companyId collaboratorData
       = match insert_bag reply payload (Db.collaborators db) with
         | inl _ => db
         | inr table => Db.with_collaborators table db
         end.
Proof.
  intros Hnd. unfold addCollaborator.
  set (data1 := if truthy (obj_get "photoUrl" collaboratorData)
                   && is_file (obj_get "photoUrl" collaboratorData)
                then match uploadImage storage (obj_get "photoUrl" collaboratorData) with
                     | Some u => obj_set "photoUrl" (VStr u) collaboratorData
                     | None => obj_set "photoUrl" VNull collaboratorData
                     end
                else collaboratorData).
  assert (H1 : NoDup (keys data1)
               /\ forall k, String.eqb "photoUrl" k = false ->
                            obj_get k data1 = obj_get k collaboratorData).
  { subst data1. destruct (truthy _ && is_file _); [|now split].
    destruct (uploadImage _ _); (split; [now apply obj_set_NoDup|]);
      intros k Hk; rewrite obj_get_set; now rewrite Hk. }
  destruct H1 as [Hnd1 Hget1]. clearbody data1.
  set (data2 := if negb (truthy (obj_get "photoUrl" data1))
                then obj_set "photoUrl" (VStr DEFAULT_IMAGE_URL) data1
                else data1).
  assert (H2 : NoDup (keys data2)
               /\ forall k, String.eqb "photoUrl" k = false ->
                            obj_get k data2 = obj_get k collaboratorData).
  { subst data2. destruct (negb _); [|now split].
    split; [now apply obj_set_NoDup|].
    intros k Hk. rewrite obj_get_set, Hk. now apply Hget1. }
  destruct H2 as [Hnd2 Hget2]. clearbody data2.
  exists (obj_set "company_id" (VStr companyId) (obj_of (toSnake (VObj data2)))).
  split; [|split; [|reflexivity]].
  - intros k v Hplain Hsent Hid Hk.
    assert (Himg : snake_image k = k).
    { unfold snake_image. rewrite Hsent. apply camelToSnake_fixed.
      clear -Hplain. induction k as [|c k IH]; [reflexivity|].
      simpl in *. apply andb_true_iff in Hplain. destruct Hplain as [Hc Hk].
      apply andb_true_iff in Hc. destruct Hc as [Hc _].
      now rewrite Hc, IH. }
    assert (Hnotphoto : String.eqb "photoUrl" k = false).
    { destruct (String.eqb "photoUrl" k) eqn:E; [|reflexivity].
      apply String.eqb_eq in E. subst k. discriminate Hplain. }
    assert (Hnotid : String.eqb "id" k = false /\ String.eqb "company_id" k = false).
    { split.
      - apply String.eqb_neq. congruence.
      - destruct (String.eqb "company_id" k) eqn:E; [|reflexivity].
        apply String.eqb_eq in E. subst k. discriminate Hplain. }
    unfold bag_row. cbn [fst snd]. rewrite !obj_get_set.
    destruct Hnotid as [-> ->].
    rewrite <- Himg at 1.
    replace (VStr v) with (toSnake_written (k, VStr v))
      by (unfold toSnake_written; cbn [fst snd]; now rewrite Hsent).
    apply toSnake_get; [exact Hnd2 | now rewrite Hget2 |].
    intros k' _ Hsame. rewrite Himg in Hsame. now apply snake_image_plain.
  - unfold bag_row. cbn [fst snd]. rewrite !obj_get_set. reflexivity.
Qed.

Lemma bag_eq_app (column text : string) (a b : bag_table) :
  bag_eq column text (a ++ b)%list
  = (bag_eq column text a ++ bag_eq column text b)%list.
Proof. unfold bag_eq. apply filter_app. Qed.

(** X26.  A collaborator added with a code that has a lower-case letter
    changes the outcome of no check-in with a personal code within ASCII,
    so that collaborator cannot check in with any such code: the code is
    stored as given and looked up upper-cased.  Added to a company found
    under its code, the collaborator checks in with every personal code
    whose upper-casing is the code stored, and is greeted by name; within
    ASCII, a code without lower-case letters is its own upper-casing. *)
Theorem addCollaborator_then_validateCollaborator :
  forall (db : Db.t) (storage : option string) (reply : InsertReply)
         (companyId : string) (collaboratorData : list (string * value))
         (C N : string),
    NoDup (keys collaboratorData) ->
    obj_get "code" collaboratorData = Some (VStr C) ->
    obj_get "name" collaboratorData = Some (VStr N) ->
    (no_lower C = false ->
     forall companyCode personalCode,
       within_ascii personalCode = true ->
       validateCollaborator
         (addCollaborator db storage reply companyId collaboratorData)
         companyCode personalCode
       = validateCollaborator db companyCode personalCode)
    /\ (fault reply = None ->
        ~ In (new_id reply) (map fst (Db.collaborators db)) ->
        forall company companyCode personalCode,
          single (bag_eq "code" (toUpperCase companyCode) (Db.companies db))
          = Some company ->
          fst company = companyId ->
          toUpperCase personalCode = C ->
          bag_eq "code" C (bag_eq "company_id" companyId (Db.collaborators db)) = [] ->
          exists v,
            validateCollaborator
              (addCollaborator db storage reply companyId collaboratorData)
              companyCode personalCode
            = Some (Some v,
                    succeeded ("Check-in realizado com sucesso, " ++ N ++ "!")))
    /\ (within_ascii C = true -> no_lower C = true -> toUpperCase C = C).
Proof.
  intros db storage reply companyId collaboratorData C N Hnd Hcode Hname.
  destruct (addCollaborator_row db storage reply companyId collaboratorData Hnd)
    as [payload [Hcols [Hcompany Hadd]]].
  assert (Hrow_code : obj_get "code" (bag_row (new_id reply, payload)) = Some (VStr C))
    by (apply Hcols; [reflexivity | reflexivity | discriminate | exact Hcode]).
  assert (Hrow_name : obj_get "name" (bag_row (new_id reply, payload)) = Some (VStr N))
    by (apply Hcols; [reflexivity | reflexivity | discriminate | exact Hname]).
  split; [|split].
  - intros Hlower companyCode personalCode Hpersonal. rewrite Hadd.
    destruct (insert_bag reply payload (Db.collaborators db)) as [e|table] eqn:Hins;
      [reflexivity|].
    apply insert_bag_inr in Hins. destruct Hins as [_ ->].
    unfold validateCollaborator. cbn [Db.companies Db.collaborators Db.with_collaborators].
    destruct (single (bag_eq "code" (toUpperCase companyCode) (Db.companies db)))
      as [company|]; [|reflexivity].
    rewrite !bag_eq_app.
    assert (Hnew : bag_eq "code" (toUpperCase personalCode)
                     (bag_eq "company_id" (fst company) [(new_id reply, payload)])
                   = []).
    { unfold bag_eq at 2. cbn [filter].
      destruct (match obj_get "company_id" (bag_row (new_id reply, payload)) with
                | Some (VStr s) => String.eqb s (fst company)
                | _ => false
                end); [|reflexivity].
      unfold bag_eq. cbn [filter]. rewrite Hrow_code.
      destruct (String.eqb C (toUpperCase personalCode)) eqn:E; [|reflexivity].
      apply String.eqb_eq in E. exfalso.
      pose proof (toUpperCase_no_lower personalCode Hpersonal) as Hnl.
      rewrite <- E in Hnl. congruence. }
    rewrite Hnew, app_nil_r. reflexivity.
  - intros Hok Hfresh company companyCode personalCode Hone Hid Hpersonal Hfree.
    rewrite Hadd. unfold insert_bag. rewrite Hok.
    rewrite (insert_row_fresh fst (new_id reply, payload) (Db.collaborators db))
      by exact Hfresh.
    unfold validateCollaborator. cbn [Db.companies Db.collaborators Db.with_collaborators].
    rewrite Hone, Hid, Hpersonal, !bag_eq_app, Hfree.
    assert (Hnew : bag_eq "code" C
                     (bag_eq "company_id" companyId [(new_id reply, payload)])
                   = [(new_id reply, payload)]).
    { unfold bag_eq at 2. cbn [filter]. rewrite Hcompany, String.eqb_refl.
      unfold bag_eq. cbn [filter]. now rewrite Hrow_code, String.eqb_refl. }
    rewrite Hnew. cbn [app single]. rewrite Hrow_name. cbn [template_text].
    eexists. reflexivity.
  - intros Hc Hnl. now apply toUpperCase_id_iff.
Qed.

End Properties.

(** * Concrete instances

    The instances of the properties above in which a case conversion is
    computed.  They are made of ASCII text, so that they hold for every case
    mapping; they are run with [Sample.case_mapping]. *)

#[local] Existing Instance Sample.case_mapping.



(** C6 as stated fails: the composed code [ABCTV] is the code of a raffle in
    the store, no event is selected and the store refuses the event the
    call creates first; the call fails with the message of the event step,
    not with the duplicate-code message. *)
Lemma duplicate_code_after_refused_event :
  loggedInOrganizer (Client.session Sample.client_without_event)
  = Some Sample.organizer
  /\ unique_codes (Sample.store 1 [])
  /\ In (fullRaffleCode Sample.organizer (Sample.form "tv"))
        (map Raffle.code (Db.raffles (Sample.store 1 [])))
  /\ createEventWithRaffle Sample.client_without_event (Sample.store 1 [])
       "2025-09-12T09:00:00.000Z" (Sample.refused "e2") (Sample.accepted "r2")
       (Sample.form "tv")
     = (Sample.store 1 [],
        failure "Erro ao criar evento: new row violates row-level security policy")
  /\ snd (createEventWithRaffle Sample.client_without_event (Sample.store 1 [])
            "2025-09-12T09:00:00.000Z" (Sample.refused "e2") (Sample.accepted "r2")
            (Sample.form "tv"))
     <> failure duplicate_code_message.
Proof.
  split; [reflexivity|].
  split; [unfold unique_codes; simpl; repeat constructor; intros []|].
  split; [simpl; now left|].
  split; [vm_compute; reflexivity|].
  vm_compute. discriminate.
Qed.

Lemma createEventWithRaffle_code_witness :
  Db.raffles
    (fst (createEventWithRaffle (Sample.client 1) (Sample.store 1 [])
            "2025-09-12T09:00:00.000Z" (Sample.accepted "e2")
            (Sample.accepted "r2") (Sample.form "tv")))
  = Db.raffles (Sample.store 1 [])
  /\ snd (createEventWithRaffle (Sample.client 1) (Sample.store 1 [])
            "2025-09-12T09:00:00.000Z" (Sample.accepted "e2") (Sample.accepted "r2")
            (Sample.form "tv"))
     = failure duplicate_code_message.
Proof.
  destruct (proj1 (proj2 (proj2 createEventWithRaffle_code))
              (Sample.client 1) (Sample.store 1 []) "2025-09-12T09:00:00.000Z"
              (Sample.accepted "e2") (Sample.accepted "r2") (Sample.form "tv")
              Sample.organizer) as [Hsame [_ [Hmessage _]]].
  - reflexivity.
  - unfold unique_codes. simpl. repeat constructor. intros [].
  - simpl. left. reflexivity.
  - split; [exact Hsame|]. apply Hmessage.
    left. exists Sample.event. split; [reflexivity | discriminate].
Defined.

Lemma repeated_draws_exhaust_eligible_witness :
  getEligibleParticipantCount (Sample.client 1)
    (Db.participants
       (run (Sample.store 1 [Sample.entry "p1" "ana@example.com" false;
                             Sample.entry "p2" "bia@example.com" false])
            (draws (Sample.client 1) "2025-09-12T12:00:00.000Z" [0%Q; (1 # 2)%Q])))
  = getEligibleParticipantCount (Sample.client 1)
      (Db.participants
         (Sample.store 1 [Sample.entry "p1" "ana@example.com" false;
                          Sample.entry "p2" "bia@example.com" false]))
    - length [0%Q; (1 # 2)%Q]
  /\ winner_count
       (run (Sample.store 1 [Sample.entry "p1" "ana@example.com" false;
                             Sample.entry "p2" "bia@example.com" false])
            (draws (Sample.client 1) "2025-09-12T12:00:00.000Z" [0%Q; (1 # 2)%Q]))
       (Raffle.id (Sample.raffle 1))
     = winner_count
         (Sample.store 1 [Sample.entry "p1" "ana@example.com" false;
                          Sample.entry "p2" "bia@example.com" false])
         (Raffle.id (Sample.raffle 1))
       + Nat.min
           (getEligibleParticipantCount (Sample.client 1)
              (Db.participants
                 (Sample.store 1 [Sample.entry "p1" "ana@example.com" false;
                                  Sample.entry "p2" "bia@example.com" false])))
           (length [0%Q; (1 # 2)%Q]).
Proof.
  apply (repeated_draws_exhaust_eligible (Sample.client 1) "2025-09-12T12:00:00.000Z"
           (Sample.raffle 1) [0%Q; (1 # 2)%Q]).
  - repeat (apply Forall_cons; [sample_random|]). apply Forall_nil.
  - split; simpl; repeat constructor; simpl; intuition; discriminate.
  - reflexivity.
Defined.

Lemma findRaffleByCode_answer_witness :
  (findRaffleByCode (Db.with_events [Sample.event] (Sample.store 1 []))
     (toLowerCase "abcTv")
   = findRaffleByCode (Db.with_events [Sample.event] (Sample.store 1 [])) "abcTv"
   /\ findRaffleByCode (Db.with_events [Sample.event] (Sample.store 1 []))
        (toUpperCase "abcTv")
      = findRaffleByCode (Db.with_events [Sample.event] (Sample.store 1 [])) "abcTv")
  /\ exists raffle event,
       In raffle (Db.raffles (Db.with_events [Sample.event] (Sample.store 1 [])))
       /\ In event (Db.events (Db.with_events [Sample.event] (Sample.store 1 [])))
       /\ Raffle.code raffle = toUpperCase "abcTv"
       /\ (within_ascii "abcTv" = true -> no_lower (Raffle.code raffle) = true)
       /\ Event.id event = Raffle.event_id raffle
       /\ found_raffle (Sample.raffle 1) Sample.event = found_raffle raffle event.
Proof.
  split.
  - exact (proj1 (findRaffleByCode_answer
                    (Db.with_events [Sample.event] (Sample.store 1 [])) "abcTv")
             eq_refl).
  - exact (proj2 (findRaffleByCode_answer
                    (Db.with_events [Sample.event] (Sample.store 1 [])) "abcTv")
             (found_raffle (Sample.raffle 1) Sample.event) eq_refl).
Defined.

Lemma createEventWithRaffle_then_findRaffleByCode_witness :
  exists v,
    findRaffleByCode
      (fst (createEventWithRaffle (Sample.client 1)
              (Db.with_events [Sample.event] (Sample.store 1 []))
              "2025-09-12T09:00:00.000Z" (Sample.accepted "e2")
              (Sample.accepted "r2") (Sample.form "promo4k")))
      (fullRaffleCode Sample.organizer (Sample.form "promo4k")) = Some v
    /\ obj_get "id" (obj_of v) = Some (VStr (new_id (Sample.accepted "r2")))
    /\ obj_get "name" (obj_of v) = Some (VStr (raffleName (Sample.form "promo4k")))
    /\ obj_get "code" (obj_of v)
       = Some (VStr (fullRaffleCode Sample.organizer (Sample.form "promo4k"))).
Proof.
  assert (Hcodes : unique_codes (Db.with_events [Sample.event] (Sample.store 1 []))).
  { unfold unique_codes. simpl. repeat constructor. intros []. }
  assert (Hmirror :
            forall ev, selectedEvent (Sample.client 1) = Some ev ->
                       In (Event.id ev)
                          (map Event.id
                             (Db.events (Db.with_events [Sample.event]
                                           (Sample.store 1 []))))).
  { intros ev Hev. vm_compute in Hev. injection Hev as <-. simpl. now left. }
  apply (proj1 (createEventWithRaffle_then_findRaffleByCode
                  (Sample.client 1)
                  (Db.with_events [Sample.event] (Sample.store 1 []))
                  (fst (createEventWithRaffle (Sample.client 1)
                          (Db.with_events [Sample.event] (Sample.store 1 []))
                          "2025-09-12T09:00:00.000Z" (Sample.accepted "e2")
                          (Sample.accepted "r2") (Sample.form "promo4k")))
                  "2025-09-12T09:00:00.000Z" (Sample.accepted "e2")
                  (Sample.accepted "r2") (Sample.form "promo4k")
                  Sample.organizer
                  (snd (createEventWithRaffle (Sample.client 1)
                          (Db.with_events [Sample.event] (Sample.store 1 []))
                          "2025-09-12T09:00:00.000Z" (Sample.accepted "e2")
                          (Sample.accepted "r2") (Sample.form "promo4k")))
                  eq_refl Hcodes Hmirror (surjective_pairing _) eq_refl)).
  reflexivity.
Defined.

Lemma saveOrganizer_then_login_witness :
  (toLowerCase "ana@triad3.io" = "ana@triad3.io" ->
   (exists v,
       login
         (fst (saveOrganizer (Sample.store 1 []) None (Sample.accepted "o2")
                 [("name", VStr "Triad3"); ("email", VStr "ana@triad3.io");
                  ("password", VStr "s3gredo")] None))
         "Ana@Triad3.io" "s3gredo"
       = (Some v, succeeded "Login bem-sucedido!"))
   /\ (forall P', P' <> "s3gredo" ->
                  login
                    (fst (saveOrganizer (Sample.store 1 []) None (Sample.accepted "o2")
                            [("name", VStr "Triad3"); ("email", VStr "ana@triad3.io");
                             ("password", VStr "s3gredo")] None))
                    "Ana@Triad3.io" P'
                  = (None, failure invalid_login_message)))
  /\ (toLowerCase "ana@triad3.io" <> "ana@triad3.io" ->
      forall P',
        login
          (fst (saveOrganizer (Sample.store 1 []) None (Sample.accepted "o2")
                  [("name", VStr "Triad3"); ("email", VStr "ana@triad3.io");
                   ("password", VStr "s3gredo")] None))
          "Ana@Triad3.io" P'
        = (None, failure invalid_login_message))
  /\ (within_ascii "ana@triad3.io" = true ->
      (toLowerCase "ana@triad3.io" = "ana@triad3.io"
       <-> no_upper "ana@triad3.io" = true)).
Proof.
  assert (Hnd : NoDup (keys [("name", VStr "Triad3"); ("email", VStr "ana@triad3.io");
                             ("password", VStr "s3gredo")])).
  { apply nodupb_NoDup. reflexivity. }
  assert (Hnohash : ~ In "passwordHash"
                      (keys [("name", VStr "Triad3"); ("email", VStr "ana@triad3.io");
                             ("password", VStr "s3gredo")])).
  { simpl. intros [H | [H | [H | []]]]; discriminate. }
  assert (Hfilled : "s3gredo" <> "") by discriminate.
  exact (saveOrganizer_then_login (Sample.store 1 [])
           (fst (saveOrganizer (Sample.store 1 []) None (Sample.accepted "o2")
                   [("name", VStr "Triad3"); ("email", VStr "ana@triad3.io");
                    ("password", VStr "s3gredo")] None))
           None (Sample.accepted "o2")
           [("name", VStr "Triad3"); ("email", VStr "ana@triad3.io");
            ("password", VStr "s3gredo")]
           (snd (saveOrganizer (Sample.store 1 []) None (Sample.accepted "o2")
                   [("name", VStr "Triad3"); ("email", VStr "ana@triad3.io");
                    ("password", VStr "s3gredo")] None))
           "ana@triad3.io" "s3gredo"
           Hnd Hnohash eq_refl eq_refl Hfilled eq_refl (surjective_pairing _) eq_refl
           "Ana@Triad3.io" eq_refl).
Defined.

Lemma login_hands_over_credential_witness :
  login SampleOrganizers.store "Ana@Triad3.io" "s3gredo"
  = (None, failure invalid_login_message)
  \/ exists row v,
       In row (Db.organizers SampleOrganizers.store)
       /\ login SampleOrganizers.store "Ana@Triad3.io" "s3gredo"
          = (Some v, succeeded "Login bem-sucedido!")
       /\ obj_get "id" (obj_of v) = Some (VStr (fst row))
       /\ obj_get "email" (obj_of v) = Some (VStr (toLowerCase "Ana@Triad3.io"))
       /\ obj_get "passwordHash" (obj_of v) = Some (VStr "s3gredo").
Proof.
  apply (login_hands_over_credential SampleOrganizers.store "Ana@Triad3.io" "s3gredo").
  repeat constructor; simpl; intuition discriminate.
Defined.

Lemma loginSuperAdmin_keeps_organizer_witness :
  (success (snd (loginSuperAdmin SampleAdmins.admins "Root@Triad3.io" "adm1n"
                   SampleAdmins.session)) = true ->
   value_loggedInOrganizer
     (fst (loginSuperAdmin SampleAdmins.admins "Root@Triad3.io" "adm1n"
             SampleAdmins.session)) = None
   /\ fetch_effect
        (fst (loginSuperAdmin SampleAdmins.admins "Root@Triad3.io" "adm1n"
                SampleAdmins.session)) = FetchAdmin
   /\ loggedInOrganizer
        (fst (loginSuperAdmin SampleAdmins.admins "Root@Triad3.io" "adm1n"
                SampleAdmins.session))
      = loggedInOrganizer SampleAdmins.session
   /\ value_loggedInOrganizer
        (logoutSuperAdmin
           (fst (loginSuperAdmin SampleAdmins.admins "Root@Triad3.io" "adm1n"
                   SampleAdmins.session)))
      = loggedInOrganizer SampleAdmins.session)
  /\ success (snd (loginSuperAdmin SampleAdmins.admins "Root@Triad3.io" "adm1n"
                     SampleAdmins.session)) = true.
Proof.
  split; [|reflexivity].
  exact (proj2 (loginSuperAdmin_keeps_organizer SampleAdmins.admins "Root@Triad3.io"
                  "adm1n" SampleAdmins.session _ _ (surjective_pairing _) eq_refl)).
Defined.

Lemma validateCollaborator_answer_witness :
  (validateCollaborator SampleCheckIn.staffed (toLowerCase "acme") (toLowerCase "bia7")
   = validateCollaborator SampleCheckIn.staffed "acme" "bia7"
   /\ validateCollaborator SampleCheckIn.staffed (toUpperCase "acme")
        (toUpperCase "bia7")
      = validateCollaborator SampleCheckIn.staffed "acme" "bia7")
  /\ validateCollaborator SampleCheckIn.staffed "acme" "bia7"
  = Some (Some (toCamel (VObj (bag_row
                  ("k1", [("name", VStr "Bia"); ("code", VStr "BIA7");
                          ("company_id", VStr "c1")])))),
          succeeded "Check-in realizado com sucesso, Bia!")
  /\ success (succeeded "Check-in realizado com sucesso, Bia!") = true
  /\ exists company collaborator,
       In company (Db.companies SampleCheckIn.staffed)
       /\ In collaborator (Db.collaborators SampleCheckIn.staffed)
       /\ obj_get "code" (bag_row company) = Some (VStr (toUpperCase "acme"))
       /\ obj_get "company_id" (bag_row collaborator) = Some (VStr (fst company))
       /\ obj_get "code" (bag_row collaborator) = Some (VStr (toUpperCase "bia7"))
       /\ toCamel (VObj (bag_row
                           ("k1", [("name", VStr "Bia"); ("code", VStr "BIA7");
                                   ("company_id", VStr "c1")])))
          = toCamel (VObj (bag_row collaborator)).
Proof.
  split.
  { exact (proj1 (validateCollaborator_answer SampleCheckIn.staffed "acme" "bia7")
             eq_refl eq_refl). }
  split; [reflexivity|].
  exact (proj2 (proj2 (validateCollaborator_answer SampleCheckIn.staffed
                         "acme" "bia7"))
           _ _ eq_refl).
Defined.

Lemma addCollaborator_then_validateCollaborator_witness :
  validateCollaborator
    (addCollaborator SampleCheckIn.store None (Sample.accepted "k1") "c1"
       SampleCheckIn.bia_lower)
    "acme" "bia7"
  = validateCollaborator SampleCheckIn.store "acme" "bia7"
  /\ exists v,
       validateCollaborator
         (addCollaborator SampleCheckIn.store None (Sample.accepted "k1") "c1"
            SampleCheckIn.bia)
         "acme" "bia7"
       = Some (Some v, succeeded ("Check-in realizado com sucesso, " ++ "Bia" ++ "!")).
Proof.
  assert (Hnd : NoDup (keys SampleCheckIn.bia)) by (apply nodupb_NoDup; reflexivity).
  assert (Hfresh : ~ In (new_id (Sample.accepted "k1"))
                     (map fst (Db.collaborators SampleCheckIn.store)))
    by (intros []).
  split.
  { assert (Hnd' : NoDup (keys SampleCheckIn.bia_lower))
      by (apply nodupb_NoDup; reflexivity).
    exact (proj1 (addCollaborator_then_validateCollaborator SampleCheckIn.store
                    None (Sample.accepted "k1") "c1" SampleCheckIn.bia_lower
                    "bia7" "Bia" Hnd' eq_refl eq_refl)
             eq_refl "acme" "bia7" eq_refl). }
  exact (proj1 (proj2 (addCollaborator_then_validateCollaborator SampleCheckIn.store
                         None (Sample.accepted "k1") "c1" SampleCheckIn.bia "BIA7" "Bia"
                         Hnd eq_refl eq_refl))
           eq_refl Hfresh
           ("c1", [("name", VStr "Acme"); ("code", VStr "ACME")]) "acme" "bia7"
           eq_refl eq_refl eq_refl eq_refl).
Defined.
